(** * AmoebaCudaKernels: the GK cavitation force kernel and its overlap tree

    A shallow embedding of the host side of
    [plugins/amoeba/platforms/cuda/src/AmoebaCudaKernels.{h,cpp}]:

    - [CudaOverlapTree::init_tree_size], [resize_tree_buffers] and
      [copy_tree_to_device];
    - [CudaCalcGKCavitationForceKernel::initialize], [execute],
      [executeInitKernels], [executeGVolSA] and [copyParametersToContext];
    - the constructors and the destructors of [CudaOverlapTree] and of the
      kernel, as allocations;
    - [initialize], the destructor and [sortGridIndex] of
      [CudaCalcAmoebaMultipoleForceKernel] and
      [CudaCalcHippoNonbondedForceKernel], as far as the FFT plans go.

    Conventions of the embedding.

    - A C++ [int] is a [Z].  Signed overflow is undefined behaviour in C++, so
      every arithmetic result that is stored in an [int] goes through [ck],
      which faults with [SignedOverflow] outside the 32-bit range.
    - [std::vector<int>] is a [list Z]; [operator[]] outside the bounds is
      undefined behaviour and faults with [OutOfBounds].
    - [double] and [float] are IEEE-754 binary64 and binary32 values, taken
      from the Standard Library's executable specification [SpecFloat]
      (round to nearest, ties to even).
    - Device arrays are kept in a finite map from the name given to
      [CudaArray::create] to the array; the GPU kernels themselves are
      external, a launch is recorded on the stream of the host context and
      what the host reads back from the device is an input of the step.
    - The CUDA driver is external: what it answers to [cuEventCreate] and
      [cuMemHostAlloc] is an input of [initialize], and so is what memory
      holds that the code does not initialize (the pinned page, the int
      members the constructor of the tree does not assign).  The
      constructor and [upload] of [CudaArray], [new] and the growth of a
      vector are taken not to fail. *)

From Stdlib Require Import ZArith Lia Bool DecimalString.
From Stdlib Require Import Floats.SpecFloat.
From stdpp Require Import base tactics list gmap strings.

Open Scope Z_scope.

(** ** Outcomes of host code *)

Inductive fault :=
  | OutOfBounds       (* vector indexed outside its bounds *)
  | DivisionByZero    (* integer division by zero *)
  | SignedOverflow    (* int arithmetic or double-to-int conversion out of range *)
  | LengthError       (* vector built with a negative size *)
  | NullPointer       (* a pointer member used before it was set *)
  | OpenMMException (msg : string).

Inductive outcome (A : Type) :=
  | Ok (a : A)
  | Fail (f : fault).
Arguments Ok {A} a.
Arguments Fail {A} f.

#[export] Instance outcome_ret : MRet outcome := @Ok.
#[export] Instance outcome_bind : MBind outcome := fun A B f m =>
  match m with
  | Ok a => f a
  | Fail e => Fail e
  end.

Definition throws {A} (r : outcome A) : Prop :=
  match r with
  | Fail (OpenMMException _) => True
  | _ => False
  end.

(** ** The C++ [int] *)

Definition INT_MIN : Z := -2147483648.
Definition INT_MAX : Z := 2147483647.

Definition int_ok (z : Z) : bool := (INT_MIN <=? z) && (z <=? INT_MAX).

Definition ck (z : Z) : outcome Z :=
  if int_ok z then Ok z else Fail SignedOverflow.

Definition iadd (a b : Z) : outcome Z := ck (a + b).
Definition isub (a b : Z) : outcome Z := ck (a - b).
Definition imul (a b : Z) : outcome Z := ck (a * b).
Definition idiv (a b : Z) : outcome Z :=
  if b =? 0 then Fail DivisionByZero else ck (a ÷ b).

(** ** [std::vector<int>] *)

Definition vnew (n : Z) : outcome (list Z) :=
  if n <? 0 then Fail LengthError else Ok (replicate (Z.to_nat n) 0).

Definition vget {A} (v : list A) (i : Z) : outcome A :=
  if i <? 0 then Fail OutOfBounds
  else match v !! Z.to_nat i with
       | Some x => Ok x
       | None => Fail OutOfBounds
       end.

Definition vset {A} (v : list A) (i : Z) (x : A) : outcome (list A) :=
  if (0 <=? i) && (i <? Z.of_nat (length v))
  then Ok (<[Z.to_nat i := x]> v)
  else Fail OutOfBounds.

(** [for (int i = lo; i < lo + n; i++) body] over the values the body
    updates. *)
Fixpoint for_loop {A} (i : Z) (n : nat) (body : Z → A → outcome A) (a : A)
  : outcome A :=
  match n with
  | O => Ok a
  | S n' => a' ← body i a; for_loop (i + 1) n' body a'
  end.

Definition for_range {A} (lo hi : Z) (body : Z → A → outcome A) (a : A)
  : outcome A :=
  for_loop lo (Z.to_nat (hi - lo)) body a.

(** ** IEEE-754 values *)

Module FP.

Definition double := spec_float.
Definition float := spec_float.

Definition dzero : double := S754_zero false.
Definition fzero : float := S754_zero false.

Definition dadd : double → double → double := SFadd 53 1024.
Definition dsub : double → double → double := SFsub 53 1024.
Definition dmul : double → double → double := SFmul 53 1024.
Definition ddiv : double → double → double := SFdiv 53 1024.
Definition dopp : double → double := SFopp.
Definition fopp : float → float := SFopp.

(** [a > b], false when either is a NaN. *)
Definition gt (a b : spec_float) : bool := SFltb b a.
Definition lt (a b : spec_float) : bool := SFltb a b.

(** [(float) x] for a double [x]. *)
Definition float_of_double (x : double) : float :=
  match x with
  | S754_finite s m e => binary_round 24 128 s m e
  | _ => x
  end.

(** The implicit promotion of a float to double (exact). *)
Definition double_of_float (x : float) : double :=
  match x with
  | S754_finite s m e => binary_round 53 1024 s m e
  | _ => x
  end.

(** [(double) n] and [(float) n] for an int [n]. *)
Definition double_of_int (n : Z) : double := binary_normalize 53 1024 n 0 false.
Definition float_of_int (n : Z) : float := binary_normalize 24 128 n 0 false.

(** [(int) x]: truncation toward zero, undefined when the truncated value
    has no [int]. *)
Definition int_of_double (x : double) : outcome Z :=
  match x with
  | S754_zero _ => Ok 0
  | S754_finite s m e =>
      let a := match e with
               | Zneg p => Z.shiftr (Zpos m) (Zpos p)
               | _ => Z.shiftl (Zpos m) e
               end in
      ck (if s then - a else a)
  | _ => Fail SignedOverflow
  end.

(** [pow(x, 2)]: the correctly rounded square. *)
Definition pow2 (x : double) : double := dmul x x.

(** The literals [1.e-6] (double) and [1.e-6f] (float). *)
Definition lit_1em6 : double := S754_finite false 4722366482869645 (-72).
Definition lit_1em6f : float := S754_finite false 8796093 (-43).
(** The literal [2] stored in a double. *)
Definition two : double := S754_finite false 4503599627370496 (-51).
(** The literal [-1] stored in a float. *)
Definition fminus1 : float := S754_finite true 8388608 (-23).

End FP.

(** ** Device arrays *)

Inductive dev_data :=
  | Uninit
  | Ints (l : list Z)
  | Floats (l : list FP.float).

(** What [CudaArray::create<T>(cu, size, name)] returns. *)
Record CudaArray := {
  arr_size : Z;
  arr_data : dev_data;
}.

Definition create (size : Z) : CudaArray :=
  {| arr_size := size; arr_data := Uninit |}.

Definition upload (d : dev_data) (a : CudaArray) : CudaArray :=
  {| arr_size := arr_size a; arr_data := d |}.

(** ** [CudaOverlapTree] (AmoebaCudaKernels.h) *)

Record CudaOverlapTree := {
  (* host variables and buffers *)
  num_atoms : Z;
  padded_num_atoms : Z;
  total_atoms_in_tree : Z;
  total_tree_size : Z;
  num_sections : Z;
  tree_size : list Z;
  padded_tree_size : list Z;
  atom_tree_pointer : list Z;   (* pointers to 1-body atom slots *)
  tree_pointer : list Z;        (* pointers to tree sections *)
  natoms_in_tree : list Z;      (* no. atoms in each tree section *)
  first_atom : list Z;          (* the first atom in each tree section *)
  (* overlap tree buffers on the device, by name; absent = NULL *)
  buffers : gmap string CudaArray;
  temp_buffer_size : Z;
  tree_size_boost : FP.double;
  has_saved_noverlaps : bool;
  saved_noverlaps : list Z;
  hasExceededTempBuffer : bool;
}.

(** The constructor [CudaOverlapTree(void)]: every device pointer NULL,
    [temp_buffer_size = -1], [tree_size_boost = 2], the two flags down; the
    vectors are empty.  It assigns nothing to [num_atoms],
    [padded_num_atoms], [total_atoms_in_tree], [total_tree_size] and
    [num_sections]: these members keep what the memory of the object held,
    which the five arguments give. *)
Definition new_CudaOverlapTree
    (num_atoms padded_num_atoms total_atoms_in_tree total_tree_size
     num_sections : Z) : CudaOverlapTree := {|
  num_atoms := num_atoms;
  padded_num_atoms := padded_num_atoms;
  total_atoms_in_tree := total_atoms_in_tree;
  total_tree_size := total_tree_size;
  num_sections := num_sections;
  tree_size := [];
  padded_tree_size := [];
  atom_tree_pointer := [];
  tree_pointer := [];
  natoms_in_tree := [];
  first_atom := [];
  buffers := ∅;
  temp_buffer_size := -1;
  tree_size_boost := FP.two;   (* debug 2 is default *)
  has_saved_noverlaps := false;
  saved_noverlaps := [];
  hasExceededTempBuffer := false;
|}.

(** *** [init_tree_size], loop by loop *)

(** [noverlaps[i] = (saved_noverlaps[i] > noverlaps_current[i]) ?
      saved_noverlaps[i] : noverlaps_current[i] + 1] *)
Definition budget_loop (n : Z) (saved current : list Z) : outcome (list Z) :=
  v0 ← vnew n;
  for_range 0 n (fun i v =>
    s ← vget saved i;
    c ← vget current i;
    x ← (if c <? s then Ok s else iadd c 1);
    vset v i x) v0.

(** [for (i ...) saved_noverlaps[i] = noverlaps[i]] *)
Definition save_loop (n : Z) (noverlaps saved : list Z) : outcome (list Z) :=
  for_range 0 n (fun i sv => x ← vget noverlaps i; vset sv i x) saved.

(** prefix sum of number of overlaps per atom *)
Definition prefix_loop (n : Z) (noverlaps : list Z) : outcome (list Z) :=
  m ← iadd n 1;
  v0 ← vnew m;
  v1 ← vset v0 0 0;
  for_range 1 m (fun i v =>
    a ← vget noverlaps (i - 1);
    b ← vget v (i - 1);
    x ← iadd a b;
    vset v i x) v1.

Definition max_loop (n : Z) (noverlaps : list Z) : outcome Z :=
  for_range 0 n (fun i mx =>
    x ← vget noverlaps i;
    Ok (if mx <? x then x else mx)) 0.

Definition per_section_load (num_sections n_overlaps_total max_n_overlaps : Z)
  : outcome Z :=
  q ← (if 1 <? num_sections
       then d ← isub num_sections 1; idiv n_overlaps_total d
       else Ok n_overlaps_total);
  Ok (if q <? max_n_overlaps then max_n_overlaps else q).

(** assigns atoms to compute units: the state is
    [(compute_unit_of_atom, natoms_in_tree, total_atoms_in_tree)]. *)
Definition assign_loop (n num_sections n_overlaps_per_section : Z)
    (noverlaps_sum : list Z) : outcome (list Z * list Z * Z) :=
  cu0 ← vnew n;
  nat0 ← vnew num_sections;
  for_range 0 n (fun i '(cua, nat, tot) =>
    ps ← vget noverlaps_sum i;
    section ← idiv ps n_overlaps_per_section;
    cua' ← vset cua i section;
    k ← vget nat section;
    k' ← iadd k 1;
    nat' ← vset nat section k';
    tot' ← iadd tot 1;
    Ok (cua', nat', tot')) (cu0, nat0, 0).

(** computes sizes of tree sections *)
Definition size_loop (n num_sections : Z) (compute_unit_of_atom noverlaps : list Z)
  : outcome (list Z) :=
  ss0 ← vnew num_sections;
  for_range 0 n (fun i ss =>
    section ← vget compute_unit_of_atom i;
    x ← vget ss section;
    c ← vget noverlaps i;
    y ← iadd x c;
    vset ss section y) ss0.

(** [tsize *= tree_size_boost] with [int tsize] and [double tree_size_boost] *)
Definition boosted (tsize : Z) (boost : FP.double) : outcome Z :=
  FP.int_of_double (FP.dmul (FP.double_of_int tsize) boost).

(** [pad_modulo * ((tsize + pad_modulo - 1) / pad_modulo)] *)
Definition padded_size (tsize pad_modulo : Z) : outcome Z :=
  a ← iadd tsize pad_modulo;
  b ← isub a 1;
  q ← idiv b pad_modulo;
  imul pad_modulo q.

(** double sizes and pad for extra buffer *)
Definition pad_loop (num_sections pad_modulo : Z) (boost : FP.double)
    (section_size : list Z) : outcome (list Z) :=
  for_range 0 num_sections (fun section ss =>
    x ← vget ss section;
    tsize ← boosted (if x <? 1 then 1 else x) boost;
    npadsize ← padded_size tsize pad_modulo;
    vset ss section npadsize) section_size.

(** set tree pointers: the state is [(tree_pointer, offset)]. *)
Definition pointer_loop (num_sections : Z) (section_size : list Z)
  : outcome (list Z * Z) :=
  tp0 ← vnew num_sections;
  for_range 0 num_sections (fun section '(tp, offset) =>
    tp' ← vset tp section offset;
    x ← vget section_size section;
    offset' ← iadd offset x;
    Ok (tp', offset')) (tp0, 0).

(** The state of the last loop of [init_tree_size]. *)
Record atom_layout := {
  l_tree_size : list Z;
  l_padded_tree_size : list Z;
  l_first_atom : list Z;
  l_atom_tree_pointer : list Z;
  l_total_tree_size : Z;
  l_atom_offset : Z;
}.

(** The inner loop: the 1-body slots of the atoms of one section. *)
Definition slot_loop (section atom_offset total_atoms_in_tree : Z)
    (natoms_in_tree tree_pointer atp : list Z) : outcome (list Z) :=
  cnt ← vget natoms_in_tree section;
  for_range 0 cnt (fun i atp =>
    iat ← iadd atom_offset i;
    tp ← vget tree_pointer section;
    slot ← iadd tp i;
    if iat <? total_atoms_in_tree then vset atp iat slot else Ok atp) atp.

(** set atom pointer in tree *)
Definition layout_loop (num_sections padded_num_atoms total_atoms_in_tree : Z)
    (section_size natoms_in_tree tree_pointer : list Z) : outcome atom_layout :=
  ts0 ← vnew num_sections;
  pts0 ← vnew num_sections;
  atp0 ← vnew padded_num_atoms;
  fa0 ← vnew num_sections;
  for_range 0 num_sections (fun section a =>
    ts ← vset (l_tree_size a) section 0;
    x ← vget section_size section;
    pts ← vset (l_padded_tree_size a) section x;
    fa ← vset (l_first_atom a) section (l_atom_offset a);
    atp ← slot_loop section (l_atom_offset a) total_atoms_in_tree
            natoms_in_tree tree_pointer (l_atom_tree_pointer a);
    tts ← iadd (l_total_tree_size a) x;
    cnt ← vget natoms_in_tree section;
    ao ← iadd (l_atom_offset a) cnt;
    Ok {| l_tree_size := ts; l_padded_tree_size := pts; l_first_atom := fa;
          l_atom_tree_pointer := atp; l_total_tree_size := tts;
          l_atom_offset := ao |})
    {| l_tree_size := ts0; l_padded_tree_size := pts0; l_first_atom := fa0;
       l_atom_tree_pointer := atp0; l_total_tree_size := 0;
       l_atom_offset := 0 |}.

(** The values [init_tree_size] computes on the way; [sizing] keeps the
    locals of the function that the layout is built from. *)
Record sizing := {
  s_saved : list Z;                 (* saved_noverlaps after the update *)
  s_noverlaps : list Z;             (* the per-atom budget used *)
  s_noverlaps_sum : list Z;
  s_n_overlaps_per_section : Z;
  s_compute_unit_of_atom : list Z;
  s_natoms_in_tree : list Z;
  s_total_atoms_in_tree : Z;
  s_raw_section_size : list Z;      (* section_size before padding *)
  s_section_size : list Z;          (* section_size after padding *)
}.

Definition init_sizing (t : CudaOverlapTree)
    (num_atoms num_compute_units pad_modulo : Z) (noverlaps_current : list Z)
  : outcome sizing :=
  saved0 ← (if has_saved_noverlaps t then Ok (saved_noverlaps t)
            else vnew num_atoms);
  noverlaps ← budget_loop num_atoms saved0 noverlaps_current;
  saved ← save_loop num_atoms noverlaps saved0;
  let num_sections := num_compute_units in
  noverlaps_sum ← prefix_loop num_atoms noverlaps;
  n_overlaps_total ← vget noverlaps_sum num_atoms;
  max_n_overlaps ← max_loop num_atoms noverlaps;
  n_overlaps_per_section ←
    per_section_load num_sections n_overlaps_total max_n_overlaps;
  '(compute_unit_of_atom, natoms, total) ←
    assign_loop num_atoms num_sections n_overlaps_per_section noverlaps_sum;
  raw ← size_loop num_atoms num_sections compute_unit_of_atom noverlaps;
  section_size ← pad_loop num_sections pad_modulo (tree_size_boost t) raw;
  Ok {| s_saved := saved; s_noverlaps := noverlaps;
        s_noverlaps_sum := noverlaps_sum;
        s_n_overlaps_per_section := n_overlaps_per_section;
        s_compute_unit_of_atom := compute_unit_of_atom;
        s_natoms_in_tree := natoms; s_total_atoms_in_tree := total;
        s_raw_section_size := raw; s_section_size := section_size |}.

Definition init_tree_size (t : CudaOverlapTree)
    (num_atoms padded_num_atoms num_compute_units pad_modulo : Z)
    (noverlaps_current : list Z) : outcome CudaOverlapTree :=
  z ← init_sizing t num_atoms num_compute_units pad_modulo noverlaps_current;
  let num_sections := num_compute_units in
  '(tree_pointer, _) ← pointer_loop num_sections (s_section_size z);
  a ← layout_loop num_sections padded_num_atoms (s_total_atoms_in_tree z)
        (s_section_size z) (s_natoms_in_tree z) tree_pointer;
  Ok {| num_atoms := num_atoms;
        padded_num_atoms := padded_num_atoms;
        total_atoms_in_tree := s_total_atoms_in_tree z;
        total_tree_size := l_total_tree_size a;
        num_sections := num_sections;
        tree_size := l_tree_size a;
        padded_tree_size := l_padded_tree_size a;
        atom_tree_pointer := l_atom_tree_pointer a;
        tree_pointer := tree_pointer;
        natoms_in_tree := s_natoms_in_tree z;
        first_atom := l_first_atom a;
        buffers := buffers t;
        temp_buffer_size := temp_buffer_size t;
        tree_size_boost := tree_size_boost t;
        has_saved_noverlaps := true;
        saved_noverlaps := s_saved z;
        hasExceededTempBuffer := hasExceededTempBuffer t |}.

(** *** [resize_tree_buffers] and [copy_tree_to_device] *)

(** [if (p) delete p; p = CudaArray::create<T>(cu, size, name)] for each
    name of the list. *)
Definition create_all (names : list string) (size : Z)
    (b : gmap string CudaArray) : gmap string CudaArray :=
  foldl (fun m name => <[name := create size]> m) b names.

Definition per_atom_int_buffers : list string := ["ovAtomTreePointer"].
Definition per_section_buffers : list string :=
  ["ovAtomTreeSize"; "NIterations"; "ovAtomTreePaddedSize"; "ovNumAtomsInTree";
   "ovTreePointer"; "ovAtomTreeLock"; "ovFirstAtom"].
Definition per_node_buffers : list string :=
  ["ovLevel"; "ovG"; "ovVolume"; "ovVsp"; "ovVSfp"; "ovSelfVolume";
   "ovVolEnergy"; "ovGamma1i"; "ovDV1"; "ovDV2"; "ovPF"; "ovLastAtom";
   "ovRootIndex"; "ovChildrenStartIndex"; "ovChildrenCount";
   "ovChildrenCountTop"; "ovChildrenCountBottom"; "ovProcessedFlag";
   "ovOKtoProcessFlag"; "ovChildrenReported"].
Definition temp_buffers : list string :=
  ["gvol_buffer_temp"; "tree_pos_buffer_temp"; "i_buffer_temp";
   "atomj_buffer_temp"].

Definition set_tree_buffers (b : gmap string CudaArray) (tbs : Z) (h : bool)
    (t : CudaOverlapTree) : CudaOverlapTree :=
  match t with
  | Build_CudaOverlapTree a1 a2 a3 a4 a5 a6 a7 a8 a9 a10 a11 _ _ a14 a15 a16 _ =>
      Build_CudaOverlapTree a1 a2 a3 a4 a5 a6 a7 a8 a9 a10 a11 b tbs a14 a15 a16 h
  end.

Definition set_hasExceededTempBuffer (h : bool) (t : CudaOverlapTree)
  : CudaOverlapTree :=
  set_tree_buffers (buffers t) (temp_buffer_size t) h t.

Definition resize_tree_buffers (ov_work_group_size : Z) (t : CudaOverlapTree)
  : outcome CudaOverlapTree :=
  let b := create_all per_atom_int_buffers (padded_num_atoms t) (buffers t) in
  let b := create_all per_section_buffers (num_sections t) b in
  let b := create_all per_node_buffers (total_tree_size t) b in
  (* atomic reduction buffers, one for each tree section *)
  pn ← imul (padded_num_atoms t) (num_sections t);
  let b := create_all ["ovAtomBuffer"; "selfVolumeBuffer"] pn b in
  let b := create_all ["selfVolumeBuffer_long"] (padded_num_atoms t) b in
  let b := create_all ["AccumulationBuffer1_real"] pn b in
  let b := create_all ["AccumulationBuffer1_long"] (padded_num_atoms t) b in
  let b := create_all ["AccumulationBuffer2_real"] pn b in
  let b := create_all ["AccumulationBuffer2_long"] (padded_num_atoms t) b in
  p4 ← imul 4 (padded_num_atoms t);
  let b := create_all ["gradBuffers_long"] p4 b in
  (* temp buffers to cache intermediate data in overlap tree construction *)
  tbs ← (if temp_buffer_size t <=? 0
         then (let smax := 64 in
               a ← imul ov_work_group_size (num_sections t); imul a smax)
         else Ok (temp_buffer_size t));
  tbs ← (if hasExceededTempBuffer t then imul 2 tbs else Ok tbs);
  let b := create_all temp_buffers tbs b in
  Ok (set_tree_buffers b tbs false t).

(** [for (i < n) nn[i] = (int) src[i]] into a fresh [vector<int> nn(n)]. *)
Definition copy_prefix (n : Z) (src : list Z) : outcome (list Z) :=
  v0 ← vnew n;
  for_range 0 n (fun i v => x ← vget src i; vset v i x) v0.

(** [p->upload(v)]; a NULL [p] is dereferenced. *)
Definition upload_to (name : string) (d : dev_data)
    (b : gmap string CudaArray) : outcome (gmap string CudaArray) :=
  match b !! name with
  | Some a => Ok (<[name := upload d a]> b)
  | None => Fail NullPointer
  end.

Definition copy_tree_to_device (t : CudaOverlapTree) : outcome CudaOverlapTree :=
  nn ← copy_prefix (padded_num_atoms t) (atom_tree_pointer t);
  b ← upload_to "ovAtomTreePointer" (Ints nn) (buffers t);
  ns ← copy_prefix (num_sections t) (tree_pointer t);
  b ← upload_to "ovTreePointer" (Ints ns) b;
  ns ← copy_prefix (num_sections t) (tree_size t);
  b ← upload_to "ovAtomTreeSize" (Ints ns) b;
  ns ← copy_prefix (num_sections t) (padded_tree_size t);
  b ← upload_to "ovAtomTreePaddedSize" (Ints ns) b;
  ns ← copy_prefix (num_sections t) (natoms_in_tree t);
  b ← upload_to "ovNumAtomsInTree" (Ints ns) b;
  ns ← copy_prefix (num_sections t) (first_atom t);
  b ← upload_to "ovFirstAtom" (Ints ns) b;
  Ok (set_tree_buffers b (temp_buffer_size t) (hasExceededTempBuffer t) t).

(** ** The host context and the force object (external to the two files) *)

(** The GPU kernels, by the member that holds their handle. *)
Inductive gpu_kernel :=
  | resetTreeKernel
  | resetBufferKernel
  | InitOverlapTreeKernel_1body_1
  | InitOverlapTreeCountKernel
  | reduceovCountBufferKernel
  | InitOverlapTreeKernel
  | resetComputeOverlapTreeKernel
  | ComputeOverlapTree_1passKernel
  | resetSelfVolumesKernel
  | computeSelfVolumesKernel
  | reduceSelfVolumesKernel_buffer
  | updateSelfVolumesForcesKernel
  | InitOverlapTreeKernel_1body_2
  | ResetRescanOverlapTreeKernel
  | InitRescanOverlapTreeKernel
  | RescanOverlapTreeKernel.

#[export] Instance gpu_kernel_eq_dec : EqDecision gpu_kernel.
Proof. solve_decision. Defined.

(** One [cu.executeKernel(f, args, ...)]; of the arguments the scalar
    literals of the call site are kept ([reset_tree_size], [update_energy]). *)
Inductive launch := Launch (f : gpu_kernel) (scalars : list Z).

Definition launched (l : launch) : gpu_kernel :=
  match l with Launch f _ => f end.

(** The capabilities of [CudaContext] and its [CudaNonbondedUtilities] the
    kernel uses. *)
Record CudaContext := {
  contexts_size : Z;           (* getPlatformData().contexts.size() *)
  numAtoms : Z;                (* getNumAtoms() *)
  paddedNumAtoms : Z;          (* getPaddedNumAtoms() *)
  forcesValid : bool;          (* setForcesValid() *)
  stream : list launch;        (* executeKernel(), oldest first *)
  nbUseCutoff : bool;          (* nb.getUseCutoff() *)
  interactingTilesSize : Z;    (* nb.getInteractingTiles().getSize() *)
  forceThreadBlockSize : Z;    (* nb.getForceThreadBlockSize() *)
  numForceThreadBlocks : Z;    (* nb.getNumForceThreadBlocks() *)
  getErrorString : Z → string; (* getErrorString(result) *)
}.

Definition setForcesValid (v : bool) (c : CudaContext) : CudaContext :=
  match c with
  | Build_CudaContext a1 a2 a3 _ a5 a6 a7 a8 a9 a10 =>
      Build_CudaContext a1 a2 a3 v a5 a6 a7 a8 a9 a10
  end.

Definition executeKernel (f : gpu_kernel) (scalars : list Z) (c : CudaContext)
  : CudaContext :=
  match c with
  | Build_CudaContext a1 a2 a3 a4 s a6 a7 a8 a9 a10 =>
      Build_CudaContext a1 a2 a3 a4 (s ++ [Launch f scalars]) a6 a7 a8 a9 a10
  end.

Inductive NonbondedMethod := NoCutoff | CutoffNonPeriodic | CutoffPeriodic.

#[export] Instance NonbondedMethod_eq_dec : EqDecision NonbondedMethod.
Proof. solve_decision. Defined.

Record Particle := {
  radius : FP.double;
  gamma : FP.double;
  ishydrogen : bool;
}.

Record AmoebaGKCavitationForce := {
  particles : list Particle;
  getNonbondedMethod : NonbondedMethod;
  getCutoffDistance : FP.double;
}.

Definition getNumParticles (force : AmoebaGKCavitationForce) : Z :=
  Z.of_nat (length (particles force)).

(** [force.getParticleParameters(i, radius, gamma, ishydrogen)]; the force
    checks the index and throws. *)
Definition getParticleParameters (force : AmoebaGKCavitationForce) (i : Z)
  : outcome Particle :=
  match vget (particles force) i with
  | Ok p => Ok p
  | Fail _ => Fail (OpenMMException "Index out of range")
  end.

(** ** [CudaCalcGKCavitationForceKernel] *)

Record Kernel := {
  gvol_force : option AmoebaGKCavitationForce;
  numParticles : Z;
  useCutoff : bool;
  usePeriodic : bool;
  useExclusions : bool;
  cutoffDistance : FP.double;
  roffset : FP.double;
  common_gamma : FP.float;
  maxTiles : Z;
  hasInitializedKernels : bool;
  hasCreatedKernels : bool;
  cu : CudaContext;
  ov_work_group_size : Z;       (* thread group size *)
  num_compute_units : Z;
  gtree : option CudaOverlapTree;   (* tree of atomic overlaps *)
  (* the CudaArray* members, by name: radiusParam1, radiusParam2,
     gammaParam1, gammaParam2, ishydrogenParam, selfVolume, selfVolumeLargeR,
     Semaphor, grad, GaussianExponent, GaussianVolume, GaussianExponentLargeR,
     GaussianVolumeLargeR, AtomicGamma, PanicButton *)
  arrays : gmap string CudaArray;
  radiusVector1 : list FP.float;    (* enlarged radii *)
  radiusVector2 : list FP.float;    (* vdw radii *)
  gammaVector1 : list FP.float;     (* gamma/radius_offset *)
  gammaVector2 : list FP.float;     (* -gamma/radius_offset *)
  ishydrogenVector : list Z;
  atom_ishydrogen : list Z;
  niterations : Z;
  panic_button : list Z;
  pinnedPanicButtonMemory : option (list Z);
  downloadPanicButtonEvent : bool;  (* the event has been created *)
}.

(** The constructor: the two flags false, the ten array pointers it names
    and the pinned page NULL; the vectors are empty.  It assigns nothing to
    the other members.  The numbers and booleans among them keep what the
    memory of the object held, which [raw] gives; a pointer it does not
    assign ([gtree], [gvol_force], the parameter arrays) is unset like a
    NULL one, and using it faults; no event has been created. *)
Definition new_Kernel (c : CudaContext) (raw : Kernel) : Kernel := {|
  gvol_force := None; numParticles := numParticles raw;
  useCutoff := useCutoff raw; usePeriodic := usePeriodic raw;
  useExclusions := useExclusions raw;
  cutoffDistance := cutoffDistance raw; roffset := roffset raw;
  common_gamma := common_gamma raw;
  maxTiles := maxTiles raw;
  hasInitializedKernels := false; hasCreatedKernels := false;
  cu := c; ov_work_group_size := ov_work_group_size raw;
  num_compute_units := num_compute_units raw;
  gtree := None; arrays := ∅;
  radiusVector1 := []; radiusVector2 := [];
  gammaVector1 := []; gammaVector2 := [];
  ishydrogenVector := []; atom_ishydrogen := [];
  niterations := niterations raw; panic_button := [];
  pinnedPanicButtonMemory := None;
  downloadPanicButtonEvent := false;
|}.

(** Assignments to groups of members. *)
Definition set_roffset (v : FP.double) (k : Kernel) : Kernel :=
  match k with
  | Build_Kernel a1 a2 a3 a4 a5 a6 _ a8 a9 a10 a11 a12 a13 a14 a15 a16 a17 a18
      a19 a20 a21 a22 a23 a24 a25 a26 =>
    Build_Kernel a1 a2 a3 a4 a5 a6 v a8 a9 a10 a11 a12 a13 a14 a15 a16 a17 a18
      a19 a20 a21 a22 a23 a24 a25 a26
  end.

Definition set_numParticles (v : Z) (k : Kernel) : Kernel :=
  match k with
  | Build_Kernel a1 _ a3 a4 a5 a6 a7 a8 a9 a10 a11 a12 a13 a14 a15 a16 a17 a18
      a19 a20 a21 a22 a23 a24 a25 a26 =>
    Build_Kernel a1 v a3 a4 a5 a6 a7 a8 a9 a10 a11 a12 a13 a14 a15 a16 a17 a18
      a19 a20 a21 a22 a23 a24 a25 a26
  end.

Definition set_common_gamma (v : FP.float) (k : Kernel) : Kernel :=
  match k with
  | Build_Kernel a1 a2 a3 a4 a5 a6 a7 _ a9 a10 a11 a12 a13 a14 a15 a16 a17 a18
      a19 a20 a21 a22 a23 a24 a25 a26 =>
    Build_Kernel a1 a2 a3 a4 a5 a6 a7 v a9 a10 a11 a12 a13 a14 a15 a16 a17 a18
      a19 a20 a21 a22 a23 a24 a25 a26
  end.

Definition set_maxTiles (v : Z) (k : Kernel) : Kernel :=
  match k with
  | Build_Kernel a1 a2 a3 a4 a5 a6 a7 a8 _ a10 a11 a12 a13 a14 a15 a16 a17 a18
      a19 a20 a21 a22 a23 a24 a25 a26 =>
    Build_Kernel a1 a2 a3 a4 a5 a6 a7 a8 v a10 a11 a12 a13 a14 a15 a16 a17 a18
      a19 a20 a21 a22 a23 a24 a25 a26
  end.

Definition set_hasInitializedKernels (v : bool) (k : Kernel) : Kernel :=
  match k with
  | Build_Kernel a1 a2 a3 a4 a5 a6 a7 a8 a9 _ a11 a12 a13 a14 a15 a16 a17 a18
      a19 a20 a21 a22 a23 a24 a25 a26 =>
    Build_Kernel a1 a2 a3 a4 a5 a6 a7 a8 a9 v a11 a12 a13 a14 a15 a16 a17 a18
      a19 a20 a21 a22 a23 a24 a25 a26
  end.

Definition set_hasCreatedKernels (v : bool) (k : Kernel) : Kernel :=
  match k with
  | Build_Kernel a1 a2 a3 a4 a5 a6 a7 a8 a9 a10 _ a12 a13 a14 a15 a16 a17 a18
      a19 a20 a21 a22 a23 a24 a25 a26 =>
    Build_Kernel a1 a2 a3 a4 a5 a6 a7 a8 a9 a10 v a12 a13 a14 a15 a16 a17 a18
      a19 a20 a21 a22 a23 a24 a25 a26
  end.

Definition set_cu (v : CudaContext) (k : Kernel) : Kernel :=
  match k with
  | Build_Kernel a1 a2 a3 a4 a5 a6 a7 a8 a9 a10 a11 _ a13 a14 a15 a16 a17 a18
      a19 a20 a21 a22 a23 a24 a25 a26 =>
    Build_Kernel a1 a2 a3 a4 a5 a6 a7 a8 a9 a10 a11 v a13 a14 a15 a16 a17 a18
      a19 a20 a21 a22 a23 a24 a25 a26
  end.

Definition set_launch_geometry (wg ncu : Z) (k : Kernel) : Kernel :=
  match k with
  | Build_Kernel a1 a2 a3 a4 a5 a6 a7 a8 a9 a10 a11 a12 _ _ a15 a16 a17 a18
      a19 a20 a21 a22 a23 a24 a25 a26 =>
    Build_Kernel a1 a2 a3 a4 a5 a6 a7 a8 a9 a10 a11 a12 wg ncu a15 a16 a17 a18
      a19 a20 a21 a22 a23 a24 a25 a26
  end.

Definition set_gtree (v : option CudaOverlapTree) (k : Kernel) : Kernel :=
  match k with
  | Build_Kernel a1 a2 a3 a4 a5 a6 a7 a8 a9 a10 a11 a12 a13 a14 _ a16 a17 a18
      a19 a20 a21 a22 a23 a24 a25 a26 =>
    Build_Kernel a1 a2 a3 a4 a5 a6 a7 a8 a9 a10 a11 a12 a13 a14 v a16 a17 a18
      a19 a20 a21 a22 a23 a24 a25 a26
  end.

Definition set_arrays (v : gmap string CudaArray) (k : Kernel) : Kernel :=
  match k with
  | Build_Kernel a1 a2 a3 a4 a5 a6 a7 a8 a9 a10 a11 a12 a13 a14 a15 _ a17 a18
      a19 a20 a21 a22 a23 a24 a25 a26 =>
    Build_Kernel a1 a2 a3 a4 a5 a6 a7 a8 a9 a10 a11 a12 a13 a14 a15 v a17 a18
      a19 a20 a21 a22 a23 a24 a25 a26
  end.

Definition set_radiusVectors (v1 v2 : list FP.float) (k : Kernel) : Kernel :=
  match k with
  | Build_Kernel a1 a2 a3 a4 a5 a6 a7 a8 a9 a10 a11 a12 a13 a14 a15 a16 _ _
      a19 a20 a21 a22 a23 a24 a25 a26 =>
    Build_Kernel a1 a2 a3 a4 a5 a6 a7 a8 a9 a10 a11 a12 a13 a14 a15 a16 v1 v2
      a19 a20 a21 a22 a23 a24 a25 a26
  end.

Definition set_gammaVectors (v1 v2 : list FP.float) (k : Kernel) : Kernel :=
  match k with
  | Build_Kernel a1 a2 a3 a4 a5 a6 a7 a8 a9 a10 a11 a12 a13 a14 a15 a16 a17 a18
      _ _ a21 a22 a23 a24 a25 a26 =>
    Build_Kernel a1 a2 a3 a4 a5 a6 a7 a8 a9 a10 a11 a12 a13 a14 a15 a16 a17 a18
      v1 v2 a21 a22 a23 a24 a25 a26
  end.

Definition set_ishydrogenVectors (v w : list Z) (k : Kernel) : Kernel :=
  match k with
  | Build_Kernel a1 a2 a3 a4 a5 a6 a7 a8 a9 a10 a11 a12 a13 a14 a15 a16 a17 a18
      a19 a20 _ _ a23 a24 a25 a26 =>
    Build_Kernel a1 a2 a3 a4 a5 a6 a7 a8 a9 a10 a11 a12 a13 a14 a15 a16 a17 a18
      a19 a20 v w a23 a24 a25 a26
  end.

Definition set_niterations (v : Z) (k : Kernel) : Kernel :=
  match k with
  | Build_Kernel a1 a2 a3 a4 a5 a6 a7 a8 a9 a10 a11 a12 a13 a14 a15 a16 a17 a18
      a19 a20 a21 a22 _ a24 a25 a26 =>
    Build_Kernel a1 a2 a3 a4 a5 a6 a7 a8 a9 a10 a11 a12 a13 a14 a15 a16 a17 a18
      a19 a20 a21 a22 v a24 a25 a26
  end.

Definition set_panic_button (v : list Z) (k : Kernel) : Kernel :=
  match k with
  | Build_Kernel a1 a2 a3 a4 a5 a6 a7 a8 a9 a10 a11 a12 a13 a14 a15 a16 a17 a18
      a19 a20 a21 a22 a23 _ a25 a26 =>
    Build_Kernel a1 a2 a3 a4 a5 a6 a7 a8 a9 a10 a11 a12 a13 a14 a15 a16 a17 a18
      a19 a20 a21 a22 a23 v a25 a26
  end.

Definition set_pinnedPanicButtonMemory (v : option (list Z)) (k : Kernel)
  : Kernel :=
  match k with
  | Build_Kernel a1 a2 a3 a4 a5 a6 a7 a8 a9 a10 a11 a12 a13 a14 a15 a16 a17 a18
      a19 a20 a21 a22 a23 a24 _ a26 =>
    Build_Kernel a1 a2 a3 a4 a5 a6 a7 a8 a9 a10 a11 a12 a13 a14 a15 a16 a17 a18
      a19 a20 a21 a22 a23 a24 v a26
  end.

Definition set_downloadPanicButtonEvent (v : bool) (k : Kernel) : Kernel :=
  match k with
  | Build_Kernel a1 a2 a3 a4 a5 a6 a7 a8 a9 a10 a11 a12 a13 a14 a15 a16 a17 a18
      a19 a20 a21 a22 a23 a24 a25 _ =>
    Build_Kernel a1 a2 a3 a4 a5 a6 a7 a8 a9 a10 a11 a12 a13 a14 a15 a16 a17 a18
      a19 a20 a21 a22 a23 a24 a25 v
  end.

Definition set_gvol_force (v : option AmoebaGKCavitationForce) (k : Kernel)
  : Kernel :=
  match k with
  | Build_Kernel _ a2 a3 a4 a5 a6 a7 a8 a9 a10 a11 a12 a13 a14 a15 a16 a17 a18
      a19 a20 a21 a22 a23 a24 a25 a26 =>
    Build_Kernel v a2 a3 a4 a5 a6 a7 a8 a9 a10 a11 a12 a13 a14 a15 a16 a17 a18
      a19 a20 a21 a22 a23 a24 a25 a26
  end.

(** [useCutoff], [usePeriodic], [useExclusions] and [cutoffDistance], which
    [initialize] takes from the force. *)
Definition set_force_options (force : AmoebaGKCavitationForce) (k : Kernel)
  : Kernel :=
  let m := getNonbondedMethod force in
  match k with
  | Build_Kernel a1 a2 _ _ _ _ a7 a8 a9 a10 a11 a12 a13 a14 a15 a16 a17 a18
      a19 a20 a21 a22 a23 a24 a25 a26 =>
    Build_Kernel a1 a2
      (negb (bool_decide (m = NoCutoff)))
      (negb (bool_decide (m = NoCutoff))
       && negb (bool_decide (m = CutoffNonPeriodic)))
      false (getCutoffDistance force)
      a7 a8 a9 a10 a11 a12 a13 a14 a15 a16 a17 a18
      a19 a20 a21 a22 a23 a24 a25 a26
  end.

(** Host code of the kernel: a state over [Kernel] in which an exception
    leaves the members as they were when it was thrown. *)
Definition SE (A : Type) : Type := Kernel → outcome A * Kernel.

Definition se_ret {A} (a : A) : SE A := fun k => (Ok a, k).
Definition se_bind {A B} (m : SE A) (f : A → SE B) : SE B := fun k =>
  match m k with
  | (Ok a, k') => f a k'
  | (Fail e, k') => (Fail e, k')
  end.
Definition se_lift {A} (o : outcome A) : SE A := fun k => (o, k).
Definition se_get : SE Kernel := fun k => (Ok k, k).
Definition se_modify (f : Kernel → Kernel) : SE unit := fun k => (Ok (), f k).
Definition se_throw {A} (msg : string) : SE A :=
  fun k => (Fail (OpenMMException msg), k).

#[export] Instance se_mret : MRet SE := @se_ret.
#[export] Instance se_mbind : MBind SE := fun A B f m => se_bind m f.

Fixpoint se_for (i : Z) (n : nat) (body : Z → SE unit) : SE unit :=
  match n with
  | O => se_ret ()
  | S n' => (body i : SE unit) ;; se_for (i + 1) n' body
  end.

Definition se_range (lo hi : Z) (body : Z → SE unit) : SE unit :=
  se_for lo (Z.to_nat (hi - lo)) body.

(** [v.resize(n)] *)
Definition vresize {A} (v : list A) (n : Z) (d : A) : outcome (list A) :=
  if n <? 0 then Fail LengthError
  else Ok (take (Z.to_nat n) v ++ replicate (Z.to_nat n - length v)%nat d).

(** [p = new CudaArray(cu, size, elementSize, name)] *)
Definition new_array (name : string) (size : Z) : SE unit :=
  se_modify (fun k => set_arrays (<[name := create size]> (arrays k)) k).

(** [p->upload(v)] on a member of the kernel *)
Definition upload_member (name : string) (d : dev_data) : SE unit :=
  k ← se_get;
  b ← se_lift (upload_to name d (arrays k));
  se_modify (set_arrays b).

(** *** [initialize] *)

(** What [initialize] receives from outside the two files: what the memory
    of the new tree holds in the five int members the constructor of the tree
    leaves alone, the answers of the CUDA driver to [cuEventCreate] and to
    [cuMemHostAlloc], and what the two ints of the pinned page hold when the
    driver hands it out (it does not initialize them). *)
Record initialize_inputs := {
  raw_num_atoms : Z;
  raw_padded_num_atoms : Z;
  raw_total_atoms_in_tree : Z;
  raw_total_tree_size : Z;
  raw_num_sections : Z;
  cuEventCreate_result : Z;
  cuMemHostAlloc_result : Z;
  pinned_page : list Z;
}.

Definition CUDA_SUCCESS : Z := 0.

(** [m << n] for an int [n]. *)
Definition decimal (n : Z) : string := NilZero.string_of_int (Z.to_int n).

Section Initialize.

(** The macro [GKCAV_RADIUS_INCREMENT] is defined outside the two files. *)
Variable GKCAV_RADIUS_INCREMENT : FP.double.

(** [__FILE__]: the name under which the file is compiled. *)
Variable FILE : string.

(** [CHECK_RESULT(result, prefix)] on line [line] of the file. *)
Definition CHECK_RESULT (result : Z) (prefix : string) (line : Z) : SE unit :=
  if negb (result =? CUDA_SUCCESS) then
    k ← se_get;
    se_throw (prefix +:+ ": " +:+ getErrorString (cu k) result
              +:+ " (" +:+ decimal result +:+ ")"
              +:+ " at " +:+ FILE +:+ ":" +:+ decimal line)
  else mret ().

(** [gtree = new CudaOverlapTree] *)
Definition new_gtree (inp : initialize_inputs) : SE unit :=
  se_modify (set_gtree (Some (new_CudaOverlapTree
    (raw_num_atoms inp) (raw_padded_num_atoms inp)
    (raw_total_atoms_in_tree inp) (raw_total_tree_size inp)
    (raw_num_sections inp)))).

(** [cuEventCreate(&downloadPanicButtonEvent, 0)]: the event exists when
    the driver answers [CUDA_SUCCESS]. *)
Definition cuEventCreate (inp : initialize_inputs) : SE Z :=
  (if cuEventCreate_result inp =? CUDA_SUCCESS
   then se_modify (set_downloadPanicButtonEvent true)
   else mret ());;
  mret (cuEventCreate_result inp).

(** [cuMemHostAlloc(&pinnedPanicButtonMemory, 2 * sizeof(int),
    CU_MEMHOSTALLOC_PORTABLE)]: the pointer is set when the driver answers
    [CUDA_SUCCESS]. *)
Definition cuMemHostAlloc (inp : initialize_inputs) : SE Z :=
  (if cuMemHostAlloc_result inp =? CUDA_SUCCESS
   then se_modify (set_pinnedPanicButtonMemory (Some (pinned_page inp)))
   else mret ());;
  mret (cuMemHostAlloc_result inp).

(** [double g = ishydrogen ? 0 : gamma / roffset] *)
Definition scaled_gamma (p : Particle) (roffset : FP.double) : FP.double :=
  if ishydrogen p then FP.double_of_int 0 else FP.ddiv (gamma p) roffset.

(** [pow(common_gamma - gamma, 2) > 1.e-6f] *)
Definition gamma_differs (common_gamma : FP.float) (gamma : FP.double) : bool :=
  FP.gt (FP.pow2 (FP.dsub (FP.double_of_float common_gamma) gamma))
        (FP.double_of_float FP.lit_1em6f).

(** The body of the loop over the particles. *)
Definition initialize_particle (force : AmoebaGKCavitationForce) (i : Z)
  : SE unit :=
  p ← se_lift (getParticleParameters force i);
  k ← se_get;
  r1 ← se_lift (vset (radiusVector1 k) i
         (FP.float_of_double
            (FP.dadd (FP.double_of_float (FP.float_of_double (radius p)))
                     (roffset k))));
  r2 ← se_lift (vset (radiusVector2 k) i (FP.float_of_double (radius p)));
  se_modify (set_radiusVectors r1 r2);;
  ah ← se_lift (vset (atom_ishydrogen k) i (if ishydrogen p then 1 else 0));
  ih ← se_lift (vset (ishydrogenVector k) i (if ishydrogen p then 1 else 0));
  se_modify (set_ishydrogenVectors ih ah);;
  (* for surface-area energy use gamma/radius_offset *)
  let g := scaled_gamma p (roffset k) in
  g1 ← se_lift (vset (gammaVector1 k) i (FP.float_of_double g));
  g2 ← se_lift (vset (gammaVector2 k) i (FP.float_of_double (FP.dopp g)));
  se_modify (set_gammaVectors g1 g2);;
  (* make sure that all gamma's are the same *)
  if FP.lt (common_gamma k) (FP.float_of_int 0) && negb (ishydrogen p)
  then se_modify (set_common_gamma (FP.float_of_double (gamma p)))
  else if negb (ishydrogen p) && gamma_differs (common_gamma k) (gamma p)
  then se_throw
         "initialize(): GKCavitation does not support multiple gamma values."
  else mret ().

Definition resize_parameter_vectors (padded : Z) : SE unit :=
  k ← se_get;
  r1 ← se_lift (vresize (radiusVector1 k) padded FP.fzero);
  r2 ← se_lift (vresize (radiusVector2 k) padded FP.fzero);
  g1 ← se_lift (vresize (gammaVector1 k) padded FP.fzero);
  g2 ← se_lift (vresize (gammaVector2 k) padded FP.fzero);
  ih ← se_lift (vresize (ishydrogenVector k) padded 0);
  ah ← se_lift (vresize (atom_ishydrogen k) padded 0);
  se_modify (set_radiusVectors r1 r2);;
  se_modify (set_gammaVectors g1 g2);;
  se_modify (set_ishydrogenVectors ih ah).

Definition upload_parameters : SE unit :=
  k ← se_get;
  upload_member "radiusParam1" (Floats (radiusVector1 k));;
  upload_member "radiusParam2" (Floats (radiusVector2 k));;
  upload_member "gammaParam1" (Floats (gammaVector1 k));;
  upload_member "gammaParam2" (Floats (gammaVector2 k));;
  upload_member "ishydrogenParam" (Ints (ishydrogenVector k)).

Definition initialize (inp : initialize_inputs)
    (force : AmoebaGKCavitationForce) : SE unit :=
  se_modify (set_roffset GKCAV_RADIUS_INCREMENT);;
  k ← se_get;
  (* we do not support multiple contexts *)
  if 1 <? contexts_size (cu k)
  then se_throw "GKCavitationForce does not support using multiple contexts"
  else
    se_modify (set_numParticles (numAtoms (cu k)));;
    if numAtoms (cu k) =? 0 then mret ()
    else
      let padded := paddedNumAtoms (cu k) in
      new_array "radiusParam1" padded;;
      new_array "radiusParam2" padded;;
      new_array "gammaParam1" padded;;
      new_array "gammaParam2" padded;;
      new_array "ishydrogenParam" padded;;
      resize_parameter_vectors padded;;
      se_modify (set_common_gamma FP.fminus1);;
      se_range 0 (numAtoms (cu k)) (initialize_particle force);;
      upload_parameters;;
      se_modify (set_force_options force);;
      (* instance of atomic overlap tree *)
      new_gtree inp;;
      result ← cuEventCreate inp;
      CHECK_RESULT result "Error creating event for GK cavitation force" 532;;
      result ← cuMemHostAlloc inp;
      CHECK_RESULT result "Error allocating PanicButton pinned buffer" 533;;
      se_modify (set_gvol_force (Some force));;
      se_modify (set_niterations 0);;
      se_modify (set_hasInitializedKernels false);;
      se_modify (set_hasCreatedKernels false).

End Initialize.

(** *** [copyParametersToContext] *)

(** [pow(radiusVector2[i] - radius, 2) > 1.e-6] *)
Definition radius_differs (stored : FP.float) (radius : FP.double) : bool :=
  FP.gt (FP.pow2 (FP.dsub (FP.double_of_float stored) radius)) FP.lit_1em6.

Definition copy_particle (force : AmoebaGKCavitationForce) (i : Z) : SE unit :=
  p ← se_lift (getParticleParameters force i);
  k ← se_get;
  r2 ← se_lift (vget (radiusVector2 k) i);
  if radius_differs r2 (radius p)
  then se_throw "updateParametersInContext: GKCavitation plugin does not support changing atomic radii."
  else
    h ← se_lift (vget (ishydrogenVector k) i);
    if negb (h =? (if ishydrogen p then 1 else 0))
    then se_throw "updateParametersInContext: GKCavitation plugin does not support changing heavy/hydrogen atoms."
    else
      let g := scaled_gamma p (roffset k) in
      g1 ← se_lift (vset (gammaVector1 k) i (FP.float_of_double g));
      g2 ← se_lift (vset (gammaVector2 k) i (FP.float_of_double (FP.dopp g)));
      se_modify (set_gammaVectors g1 g2).

Definition copyParametersToContext (force : AmoebaGKCavitationForce) : SE unit :=
  k ← se_get;
  if negb (getNumParticles force =? numParticles k)
  then se_throw "copyParametersToContext: GKCavitation plugin does not support changing the number of atoms."
  else if numParticles k =? 0 then mret ()
  else
    se_range 0 (numParticles k) (copy_particle force);;
    k ← se_get;
    upload_member "gammaParam1" (Floats (gammaVector1 k));;
    upload_member "gammaParam2" (Floats (gammaVector2 k)).

(** *** [execute] *)

(** What one step receives from outside the two files: the result of the
    CPU sizing run ([gvol->getstat(noverlaps)]) and what the GPU kernels left
    in the arrays the host downloads. *)
Record step_inputs := {
  cpu_noverlaps : list Z;
  device_PanicButton : list Z;
  device_ovVolEnergy_1 : list FP.float;   (* after the large-radii pass *)
  device_ovVolEnergy_2 : list FP.float;   (* after the small-radii pass *)
}.

Definition launch_kernel (f : gpu_kernel) (scalars : list Z) : SE unit :=
  se_modify (fun k => set_cu (executeKernel f scalars (cu k)) k).

(** [*p] for a pointer member. *)
Definition deref {A} (p : option A) : SE A :=
  match p with
  | Some a => mret a
  | None => se_lift (Fail NullPointer)
  end.

Definition kernel_arrays_of_init : list string :=
  ["selfVolume"; "selfVolumeLargeR"; "Semaphor"; "GaussianExponent";
   "GaussianVolume"; "GaussianExponentLargeR"; "GaussianVolumeLargeR";
   "AtomicGamma"; "grad"].

Definition executeInitKernels (inp : step_inputs) : SE unit :=
  k ← se_get;
  se_modify (set_maxTiles
    (if nbUseCutoff (cu k) then interactingTilesSize (cu k) else 0));;
  (* run CPU version once to estimate sizes *)
  force ← deref (gvol_force k);
  se_range 0 (numAtoms (cu k))
    (fun i => se_lift (getParticleParameters force i);; mret ());;
  let noverlaps := cpu_noverlaps inp in
  se_lift (for_range 0 (Z.of_nat (length noverlaps))
             (fun i nn => x ← vget noverlaps i; iadd nn x) 0);;
  let wg := forceThreadBlockSize (cu k) in
  let ncu := numForceThreadBlocks (cu k) in
  se_modify (set_launch_geometry wg ncu);;
  (* creates overlap tree *)
  let pad_modulo := wg in
  t ← deref (gtree k);
  t ← se_lift (init_tree_size t (numAtoms (cu k)) (paddedNumAtoms (cu k))
                 ncu pad_modulo noverlaps);
  (* allocates or re-allocates tree buffers *)
  t ← se_lift (resize_tree_buffers wg t);
  (* copy overlap tree buffers to device *)
  t ← se_lift (copy_tree_to_device t);
  se_modify (set_gtree (Some t));;
  (* sets up flag to detect when tree size is exceeded *)
  new_array "PanicButton" 2;;
  se_modify (set_panic_button [0; 0]);;
  upload_member "PanicButton" (Ints [0; 0]);;
  (* atom-level properties and atomic parameters *)
  se_modify (fun k => set_arrays
    (create_all kernel_arrays_of_init (paddedNumAtoms (cu k)) (arrays k)) k);;
  upload_member "Semaphor"
    (Ints (replicate (Z.to_nat (paddedNumAtoms (cu k))) 0)).

(** [energy += vol_energies[atom_pointer[i]]] for [i < numParticles] *)
Definition sum_vol_energies (n : Z) (atom_pointer : list Z)
    (vol_energies : list FP.float) : outcome FP.double :=
  for_range 0 n (fun i energy =>
    slot ← vget atom_pointer i;
    e ← vget vol_energies slot;
    Ok (FP.dadd energy (FP.double_of_float e))) FP.dzero.

(** [gtree->ovAtomTreePointer->download(atom_pointer)] *)
Definition download_ints (name : string) (b : gmap string CudaArray)
  : outcome (list Z) :=
  match b !! name with
  | Some a =>
      match arr_data a with
      | Ints l => Ok l
      | _ => Ok (replicate (Z.to_nat (arr_size a)) 0)   (* never uploaded *)
      end
  | None => Fail NullPointer
  end.

(** The kernels of the tree construction (large radii), in launch order. *)
Definition construct_tree (temp_buffer_size : Z) : SE unit :=
  launch_kernel resetTreeKernel [];;
  launch_kernel resetBufferKernel [];;
  launch_kernel InitOverlapTreeKernel_1body_1 [1];;   (* reset_tree_size = 1 *)
  launch_kernel InitOverlapTreeCountKernel [];;
  launch_kernel reduceovCountBufferKernel [];;
  launch_kernel InitOverlapTreeKernel [];;
  launch_kernel resetComputeOverlapTreeKernel [];;
  launch_kernel ComputeOverlapTree_1passKernel [temp_buffer_size].

(** [host_energy] is the sum the host forms from the downloaded
    [ovVolEnergy]; it is not what the function returns. *)
Definition host_energy (k : Kernel) (t : CudaOverlapTree)
    (vol_energies : list FP.float) : outcome FP.double :=
  atom_pointer ← download_ints "ovAtomTreePointer" (buffers t);
  sum_vol_energies (numParticles k) atom_pointer vol_energies.

Definition executeGVolSA (inp : step_inputs) : SE FP.double :=
  k ← se_get;
  n ← se_lift (iadd (niterations k) 1);
  se_modify (set_niterations n);;
  (if useCutoff k && (maxTiles k <? interactingTilesSize (cu k))
   then se_modify (set_maxTiles (interactingTilesSize (cu k)))
   else mret ());;
  t ← deref (gtree k);
  (* Tree construction (large radii) *)
  construct_tree (temp_buffer_size t);;
  (* PanicButton->download(pinnedPanicButtonMemory, false) and the event *)
  se_modify (set_pinnedPanicButtonMemory (Some (device_PanicButton inp)));;
  (* Volume energy function 1 (large radii) *)
  launch_kernel resetSelfVolumesKernel [];;
  (* check the result of the non-blocking read of PanicButton above *)
  panic0 ← se_lift (vget (device_PanicButton inp) 0);
  if 0 <? panic0 then
    se_modify (set_hasInitializedKernels false);;   (* forces reinitialization *)
    se_modify (fun k => set_cu (setForcesValid false (cu k)) k);;
    panic1 ← se_lift (vget (device_PanicButton inp) 1);
    (if 0 <? panic1
     then se_modify (set_gtree (Some (set_hasExceededTempBuffer true t)))
     else mret ());;
    mret FP.dzero
  else
    launch_kernel computeSelfVolumesKernel [];;
    launch_kernel reduceSelfVolumesKernel_buffer [];;
    launch_kernel updateSelfVolumesForcesKernel [1];;   (* update_energy = 1 *)
    energy ← se_lift (host_energy k t (device_ovVolEnergy_1 inp));
    (* volume energy function 2 (small radii) *)
    launch_kernel InitOverlapTreeKernel_1body_2 [0];;   (* reset_tree_size = 0 *)
    launch_kernel ResetRescanOverlapTreeKernel [];;
    launch_kernel InitRescanOverlapTreeKernel [];;
    launch_kernel RescanOverlapTreeKernel [];;
    launch_kernel resetSelfVolumesKernel [];;
    launch_kernel resetBufferKernel [];;
    launch_kernel computeSelfVolumesKernel [];;
    launch_kernel reduceSelfVolumesKernel_buffer [];;
    launch_kernel updateSelfVolumesForcesKernel [1];;   (* update_energy = 1 *)
    energy ← se_lift (host_energy k t (device_ovVolEnergy_2 inp));
    mret FP.dzero.

Definition execute (inp : step_inputs) : SE FP.double :=
  k ← se_get;
  (if negb (hasCreatedKernels k) || negb (hasInitializedKernels k)
   then executeInitKernels inp;;
        se_modify (set_hasInitializedKernels true);;
        se_modify (set_hasCreatedKernels true)
   else mret ());;
  energy ← executeGVolSA inp;
  mret FP.dzero.

(** *** The exclusion tiles of a context ([executeInitKernels]) *)

(** [FIRST_EXCLUSION_TILE] and [LAST_EXCLUSION_TILE] of the tree
    construction kernels, for context [contextIndex] of [numContexts]. *)
Definition exclusion_tile_range (contextIndex numExclusionTiles numContexts : Z)
  : outcome (Z * Z) :=
  a ← imul contextIndex numExclusionTiles;
  startExclusionIndex ← idiv a numContexts;
  c ← iadd contextIndex 1;
  b ← imul c numExclusionTiles;
  endExclusionIndex ← idiv b numContexts;
  Ok (startExclusionIndex, endExclusionIndex).

(** ** The allocations behind the tree buffers

    The constructor, [resize_tree_buffers] and the destructor of
    [CudaOverlapTree] seen as [new] and [delete] of [CudaArray] objects; the
    sizes of the arrays are left out here. *)

(** The [CudaArray] objects on the heap, each with the name it was created
    with, and the pointer members of a [CudaOverlapTree]; a member that is
    not in [pointer] is NULL. *)
Record ledger := {
  next_id : nat;
  live : gmap nat string;
  pointer : gmap string nat;
}.

(** The constructor sets every pointer member to NULL. *)
Definition new_ledger : ledger :=
  {| next_id := 0; live := ∅; pointer := ∅ |}.

(** [p = CudaArray::create<T>(cu, size, name)] *)
Definition cuda_create (name : string) (l : ledger) : ledger :=
  {| next_id := S (next_id l);
     live := <[next_id l := name]> (live l);
     pointer := <[name := next_id l]> (pointer l) |}.

(** [delete p]; deleting NULL does nothing, and [p] keeps its value. *)
Definition cuda_delete (name : string) (l : ledger) : ledger :=
  match pointer l !! name with
  | Some a => {| next_id := next_id l; live := delete a (live l);
                 pointer := pointer l |}
  | None => l
  end.

(** The test in front of a [delete]: [if (p)] or [if (!p)]. *)
Inductive delete_guard := if_set | if_null.

(** [if (p) delete p; p = CudaArray::create(...)], or the same with
    [if (!p)]. *)
Definition recreate (g : delete_guard) (name : string) (l : ledger) : ledger :=
  let holds_array := bool_decide (is_Some (pointer l !! name)) in
  let l := match g with
           | if_set => if holds_array then cuda_delete name l else l
           | if_null => if negb holds_array then cuda_delete name l else l
           end in
  cuda_create name l.

Definition accumulation_buffers : list string :=
  ["AccumulationBuffer1_real"; "AccumulationBuffer1_long";
   "AccumulationBuffer2_real"; "AccumulationBuffer2_long";
   "gradBuffers_long"].

(** The buffers of [resize_tree_buffers] in the order of the source, each
    with the test in front of its [delete]. *)
Definition resize_allocations : list (delete_guard * string) :=
  ((fun name => (if_set, name)) <$>
     per_atom_int_buffers ++ per_section_buffers ++ per_node_buffers
     ++ ["ovAtomBuffer"; "selfVolumeBuffer"; "selfVolumeBuffer_long"])
  ++ ((fun name => (if_null, name)) <$> accumulation_buffers)
  ++ ((fun name => (if_set, name)) <$> temp_buffers).

Definition resize_tree_buffers_ledger (l : ledger) : ledger :=
  foldl (fun l gn => recreate gn.1 gn.2 l) l resize_allocations.

(** The [delete]s of the destructor, in the order of the header. *)
Definition destructor_deletes : list string :=
  ["ovAtomTreePointer"; "ovAtomTreeSize"; "ovTreePointer"; "ovNumAtomsInTree";
   "ovFirstAtom"; "NIterations"; "ovAtomTreePaddedSize"; "ovAtomTreeLock";
   "ovLevel"; "ovG"; "ovVolume"; "ovVsp"; "ovVSfp"; "ovSelfVolume";
   "ovVolEnergy"; "ovGamma1i"; "ovDV1"; "ovDV2"; "ovPF"; "ovLastAtom";
   "ovRootIndex"; "ovChildrenStartIndex"; "ovChildrenCount";
   "ovChildrenCountTop"; "ovChildrenCountBottom"; "ovProcessedFlag";
   "ovOKtoProcessFlag"; "ovChildrenReported"; "ovAtomBuffer";
   "selfVolumeBuffer_long"; "selfVolumeBuffer"; "AccumulationBuffer1_long";
   "AccumulationBuffer1_real"; "AccumulationBuffer2_long";
   "AccumulationBuffer2_real"; "gradBuffers_long"; "gvol_buffer_temp";
   "tree_pos_buffer_temp"; "i_buffer_temp"; "atomj_buffer_temp"].

(** [~CudaOverlapTree]: what stays on the heap. *)
Definition destroy_CudaOverlapTree (l : ledger) : gmap nat string :=
  live (foldl (fun l name => cuda_delete name l) l destructor_deletes).

(** ** The objects of the kernel

    The constructor, [initialize], [executeInitKernels] and the destructor
    of [CudaCalcGKCavitationForceKernel], seen as the creation and deletion
    of the arrays, the tree with its buffers, the panic page and the event.
    The [GaussVol] object of the CPU run, which [executeInitKernels] creates
    and deletes again before it returns, is not on this ledger. *)

(** The five parameter arrays of [initialize]. *)
Definition parameter_arrays : list string :=
  ["radiusParam1"; "radiusParam2"; "gammaParam1"; "gammaParam2";
   "ishydrogenParam"].

(** The objects the kernel itself creates: the heap as for the tree, and the
    pointer members no statement has assigned yet, whose value is
    indeterminate. *)
Record gk_ledger := {
  heap : ledger;
  unset : gset string;
}.

(** The members the constructor does not mention. *)
Definition unassigned_members : list string :=
  ["gtree"; "radiusParam1"; "radiusParam2"; "gammaParam1"; "gammaParam2";
   "ishydrogenParam"; "downloadPanicButtonEvent"].

(** The constructor of the kernel: ten array pointers and
    [pinnedPanicButtonMemory] are set to NULL. *)
Definition new_gk_ledger : gk_ledger :=
  {| heap := new_ledger; unset := list_to_set unassigned_members |}.

(** [p = new ...], without a [delete] before it. *)
Definition assign_new (name : string) (s : gk_ledger) : gk_ledger :=
  {| heap := cuda_create name (heap s); unset := unset s ∖ {[name]} |}.

(** The members [names] are set to NULL. *)
Definition null_members (names : list string) (l : ledger) : ledger :=
  {| next_id := next_id l; live := live l;
     pointer := foldr delete (pointer l) names |}.

(** [gtree = new CudaOverlapTree]: the tree, whose constructor sets its
    forty pointer members to NULL. *)
Definition new_gtree_ledger (s : gk_ledger) : gk_ledger :=
  let s := assign_new "gtree" s in
  {| heap := null_members destructor_deletes (heap s); unset := unset s |}.

(** The allocations of [initialize], and whether it returns; [loop_throws]
    says whether the loop over the particles throws.  The calls of the CUDA
    driver are taken to succeed. *)
Definition gk_initialize (contexts numAtoms : Z) (loop_throws : bool)
    (s : gk_ledger) : bool * gk_ledger :=
  if 1 <? contexts then (false, s)
  else if numAtoms =? 0 then (true, s)
  else
    let s := foldl (fun s name => assign_new name s) s parameter_arrays in
    if loop_throws then (false, s)
    else (true,
          foldl (fun s name => assign_new name s) (new_gtree_ledger s)
            ["downloadPanicButtonEvent"; "pinnedPanicButtonMemory"]).

(** The allocations of [executeInitKernels], which uses [gtree] first; using
    a pointer that was never assigned has no defined behaviour. *)
Definition gk_executeInitKernels (s : gk_ledger) : option gk_ledger :=
  if bool_decide ("gtree" ∈ unset s) then None
  else
    (* gtree->resize_tree_buffers(cu, ov_work_group_size) *)
    let l := resize_tree_buffers_ledger (heap s) in
    (* PanicButton and the nine arrays of the atoms *)
    Some {| heap := foldl (fun l name => recreate if_set name l) l
                      ("PanicButton" :: kernel_arrays_of_init);
            unset := unset s |}.

(** The destructor of the kernel: what stays on the heap. *)
Definition gk_destructor (s : gk_ledger) : option (gmap nat string) :=
  if bool_decide ("gtree" ∈ unset s) then None
  else
    (* if (gtree != NULL) delete gtree: the destructor of the tree deletes
       its buffers, then the tree itself is freed *)
    let l := if bool_decide (is_Some (pointer (heap s) !! "gtree"))
             then cuda_delete "gtree"
                    (foldl (fun l name => cuda_delete name l) (heap s)
                       destructor_deletes)
             else heap s in
    (* if (pinnedPanicButtonMemory != NULL) cuMemFreeHost(...) *)
    let l := cuda_delete "pinnedPanicButtonMemory" l in
    if bool_decide ("downloadPanicButtonEvent" ∈ unset s) then None
    else Some (live (cuda_delete "downloadPanicButtonEvent" l)).

(** [m] runs of [executeInitKernels]. *)
Fixpoint gk_executions (m : nat) (s : gk_ledger) : option gk_ledger :=
  match m with
  | O => Some s
  | S m' => s' ← gk_executions m' s; gk_executeInitKernels s'
  end.

(** ** The FFT plans of the multipole and HIPPO kernels

    [CudaCalcAmoebaMultipoleForceKernel] and
    [CudaCalcHippoNonbondedForceKernel] add the cuFFT plans, and the HIPPO
    kernel its sorter, to the kernels of the common platform; the answers of
    [cufftPlan3d] are inputs. *)

(** What the two kernels own outside themselves: the cuFFT plans, by the
    member that holds the handle, and the [CudaSort] objects. *)
Record cufft := {
  plans : list string;
  sorts : nat;
}.

Definition CUFFT_SUCCESS : Z := 0.

(** [cc.intToString(result)] *)
Definition intToString (n : Z) : string :=
  NilZero.string_of_int (Z.to_int n).

(** [cufftPlan3d(&member, ...)] when the library answers [result]: the plan
    exists afterwards if the answer is [CUFFT_SUCCESS]. *)
Definition cufftPlan3d (member : string) (result : Z) (w : cufft) : cufft :=
  if result =? CUFFT_SUCCESS
  then {| plans := plans w ++ [member]; sorts := sorts w |}
  else w.

(** [cufftDestroy(member)] *)
Definition cufftDestroy (member : string) (w : cufft) : cufft :=
  {| plans := filter (fun m => m ≠ member) (plans w); sorts := sorts w |}.

Definition fft_exception (result : Z) : fault :=
  OpenMMException ("Error initializing FFT: " +:+ intToString result).

(** [CudaCalcAmoebaMultipoleForceKernel]: the member it adds to the common
    kernel, next to the handle [fft]. *)
Record MultipoleKernel := {
  multipole_hasInitializedFFT : bool;
}.

(** The constructor. *)
Definition new_MultipoleKernel : MultipoleKernel :=
  {| multipole_hasInitializedFFT := false |}.

(** [initialize], after the initialize of the common kernel returned with
    [usePME]; [result] is the answer of [cufftPlan3d]. *)
Definition multipole_initialize (usePME : bool) (result : Z)
    (k : MultipoleKernel) (w : cufft) : outcome unit * MultipoleKernel * cufft :=
  if usePME then
    let w := cufftPlan3d "fft" result w in
    if negb (result =? CUFFT_SUCCESS) then (Fail (fft_exception result), k, w)
    else (Ok (), {| multipole_hasInitializedFFT := true |}, w)
  else (Ok (), k, w).

(** The destructor. *)
Definition multipole_destroy (k : MultipoleKernel) (w : cufft) : cufft :=
  if multipole_hasInitializedFFT k then cufftDestroy "fft" w else w.

(** [CudaCalcHippoNonbondedForceKernel]: the members it adds to the common
    kernel, next to the four handles. *)
Record HippoKernel := {
  hippo_hasInitializedFFT : bool;
  hippo_sort : bool;               (* sort != NULL *)
}.

(** The constructor: [sort(NULL), hasInitializedFFT(false)]. *)
Definition new_HippoKernel : HippoKernel :=
  {| hippo_hasInitializedFFT := false; hippo_sort := false |}.

(** The handles of the kernel in the order [initialize] creates them. *)
Definition hippo_plans : list string :=
  ["fftForward"; "fftBackward"; "dfftForward"; "dfftBackward"].

(** The four [cufftPlan3d] of [initialize], each followed by its test;
    [results] are the answers of the library. *)
Fixpoint create_plans (members : list string) (results : string → Z)
    (w : cufft) : outcome unit * cufft :=
  match members with
  | [] => (Ok (), w)
  | member :: members' =>
      let result := results member in
      let w := cufftPlan3d member result w in
      if negb (result =? CUFFT_SUCCESS) then (Fail (fft_exception result), w)
      else create_plans members' results w
  end.

Definition hippo_initialize (usePME : bool) (results : string → Z)
    (k : HippoKernel) (w : cufft) : outcome unit * HippoKernel * cufft :=
  if usePME then
    (* sort = new CudaSort(cu, new SortTrait(), cc.getNumAtoms()) *)
    let k := {| hippo_hasInitializedFFT := hippo_hasInitializedFFT k;
                hippo_sort := true |} in
    let w := {| plans := plans w; sorts := S (sorts w) |} in
    match create_plans hippo_plans results w with
    | (Ok _, w) =>
        (Ok (), {| hippo_hasInitializedFFT := true;
                   hippo_sort := hippo_sort k |}, w)
    | (Fail e, w) => (Fail e, k, w)
    end
  else (Ok (), k, w).

(** [sort->sort(...)] *)
Definition hippo_sortGridIndex (k : HippoKernel) : outcome unit :=
  if hippo_sort k then Ok () else Fail NullPointer.

(** The destructor. *)
Definition hippo_destroy (k : HippoKernel) (w : cufft) : cufft :=
  let w := if hippo_sort k
           then {| plans := plans w; sorts := pred (sorts w) |} else w in
  if hippo_hasInitializedFFT k
  then cufftDestroy "dfftBackward"
         (cufftDestroy "dfftForward"
            (cufftDestroy "fftBackward" (cufftDestroy "fftForward" w)))
  else w.

(** * Vocabulary of the properties *)

(** ** Sums and counts over the sections *)

(** The sum of the entries of [l]. *)
Fixpoint sumZ (l : list Z) : Z :=
  match l with
  | [] => 0
  | x :: l' => x + sumZ l'
  end.

(** The number of entries of [l] equal to [s]. *)
Fixpoint occ (s : Z) (l : list Z) : Z :=
  match l with
  | [] => 0
  | x :: l' => (if x =? s then 1 else 0) + occ s l'
  end.

(** The number of entries of [l] below [s]. *)
Fixpoint occ_lt (s : Z) (l : list Z) : Z :=
  match l with
  | [] => 0
  | x :: l' => (if x <? s then 1 else 0) + occ_lt s l'
  end.

(** The sum of the budgets of the atoms assigned to section [s]. *)
Fixpoint section_budget (s : Z) (unit_of_atom noverlaps : list Z) : Z :=
  match unit_of_atom, noverlaps with
  | u :: us, x :: xs => (if u =? s then x else 0) + section_budget s us xs
  | _, _ => 0
  end.

(** The entries of [l] never go down. *)
Definition nondecreasing (l : list Z) : Prop :=
  ∀ i j x y, (i ≤ j)%nat → l !! i = Some x → l !! j = Some y → x ≤ y.

(** ** The parameter vectors and the launches of a step *)

(** What one iteration does to [common_gamma]; [None] is the exception. *)
Definition check_gamma (cg : FP.float) (p : Particle) : option FP.float :=
  if FP.lt cg (FP.float_of_int 0) && negb (ishydrogen p)
  then Some (FP.float_of_double (gamma p))
  else if negb (ishydrogen p) && gamma_differs cg (gamma p)
  then None
  else Some cg.

(** [common_gamma] after the particles [ps], from [cg]. *)
Fixpoint check_gammas (cg : FP.float) (ps : list Particle) : option FP.float :=
  match ps with
  | [] => Some cg
  | p :: ps' =>
      match check_gamma cg p with
      | Some cg' => check_gammas cg' ps'
      | None => None
      end
  end.

(** The six parameter vectors have [n] entries. *)
Definition sized (n : nat) (k : Kernel) : Prop :=
  length (radiusVector1 k) = n ∧ length (radiusVector2 k) = n ∧
  length (gammaVector1 k) = n ∧ length (gammaVector2 k) = n ∧
  length (ishydrogenVector k) = n ∧ length (atom_ishydrogen k) = n.

(** Two states that differ at most in the parameter vectors and
    [common_gamma]. *)
Definition same_but_parameters (k k' : Kernel) : Prop :=
  gvol_force k' = gvol_force k ∧ numParticles k' = numParticles k ∧
  useCutoff k' = useCutoff k ∧ usePeriodic k' = usePeriodic k ∧
  useExclusions k' = useExclusions k ∧
  cutoffDistance k' = cutoffDistance k ∧ roffset k' = roffset k ∧
  maxTiles k' = maxTiles k ∧
  hasInitializedKernels k' = hasInitializedKernels k ∧
  hasCreatedKernels k' = hasCreatedKernels k ∧ cu k' = cu k ∧
  ov_work_group_size k' = ov_work_group_size k ∧
  num_compute_units k' = num_compute_units k ∧ gtree k' = gtree k ∧
  arrays k' = arrays k ∧ niterations k' = niterations k ∧
  panic_button k' = panic_button k ∧
  pinnedPanicButtonMemory k' = pinnedPanicButtonMemory k.

(** The exceptions of the two functions. *)
Definition gamma_exception : fault :=
  OpenMMException
    "initialize(): GKCavitation does not support multiple gamma values.".

(** The members an iteration writes before it looks at [common_gamma]. *)
Definition store_particle (j : Z) (p : Particle) (k : Kernel) : Kernel :=
  let i := Z.to_nat j in
  let h := if ishydrogen p then 1 else 0 in
  let g := scaled_gamma p (roffset k) in
  set_gammaVectors
    (<[i := FP.float_of_double g]> (gammaVector1 k))
    (<[i := FP.float_of_double (FP.dopp g)]> (gammaVector2 k))
    (set_ishydrogenVectors
       (<[i := h]> (ishydrogenVector k)) (<[i := h]> (atom_ishydrogen k))
       (set_radiusVectors
          (<[i := FP.float_of_double
                    (FP.dadd (FP.double_of_float
                                (FP.float_of_double (radius p)))
                             (roffset k))]> (radiusVector1 k))
          (<[i := FP.float_of_double (radius p)]> (radiusVector2 k))
          k)).

Definition multiple_contexts_exception : fault :=
  OpenMMException "GKCavitationForce does not support using multiple contexts".

(** The driver answers [CUDA_SUCCESS] to the two calls of [initialize]. *)
Definition driver_succeeds (inp : initialize_inputs) : Prop :=
  cuEventCreate_result inp = CUDA_SUCCESS ∧
  cuMemHostAlloc_result inp = CUDA_SUCCESS.

(** The tree as [new CudaOverlapTree] leaves it. *)
Definition constructed (t : CudaOverlapTree) : Prop :=
  buffers t = ∅ ∧ temp_buffer_size t = -1 ∧ tree_size_boost t = FP.two ∧
  has_saved_noverlaps t = false ∧ hasExceededTempBuffer t = false ∧
  tree_size t = [] ∧ padded_tree_size t = [] ∧ atom_tree_pointer t = [] ∧
  tree_pointer t = [] ∧ natoms_in_tree t = [] ∧ first_atom t = [] ∧
  saved_noverlaps t = [].

(** The gamma parameters as [initialize] and [copyParametersToContext]
    leave them for the particles of [force]. *)
Definition gammas_stored (force : AmoebaGKCavitationForce) (k : Kernel) : Prop :=
  (∀ i p, 0 ≤ i < numParticles k → vget (particles force) i = Ok p →
     vget (gammaVector1 k) i =
       Ok (FP.float_of_double (scaled_gamma p (roffset k))) ∧
     vget (gammaVector2 k) i =
       Ok (FP.float_of_double (FP.dopp (scaled_gamma p (roffset k))))) ∧
  (∃ a1, arrays k !! "gammaParam1" = Some a1 ∧
         arr_data a1 = Floats (gammaVector1 k)) ∧
  (∃ a2, arrays k !! "gammaParam2" = Some a2 ∧
         arr_data a2 = Floats (gammaVector2 k)).

Definition radius_exception : fault :=
  OpenMMException "updateParametersInContext: GKCavitation plugin does not support changing atomic radii.".

Definition hydrogen_exception : fault :=
  OpenMMException "updateParametersInContext: GKCavitation plugin does not support changing heavy/hydrogen atoms.".

Definition count_exception : fault :=
  OpenMMException "copyParametersToContext: GKCavitation plugin does not support changing the number of atoms.".

(** Why [copyParametersToContext] rejects particle [p] for atom [i]. *)
Definition rejection (k : Kernel) (i : Z) (p : Particle) : option fault :=
  match vget (radiusVector2 k) i, vget (ishydrogenVector k) i with
  | Ok r2, Ok h =>
      if radius_differs r2 (radius p) then Some radius_exception
      else if negb (h =? (if ishydrogen p then 1 else 0))
      then Some hydrogen_exception
      else None
  | _, _ => Some OutOfBounds
  end.

(** The members an iteration of [copyParametersToContext] writes. *)
Definition store_gamma (j : Z) (p : Particle) (k : Kernel) : Kernel :=
  let g := scaled_gamma p (roffset k) in
  set_gammaVectors
    (<[Z.to_nat j := FP.float_of_double g]> (gammaVector1 k))
    (<[Z.to_nat j := FP.float_of_double (FP.dopp g)]> (gammaVector2 k)) k.

(** A particle that is not a hydrogen. *)
Definition heavy (p : Particle) : Prop := ishydrogen p = false.

(** No non-hydrogen gamma is negative once rounded to single precision. *)
Definition nonnegative_gammas (ps : list Particle) : Prop :=
  ∀ p, p ∈ ps → heavy p →
    FP.lt (FP.float_of_double (gamma p)) (FP.float_of_int 0) = false.

(** Some non-hydrogen particle after the first one has a gamma that differs
    from the first one's, rounded to single precision. *)
Definition gamma_mismatch (ps : list Particle) : Prop :=
  ∃ hs p0 rest p,
    ps = hs ++ p0 :: rest ∧ Forall (fun h => ishydrogen h = true) hs ∧
    heavy p0 ∧ p ∈ rest ∧ heavy p ∧
    gamma_differs (FP.float_of_double (gamma p0)) (gamma p) = true.

(** The relation between the two gamma vectors, atom by atom, and their
    copies on the device. *)
Definition gammas_negated (force : AmoebaGKCavitationForce) (k : Kernel)
  : Prop :=
  (∀ i p, 0 ≤ i < numParticles k → vget (particles force) i = Ok p →
     ∃ g, vget (gammaVector1 k) i = Ok g ∧
          vget (gammaVector2 k) i = Ok (FP.fopp g) ∧
          (heavy p →
             g = FP.float_of_double (FP.ddiv (gamma p) (roffset k))) ∧
          (ishydrogen p = true →
             g = S754_zero false ∧ FP.fopp g = S754_zero true)) ∧
  (numParticles k ≠ 0 →
     ∃ a1 a2, arrays k !! "gammaParam1" = Some a1 ∧
              arrays k !! "gammaParam2" = Some a2 ∧
              arr_data a1 = Floats (gammaVector1 k) ∧
              arr_data a2 = Floats (gammaVector2 k)).

(** The first statement of [execute]: the kernels are (re)initialized when
    one of the two flags is down. *)
Definition init_phase (inp : step_inputs) : SE unit :=
  k ← se_get;
  if negb (hasCreatedKernels k) || negb (hasInitializedKernels k)
  then executeInitKernels inp;;
       se_modify (set_hasInitializedKernels true);;
       se_modify (set_hasCreatedKernels true)
  else mret ().

(** The launches of a step, in the order of [executeGVolSA]. *)
Definition construction_launches (temp_buffer_size : Z) : list launch :=
  [Launch resetTreeKernel []; Launch resetBufferKernel [];
   Launch InitOverlapTreeKernel_1body_1 [1];
   Launch InitOverlapTreeCountKernel []; Launch reduceovCountBufferKernel [];
   Launch InitOverlapTreeKernel []; Launch resetComputeOverlapTreeKernel [];
   Launch ComputeOverlapTree_1passKernel [temp_buffer_size]].

(** After [resetSelfVolumesKernel]: the rest of the pass with the large
    radii, and the pass with the small radii. *)
Definition first_pass_launches : list launch :=
  [Launch computeSelfVolumesKernel []; Launch reduceSelfVolumesKernel_buffer [];
   Launch updateSelfVolumesForcesKernel [1]].

Definition second_pass_launches : list launch :=
  [Launch InitOverlapTreeKernel_1body_2 [0];
   Launch ResetRescanOverlapTreeKernel []; Launch InitRescanOverlapTreeKernel [];
   Launch RescanOverlapTreeKernel []; Launch resetSelfVolumesKernel [];
   Launch resetBufferKernel []; Launch computeSelfVolumesKernel [];
   Launch reduceSelfVolumesKernel_buffer [];
   Launch updateSelfVolumesForcesKernel [1]].

(** The phases of the reduction and gradient pipeline, as the specification
    lists them: resetSelfVolumes, computeSelfVolumes, reduceSelfVolumes,
    updateForces. *)
Definition reduction_pipeline : list gpu_kernel :=
  [resetSelfVolumesKernel; computeSelfVolumesKernel;
   reduceSelfVolumesKernel_buffer; updateSelfVolumesForcesKernel].

(** ** Concrete systems *)

(** The double [n / d]. *)
Definition ratio (n d : Z) : FP.double :=
  FP.ddiv (FP.double_of_int n) (FP.double_of_int d).

(** Two non-hydrogen atoms with gamma 0.1 and a hydrogen between them, in a
    context of two thread blocks of two threads; the radius increment is
    taken as 0.5. *)
Definition example_force : AmoebaGKCavitationForce := {|
  particles := [ {| radius := ratio 17 10; gamma := ratio 1 10; ishydrogen := false |};
                 {| radius := ratio 12 10; gamma := ratio 1 10; ishydrogen := true |};
                 {| radius := ratio 15 10; gamma := ratio 1 10; ishydrogen := false |} ];
  getNonbondedMethod := NoCutoff;
  getCutoffDistance := FP.dzero;
|}.

Definition example_context : CudaContext := {|
  contexts_size := 1; numAtoms := 3; paddedNumAtoms := 4;
  forcesValid := true; stream := [];
  nbUseCutoff := false; interactingTilesSize := 0;
  forceThreadBlockSize := 2; numForceThreadBlocks := 2;
  getErrorString := fun _ => "unknown error";
|}.

Definition example_increment : FP.double := ratio 1 2.

(** What the memory of the kernel held before the constructor ran; of it
    the members the constructor does not assign matter. *)
Definition example_memory : Kernel := {|
  gvol_force := None; numParticles := -3;
  useCutoff := true; usePeriodic := false; useExclusions := true;
  cutoffDistance := ratio 7 3; roffset := ratio 5 4;
  common_gamma := FP.float_of_int 9;
  maxTiles := 77;
  hasInitializedKernels := true; hasCreatedKernels := true;
  cu := example_context; ov_work_group_size := 13; num_compute_units := -2;
  gtree := None; arrays := ∅;
  radiusVector1 := []; radiusVector2 := [];
  gammaVector1 := []; gammaVector2 := [];
  ishydrogenVector := []; atom_ishydrogen := [];
  niterations := 1234; panic_button := [];
  pinnedPanicButtonMemory := None;
  downloadPanicButtonEvent := false;
|}.

Definition example_file : string := "AmoebaCudaKernels.cpp".

(** The driver answers [CUDA_SUCCESS] twice; the memory of the new tree and
    the pinned page hold whatever was there. *)
Definition example_inputs : initialize_inputs := {|
  raw_num_atoms := 11; raw_padded_num_atoms := -7;
  raw_total_atoms_in_tree := 300; raw_total_tree_size := 5;
  raw_num_sections := 9;
  cuEventCreate_result := 0; cuMemHostAlloc_result := 0;
  pinned_page := [-1; 42];
|}.

(** The same, with [cuMemHostAlloc] answering 2
    ([CUDA_ERROR_OUT_OF_MEMORY]). *)
Definition failing_inputs : initialize_inputs := {|
  raw_num_atoms := 11; raw_padded_num_atoms := -7;
  raw_total_atoms_in_tree := 300; raw_total_tree_size := 5;
  raw_num_sections := 9;
  cuEventCreate_result := 0; cuMemHostAlloc_result := 2;
  pinned_page := [-1; 42];
|}.

(** The tree as its constructor leaves it in that memory. *)
Definition example_tree : CudaOverlapTree :=
  new_CudaOverlapTree 11 (-7) 300 5 9.

(** The kernel after [initialize]. *)
Definition example_initialized : Kernel :=
  Eval vm_compute in
  (initialize example_increment example_file example_inputs example_force
     (new_Kernel example_context example_memory)).2.

(** What a step reads: the counts of the CPU run, the panic page and the
    volume energy of every tree node after each of the two passes. *)
Definition example_step (panic : list Z) : step_inputs := {|
  cpu_noverlaps := [2; 0; 1; 0];
  device_PanicButton := panic;
  device_ovVolEnergy_1 := replicate 32 (FP.float_of_int 3);
  device_ovVolEnergy_2 := replicate 32 (FP.float_of_int (-1));
|}.

(** The kernel after a step with panic, and after the step that follows. *)
Definition example_after_panic : Kernel :=
  Eval vm_compute in (execute (example_step [1; 1]) example_initialized).2.

Definition example_after_retry : Kernel :=
  Eval vm_compute in (execute (example_step [0; 0]) example_after_panic).2.

(** [*gtree] *)
Definition tree_of (k : Kernel) : CudaOverlapTree :=
  default example_tree (gtree k).

(** The same system in a context without atoms. *)
Definition empty_context : CudaContext := {|
  contexts_size := 1; numAtoms := 0; paddedNumAtoms := 0;
  forcesValid := true; stream := [];
  nbUseCutoff := false; interactingTilesSize := 0;
  forceThreadBlockSize := 2; numForceThreadBlocks := 2;
  getErrorString := fun _ => "unknown error";
|}.

Definition empty_force : AmoebaGKCavitationForce := {|
  particles := []; getNonbondedMethod := NoCutoff;
  getCutoffDistance := FP.dzero;
|}.

(** Three heavy atoms whose gammas are 1, 1.0008 and 0.9992. *)
Definition spread_force : AmoebaGKCavitationForce := {|
  particles := [ {| radius := ratio 17 10; gamma := ratio 10000 10000; ishydrogen := false |};
                 {| radius := ratio 17 10; gamma := ratio 10008 10000; ishydrogen := false |};
                 {| radius := ratio 17 10; gamma := ratio 9992 10000; ishydrogen := false |} ];
  getNonbondedMethod := NoCutoff;
  getCutoffDistance := FP.dzero;
|}.

(** The comparison of two gammas as the specification words it: the squared
    difference of the two coefficients exceeds 1e-6. *)
Definition squared_difference_exceeds (p q : Particle) : bool :=
  FP.gt (FP.pow2 (FP.dsub (gamma p) (gamma q))) FP.lit_1em6.

(** The tree a call of [init_tree_size] leaves. *)
Definition built (o : outcome CudaOverlapTree) : CudaOverlapTree :=
  match o with Ok t => t | Fail _ => example_tree end.

(** Five atoms, padded to eight, in three sections with pad modulus 4, sized
    twice. *)
Definition first_counts : list Z := [3; 0; 2; 1; 0; 0; 0; 0].

Definition later_counts : list Z := [1; 4; 0; 1; 0; 0; 0; 0].

Definition first_tree : CudaOverlapTree :=
  built (init_tree_size example_tree 5 8 3 4 first_counts).

Definition later_tree : CudaOverlapTree :=
  built (init_tree_size first_tree 5 8 3 4 later_counts).

(** The first system with other gammas. *)
Definition example_force' : AmoebaGKCavitationForce := {|
  particles := [ {| radius := ratio 17 10; gamma := ratio 2 10; ishydrogen := false |};
                 {| radius := ratio 12 10; gamma := ratio 2 10; ishydrogen := true |};
                 {| radius := ratio 15 10; gamma := ratio 3 10; ishydrogen := false |} ];
  getNonbondedMethod := NoCutoff;
  getCutoffDistance := FP.dzero;
|}.

(** The initialized kernel after the first statement of [execute]. *)
Definition example_ready : Kernel :=
  Eval vm_compute in (init_phase (example_step [0; 0]) example_initialized).2.

(** ** Vocabulary of the further properties *)

(** Every entry of [l] is a section index. *)
Definition in_sections (S : Z) (l : list Z) : Prop :=
  Forall (fun s => 0 ≤ s < S) l.

(** The budgets of the first [n] atoms. *)
Definition budgets (saved cur : list Z) (n : Z) : list Z :=
  zip_with (fun s c => Z.max s (c + 1))
    (take (Z.to_nat n) saved) (take (Z.to_nat n) cur).

(** [saved_noverlaps] as the function finds or makes it. *)
Definition saved_before (t : CudaOverlapTree) (n : Z) : list Z :=
  if has_saved_noverlaps t then saved_noverlaps t
  else replicate (Z.to_nat n) 0.

(** The largest entry of [l], or 0. *)
Definition max_list (l : list Z) : Z := foldr Z.max 0 l.

(** [n_overlaps_per_section] for [S] sections and the budgets [b]. *)
Definition section_load (S : Z) (b : list Z) : Z :=
  Z.max (if 1 <? S then sumZ b ÷ (S - 1) else sumZ b) (max_list b).

(** The names of the buffers by the size they get. *)
Definition per_atom_section_buffers : list string :=
  ["ovAtomBuffer"; "selfVolumeBuffer"; "AccumulationBuffer1_real";
   "AccumulationBuffer2_real"].

Definition per_atom_long_buffers : list string :=
  ["selfVolumeBuffer_long"; "AccumulationBuffer1_long";
   "AccumulationBuffer2_long"].

(** No name of [l1] is in [l2]. *)
Definition apart (l1 l2 : list string) : Prop := Forall (fun x => x ∉ l2) l1.

(** [m] relates the state it starts from to the state it ends in by [R],
    whether it returns or throws. *)
Definition preserves (R : Kernel → Kernel → Prop) {A} (m : SE A) : Prop :=
  ∀ k r k', m k = (r, k') → R k k'.

(** What [execute] keeps of the kernel and of its context: the parameters,
    the flags of the force, the launch geometry of the context; the stream
    only grows and the forces are never made valid. *)
Definition step_frame (k k' : Kernel) : Prop :=
  radiusVector1 k' = radiusVector1 k ∧ radiusVector2 k' = radiusVector2 k ∧
  gammaVector1 k' = gammaVector1 k ∧ gammaVector2 k' = gammaVector2 k ∧
  ishydrogenVector k' = ishydrogenVector k ∧
  atom_ishydrogen k' = atom_ishydrogen k ∧
  numParticles k' = numParticles k ∧ roffset k' = roffset k ∧
  common_gamma k' = common_gamma k ∧ gvol_force k' = gvol_force k ∧
  useCutoff k' = useCutoff k ∧ usePeriodic k' = usePeriodic k ∧
  useExclusions k' = useExclusions k ∧
  cutoffDistance k' = cutoffDistance k ∧
  (∀ name, name ∈ parameter_arrays → arrays k' !! name = arrays k !! name) ∧
  contexts_size (cu k') = contexts_size (cu k) ∧
  numAtoms (cu k') = numAtoms (cu k) ∧
  paddedNumAtoms (cu k') = paddedNumAtoms (cu k) ∧
  nbUseCutoff (cu k') = nbUseCutoff (cu k) ∧
  interactingTilesSize (cu k') = interactingTilesSize (cu k) ∧
  forceThreadBlockSize (cu k') = forceThreadBlockSize (cu k) ∧
  numForceThreadBlocks (cu k') = numForceThreadBlocks (cu k) ∧
  (forcesValid (cu k') = true → forcesValid (cu k) = true) ∧
  stream (cu k) `prefix_of` stream (cu k').

(** The radius and hydrogen entries of atom [i] are those of particle [p],
    with the radius offset [R]. *)
Definition particle_stored (R : FP.double) (p : Particle) (i : Z) (k : Kernel)
  : Prop :=
  vget (radiusVector1 k) i =
    Ok (FP.float_of_double
          (FP.dadd (FP.double_of_float (FP.float_of_double (radius p))) R)) ∧
  vget (radiusVector2 k) i = Ok (FP.float_of_double (radius p)) ∧
  vget (ishydrogenVector k) i = Ok (if ishydrogen p then 1 else 0) ∧
  vget (atom_ishydrogen k) i = Ok (if ishydrogen p then 1 else 0).

(** The array [name] of the kernel has [size] elements and holds [d]. *)
Definition holds (k : Kernel) (name : string) (size : Z) (d : dev_data) : Prop :=
  arrays k !! name = Some {| arr_size := size; arr_data := d |}.

(** A tree that was resized [n] times after its construction. *)
Definition resized (n : nat) : ledger :=
  Nat.iter n resize_tree_buffers_ledger new_ledger.

(** Every pointer member points to a live array of its name, and the
    identifiers in use are below [next_id]. *)
Definition ledger_wf (l : ledger) : Prop :=
  (∀ name a, pointer l !! name = Some a → live l !! a = Some name) ∧
  (∀ a, is_Some (live l !! a) → (a < next_id l)%nat).

(** The members of [d] are the ones that are set, and [c] live arrays have no
    member pointing to them, all of them created for a name of [leaky]. *)
Definition accounted (leaky : list string) (l : ledger) (d : gset string)
    (c : nat) : Prop :=
  ledger_wf l ∧ dom (pointer l) = d ∧
  size (live l) = (size (pointer l) + c)%nat ∧
  ∀ a name, live l !! a = Some name → pointer l !! name ≠ Some a →
    name ∈ leaky.

(** The arrays a sequence of re-creations leaves behind, when the members of
    [d] are set before it. *)
Definition leak (g : delete_guard) (name : string) (d : gset string) : nat :=
  match g with
  | if_null => if bool_decide (name ∈ d) then 1%nat else 0%nat
  | if_set => 0%nat
  end.

Fixpoint leaks (d : gset string) (ops : list (delete_guard * string)) : nat :=
  match ops with
  | [] => 0%nat
  | gn :: ops' => (leak gn.1 gn.2 d + leaks ({[gn.2]} ∪ d) ops')%nat
  end.

Fixpoint touched (d : gset string) (ops : list (delete_guard * string))
  : gset string :=
  match ops with
  | [] => d
  | gn :: ops' => touched ({[gn.2]} ∪ d) ops'
  end.

(** The members set after a resize. *)
Definition tree_members : gset string := touched ∅ resize_allocations.

(** The plans created before the first answer that is not
    [CUFFT_SUCCESS]. *)
Fixpoint created_before_failure (members : list string) (results : string → Z)
  : list string :=
  match members with
  | [] => []
  | member :: members' =>
      if results member =? CUFFT_SUCCESS
      then member :: created_before_failure members' results
      else []
  end.

(** The first answer that is not [CUFFT_SUCCESS]. *)
Fixpoint first_failure (members : list string) (results : string → Z)
  : option Z :=
  match members with
  | [] => None
  | member :: members' =>
      if results member =? CUFFT_SUCCESS
      then first_failure members' results
      else Some (results member)
  end.

(** The members of the kernel that hold something after [initialize], and
    after [executeInitKernels]. *)
Definition initialized_members : gset string :=
  list_to_set (parameter_arrays ++
    ["gtree"; "downloadPanicButtonEvent"; "pinnedPanicButtonMemory"]).

Definition executed_members : gset string :=
  list_to_set ("PanicButton" :: kernel_arrays_of_init)
  ∪ (tree_members ∪ initialized_members).

(** The first tree with its buffers allocated for blocks of 4 threads, and
    after the copy to the device. *)
Definition first_resized : CudaOverlapTree :=
  Eval vm_compute in built (resize_tree_buffers 4 first_tree).

Definition first_on_device : CudaOverlapTree :=
  Eval vm_compute in built (copy_tree_to_device first_resized).

(** A kernel of five particles. *)
Definition five_particles : Kernel :=
  set_numParticles 5 (new_Kernel example_context example_memory).

(** The first system with the hydrogen turned into a heavy atom. *)
Definition example_force_heavy : AmoebaGKCavitationForce := {|
  particles := [ {| radius := ratio 17 10; gamma := ratio 2 10; ishydrogen := false |};
                 {| radius := ratio 12 10; gamma := ratio 2 10; ishydrogen := false |};
                 {| radius := ratio 15 10; gamma := ratio 2 10; ishydrogen := false |} ];
  getNonbondedMethod := NoCutoff;
  getCutoffDistance := FP.dzero;
|}.

(** * Properties *)

(** ** Outcomes, ints and vectors *)

Lemma bind_Ok {A B} (m : outcome A) (f : A → outcome B) (b : B) :
  m ≫= f = Ok b → ∃ a, m = Ok a ∧ f a = Ok b.
Proof. destruct m as [a|e]; simpl; [eauto | discriminate]. Qed.

Lemma ck_Ok z r : ck z = Ok r → r = z ∧ INT_MIN ≤ z ≤ INT_MAX.
Proof.
  unfold ck, int_ok.
  destruct (Z.leb_spec INT_MIN z), (Z.leb_spec z INT_MAX); simpl;
    try discriminate.
  intros [= <-]. lia.
Qed.

Lemma iadd_Ok a b r : iadd a b = Ok r → r = a + b ∧ INT_MIN ≤ a + b ≤ INT_MAX.
Proof. apply ck_Ok. Qed.

Lemma isub_Ok a b r : isub a b = Ok r → r = a - b ∧ INT_MIN ≤ a - b ≤ INT_MAX.
Proof. apply ck_Ok. Qed.

Lemma imul_Ok a b r : imul a b = Ok r → r = a * b ∧ INT_MIN ≤ a * b ≤ INT_MAX.
Proof. apply ck_Ok. Qed.

Lemma idiv_Ok a b r :
  idiv a b = Ok r → b ≠ 0 ∧ r = a ÷ b ∧ INT_MIN ≤ a ÷ b ≤ INT_MAX.
Proof.
  unfold idiv. destruct (Z.eqb_spec b 0); [discriminate|].
  intros H%ck_Ok. lia.
Qed.

Lemma vnew_Ok n v : vnew n = Ok v → 0 ≤ n ∧ v = replicate (Z.to_nat n) 0.
Proof.
  unfold vnew. destruct (Z.ltb_spec n 0); [discriminate|].
  intros [= <-]. split; [lia | done].
Qed.

Lemma vget_Ok {A} (v : list A) i x :
  vget v i = Ok x ↔ 0 ≤ i ∧ v !! Z.to_nat i = Some x.
Proof.
  unfold vget. destruct (Z.ltb_spec i 0).
  - split; [discriminate | lia].
  - destruct (v !! Z.to_nat i) as [y|]; split.
    + intros [= ->]. split; [lia | done].
    + intros [_ [= ->]]. done.
    + discriminate.
    + intros [_ [=]].
  Qed.

Lemma vget_lt {A} (v : list A) i x :
  vget v i = Ok x → 0 ≤ i < Z.of_nat (length v).
Proof. intros [? H%lookup_lt_Some]%vget_Ok. lia. Qed.

Lemma vget_is_Ok {A} (v : list A) i :
  0 ≤ i < Z.of_nat (length v) → ∃ x, vget v i = Ok x.
Proof.
  intros H. destruct (lookup_lt_is_Some_2 v (Z.to_nat i)) as [x Hx]; [lia|].
  exists x. apply vget_Ok. split; [lia | done].
Qed.

Lemma vset_Ok {A} (v v' : list A) i x :
  vset v i x = Ok v' →
  0 ≤ i < Z.of_nat (length v) ∧ v' = <[Z.to_nat i := x]> v.
Proof.
  unfold vset.
  destruct (Z.leb_spec 0 i), (Z.ltb_spec i (Z.of_nat (length v))); simpl;
    try discriminate.
  intros [= <-]. split; [lia | done].
Qed.

Lemma vset_length {A} (v v' : list A) i x :
  vset v i x = Ok v' → length v' = length v.
Proof. intros [_ ->]%vset_Ok. apply length_insert. Qed.

Lemma vget_vset_eq {A} (v v' : list A) i x :
  vset v i x = Ok v' → vget v' i = Ok x.
Proof.
  intros [Hi ->]%vset_Ok. apply vget_Ok. split; [lia|].
  apply list_lookup_insert_eq. lia.
Qed.

Lemma vget_vset_ne {A} (v v' : list A) i j x :
  vset v i x = Ok v' → i ≠ j → vget v' j = vget v j.
Proof.
  intros [Hi ->]%vset_Ok Hne. unfold vget.
  destruct (Z.ltb_spec j 0); [done|].
  rewrite list_lookup_insert_ne; [done | lia].
Qed.

Lemma vget_replicate n i x :
  vget (replicate n 0) i = Ok x → x = 0.
Proof. intros [_ [-> _]%lookup_replicate]%vget_Ok. done. Qed.

Lemma vget_inj {A} (v : list A) i x y :
  vget v i = Ok x → vget v i = Ok y → x = y.
Proof. congruence. Qed.

(** Take the binds of a successful run apart. *)
Ltac inv_ok :=
  repeat match goal with
    | H : _ ≫= _ = Ok _ |- _ =>
        let x := fresh "x" in
        let Hx := fresh "Hx" in
        apply bind_Ok in H; destruct H as (x & Hx & H)
    | H : mret _ = Ok _ |- _ => injection H as H
    | H : Ok _ = Ok _ |- _ => injection H as H
    | H : (let '(_, _) := ?p in _) = Ok _ |- _ => destruct p
    | H : Fail _ = Ok _ |- _ => discriminate H
    end.

(** ** Loops *)

Lemma for_loop_inv {A} (P : Z → A → Prop) (body : Z → A → outcome A) n :
  ∀ i a a',
    P i a →
    (∀ j x y, i ≤ j < i + Z.of_nat n → P j x → body j x = Ok y → P (j + 1) y) →
    for_loop i n body a = Ok a' →
    P (i + Z.of_nat n) a'.
Proof.
  induction n as [|n IH]; intros i a a' HP Hstep Hrun; simpl in Hrun.
  - injection Hrun as <-. by rewrite Z.add_0_r.
  - apply bind_Ok in Hrun as (a1 & Hb & Hrun).
    replace (i + Z.of_nat (S n)) with ((i + 1) + Z.of_nat n) by lia.
    apply (IH (i + 1) a1 a'); [|intros j x y Hj; apply Hstep; lia | done].
    apply (Hstep i a a1); [lia | done | done].
Qed.

Lemma for_range_inv {A} (P : Z → A → Prop) (body : Z → A → outcome A)
    lo hi a a' :
  lo ≤ hi →
  P lo a →
  (∀ j x y, lo ≤ j < hi → P j x → body j x = Ok y → P (j + 1) y) →
  for_range lo hi body a = Ok a' →
  P hi a'.
Proof.
  intros Hle HP Hstep Hrun. unfold for_range in Hrun.
  replace hi with (lo + Z.of_nat (Z.to_nat (hi - lo))) by lia.
  eapply for_loop_inv; [exact HP | | exact Hrun].
  intros j x y Hj. apply Hstep. lia.
Qed.

Lemma for_range_empty {A} (body : Z → A → outcome A) lo hi a a' :
  hi ≤ lo → for_range lo hi body a = Ok a' → a' = a.
Proof.
  intros Hle. unfold for_range.
  replace (Z.to_nat (hi - lo)) with 0%nat by lia. simpl. congruence.
Qed.

(** ** Exactness of the boost in double precision *)

Lemma digits2_pos_size p : digits2_pos p = Pos.size p.
Proof. induction p; simpl; congruence. Qed.

Lemma digits2_pos_iter_xO p k :
  digits2_pos (Pos.iter xO p k) = (digits2_pos p + k)%positive.
Proof.
  induction k using Pos.peano_ind.
  - simpl. lia.
  - rewrite Pos.iter_succ. simpl. rewrite IHk. lia.
Qed.

Lemma Zpos_iter_xO p k : Zpos (Pos.iter xO p k) = Zpos p * 2 ^ Zpos k.
Proof.
  induction k using Pos.peano_ind.
  - simpl. lia.
  - rewrite Pos.iter_succ, Pos2Z.inj_succ, Z.pow_succ_r by lia.
    rewrite Pos2Z.inj_xO, IHk. lia.
Qed.

Lemma iter_pos_eq {A} (f : A → A) n x :
  SpecFloat.iter_pos f n x = Pos.iter f x n.
Proof.
  revert x. induction n as [n IH|n IH|]; intros x; simpl.
  - rewrite !IH. by rewrite !Pos.iter_swap.
  - by rewrite !IH.
  - done.
Qed.

Lemma shr_exact m k :
  SpecFloat.iter_pos shr_1 k
    {| shr_m := Zpos (Pos.iter xO m k); shr_r := false; shr_s := false |} =
  {| shr_m := Zpos m; shr_r := false; shr_s := false |}.
Proof.
  rewrite iter_pos_eq. induction k using Pos.peano_ind.
  - done.
  - rewrite !Pos.iter_succ, <- Pos.iter_swap. exact IHk.
Qed.

Ltac fexp_lia := unfold fexp, emin; lia.

(** A mantissa of 53 bits is not rounded. *)
Lemma binary_round_aux_canonical s m e :
  digits2_pos m = 53%positive → -1074 ≤ e ≤ 971 →
  binary_round_aux 53 1024 s (Zpos m) e loc_Exact = S754_finite s m e.
Proof.
  intros Hd He. unfold binary_round_aux, shr_fexp. simpl Zdigits2. rewrite Hd.
  replace (fexp 53 1024 (53 + e) - e) with 0; [|fexp_lia].
  simpl. rewrite Hd.
  replace (fexp 53 1024 (53 + e) - e) with 0; [|fexp_lia].
  simpl. destruct (Z.leb_spec e (1024 - 53)); [done | lia].
Qed.

(** Trailing zeros of the mantissa are shifted out exactly. *)
Lemma binary_round_aux_shift s m k e :
  digits2_pos m = 53%positive → -1074 ≤ e + Zpos k ≤ 971 →
  binary_round_aux 53 1024 s (Zpos (Pos.iter xO m k)) e loc_Exact =
  S754_finite s m (e + Zpos k).
Proof.
  intros Hd He. unfold binary_round_aux, shr_fexp. simpl Zdigits2.
  rewrite digits2_pos_iter_xO, Hd.
  replace (fexp 53 1024 (Zpos (53 + k) + e) - e) with (Zpos k);
    [|fexp_lia].
  unfold shr at 1. simpl shr_record_of_loc. rewrite shr_exact. simpl.
  rewrite Hd.
  replace (fexp 53 1024 (53 + (e + Zpos k)) - (e + Zpos k)) with 0;
    [|fexp_lia].
  simpl. destruct (Z.leb_spec (e + Zpos k) (1024 - 53)); [done | lia].
Qed.

Lemma dmul_two m e :
  digits2_pos m = 53%positive → -1074 ≤ e + 1 ≤ 971 →
  FP.dmul (S754_finite false m e) FP.two = S754_finite false m (e + 1).
Proof.
  intros Hd He. unfold FP.dmul, FP.two, SFmul.
  replace (m * 4503599627370496)%positive with (Pos.iter xO m 52)
    by (rewrite Pos.mul_comm; reflexivity).
  rewrite binary_round_aux_shift by (done || lia).
  f_equal. lia.
Qed.

Lemma double_of_int_pos p :
  (digits2_pos p < 53)%positive →
  ∃ m, FP.double_of_int (Zpos p) =
         S754_finite false m (Zpos (digits2_pos p) - 53)
       ∧ digits2_pos m = 53%positive
       ∧ Zpos m = Zpos p * 2 ^ (53 - Zpos (digits2_pos p)).
Proof.
  intros Hd. unfold FP.double_of_int, binary_normalize, binary_round, shl_align.
  replace (fexp 53 1024 (Zpos (digits2_pos p) + 0) - 0)
    with (Zneg (53 - digits2_pos p)); [|fexp_lia].
  exists (Pos.iter xO p (53 - digits2_pos p)).
  assert (Hm : digits2_pos (Pos.iter xO p (53 - digits2_pos p)) = 53%positive)
    by (rewrite digits2_pos_iter_xO; lia).
  split; [|split; [done|]].
  - replace (fexp 53 1024 (Zpos (digits2_pos p) + 0))
      with (Zpos (digits2_pos p) - 53); [|fexp_lia].
    apply binary_round_aux_canonical; [done | lia].
  - rewrite Zpos_iter_xO. f_equal. f_equal. lia.
Qed.

Lemma digits2_pos_bound p n :
  Zpos p < 2 ^ Zpos n → (digits2_pos p <= n)%positive.
Proof.
  intros Hp. rewrite digits2_pos_size.
  destruct (Pos.leb_spec (Pos.size p) n) as [|Hlt]; [done|exfalso].
  pose proof (Pos.size_le p) as Hle.
  assert (2 ^ Zpos (Pos.size p) ≤ 2 * Zpos p) as H1.
  { change (2 * Zpos p) with (Zpos p~0).
    rewrite <- Pos2Z.inj_pow. by apply Pos2Z.pos_le_pos. }
  assert (2 ^ (Zpos n + 1) ≤ 2 ^ Zpos (Pos.size p)) as H2
    by (apply Z.pow_le_mono_r; lia).
  rewrite Z.pow_add_r in H2 by lia. lia.
Qed.

(** [tsize *= tree_size_boost] with the default boost doubles [tsize]. *)
Lemma boosted_two x :
  1 ≤ x < 2 ^ 52 → boosted x FP.two = ck (2 * x).
Proof.
  intros [Hx1 Hx2]. destruct x as [|p|p]; try lia.
  pose proof (digits2_pos_bound p 52 Hx2) as Hd.
  destruct (double_of_int_pos p) as (m & Hm & Hdm & Hval); [lia|].
  unfold boosted. rewrite Hm, dmul_two by (done || lia).
  unfold FP.int_of_double. f_equal.
  remember (Zpos (digits2_pos p) - 53 + 1) as e eqn:He.
  destruct e as [|q|q]; try lia.
  - rewrite Z.shiftl_0_r, Hval.
    replace (53 - Zpos (digits2_pos p)) with 1 by lia. lia.
  - rewrite Z.shiftr_div_pow2 by lia. rewrite Hval.
    replace (53 - Zpos (digits2_pos p)) with (1 + Zpos q) by lia.
    rewrite Z.pow_add_r by lia.
    rewrite Z.mul_assoc, Z.div_mul by lia. lia.
Qed.

(** ** Tactics for the loops *)

(** Turn the checked int operations of a successful run into equations. *)
Ltac arith_ok :=
  repeat match goal with
    | H : iadd _ _ = Ok _ |- _ => apply iadd_Ok in H as [-> ?]
    | H : isub _ _ = Ok _ |- _ => apply isub_Ok in H as [-> ?]
    | H : imul _ _ = Ok _ |- _ => apply imul_Ok in H as [-> ?]
    | H : idiv _ _ = Ok _ |- _ => apply idiv_Ok in H as (? & -> & ?)
    | H : (if ?a <? ?b then _ else _) = Ok _ |- _ =>
        destruct (Z.ltb_spec a b)
    | H : Ok _ = Ok _ |- _ => injection H as H; try subst
    end.

(** [loop_invariant P in H as Hinv]: from a successful run [H] of a
    [for_range], the invariant [P] at the exit, after the goals
    [lo ≤ hi], [P lo a] and the preservation of [P] by the body. *)
Tactic Notation "loop_invariant" constr(P) "in" hyp(H) "as" ident(Hinv) :=
  pose proof (fun Hle Hinit Hstep =>
                for_range_inv P _ _ _ _ _ Hle Hinit Hstep H) as Hinv;
  cbv beta in Hinv;
  match type of Hinv with
  | ?A → ?B → ?C → _ =>
      let H1 := fresh in
      let H2 := fresh in
      let H3 := fresh in
      assert (H1 : A);
      [ clear Hinv
      | assert (H2 : B);
          [ clear Hinv H1
          | assert (H3 : C);
              [ clear Hinv H1 H2
              | specialize (Hinv H1 H2 H3); clear H1 H2 H3 ] ] ]
  end.

(** ** The loops of [init_tree_size] *)

Lemma budget_loop_spec n saved cur v :
  budget_loop n saved cur = Ok v →
  0 ≤ n ∧ length v = Z.to_nat n ∧
  ∀ i, 0 ≤ i < n →
    ∃ s c, vget saved i = Ok s ∧ vget cur i = Ok c ∧
           vget v i = Ok (Z.max s (c + 1)).
Proof.
  unfold budget_loop. intros H. inv_ok. apply vnew_Ok in Hx as [Hn ->].
  split; [done|].
  eapply (for_range_inv (fun j w =>
    length w = Z.to_nat n ∧
    ∀ i, 0 ≤ i < j → ∃ s c, vget saved i = Ok s ∧ vget cur i = Ok c ∧
                       vget w i = Ok (Z.max s (c + 1)))) in H; [done|lia| |].
  - split; [by rewrite length_replicate | intros; lia].
  - clear H. intros j w w' Hj [Hlen Hall] Hb. inv_ok.
    split; [by erewrite vset_length|].
    intros i Hi. destruct (decide (i = j)) as [->|Hne].
    + do 2 eexists. split; [eassumption|]. split; [eassumption|].
      rewrite (vget_vset_eq _ _ _ _ Hb). f_equal. arith_ok; lia.
    + destruct (Hall i) as (s & c & ? & ? & ?); [lia|].
      exists s, c. by rewrite (vget_vset_ne _ _ _ _ _ Hb) by lia.
Qed.

Lemma save_loop_spec n noverlaps saved sv :
  save_loop n noverlaps saved = Ok sv →
  length sv = length saved ∧
  ∀ i, 0 ≤ i < n → ∃ x, vget noverlaps i = Ok x ∧ vget sv i = Ok x.
Proof.
  unfold save_loop. intros H.
  destruct (Z.le_gt_cases 0 n) as [Hn|Hn].
  - eapply (for_range_inv (fun j w =>
      length w = length saved ∧
      ∀ i, 0 ≤ i < j → ∃ x, vget noverlaps i = Ok x ∧ vget w i = Ok x))
      in H; [done|lia| |].
    + split; [done | intros; lia].
    + clear H. intros j w w' Hj [Hlen Hall] Hb. inv_ok.
      split; [by erewrite vset_length|].
      intros i Hi. destruct (decide (i = j)) as [->|Hne].
      * eexists. split; [eassumption|]. by rewrite (vget_vset_eq _ _ _ _ Hb).
      * destruct (Hall i) as (y & ? & ?); [lia|].
        exists y. by rewrite (vget_vset_ne _ _ _ _ _ Hb) by lia.
  - apply for_range_empty in H as ->; [|lia]. split; [done | intros; lia].
Qed.

Lemma sumZ_app l1 l2 : sumZ (l1 ++ l2) = sumZ l1 + sumZ l2.
Proof. induction l1 as [|x l1 IH]; simpl; lia. Qed.

Lemma take_succ_vget {A} (l : list A) i x :
  vget l i = Ok x → take (Z.to_nat (i + 1)) l = take (Z.to_nat i) l ++ [x].
Proof.
  intros [Hi Hx]%vget_Ok.
  replace (Z.to_nat (i + 1)) with (S (Z.to_nat i)) by lia.
  by apply take_S_r.
Qed.

Lemma prefix_loop_spec n noverlaps ps :
  prefix_loop n noverlaps = Ok ps →
  0 ≤ n ∧
  ∀ i, 0 ≤ i ≤ n → vget ps i = Ok (sumZ (take (Z.to_nat i) noverlaps)).
Proof.
  unfold prefix_loop. intros H. inv_ok. arith_ok.
  apply vnew_Ok in Hx0 as [Hn ->].
  assert (Hlo : 1 ≤ n + 1 ∨ n + 1 = 0) by lia. destruct Hlo as [Hlo|Hlo].
  2:{ apply vset_Ok in Hx1 as [Hlt _]. rewrite length_replicate in Hlt. lia. }
  split; [lia|].
  loop_invariant (fun j w =>
    ∀ i, 0 ≤ i < j → vget w i = Ok (sumZ (take (Z.to_nat i) noverlaps)))
    in H as Hinv.
  - lia.
  - intros i Hi. assert (i = 0) as -> by lia.
    by rewrite (vget_vset_eq _ _ _ _ Hx1).
  - clear H. intros j w w' Hj Hall Hb.
    apply bind_Ok in Hb as (a & Ha & Hb). apply bind_Ok in Hb as (b & Hw & Hb).
    apply bind_Ok in Hb as (c & Hc & Hb). arith_ok.
    intros i Hi. destruct (decide (i = j)) as [->|Hne].
    + rewrite (vget_vset_eq _ _ _ _ Hb). f_equal.
      rewrite (Hall (j - 1)) in Hw by lia. injection Hw as <-.
      replace (Z.to_nat j) with (Z.to_nat ((j - 1) + 1)) by (f_equal; lia).
      rewrite (take_succ_vget _ _ _ Ha), sumZ_app. simpl. lia.
    + rewrite (vget_vset_ne _ _ _ _ _ Hb) by lia. apply Hall. lia.
  - intros i Hi. apply Hinv. lia.
Qed.

Lemma max_loop_spec n noverlaps m :
  max_loop n noverlaps = Ok m →
  0 ≤ m ∧ ∀ i x, 0 ≤ i < n → vget noverlaps i = Ok x → x ≤ m.
Proof.
  unfold max_loop. intros H.
  destruct (Z.le_gt_cases 0 n) as [Hn|Hn].
  - eapply (for_range_inv (fun j mx =>
      0 ≤ mx ∧ ∀ i x, 0 ≤ i < j → vget noverlaps i = Ok x → x ≤ mx))
      in H; [done|lia| |].
    + split; [lia | intros; lia].
    + clear H. intros j mx mx' Hj [Hpos Hall] Hb.
      apply bind_Ok in Hb as (x & Hx & Hb). injection Hb as <-.
      split; [destruct (Z.ltb_spec mx x); lia|].
      intros i y Hi Hy. destruct (decide (i = j)) as [->|Hne].
      * assert (y = x) as -> by congruence. destruct (Z.ltb_spec mx x); lia.
      * specialize (Hall i y ltac:(lia) Hy). destruct (Z.ltb_spec mx x); lia.
  - apply for_range_empty in H as ->; [|lia]. split; [lia | intros; lia].
Qed.

Lemma per_section_load_spec S total mx L :
  per_section_load S total mx = Ok L → mx ≤ L.
Proof.
  unfold per_section_load. intros H.
  apply bind_Ok in H as (q & _ & H). injection H as <-.
  destruct (Z.ltb_spec q mx); lia.
Qed.

Lemma occ_app s l1 l2 : occ s (l1 ++ l2) = occ s l1 + occ s l2.
Proof. induction l1 as [|x l1 IH]; simpl; lia. Qed.

Lemma occ_snoc s l x : occ s (l ++ [x]) = occ s l + (if x =? s then 1 else 0).
Proof. rewrite occ_app. simpl. lia. Qed.

Lemma occ_nonneg s l : 0 ≤ occ s l.
Proof. induction l as [|x l IH]; simpl; [lia | destruct (x =? s); lia]. Qed.

Lemma vget_replicate_in n i :
  0 ≤ i < n → vget (replicate (Z.to_nat n) 0) i = Ok 0.
Proof.
  intros Hi. apply vget_Ok. split; [lia|].
  apply lookup_replicate. split; [done | lia].
Qed.

Lemma take_vset_ge {A} (v v' : list A) i x k :
  vset v i x = Ok v' → k ≤ i → take (Z.to_nat k) v' = take (Z.to_nat k) v.
Proof.
  intros [Hi ->]%vset_Ok Hk. apply take_insert_ge. lia.
Qed.

Lemma assign_loop_spec n S L ps cua nat tot :
  assign_loop n S L ps = Ok (cua, nat, tot) →
  0 ≤ n ∧ 0 ≤ S ∧ length cua = Z.to_nat n ∧ length nat = Z.to_nat S ∧
  tot = n ∧ (0 < n → L ≠ 0) ∧
  (∀ i, 0 ≤ i < n →
     ∃ p, vget ps i = Ok p ∧ vget cua i = Ok (p ÷ L) ∧ 0 ≤ p ÷ L < S) ∧
  (∀ s, 0 ≤ s < S → vget nat s = Ok (occ s cua)).
Proof.
  unfold assign_loop. intros H.
  apply bind_Ok in H as (cu0 & [Hn ->]%vnew_Ok & H).
  apply bind_Ok in H as (nat0 & [HS ->]%vnew_Ok & H).
  loop_invariant (fun j (st : list Z * list Z * Z) =>
    let '(c, m, t) := st in
    length c = Z.to_nat n ∧ length m = Z.to_nat S ∧ t = j ∧
    (0 < j → L ≠ 0) ∧
    (∀ i, 0 ≤ i < j →
       ∃ p, vget ps i = Ok p ∧ vget c i = Ok (p ÷ L) ∧ 0 ≤ p ÷ L < S) ∧
    (∀ s, 0 ≤ s < S → vget m s = Ok (occ s (take (Z.to_nat j) c))))
    in H as Hinv.
  - done.
  - simpl. rewrite !length_replicate.
    split; [done|]. split; [done|]. split; [done|]. split; [lia|].
    split; [intros; lia|]. intros s Hs. by apply vget_replicate_in.
  - clear H. intros j [[c m] t] [[c' m'] t'] Hj
      (Hc & Hm & -> & HL & Hall & Hocc) Hb.
    apply bind_Ok in Hb as (p & Hp & Hb).
    apply bind_Ok in Hb as (sec & Hsec & Hb).
    apply bind_Ok in Hb as (c1 & Hc1 & Hb).
    apply bind_Ok in Hb as (k & Hk & Hb).
    apply bind_Ok in Hb as (k1 & Hk1 & Hb).
    apply bind_Ok in Hb as (m1 & Hm1 & Hb).
    apply bind_Ok in Hb as (t1 & Ht1 & Hb).
    injection Hb as <- <- <-. arith_ok.
    pose proof (vget_lt _ _ _ Hk) as Hsec.
    split; [by rewrite (vset_length _ _ _ _ Hc1)|].
    split; [by rewrite (vset_length _ _ _ _ Hm1)|].
    split; [done|]. split; [done|]. split.
    + intros i Hi. destruct (decide (i = j)) as [->|Hne].
      * exists p. rewrite (vget_vset_eq _ _ _ _ Hc1). split; [done|].
        split; [done | lia].
      * destruct (Hall i) as (q & ? & ? & ?); [lia|]. exists q.
        by rewrite (vget_vset_ne _ _ _ _ _ Hc1) by lia.
    + intros s Hs.
      rewrite (take_succ_vget _ _ _ (vget_vset_eq _ _ _ _ Hc1)), occ_snoc.
      rewrite (take_vset_ge _ _ _ _ _ Hc1) by lia.
      destruct (Z.eqb_spec (p ÷ L) s) as [<-|Hne].
      * rewrite (vget_vset_eq _ _ _ _ Hm1). f_equal.
        rewrite (Hocc (p ÷ L)) in Hk by lia. injection Hk as <-. lia.
      * rewrite (vget_vset_ne _ _ _ _ _ Hm1) by done.
        rewrite Hocc by lia. f_equal. lia.
  - simpl in Hinv. destruct Hinv as (Hc & Hm & -> & HL & Hall & Hocc).
    repeat split; try done.
    intros s Hs. rewrite Hocc by done. f_equal. f_equal. apply take_ge. lia.
Qed.

Lemma section_budget_snoc s us xs u x :
  length us = length xs →
  section_budget s (us ++ [u]) (xs ++ [x]) =
  section_budget s us xs + (if u =? s then x else 0).
Proof.
  revert xs. induction us as [|u' us IH]; intros [|x' xs] Hlen;
    simpl in *; try discriminate; [lia|].
  rewrite IH by lia. lia.
Qed.

Lemma size_loop_spec n S cua nov raw :
  size_loop n S cua nov = Ok raw →
  0 ≤ n → length cua = Z.to_nat n → length nov = Z.to_nat n →
  length raw = Z.to_nat S ∧
  (∀ s, 0 ≤ s < S → vget raw s = Ok (section_budget s cua nov)) ∧
  (∀ s x, vget raw s = Ok x → INT_MIN ≤ x ≤ INT_MAX).
Proof.
  unfold size_loop. intros H Hn Hcua Hnov.
  apply bind_Ok in H as (ss0 & [HS ->]%vnew_Ok & H).
  loop_invariant (fun j w =>
    length w = Z.to_nat S ∧
    (∀ s, 0 ≤ s < S →
       vget w s = Ok (section_budget s (take (Z.to_nat j) cua)
                                       (take (Z.to_nat j) nov))) ∧
    (∀ s x, vget w s = Ok x → INT_MIN ≤ x ≤ INT_MAX))
    in H as Hinv.
  - done.
  - split; [by rewrite length_replicate|]. split.
    + intros s Hs. by apply vget_replicate_in.
    + intros s x ->%vget_replicate. unfold INT_MIN, INT_MAX. lia.
  - clear H. intros j w w' Hj (Hlen & Hsum & Hrange) Hb.
    apply bind_Ok in Hb as (sec & Hsec & Hb).
    apply bind_Ok in Hb as (x & Hx & Hb).
    apply bind_Ok in Hb as (c & Hc & Hb).
    apply bind_Ok in Hb as (y & Hy & Hb). arith_ok.
    pose proof (vget_lt _ _ _ Hx) as Hin.
    split; [by rewrite (vset_length _ _ _ _ Hb)|]. split.
    + intros s Hs.
      rewrite (take_succ_vget _ _ _ Hsec), (take_succ_vget _ _ _ Hc).
      rewrite section_budget_snoc by (rewrite !length_take_le; lia).
      destruct (Z.eqb_spec sec s) as [<-|Hne].
      * rewrite (vget_vset_eq _ _ _ _ Hb). f_equal.
        rewrite (Hsum sec) in Hx by lia. injection Hx as <-. done.
      * rewrite (vget_vset_ne _ _ _ _ _ Hb) by done.
        rewrite Hsum by done. f_equal. lia.
    + intros s z Hz. destruct (decide (s = sec)) as [->|Hne].
      * rewrite (vget_vset_eq _ _ _ _ Hb) in Hz. injection Hz as <-. done.
      * rewrite (vget_vset_ne _ _ _ _ _ Hb) in Hz by done. eauto.
  - destruct Hinv as (Hlen & Hsum & Hrange). split; [done|]. split; [|done].
    intros s Hs. rewrite Hsum by done.
    by rewrite !take_ge by lia.
Qed.

Lemma pad_loop_spec S M boost raw ss :
  pad_loop S M boost raw = Ok ss →
  length ss = length raw ∧
  ∀ s, 0 ≤ s < S →
    ∃ x t p, vget raw s = Ok x ∧ boosted (Z.max 1 x) boost = Ok t ∧
             padded_size t M = Ok p ∧ vget ss s = Ok p.
Proof.
  unfold pad_loop. intros H.
  destruct (Z.le_gt_cases 0 S) as [HS|HS].
  2:{ apply for_range_empty in H as ->; [|lia]. split; [done | intros; lia]. }
  loop_invariant (fun j w =>
    length w = length raw ∧
    (∀ s, 0 ≤ s < j →
       ∃ x t p, vget raw s = Ok x ∧ boosted (Z.max 1 x) boost = Ok t ∧
                padded_size t M = Ok p ∧ vget w s = Ok p) ∧
    (∀ s, j ≤ s → vget w s = vget raw s))
    in H as Hinv.
  - done.
  - split; [done|]. split; [intros; lia | done].
  - clear H. intros j w w' Hj (Hlen & Hdone & Hrest) Hb.
    apply bind_Ok in Hb as (x & Hx & Hb).
    apply bind_Ok in Hb as (t & Ht & Hb).
    apply bind_Ok in Hb as (p & Hp & Hb).
    split; [by rewrite (vset_length _ _ _ _ Hb)|]. split.
    + intros s Hs. destruct (decide (s = j)) as [->|Hne].
      * exists x, t, p. rewrite <- Hrest by lia. split; [done|].
        split; [|split; [done | by rewrite (vget_vset_eq _ _ _ _ Hb)]].
        rewrite <- Ht. f_equal. destruct (Z.ltb_spec x 1); lia.
      * destruct (Hdone s) as (x' & t' & p' & ? & ? & ? & ?); [lia|].
        exists x', t', p'. by rewrite (vget_vset_ne _ _ _ _ _ Hb) by lia.
    + intros s Hs. rewrite (vget_vset_ne _ _ _ _ _ Hb) by lia.
      apply Hrest. lia.
  - destruct Hinv as (Hlen & Hdone & _). done.
Qed.

Lemma pointer_loop_spec S ss tp off :
  pointer_loop S ss = Ok (tp, off) →
  0 ≤ S ∧ length tp = Z.to_nat S ∧ off = sumZ (take (Z.to_nat S) ss) ∧
  ∀ s, 0 ≤ s < S → vget tp s = Ok (sumZ (take (Z.to_nat s) ss)).
Proof.
  unfold pointer_loop. intros H.
  apply bind_Ok in H as (tp0 & [HS ->]%vnew_Ok & H).
  loop_invariant (fun j (st : list Z * Z) =>
    let '(w, o) := st in
    length w = Z.to_nat S ∧ o = sumZ (take (Z.to_nat j) ss) ∧
    ∀ s, 0 ≤ s < j → vget w s = Ok (sumZ (take (Z.to_nat s) ss)))
    in H as Hinv.
  - done.
  - simpl. rewrite length_replicate. split; [done|]. split; [done|].
    intros; lia.
  - clear H. intros j [w o] [w' o'] Hj (Hlen & -> & Hall) Hb.
    apply bind_Ok in Hb as (w1 & Hw1 & Hb).
    apply bind_Ok in Hb as (x & Hx & Hb).
    apply bind_Ok in Hb as (o1 & Ho1 & Hb).
    injection Hb as <- <-. arith_ok.
    split; [by rewrite (vset_length _ _ _ _ Hw1)|]. split.
    + rewrite (take_succ_vget _ _ _ Hx), sumZ_app. simpl. lia.
    + intros s Hs. destruct (decide (s = j)) as [->|Hne].
      * by rewrite (vget_vset_eq _ _ _ _ Hw1).
      * rewrite (vget_vset_ne _ _ _ _ _ Hw1) by lia. apply Hall. lia.
  - simpl in Hinv. destruct Hinv as (Hlen & -> & Hall). done.
Qed.

Lemma slot_loop_spec section ao total natoms tp atp atp' :
  slot_loop section ao total natoms tp atp = Ok atp' →
  ∃ cnt, vget natoms section = Ok cnt ∧ length atp' = length atp ∧
    (∀ i, 0 ≤ i < cnt → ao + i < total →
       ∃ p, vget tp section = Ok p ∧ vget atp' (ao + i) = Ok (p + i)) ∧
    (∀ idx, idx < ao ∨ ao + cnt ≤ idx → vget atp' idx = vget atp idx).
Proof.
  unfold slot_loop. intros H.
  apply bind_Ok in H as (cnt & Hcnt & H). exists cnt. split; [done|].
  destruct (Z.le_gt_cases 0 cnt) as [Hc|Hc].
  2:{ apply for_range_empty in H as ->; [|lia].
      split; [done|]. split; [intros; lia | done]. }
  loop_invariant (fun j w =>
    length w = length atp ∧
    (∀ i, 0 ≤ i < j → ao + i < total →
       ∃ p, vget tp section = Ok p ∧ vget w (ao + i) = Ok (p + i)) ∧
    (∀ idx, idx < ao ∨ ao + j ≤ idx → vget w idx = vget atp idx))
    in H as Hinv.
  - done.
  - split; [done|]. split; [intros; lia | done].
  - clear H. intros j w w' Hj (Hlen & Hdone & Hrest) Hb.
    apply bind_Ok in Hb as (iat & Hiat & Hb).
    apply bind_Ok in Hb as (p & Hp & Hb).
    apply bind_Ok in Hb as (slot & Hslot & Hb). arith_ok.
    + (* iat < total_atoms_in_tree: the slot is written *)
      split; [by rewrite (vset_length _ _ _ _ Hb)|]. split.
      * intros i Hi Hlt. destruct (decide (i = j)) as [->|Hne].
        -- exists p. by rewrite (vget_vset_eq _ _ _ _ Hb).
        -- destruct (Hdone i) as (q & ? & ?); [lia|lia|]. exists q.
           by rewrite (vget_vset_ne _ _ _ _ _ Hb) by lia.
      * intros idx Hidx. rewrite (vget_vset_ne _ _ _ _ _ Hb) by lia.
        apply Hrest. lia.
    + split; [done|]. split.
      * intros i Hi Hlt. apply Hdone; lia.
      * intros idx Hidx. apply Hrest. lia.
  - destruct Hinv as (Hlen & Hdone & Hrest). done.
Qed.

Lemma sumZ_take_succ l s x :
  vget l s = Ok x →
  sumZ (take (Z.to_nat (s + 1)) l) = sumZ (take (Z.to_nat s) l) + x.
Proof. intros H. rewrite (take_succ_vget _ _ _ H), sumZ_app. simpl. lia. Qed.

Lemma sumZ_take_mono (l : list Z) (a b : nat) :
  Forall (fun x => 0 ≤ x) l → (a ≤ b)%nat →
  sumZ (take a l) ≤ sumZ (take b l).
Proof.
  intros Hl. revert a b.
  induction Hl as [|x l Hx Hl IH]; intros a b Hab.
  - by rewrite !take_nil.
  - destruct a as [|a], b as [|b]; simpl; try lia.
    + specialize (IH 0%nat b ltac:(lia)). rewrite take_0 in IH. simpl in IH. lia.
    + specialize (IH a b ltac:(lia)). lia.
Qed.

Lemma vget_Forall {A} (P : A → Prop) (l : list A) :
  (∀ s x, vget l s = Ok x → P x) → Forall P l.
Proof.
  intros H. apply Forall_lookup. intros i x Hix.
  apply (H (Z.of_nat i)). apply vget_Ok. split; [lia|]. by rewrite Nat2Z.id.
Qed.

Lemma layout_loop_spec S padded total ss natoms tp a :
  layout_loop S padded total ss natoms tp = Ok a →
  (∀ s x, vget natoms s = Ok x → 0 ≤ x) →
  0 ≤ S ∧ length (l_atom_tree_pointer a) = Z.to_nat padded ∧
  length (l_padded_tree_size a) = Z.to_nat S ∧
  l_total_tree_size a = sumZ (take (Z.to_nat S) ss) ∧
  l_atom_offset a = sumZ (take (Z.to_nat S) natoms) ∧
  (∀ s, 0 ≤ s < S →
     vget (l_first_atom a) s = Ok (sumZ (take (Z.to_nat s) natoms)) ∧
     vget (l_padded_tree_size a) s = vget ss s ∧
     vget (l_tree_size a) s = Ok 0) ∧
  (∀ s cnt i, 0 ≤ s < S → vget natoms s = Ok cnt → 0 ≤ i < cnt →
     sumZ (take (Z.to_nat s) natoms) + i < total →
     ∃ p, vget tp s = Ok p ∧
          vget (l_atom_tree_pointer a)
               (sumZ (take (Z.to_nat s) natoms) + i) = Ok (p + i)).
Proof.
  unfold layout_loop. intros H Hpos.
  apply bind_Ok in H as (ts0 & [HS ->]%vnew_Ok & H).
  apply bind_Ok in H as (pts0 & [_ ->]%vnew_Ok & H).
  apply bind_Ok in H as (atp0 & [Hpad ->]%vnew_Ok & H).
  apply bind_Ok in H as (fa0 & [_ ->]%vnew_Ok & H).
  pose proof (vget_Forall _ _ Hpos) as Hall.
  loop_invariant (fun j b =>
    length (l_atom_tree_pointer b) = Z.to_nat padded ∧
    length (l_padded_tree_size b) = Z.to_nat S ∧
    l_total_tree_size b = sumZ (take (Z.to_nat j) ss) ∧
    l_atom_offset b = sumZ (take (Z.to_nat j) natoms) ∧
    (∀ s, 0 ≤ s < j →
       vget (l_first_atom b) s = Ok (sumZ (take (Z.to_nat s) natoms)) ∧
       vget (l_padded_tree_size b) s = vget ss s ∧
       vget (l_tree_size b) s = Ok 0) ∧
    (∀ s cnt i, 0 ≤ s < j → vget natoms s = Ok cnt → 0 ≤ i < cnt →
       sumZ (take (Z.to_nat s) natoms) + i < total →
       ∃ p, vget tp s = Ok p ∧
            vget (l_atom_tree_pointer b)
                 (sumZ (take (Z.to_nat s) natoms) + i) = Ok (p + i)))
    in H as Hinv.
  - done.
  - simpl. rewrite !length_replicate. repeat split; try done; intros; lia.
  - clear H. intros j b b' Hj (Hlen & Hplen & Htot & Hoff & Hsec & Hatp) Hb.
    apply bind_Ok in Hb as (ts & Hts & Hb).
    apply bind_Ok in Hb as (x & Hx & Hb).
    apply bind_Ok in Hb as (pts & Hpts & Hb).
    apply bind_Ok in Hb as (fa & Hfa & Hb).
    apply bind_Ok in Hb as (atp & Hslots & Hb).
    apply bind_Ok in Hb as (tts & Htts & Hb).
    apply bind_Ok in Hb as (cnt & Hcnt & Hb).
    apply bind_Ok in Hb as (ao & Hao & Hb).
    injection Hb as <-. simpl. arith_ok.
    apply slot_loop_spec in Hslots
      as (cnt' & Hcnt' & Hlen' & Hnew & Hold).
    assert (cnt' = cnt) as -> by congruence.
    split; [congruence|].
    split; [by rewrite (vset_length _ _ _ _ Hpts)|].
    split; [rewrite (sumZ_take_succ _ _ _ Hx); lia|].
    split; [rewrite (sumZ_take_succ _ _ _ Hcnt); lia|]. split.
    + intros s Hs. destruct (decide (s = j)) as [->|Hne].
      * rewrite (vget_vset_eq _ _ _ _ Hfa), (vget_vset_eq _ _ _ _ Hpts),
          (vget_vset_eq _ _ _ _ Hts). split; [by rewrite Hoff|done].
      * rewrite (vget_vset_ne _ _ _ _ _ Hfa), (vget_vset_ne _ _ _ _ _ Hpts),
          (vget_vset_ne _ _ _ _ _ Hts) by lia. apply Hsec. lia.
    + intros s c i Hs Hc Hi Hlt. destruct (decide (s = j)) as [->|Hne].
      * assert (c = cnt) as -> by congruence.
        rewrite <- Hoff. apply Hnew; [done|]. by rewrite Hoff.
      * destruct (Hatp s c i) as (p & Hp & Hv); [lia|done|done|done|].
        exists p. split; [done|]. rewrite Hold; [done|]. left.
        rewrite Hoff.
        pose proof (sumZ_take_mono natoms (Z.to_nat (s + 1)) (Z.to_nat j)
                      Hall ltac:(lia)) as Hmono.
        rewrite (sumZ_take_succ _ _ _ Hc) in Hmono. lia.
  - destruct Hinv as (Hlen & Hplen & Htot & Hoff & Hsec & Hatp). done.
Qed.

(** ** What [init_tree_size] computes *)

Lemma init_sizing_spec t n ncu M cur z :
  init_sizing t n ncu M cur = Ok z →
  let saved0 := if has_saved_noverlaps t then saved_noverlaps t
                else replicate (Z.to_nat n) 0 in
  let L := s_n_overlaps_per_section z in
  0 ≤ n ∧ 0 ≤ ncu ∧ 0 ≤ L ∧ (0 < n → L ≠ 0) ∧
  length (s_noverlaps z) = Z.to_nat n ∧
  length (s_compute_unit_of_atom z) = Z.to_nat n ∧
  length (s_natoms_in_tree z) = Z.to_nat ncu ∧
  length (s_section_size z) = Z.to_nat ncu ∧
  length (s_saved z) = length saved0 ∧
  s_total_atoms_in_tree z = n ∧
  (∀ i, 0 ≤ i < n →
     ∃ s c, vget saved0 i = Ok s ∧ vget cur i = Ok c ∧
            vget (s_noverlaps z) i = Ok (Z.max s (c + 1)) ∧
            vget (s_saved z) i = Ok (Z.max s (c + 1))) ∧
  (∀ i, 0 ≤ i < n →
     vget (s_compute_unit_of_atom z) i =
       Ok (sumZ (take (Z.to_nat i) (s_noverlaps z)) ÷ L) ∧
     0 ≤ sumZ (take (Z.to_nat i) (s_noverlaps z)) ÷ L < ncu) ∧
  (∀ s, 0 ≤ s < ncu →
     vget (s_natoms_in_tree z) s = Ok (occ s (s_compute_unit_of_atom z))) ∧
  (∀ s, 0 ≤ s < ncu →
     let raw := section_budget s (s_compute_unit_of_atom z) (s_noverlaps z) in
     vget (s_raw_section_size z) s = Ok raw ∧ INT_MIN ≤ raw ≤ INT_MAX ∧
     ∃ b p, boosted (Z.max 1 raw) (tree_size_boost t) = Ok b ∧
            padded_size b M = Ok p ∧ vget (s_section_size z) s = Ok p).
Proof.
  unfold init_sizing. intros H.
  apply bind_Ok in H as (saved0' & Hsaved0 & H).
  apply bind_Ok in H as (nov & Hnov & H).
  apply bind_Ok in H as (saved & Hsaved & H).
  apply bind_Ok in H as (ps & Hps & H).
  apply bind_Ok in H as (total & Htotal & H).
  apply bind_Ok in H as (mx & Hmx & H).
  apply bind_Ok in H as (L & HL & H).
  apply bind_Ok in H as ([[cua natoms] tot] & Hassign & H).
  apply bind_Ok in H as (raw & Hraw & H).
  apply bind_Ok in H as (ss & Hss & H).
  injection H as <-. simpl.
  apply budget_loop_spec in Hnov as (Hn & Hnovlen & Hbudget).
  assert (saved0' = if has_saved_noverlaps t then saved_noverlaps t
                    else replicate (Z.to_nat n) 0) as Hs0.
  { destruct (has_saved_noverlaps t); [congruence|].
    by apply vnew_Ok in Hsaved0 as [_ ->]. }
  rewrite <- Hs0. clear Hs0 Hsaved0.
  apply save_loop_spec in Hsaved as (Hsavedlen & Hsavedall).
  apply prefix_loop_spec in Hps as (_ & Hpsall).
  apply max_loop_spec in Hmx as (Hmx0 & Hmxall).
  apply per_section_load_spec in HL.
  apply assign_loop_spec in Hassign
    as (_ & HS & Hcualen & Hnatlen & -> & HLne & Hcua & Hocc).
  apply size_loop_spec in Hraw as (Hrawlen & Hrawall & Hrawrange);
    [|done|done|done].
  apply pad_loop_spec in Hss as (Hsslen & Hssall).
  repeat (split; [first [done | lia]|]).
  split; [|split; [|split; [done|]]].
  - intros i Hi. destruct (Hbudget i Hi) as (s & c & Hs & Hc & Hv).
    destruct (Hsavedall i Hi) as (x & Hx1 & Hx2).
    exists s, c. repeat split; try done. congruence.
  - intros i Hi. destruct (Hcua i Hi) as (p & Hp & Hv & Hr).
    rewrite Hpsall in Hp by lia. injection Hp as <-. done.
  - intros s Hs. destruct (Hssall s Hs) as (x & b & p & Hx & Hb & Hp & Hv).
    rewrite Hrawall in Hx by done. injection Hx as <-.
    split; [by apply Hrawall|]. split; [|by exists b, p].
    apply (Hrawrange s). by apply Hrawall.
Qed.

(** ** Counting the atoms of a section *)

Lemma occ_lt_nonneg s l : 0 ≤ occ_lt s l.
Proof. induction l as [|x l IH]; simpl; [lia | destruct (x <? s); lia]. Qed.

Lemma occ_lt_succ s l : occ_lt (s + 1) l = occ_lt s l + occ s l.
Proof.
  induction l as [|x l IH]; simpl; [lia|]. rewrite IH.
  destruct (Z.ltb_spec x (s + 1)), (Z.ltb_spec x s), (Z.eqb_spec x s); lia.
Qed.

Lemma occ_lt_all_ge s l : Forall (fun x => s ≤ x) l → occ_lt s l = 0.
Proof.
  induction 1 as [|x l Hx Hl IH]; simpl; [done|]. rewrite IH.
  destruct (Z.ltb_spec x s); lia.
Qed.

(** The partial sums of the per-section counts count the atoms below. *)
Lemma sum_occ_lt (natoms l : list Z) (S : Z) :
  Forall (fun x => 0 ≤ x) l →
  (∀ s, 0 ≤ s < S → vget natoms s = Ok (occ s l)) →
  ∀ s, 0 ≤ s ≤ S → sumZ (take (Z.to_nat s) natoms) = occ_lt s l.
Proof.
  intros Hl Hocc s [Hs0 HsS]. revert HsS.
  pattern s. apply natlike_ind; [| |done].
  - intros _. simpl. by rewrite occ_lt_all_ge.
  - clear s Hs0. intros s Hs IH HsS.
    change (Z.succ s) with (s + 1) in *.
    rewrite (sumZ_take_succ _ _ _ (Hocc s ltac:(lia))), occ_lt_succ.
    rewrite IH by lia. done.
Qed.

(** In a non-decreasing list the entries equal to [x] sit right after the
    entries below [x]. *)
Lemma nondecreasing_position l :
  nondecreasing l →
  ∀ i x, l !! i = Some x → occ_lt x l ≤ Z.of_nat i < occ_lt (x + 1) l.
Proof.
  induction l as [|y l IH]; intros Hmono i x Hix; [done|].
  assert (Hl : nondecreasing l).
  { intros a b u v Hab Hu Hv. apply (Hmono (S a) (S b) u v); [lia|done|done]. }
  assert (Hy : Forall (fun z => y ≤ z) l).
  { apply Forall_lookup. intros a u Hu.
    apply (Hmono 0%nat (S a) y u); [lia|done|done]. }
  destruct i as [|i]; simpl in *.
  - injection Hix as <-. rewrite (occ_lt_all_ge y l Hy).
    pose proof (occ_lt_nonneg (y + 1) l).
    destruct (Z.ltb_spec y y), (Z.ltb_spec y (y + 1)); lia.
  - specialize (IH Hl i x Hix).
    assert (y ≤ x) by (eapply Forall_lookup in Hy; [exact Hy | exact Hix]).
    destruct (Z.ltb_spec y x), (Z.ltb_spec y (x + 1)); lia.
Qed.

Lemma sumZ_nonneg l : Forall (fun x => 0 ≤ x) l → 0 ≤ sumZ l.
Proof. induction 1; simpl; lia. Qed.

Lemma vget_ext {A} (l1 l2 : list A) :
  length l1 = length l2 →
  (∀ s, 0 ≤ s < Z.of_nat (length l1) → vget l1 s = vget l2 s) →
  l1 = l2.
Proof.
  intros Hlen Hall. apply list_eq. intros i.
  destruct (decide (i < length l1)%nat) as [Hi|Hi].
  - specialize (Hall (Z.of_nat i) ltac:(lia)).
    destruct (lookup_lt_is_Some_2 l1 i Hi) as [x Hx].
    assert (Hv : vget l1 (Z.of_nat i) = Ok x)
      by (apply vget_Ok; rewrite Nat2Z.id; split; [lia | done]).
    rewrite Hall in Hv. apply vget_Ok in Hv as [_ Hv].
    rewrite Nat2Z.id in Hv. congruence.
  - rewrite !lookup_ge_None_2 by lia. done.
Qed.

Lemma init_tree_size_inv t n padded ncu M cur t' :
  init_tree_size t n padded ncu M cur = Ok t' →
  ∃ z tp off a,
    init_sizing t n ncu M cur = Ok z ∧
    pointer_loop ncu (s_section_size z) = Ok (tp, off) ∧
    layout_loop ncu padded (s_total_atoms_in_tree z) (s_section_size z)
      (s_natoms_in_tree z) tp = Ok a ∧
    tree_pointer t' = tp ∧ saved_noverlaps t' = s_saved z ∧
    total_tree_size t' = l_total_tree_size a ∧
    padded_tree_size t' = l_padded_tree_size a ∧
    atom_tree_pointer t' = l_atom_tree_pointer a ∧
    first_atom t' = l_first_atom a ∧
    natoms_in_tree t' = s_natoms_in_tree z ∧
    tree_size_boost t' = tree_size_boost t ∧
    has_saved_noverlaps t' = true ∧
    num_sections t' = ncu ∧ num_atoms t' = n ∧ padded_num_atoms t' = padded ∧
    buffers t' = buffers t ∧ temp_buffer_size t' = temp_buffer_size t ∧
    hasExceededTempBuffer t' = hasExceededTempBuffer t.
Proof.
  unfold init_tree_size. intros H.
  apply bind_Ok in H as (z & Hz & H).
  apply bind_Ok in H as ([tp off] & Htp & H).
  apply bind_Ok in H as (a & Ha & H).
  injection H as <-. exists z, tp, off, a. simpl. done.
Qed.

(** The budgets are positive when the counts of the CPU run are not
    negative. *)
Lemma budgets_positive t n ncu M cur z :
  init_sizing t n ncu M cur = Ok z →
  (∀ i c, 0 ≤ i < n → vget cur i = Ok c → 0 ≤ c) →
  Forall (fun x => 1 ≤ x) (s_noverlaps z).
Proof.
  intros Hz Hcur. apply init_sizing_spec in Hz.
  destruct Hz as (Hn & _ & _ & _ & Hlen & _ & _ & _ & _ & _ & Hb & _).
  apply vget_Forall. intros i x Hx.
  pose proof (vget_lt _ _ _ Hx) as Hi.
  destruct (Hb i ltac:(lia)) as (s & c & _ & Hc & Hv & _).
  specialize (Hcur i c ltac:(lia) Hc).
  rewrite Hx in Hv. injection Hv as ->. lia.
Qed.

(** The section index does not decrease along the atoms. *)
Lemma sections_nondecreasing t n ncu M cur z :
  init_sizing t n ncu M cur = Ok z →
  (∀ i c, 0 ≤ i < n → vget cur i = Ok c → 0 ≤ c) →
  nondecreasing (s_compute_unit_of_atom z).
Proof.
  intros Hz Hcur. pose proof (budgets_positive _ _ _ _ _ _ Hz Hcur) as Hpos.
  apply init_sizing_spec in Hz.
  destruct Hz as (Hn & _ & HL0 & HLne & _ & Hlen & _ & _ & _ & _ & _ & Hcua & _).
  intros i j x y Hij Hx Hy.
  pose proof (lookup_lt_Some _ _ _ Hx) as Hi.
  pose proof (lookup_lt_Some _ _ _ Hy) as Hj.
  destruct (Hcua (Z.of_nat i) ltac:(lia)) as [Hvi _].
  destruct (Hcua (Z.of_nat j) ltac:(lia)) as [Hvj _].
  apply vget_Ok in Hvi as [_ Hvi]. apply vget_Ok in Hvj as [_ Hvj].
  rewrite !Nat2Z.id in *.
  assert (x = sumZ (take i (s_noverlaps z)) ÷ s_n_overlaps_per_section z)
    as -> by congruence.
  assert (y = sumZ (take j (s_noverlaps z)) ÷ s_n_overlaps_per_section z)
    as -> by congruence.
  apply Z.quot_le_mono; [lia|].
  apply sumZ_take_mono; [|done].
  eapply Forall_impl; [exact Hpos | simpl; intros; lia].
Qed.

(** C4.  On an initialization of the tree sizes after the first one
    ([has_saved_noverlaps] is up), the budget used for atom [i] is
    [max (saved_noverlaps[i], noverlaps_current[i] + 1)], [saved_noverlaps[i]]
    is updated to that value, and the value is not below the one saved
    before. *)
Theorem init_tree_size_budget t n padded ncu M cur t' :
  has_saved_noverlaps t = true →
  init_tree_size t n padded ncu M cur = Ok t' →
  has_saved_noverlaps t' = true ∧
  ∃ z, init_sizing t n ncu M cur = Ok z ∧
    ∀ i, 0 ≤ i < n →
      ∃ s c, vget (saved_noverlaps t) i = Ok s ∧ vget cur i = Ok c ∧
             vget (s_noverlaps z) i = Ok (Z.max s (c + 1)) ∧
             vget (saved_noverlaps t') i = Ok (Z.max s (c + 1)) ∧
             s ≤ Z.max s (c + 1).
Proof.
  intros Hsaved H.
  apply init_tree_size_inv in H
    as (z & tp & off & a & Hz & _ & _ & _ & Hs & _ & _ & _ & _ & _ & _ & Hh & _).
  split; [done|]. exists z. split; [done|].
  apply init_sizing_spec in Hz. rewrite Hsaved in Hz.
  destruct Hz as (_ & _ & _ & _ & _ & _ & _ & _ & _ & _ & Hb & _).
  intros i Hi. destruct (Hb i Hi) as (s & c & H1 & H2 & H3 & H4).
  exists s, c. rewrite Hs. repeat split; try done. lia.
Qed.

Lemma padded_size_spec b M p :
  0 ≤ b → 0 < M → padded_size b M = Ok p →
  p = M * ((b + M - 1) / M) ∧ (M | p) ∧ b ≤ p < b + M.
Proof.
  intros Hb HM H. unfold padded_size in H.
  apply bind_Ok in H as (x & Hx & H). apply bind_Ok in H as (y & Hy & H).
  apply bind_Ok in H as (q & Hq & H). arith_ok.
  rewrite Z.quot_div_nonneg by lia.
  split; [done|]. split; [by apply Z.divide_factor_l|].
  pose proof (Z.mul_div_le (b + M - 1) M HM).
  pose proof (Z.mul_succ_div_gt (b + M - 1) M HM). lia.
Qed.

(** The capacity of a section: twice its budget, padded. *)
Lemma section_capacity t n padded ncu M cur t' :
  tree_size_boost t = FP.two → 0 < M →
  init_tree_size t n padded ncu M cur = Ok t' →
  tree_size_boost t' = FP.two ∧
  ∃ z, init_sizing t n ncu M cur = Ok z ∧
    ∀ s, 0 ≤ s < ncu →
      let raw := section_budget s (s_compute_unit_of_atom z) (s_noverlaps z) in
      let cap := M * ((2 * Z.max 1 raw + M - 1) / M) in
      vget (padded_tree_size t') s = Ok cap ∧
      (M | cap) ∧ 2 * Z.max 1 raw ≤ cap < 2 * Z.max 1 raw + M.
Proof.
  intros Hboost HM H.
  apply init_tree_size_inv in H
    as (z & tp & off & a & Hz & _ & Ha & _ & _ & _ & Hp & _ & _ & _ & Hb & _).
  split; [congruence|]. exists z. split; [done|].
  pose proof (init_sizing_spec _ _ _ _ _ _ Hz) as Hspec. simpl in Hspec.
  destruct Hspec as (_ & HS & _ & _ & _ & _ & Hnat & Hsslen & _ & _ & _ & _
                     & Hocc & Hcap).
  apply layout_loop_spec in Ha as (_ & _ & _ & _ & _ & Hsec & _).
  2:{ intros s x Hx. pose proof (vget_lt _ _ _ Hx).
      rewrite Hocc in Hx by lia. injection Hx as <-. apply occ_nonneg. }
  intros s Hs raw cap. destruct (Hcap s Hs) as (_ & Hrange & b & p & Hbo & Hpad & Hv).
  fold raw in Hrange, Hbo.
  rewrite Hboost, boosted_two in Hbo
    by (unfold INT_MAX in Hrange; lia).
  apply ck_Ok in Hbo as [-> _].
  apply padded_size_spec in Hpad as (-> & Hdiv & Hbound); [|lia|done].
  destruct (Hsec s Hs) as (_ & Hpts & _).
  rewrite Hp, Hpts, Hv. done.
Qed.

(** X25.  Whenever [init_tree_size] runs to its end, on counts that are
    not negative, [tree_pointer[s]] is the sum of the padded sizes of the
    sections before [s], [total_tree_size] is the sum of all padded sizes,
    and for every atom [i], [atom_tree_pointer[i] = tree_pointer[section(i)]
    + (i - first_atom[section(i)])], where [section(i)] is one of the
    sections.  (The function does not run to its end on every input.) *)
Theorem init_tree_size_layout t n padded ncu M cur t' :
  init_tree_size t n padded ncu M cur = Ok t' →
  (∀ i c, 0 ≤ i < n → vget cur i = Ok c → 0 ≤ c) →
  ∃ z, init_sizing t n ncu M cur = Ok z ∧
    (∀ s, 0 ≤ s < ncu →
       vget (tree_pointer t') s =
         Ok (sumZ (take (Z.to_nat s) (padded_tree_size t')))) ∧
    total_tree_size t' = sumZ (padded_tree_size t') ∧
    (∀ i, 0 ≤ i < n →
       ∃ sec tp fa,
         vget (s_compute_unit_of_atom z) i = Ok sec ∧
         vget (tree_pointer t') sec = Ok tp ∧
         vget (first_atom t') sec = Ok fa ∧
         vget (atom_tree_pointer t') i = Ok (tp + (i - fa))).
Proof.
  intros H Hcur.
  apply init_tree_size_inv in H
    as (z & tp & off & a & Hz & Htp & Ha & -> & _ & -> & -> & -> & -> & _).
  exists z. split; [done|].
  pose proof (sections_nondecreasing _ _ _ _ _ _ Hz Hcur) as Hmono.
  pose proof (init_sizing_spec _ _ _ _ _ _ Hz) as Hspec. simpl in Hspec.
  destruct Hspec as (Hn & HS & _ & _ & _ & Hcualen & Hnatlen & Hsslen & _
                     & Htot & _ & Hcua & Hocc & _).
  assert (Hnatpos : ∀ s x, vget (s_natoms_in_tree z) s = Ok x → 0 ≤ x).
  { intros s x Hx. pose proof (vget_lt _ _ _ Hx).
    rewrite Hocc in Hx by lia. injection Hx as <-. apply occ_nonneg. }
  apply pointer_loop_spec in Htp as (_ & Htplen & -> & Htpall).
  apply layout_loop_spec in Ha
    as (_ & Hatplen & Hptslen & Htts & Hao & Hsec & Hatp); [|done].
  assert (Hpts : l_padded_tree_size a = s_section_size z).
  { apply vget_ext; [lia|]. intros s Hs. apply Hsec. lia. }
  rewrite Hpts. split; [done|].
  split; [by rewrite Htts, take_ge by lia|].
  intros i Hi. destruct (Hcua i Hi) as [Hsec_i Hrange].
  set (sec := sumZ (take (Z.to_nat i) (s_noverlaps z))
              ÷ s_n_overlaps_per_section z) in *.
  assert (Hcuapos : Forall (fun x => 0 ≤ x) (s_compute_unit_of_atom z)).
  { apply vget_Forall. intros j x Hx. pose proof (vget_lt _ _ _ Hx).
    destruct (Hcua j ltac:(lia)) as [Hj ?]. rewrite Hx in Hj.
    injection Hj as ->. lia. }
  pose proof (sum_occ_lt _ _ ncu Hcuapos Hocc) as Hsum.
  apply vget_Ok in Hsec_i as Hlook. destruct Hlook as [_ Hlook].
  pose proof (nondecreasing_position _ Hmono _ _ Hlook) as Hposn.
  rewrite occ_lt_succ, Z2Nat.id in Hposn by lia.
  destruct (Hsec sec Hrange) as (Hfa & _ & _).
  destruct (Hatp sec (occ sec (s_compute_unit_of_atom z))
              (i - occ_lt sec (s_compute_unit_of_atom z)))
    as (p & Hp & Hv).
  - done.
  - by apply Hocc.
  - lia.
  - rewrite Hsum, Htot by lia. lia.
  - rewrite Hsum in Hfa, Hv by lia.
    exists sec, p, (occ_lt sec (s_compute_unit_of_atom z)).
    split; [done|]. split; [done|]. split; [done|].
    rewrite <- Hv. f_equal. lia.
Qed.

(** ** The state of the kernel *)

Lemma se_bind_Ok {A B} (m : SE A) (f : A → SE B) k b k' :
  (m ≫= f) k = (Ok b, k') →
  ∃ a k1, m k = (Ok a, k1) ∧ f a k1 = (Ok b, k').
Proof.
  unfold mbind, se_mbind, se_bind. destruct (m k) as [[a|e] k1]; [eauto|].
  intros [=].
Qed.

Lemma se_bind_Fail {A B} (m : SE A) (f : A → SE B) k e k' :
  (m ≫= f) k = (Fail e, k') →
  m k = (Fail e, k') ∨ ∃ a k1, m k = (Ok a, k1) ∧ f a k1 = (Fail e, k').
Proof.
  unfold mbind, se_mbind, se_bind. destruct (m k) as [[a|e1] k1]; [eauto|].
  intros [= -> ->]. by left.
Qed.

Lemma se_bind_run {A B} (m : SE A) (f : A → SE B) k a k1 :
  m k = (Ok a, k1) → (m ≫= f) k = f a k1.
Proof. unfold mbind, se_mbind, se_bind. by intros ->. Qed.

Lemma se_for_inv (P : Z → Kernel → Prop) (body : Z → SE unit) n :
  ∀ i k k',
    P i k →
    (∀ j x y, i ≤ j < i + Z.of_nat n → P j x → body j x = (Ok (), y) →
              P (j + 1) y) →
    se_for i n body k = (Ok (), k') →
    P (i + Z.of_nat n) k'.
Proof.
  induction n as [|n IH]; intros i k k' HP Hstep Hrun; simpl in Hrun.
  - injection Hrun as <-. by rewrite Z.add_0_r.
  - apply se_bind_Ok in Hrun as ([] & k1 & Hb & Hrun).
    replace (i + Z.of_nat (S n)) with ((i + 1) + Z.of_nat n) by lia.
    apply (IH (i + 1) k1 k'); [|intros j x y Hj; apply Hstep; lia | done].
    apply (Hstep i k k1); [lia | done | done].
Qed.

(** A loop that fails fails in one of its iterations, entered with the
    invariant. *)
Lemma se_for_Fail (P : Z → Kernel → Prop) (body : Z → SE unit) n :
  ∀ i k e k',
    P i k →
    (∀ j x y, i ≤ j < i + Z.of_nat n → P j x → body j x = (Ok (), y) →
              P (j + 1) y) →
    se_for i n body k = (Fail e, k') →
    ∃ j x, i ≤ j < i + Z.of_nat n ∧ P j x ∧ body j x = (Fail e, k').
Proof.
  induction n as [|n IH]; intros i k e k' HP Hstep Hrun; simpl in Hrun.
  - discriminate.
  - apply se_bind_Fail in Hrun as [Hb|([] & k1 & Hb & Hrun)].
    + exists i, k. split; [lia | done].
    + destruct (IH (i + 1) k1 e k') as (j & x & Hj & HPx & Hx); [| |done|].
      * apply (Hstep i k k1); [lia | done | done].
      * intros j x y Hj. apply Hstep. lia.
      * exists j, x. split; [lia | done].
Qed.

(** Rounding to single precision commutes with the sign. *)
Lemma binary_round_opp prec emax s m e :
  binary_round prec emax (negb s) m e = SFopp (binary_round prec emax s m e).
Proof.
  unfold binary_round, binary_round_aux.
  destruct (shl_align m e _) as [mz ez].
  destruct (shr_fexp prec emax (Zpos mz) ez loc_Exact) as [mrs e'].
  destruct (shr_fexp prec emax _ e' loc_Exact) as [mrs' e''].
  destruct (shr_m mrs') as [|p|p]; [done| |done].
  by destruct (e'' <=? emax - prec).
Qed.

Lemma float_of_double_opp x :
  FP.float_of_double (FP.dopp x) = FP.fopp (FP.float_of_double x).
Proof.
  destruct x as [s|s| |s m e]; try done.
  apply (binary_round_opp 24 128).
Qed.

Lemma scaled_gamma_hydrogen p r :
  ishydrogen p = true →
  FP.float_of_double (scaled_gamma p r) = S754_zero false ∧
  FP.float_of_double (FP.dopp (scaled_gamma p r)) = S754_zero true.
Proof. unfold scaled_gamma. by intros ->. Qed.

(** ** [initialize]: the loop over the particles *)

Lemma same_but_parameters_refl k : same_but_parameters k k.
Proof. by repeat split. Qed.

Lemma same_but_parameters_trans k1 k2 k3 :
  same_but_parameters k1 k2 → same_but_parameters k2 k3 →
  same_but_parameters k1 k3.
Proof. unfold same_but_parameters. intros H1 H2. intuition congruence. Qed.

Lemma vset_in {A} (v : list A) i x :
  0 ≤ i < Z.of_nat (length v) → vset v i x = Ok (<[Z.to_nat i := x]> v).
Proof.
  intros Hi. unfold vset.
  destruct (Z.leb_spec 0 i), (Z.ltb_spec i (Z.of_nat (length v))); simpl;
    [done|lia..].
Qed.

Lemma initialize_particle_run force j k p n :
  vget (particles force) j = Ok p → sized n k → 0 ≤ j < Z.of_nat n →
  initialize_particle force j k =
    match check_gamma (common_gamma k) p with
    | Some cg => (Ok (), set_common_gamma cg (store_particle j p k))
    | None => (Fail gamma_exception, store_particle j p k)
    end.
Proof.
  intros Hp (H1 & H2 & H3 & H4 & H5 & H6) Hj.
  unfold initialize_particle, getParticleParameters. rewrite Hp.
  destruct k as [gf np uc up ue cd ro cg mt hik hck c wg ncu gt ar
                 rv1 rv2 gv1 gv2 ihv aih nit pb pin ev].
  unfold store_particle, check_gamma.
  cbn [radiusVector1 radiusVector2 gammaVector1 gammaVector2 ishydrogenVector
       atom_ishydrogen roffset common_gamma] in *.
  unfold mbind, se_mbind, se_bind, se_lift, se_get, se_modify, se_throw,
    mret, se_mret, se_ret.
  cbn [radiusVector1 radiusVector2 gammaVector1 gammaVector2 ishydrogenVector
       atom_ishydrogen roffset common_gamma set_radiusVectors
       set_ishydrogenVectors set_gammaVectors].
  rewrite !vset_in by lia.
  destruct (FP.lt cg (FP.float_of_int 0) && negb (ishydrogen p));
    [done|].
  by destruct (negb (ishydrogen p) && gamma_differs cg (gamma p)).
Qed.

Lemma store_particle_props j p k n cg :
  sized n k →
  let k' := set_common_gamma cg (store_particle j p k) in
  same_but_parameters k k' ∧ sized n k' ∧ common_gamma k' = cg ∧
  same_but_parameters k (store_particle j p k) ∧
  gammaVector1 k' = <[Z.to_nat j :=
     FP.float_of_double (scaled_gamma p (roffset k))]> (gammaVector1 k) ∧
  gammaVector2 k' = <[Z.to_nat j :=
     FP.float_of_double (FP.dopp (scaled_gamma p (roffset k)))]>
     (gammaVector2 k).
Proof.
  intros (H1 & H2 & H3 & H4 & H5 & H6).
  destruct k as [gf np uc up ue cd ro cg0 mt hik hck c wg ncu gt ar
                 rv1 rv2 gv1 gv2 ihv aih nit pb pin ev].
  simpl in *. unfold same_but_parameters, sized. simpl.
  rewrite !length_insert. done.
Qed.

Lemma vget_insert_eq {A} (v : list A) j x :
  0 ≤ j < Z.of_nat (length v) → vget (<[Z.to_nat j := x]> v) j = Ok x.
Proof.
  intros Hj. apply vget_Ok. split; [lia|]. apply list_lookup_insert_eq. lia.
Qed.

Lemma vget_insert_ne {A} (v : list A) i j x :
  0 ≤ j → i ≠ j → vget (<[Z.to_nat j := x]> v) i = vget v i.
Proof.
  intros Hj Hne. unfold vget. destruct (Z.ltb_spec i 0); [done|].
  rewrite list_lookup_insert_ne; [done | lia].
Qed.

Lemma init_loop_run force N m :
  ∀ j k,
    sized N k → 0 ≤ j → j + Z.of_nat m ≤ Z.of_nat N →
    j + Z.of_nat m ≤ Z.of_nat (length (particles force)) →
    match check_gammas (common_gamma k)
            (take m (drop (Z.to_nat j) (particles force))) with
    | Some cg =>
        ∃ k', se_for j m (initialize_particle force) k = (Ok (), k') ∧
          same_but_parameters k k' ∧ sized N k' ∧ common_gamma k' = cg ∧
          (∀ i p, j ≤ i < j + Z.of_nat m → vget (particles force) i = Ok p →
             vget (gammaVector1 k') i =
               Ok (FP.float_of_double (scaled_gamma p (roffset k))) ∧
             vget (gammaVector2 k') i =
               Ok (FP.float_of_double (FP.dopp (scaled_gamma p (roffset k))))) ∧
          (∀ i, i < j → vget (gammaVector1 k') i = vget (gammaVector1 k) i ∧
                        vget (gammaVector2 k') i = vget (gammaVector2 k) i)
    | None =>
        ∃ k', se_for j m (initialize_particle force) k
                = (Fail gamma_exception, k') ∧
              same_but_parameters k k'
    end.
Proof.
  induction m as [|m IH]; intros j k Hsized Hj HN Hlen.
  - simpl. exists k. split; [done|]. split; [apply same_but_parameters_refl|].
    split; [done|]. split; [done|]. split; [intros; lia | done].
  - destruct (vget_is_Ok (particles force) j) as [p Hp]; [lia|].
    pose proof Hp as [_ Hlook]%vget_Ok.
    rewrite (drop_S _ _ _ Hlook). cbn [take check_gammas].
    cbn [se_for].
    assert (Hstep : ∀ f : () → SE (),
      (initialize_particle force j ≫= f) k =
      match check_gamma (common_gamma k) p with
      | Some cg => f () (set_common_gamma cg (store_particle j p k))
      | None => (Fail gamma_exception, store_particle j p k)
      end).
    { intros f. unfold mbind, se_mbind, se_bind.
      rewrite (initialize_particle_run force j k p N Hp Hsized) by lia.
      by destruct (check_gamma _ _). }
    rewrite Hstep. clear Hstep.
    destruct (check_gamma (common_gamma k) p) as [cg|] eqn:Hcg.
    2:{ exists (store_particle j p k). split; [done|].
        by apply (store_particle_props j p k N (common_gamma k)). }
    pose proof (store_particle_props j p k N cg Hsized)
      as (Hsame & Hsized1 & Hcg1 & _ & Hg1 & Hg2). cbv zeta in *.
    set (k1 := set_common_gamma cg (store_particle j p k)) in *.
    specialize (IH (j + 1) k1 Hsized1 ltac:(lia) ltac:(lia) ltac:(lia)).
    replace (Z.to_nat (j + 1)) with (S (Z.to_nat j)) in IH by lia.
    rewrite Hcg1 in IH.
    assert (Hro : roffset k1 = roffset k) by apply Hsame.
    destruct Hsized as (_ & _ & H3 & H4 & _).
    destruct (check_gammas cg _) as [cg'|].
    + destruct IH as (k' & Hrun & Hsame' & Hsized' & Hcg' & Hnew & Hold).
      exists k'. split; [done|].
      split; [by eapply same_but_parameters_trans|].
      split; [done|]. split; [done|]. split.
      * intros i q Hi Hq. destruct (decide (i = j)) as [->|Hne].
        -- assert (q = p) as -> by congruence.
           destruct (Hold j ltac:(lia)) as [-> ->]. rewrite Hg1, Hg2.
           rewrite !vget_insert_eq by lia. done.
        -- rewrite <- Hro. apply Hnew; [lia | done].
      * intros i Hi. destruct (Hold i ltac:(lia)) as [-> ->].
        rewrite Hg1, Hg2. rewrite !vget_insert_ne by lia. done.
    + destruct IH as (k' & Hrun & Hsame'). exists k'. split; [done|].
      by eapply same_but_parameters_trans.
Qed.

Lemma vresize_Ok {A} (v : list A) n d :
  0 ≤ n → ∃ v', vresize v n d = Ok v' ∧ length v' = Z.to_nat n.
Proof.
  intros Hn. unfold vresize. destruct (Z.ltb_spec n 0); [lia|].
  eexists. split; [done|].
  rewrite length_app, length_take, length_replicate. lia.
Qed.

Lemma upload_member_run name d k a :
  arrays k !! name = Some a →
  upload_member name d k =
    (Ok (), set_arrays (<[name := upload d a]> (arrays k)) k).
Proof.
  intros Ha. unfold upload_member, upload_to.
  unfold mbind, se_mbind, se_bind, se_get, se_lift, se_modify.
  by rewrite Ha.
Qed.

(** Name the members of a kernel. *)
Ltac destruct_kernel k :=
  destruct k as [gf np uc up ue cd ro cg mt hik hck c wg ncu gt ar
                 rv1 rv2 gv1 gv2 ihv aih nit pb pin ev].

(** Run the monad and the member assignments of a term. *)
Ltac se_norm :=
  cbv beta iota zeta delta
    [mbind se_mbind se_bind se_modify se_get se_lift se_throw mret se_mret
     se_ret new_array resize_parameter_vectors deref launch_kernel
     set_roffset set_numParticles set_common_gamma set_maxTiles
     set_hasInitializedKernels set_hasCreatedKernels set_cu
     set_launch_geometry set_gtree set_arrays set_radiusVectors
     set_gammaVectors set_ishydrogenVectors set_niterations set_panic_button
     set_pinnedPanicButtonMemory set_force_options
     set_downloadPanicButtonEvent set_gvol_force downloadPanicButtonEvent
     gvol_force numParticles useCutoff usePeriodic useExclusions
     cutoffDistance roffset common_gamma maxTiles hasInitializedKernels
     hasCreatedKernels cu ov_work_group_size num_compute_units gtree arrays
     radiusVector1 radiusVector2 gammaVector1 gammaVector2 ishydrogenVector
     atom_ishydrogen niterations panic_button pinnedPanicButtonMemory].

Lemma initialize_run R file inp force k :
  contexts_size (cu k) ≤ 1 → numAtoms (cu k) ≠ 0 →
  0 ≤ numAtoms (cu k) ≤ paddedNumAtoms (cu k) →
  numAtoms (cu k) ≤ getNumParticles force →
  match check_gammas FP.fminus1
          (take (Z.to_nat (numAtoms (cu k))) (particles force)) with
  | Some cg =>
      (driver_succeeds inp →
       ∃ k', initialize R file inp force k = (Ok (), k') ∧
         cu k' = cu k ∧ roffset k' = R ∧ numParticles k' = numAtoms (cu k) ∧
         sized (Z.to_nat (paddedNumAtoms (cu k))) k' ∧
         gammas_stored force k' ∧
         (∃ t, gtree k' = Some t ∧ constructed t) ∧
         hasInitializedKernels k' = false ∧ hasCreatedKernels k' = false) ∧
      (¬ driver_succeeds inp →
       ∃ msg k', initialize R file inp force k
                 = (Fail (OpenMMException msg), k'))
  | None => ∃ k', initialize R file inp force k = (Fail gamma_exception, k')
  end.
Proof.
  intros Hctx Hn0 Hn Hlen.
  destruct k as [gf np uc up ue cd ro cg0 mt hik hck c wg ncu gt ar
                 rv1 rv2 gv1 gv2 ihv aih nit pb pin ev].
  cbn [cu] in *. unfold initialize.
  se_norm.
  destruct (Z.ltb_spec 1 (contexts_size c)); [lia|].
  destruct (Z.eqb_spec (numAtoms c) 0); [lia|].
  set (N := Z.to_nat (paddedNumAtoms c)).
  destruct (vresize_Ok rv1 (paddedNumAtoms c) FP.fzero) as (r1 & Hr1 & Hl1);
    [lia|].
  destruct (vresize_Ok rv2 (paddedNumAtoms c) FP.fzero) as (r2 & Hr2 & Hl2);
    [lia|].
  destruct (vresize_Ok gv1 (paddedNumAtoms c) FP.fzero) as (g1 & Hg1 & Hl3);
    [lia|].
  destruct (vresize_Ok gv2 (paddedNumAtoms c) FP.fzero) as (g2 & Hg2 & Hl4);
    [lia|].
  destruct (vresize_Ok ihv (paddedNumAtoms c) 0) as (ih & Hih & Hl5); [lia|].
  destruct (vresize_Ok aih (paddedNumAtoms c) 0) as (ah & Hah & Hl6); [lia|].
  rewrite Hr1, Hr2, Hg1, Hg2, Hih, Hah.
  se_norm.
  unfold se_range. rewrite Z.sub_0_r.
  match goal with
  | |- context [se_for 0 ?m ?body ?K] =>
      pose proof (init_loop_run force N m 0 K) as Hloop;
      assert (Hsz : sized N K) by (repeat split; done)
  end.
  cbn [common_gamma] in Hloop. rewrite drop_0 in Hloop.
  specialize (Hloop Hsz ltac:(lia) ltac:(lia)
                ltac:(unfold getNumParticles in Hlen; lia)).
  clear Hsz.
  destruct (check_gammas FP.fminus1 _) as [cg|].
  2:{ destruct Hloop as (k' & -> & _). by exists k'. }
  destruct Hloop as (k' & -> & Hsame & Hsized' & Hcg & Hnew & _).
  destruct Hsame as (_ & Hnp & _ & _ & _ & _ & Hro & _ & _ & _ & Hcu & _ & _
                     & _ & Har & _).
  cbn [numParticles roffset cu arrays] in Hnp, Hro, Hcu, Har, Hnew.
  destruct k' as [gf' np' uc' up' ue' cd' ro' cg' mt' hik' hck' c' wg' ncu' gt'
                  ar' rv1' rv2' gv1' gv2' ihv' aih' nit' pb' pin' ev'].
  cbn [numParticles roffset cu arrays gammaVector1 gammaVector2] in *.
  subst np' ro' c' ar'.
  unfold upload_parameters. se_norm.
  do 5 (erewrite upload_member_run by (cbn [arrays]; by simplify_map_eq);
        se_norm).
  unfold new_gtree, cuEventCreate, cuMemHostAlloc, CHECK_RESULT.
  split.
  - intros [-> ->]. rewrite !Z.eqb_refl. cbn [negb]. se_norm.
    eexists. split; [reflexivity|].
    cbn [cu roffset numParticles gtree hasInitializedKernels hasCreatedKernels].
    repeat (split; [first [done | apply Hsized']|]).
    split; [|split; [by eexists|done]].
    unfold gammas_stored.
    cbn [numParticles gammaVector1 gammaVector2 roffset arrays].
    split; [intros i p Hi Hp; apply Hnew; [lia | done]|].
    split; eexists; (split; [by simplify_map_eq | done]).
  - intros Hnot.
    destruct (cuEventCreate_result inp =? CUDA_SUCCESS) eqn:He;
      se_norm; rewrite ?He; cbn [negb]; se_norm; [|by eexists _, _].
    destruct (cuMemHostAlloc_result inp =? CUDA_SUCCESS) eqn:Hm;
      se_norm; rewrite ?Hm; cbn [negb]; se_norm; [|by eexists _, _].
    destruct Hnot. split; by apply Z.eqb_eq.
Qed.

(** ** [copyParametersToContext]: the loop over the particles *)

Lemma copy_particle_run force j k p n :
  vget (particles force) j = Ok p → sized n k → 0 ≤ j < Z.of_nat n →
  copy_particle force j k =
    match rejection k j p with
    | Some e => (Fail e, k)
    | None => (Ok (), store_gamma j p k)
    end.
Proof.
  intros Hp (H1 & H2 & H3 & H4 & H5 & H6) Hj.
  unfold copy_particle, getParticleParameters, rejection, store_gamma.
  rewrite Hp.
  destruct (vget_is_Ok (radiusVector2 k) j) as [r2 Hr2]; [lia|].
  destruct (vget_is_Ok (ishydrogenVector k) j) as [h Hh]; [lia|].
  se_norm.
  destruct k as [gf np uc up ue cd ro cg mt hik hck c wg ncu gt ar
                 rv1 rv2 gv1 gv2 ihv aih nit pb pin ev].
  cbn [radiusVector2 ishydrogenVector gammaVector1 gammaVector2] in *.
  rewrite Hr2, Hh. destruct (radius_differs r2 (radius p)); [done|].
  destruct (negb _); [done|].
  rewrite !vset_in by lia. done.
Qed.

Lemma store_gamma_props j p k n :
  sized n k →
  sized n (store_gamma j p k) ∧
  store_gamma j p k =
    set_gammaVectors (gammaVector1 (store_gamma j p k))
                     (gammaVector2 (store_gamma j p k)) k ∧
  roffset (store_gamma j p k) = roffset k ∧
  radiusVector2 (store_gamma j p k) = radiusVector2 k ∧
  ishydrogenVector (store_gamma j p k) = ishydrogenVector k ∧
  gammaVector1 (store_gamma j p k) = <[Z.to_nat j :=
     FP.float_of_double (scaled_gamma p (roffset k))]> (gammaVector1 k) ∧
  gammaVector2 (store_gamma j p k) = <[Z.to_nat j :=
     FP.float_of_double (FP.dopp (scaled_gamma p (roffset k)))]>
     (gammaVector2 k).
Proof.
  intros (H1 & H2 & H3 & H4 & H5 & H6).
  destruct k as [gf np uc up ue cd ro cg mt hik hck c wg ncu gt ar
                 rv1 rv2 gv1 gv2 ihv aih nit pb pin ev].
  simpl in *. unfold sized. simpl. rewrite !length_insert. done.
Qed.

Lemma rejection_frame k g1 g2 i p :
  rejection (set_gammaVectors g1 g2 k) i p = rejection k i p.
Proof. by destruct k. Qed.

Lemma set_gammaVectors_twice g1 g2 g1' g2' k :
  set_gammaVectors g1' g2' (set_gammaVectors g1 g2 k)
  = set_gammaVectors g1' g2' k.
Proof. by destruct k. Qed.

Lemma set_gammaVectors_id k :
  set_gammaVectors (gammaVector1 k) (gammaVector2 k) k = k.
Proof. by destruct k. Qed.

(** The loop either stores the gammas of all particles or stops at the
    first one that is rejected; it touches nothing but the two gamma
    vectors. *)
Lemma copy_loop_run force N m :
  ∀ j k,
    sized N k → 0 ≤ j → j + Z.of_nat m ≤ Z.of_nat N →
    j + Z.of_nat m ≤ Z.of_nat (length (particles force)) →
    ∃ r k',
      se_for j m (copy_particle force) k = (r, k') ∧
      sized N k' ∧
      k' = set_gammaVectors (gammaVector1 k') (gammaVector2 k') k ∧
      ((∀ i p, j ≤ i < j + Z.of_nat m → vget (particles force) i = Ok p →
          rejection k i p = None) →
       r = Ok () ∧
       (∀ i p, j ≤ i < j + Z.of_nat m → vget (particles force) i = Ok p →
          vget (gammaVector1 k') i =
            Ok (FP.float_of_double (scaled_gamma p (roffset k))) ∧
          vget (gammaVector2 k') i =
            Ok (FP.float_of_double (FP.dopp (scaled_gamma p (roffset k))))) ∧
       (∀ i, i < j → vget (gammaVector1 k') i = vget (gammaVector1 k) i ∧
                     vget (gammaVector2 k') i = vget (gammaVector2 k) i)) ∧
      (∀ i p e, j ≤ i < j + Z.of_nat m → vget (particles force) i = Ok p →
          rejection k i p = Some e →
       ∃ i' p' e', j ≤ i' ≤ i ∧ vget (particles force) i' = Ok p' ∧
                   rejection k i' p' = Some e' ∧ r = Fail e').
Proof.
  induction m as [|m IH]; intros j k Hsized Hj HN Hlen.
  - exists (Ok ()), k. split; [done|]. split; [done|].
    split; [by rewrite set_gammaVectors_id|]. split.
    + intros _. split; [done|]. split; [intros; lia | done].
    + intros; lia.
  - destruct (vget_is_Ok (particles force) j) as [p Hp]; [lia|].
    cbn [se_for]. unfold mbind, se_mbind, se_bind.
    rewrite (copy_particle_run force j k p N Hp Hsized) by lia.
    destruct (rejection k j p) as [e|] eqn:Hrej.
    { exists (Fail e), k. split; [done|]. split; [done|].
      split; [by rewrite set_gammaVectors_id|]. split.
      - intros Hnone. rewrite (Hnone j p) in Hrej by (done || lia). done.
      - intros i q e' Hi Hq He'. exists j, p, e. split; [lia|]. done. }
    pose proof (store_gamma_props j p k N Hsized)
      as (Hsized1 & Hframe1 & Hro1 & Hrv1 & Hih1 & Hg1 & Hg2).
    set (k1 := store_gamma j p k) in *.
    destruct (IH (j + 1) k1 Hsized1 ltac:(lia) ltac:(lia) ltac:(lia))
      as (r & k' & Hrun & Hsized' & Hframe' & Hok & Hfail).
    assert (Hrej1 : ∀ i q, rejection k1 i q = rejection k i q).
    { intros i q. rewrite Hframe1. apply rejection_frame. }
    destruct Hsized as (_ & _ & H3 & H4 & _).
    exists r, k'. split; [done|]. split; [done|]. split.
    { rewrite Hframe', Hframe1 at 1. by rewrite set_gammaVectors_twice. }
    split.
    + intros Hnone.
      destruct Hok as (-> & Hnew & Hold).
      { intros i q Hi Hq. rewrite Hrej1. apply Hnone; [lia | done]. }
      split; [done|]. split.
      * intros i q Hi Hq. destruct (decide (i = j)) as [->|Hne].
        -- assert (q = p) as -> by congruence.
           destruct (Hold j ltac:(lia)) as [-> ->]. rewrite Hg1, Hg2.
           rewrite !vget_insert_eq by lia. done.
        -- rewrite <- Hro1. apply Hnew; [lia | done].
      * intros i Hi. destruct (Hold i ltac:(lia)) as [-> ->].
        rewrite Hg1, Hg2. rewrite !vget_insert_ne by lia. done.
    + intros i q e Hi Hq He. destruct (decide (i = j)) as [->|Hne].
      { assert (q = p) as -> by congruence. congruence. }
      destruct (Hfail i q e) as (i' & p' & e' & Hi' & Hp' & He' & ->);
        [lia | done | by rewrite Hrej1 |].
      exists i', p', e'. rewrite Hrej1 in He'. split; [lia | done].
Qed.

Lemma rejection_throws k i p e N :
  sized N k → 0 ≤ i < Z.of_nat N → rejection k i p = Some e →
  throws (Fail (A := ()) e).
Proof.
  intros (_ & H2 & _ & _ & H5 & _) Hi. unfold rejection.
  destruct (vget_is_Ok (radiusVector2 k) i) as [r2 ->]; [lia|].
  destruct (vget_is_Ok (ishydrogenVector k) i) as [h ->]; [lia|].
  destruct (radius_differs _ _); [by intros [= <-]|].
  destruct (negb _); [by intros [= <-] | done].
Qed.

Lemma copyParametersToContext_run force k N :
  sized N k → 0 ≤ numParticles k ≤ Z.of_nat N →
  ∃ r k',
    copyParametersToContext force k = (r, k') ∧
    sized N k' ∧
    k' = set_arrays (arrays k')
           (set_gammaVectors (gammaVector1 k') (gammaVector2 k') k) ∧
    (∀ name, name ≠ "gammaParam1" → name ≠ "gammaParam2" →
       arrays k' !! name = arrays k !! name) ∧
    (throws r → arrays k' = arrays k) ∧
    (r = Ok () → gammas_stored force k' ∨ numParticles k = 0 ∧ k' = k) ∧
    (getNumParticles force ≠ numParticles k → r = Fail count_exception) ∧
    (getNumParticles force = numParticles k →
     ∀ i p e, 0 ≤ i < numParticles k → vget (particles force) i = Ok p →
       rejection k i p = Some e → throws r).
Proof.
  intros Hsized Hn. unfold copyParametersToContext.
  unfold mbind at 1, se_mbind, se_bind at 1, se_get at 1.
  destruct (Z.eqb_spec (getNumParticles force) (numParticles k)) as [Hcnt|Hcnt];
    cbn [negb].
  2:{ exists (Fail count_exception), k. split; [done|]. split; [done|].
      split; [by destruct k|]. repeat split; try done; lia. }
  destruct (Z.eqb_spec (numParticles k) 0) as [H0|H0].
  { exists (Ok ()), k. split; [done|]. split; [done|].
    split; [by destruct k|].
    repeat split; try done; try lia. intros _. by right. }
  unfold se_range. rewrite Z.sub_0_r.
  destruct (copy_loop_run force N (Z.to_nat (numParticles k)) 0 k)
    as (r & k1 & Hrun & Hsized1 & Hframe & Hok & Hfail);
    [done | lia | lia | unfold getNumParticles in Hcnt; lia |].
  unfold mbind at 1, se_mbind, se_bind at 1. rewrite Hrun.
  assert (Har1 : arrays k1 = arrays k) by (rewrite Hframe; by destruct k).
  assert (Hnp1 : numParticles k1 = numParticles k)
    by (rewrite Hframe; by destruct k).
  assert (Hro1 : roffset k1 = roffset k) by (rewrite Hframe; by destruct k).
  assert (Hthrow : ∀ i p e, 0 ≤ i < numParticles k →
            vget (particles force) i = Ok p → rejection k i p = Some e →
            throws r).
  { intros i p e Hi Hp He.
    destruct (Hfail i p e) as (i' & p' & e' & Hi' & Hp' & He' & ->);
      [lia | done | done |].
    apply (rejection_throws k i' p' e' N); [done | lia | done]. }
  pose proof Hok as Hok'.
  destruct r as [[]|e].
  2:{ exists (Fail e), k1. split; [done|]. split; [done|].
      split; [rewrite Har1; rewrite Hframe at 1; by destruct k|].
      split; [by rewrite Har1|]. split; [done|]. split; [done|].
      split; [done|]. intros _. exact Hthrow. }
  clear Hrun Hok Hfail. destruct Hok' as (_ & Hnew & _).
  { intros i p Hi Hp. destruct (rejection k i p) as [e|] eqn:He; [|done].
    by apply (Hthrow i p e ltac:(lia) Hp) in He. }
  destruct k as [gf np uc up ue cd ro cg mt hik hck c wg ncu gt ar
                 rv1 rv2 gv1 gv2 ihv aih nit pb pin ev].
  destruct k1 as [gf' np' uc' up' ue' cd' ro' cg' mt' hik' hck' c' wg' ncu' gt'
                  ar' rv1' rv2' gv1' gv2' ihv' aih' nit' pb' pin' ev'].
  cbn [set_gammaVectors gammaVector1 gammaVector2 arrays numParticles roffset]
    in *.
  injection Hframe as -> -> -> -> -> -> -> -> -> -> -> -> -> -> -> -> -> ->
    -> -> -> -> -> ->.
  unfold upload_member, upload_to. se_norm.
  destruct (ar !! "gammaParam1") as [a1|] eqn:Ha1.
  2:{ eexists _, _. split; [reflexivity|]. split; [exact Hsized1|].
      repeat split; done. }
  rewrite lookup_insert_ne by done.
  destruct (ar !! "gammaParam2") as [a2|] eqn:Ha2.
  2:{ eexists _, _. split; [reflexivity|]. split; [exact Hsized1|].
      cbn [arrays]. split; [done|]. split; [|by repeat split].
      intros name Hn1 Hn2. by rewrite !lookup_insert_ne. }
  eexists _, _. split; [reflexivity|]. split; [exact Hsized1|]. cbn [arrays].
  split; [done|]. split.
  { intros name Hn1 Hn2. by rewrite !lookup_insert_ne. }
  split; [done|]. split; [|by split].
  intros _. left. unfold gammas_stored.
  cbn [numParticles gammaVector1 gammaVector2 roffset arrays].
  split; [intros i p Hi Hp; apply Hnew; [lia | done]|].
  split; eexists; (split; [by simplify_map_eq | done]).
Qed.

Lemma upload_member_Ok name d k k' :
  upload_member name d k = (Ok (), k') →
  ∃ a, arrays k !! name = Some a ∧
       k' = set_arrays (<[name := upload d a]> (arrays k)) k.
Proof.
  unfold upload_member, upload_to.
  unfold mbind, se_mbind, se_bind, se_get, se_lift, se_modify.
  destruct (arrays k !! name) as [a|]; [|discriminate].
  intros [= <-]. by exists a.
Qed.

(** A call that returns for a kernel with atoms has uploaded the two gamma
    vectors into the arrays that were there. *)
Lemma copyParametersToContext_uploads force k N k' :
  sized N k → 0 ≤ numParticles k ≤ Z.of_nat N → numParticles k ≠ 0 →
  copyParametersToContext force k = (Ok (), k') →
  ∃ a1 a2,
    arrays k !! "gammaParam1" = Some a1 ∧
    arrays k !! "gammaParam2" = Some a2 ∧
    arrays k' !! "gammaParam1" = Some (upload (Floats (gammaVector1 k')) a1) ∧
    arrays k' !! "gammaParam2" = Some (upload (Floats (gammaVector2 k')) a2).
Proof.
  intros Hsized Hn Hne Hrun.
  unfold copyParametersToContext in Hrun.
  unfold mbind at 1, se_mbind, se_bind at 1, se_get at 1 in Hrun.
  destruct (Z.eqb_spec (getNumParticles force) (numParticles k)) as [Hcnt|];
    cbn [negb] in Hrun; [|discriminate].
  destruct (Z.eqb_spec (numParticles k) 0) as [|_]; [done|].
  apply se_bind_Ok in Hrun as ([] & k1 & Hloop & Hrun).
  unfold se_range in Hloop. rewrite Z.sub_0_r in Hloop.
  destruct (copy_loop_run force N (Z.to_nat (numParticles k)) 0 k)
    as (r & k1' & Hloop' & _ & Hframe & _);
    [done | lia | lia | unfold getNumParticles in Hcnt; lia |].
  rewrite Hloop in Hloop'. injection Hloop' as <- <-.
  assert (Har1 : arrays k1 = arrays k) by (rewrite Hframe; by destruct k).
  apply se_bind_Ok in Hrun as (k2 & k2' & [= <- <-] & Hrun).
  apply se_bind_Ok in Hrun as ([] & k3 & Hu1 & Hu2).
  apply upload_member_Ok in Hu1 as (a1 & Ha1 & ->).
  apply upload_member_Ok in Hu2 as (a2 & Ha2 & ->).
  rewrite Har1 in Ha1.
  assert (Ha2' : arrays k !! "gammaParam2" = Some a2).
  { rewrite <- Har1. revert Ha2. destruct_kernel k1. cbn [set_arrays arrays].
    by rewrite lookup_insert_ne. }
  exists a1, a2. split; [done|]. split; [done|].
  clear Hframe Hloop. destruct_kernel k1.
  cbn [set_arrays arrays gammaVector1 gammaVector2].
  split; [|by rewrite lookup_insert_eq].
  by rewrite lookup_insert_ne, lookup_insert_eq.
Qed.

(** ** The gamma check of [initialize] *)

Lemma check_gammas_fixed cg ps :
  FP.lt cg (FP.float_of_int 0) = false →
  (check_gammas cg ps = None ↔
   ∃ p, p ∈ ps ∧ heavy p ∧ gamma_differs cg (gamma p) = true).
Proof.
  intros Hcg. induction ps as [|q ps IH]; simpl.
  - split; [done|]. intros (p & Hp & _). by apply elem_of_nil in Hp.
  - unfold check_gamma. rewrite Hcg. simpl.
    destruct (ishydrogen q) eqn:Hq; simpl.
    + rewrite IH. split.
      * intros (p & Hp & H). exists p. split; [by right | done].
      * intros (p & Hp & Hh & Hd). apply elem_of_cons in Hp as [->|Hp].
        -- unfold heavy in Hh. congruence.
        -- by exists p.
    + destruct (gamma_differs cg (gamma q)) eqn:Hd.
      * split; [|done]. intros _. exists q. split; [by left | done].
      * rewrite IH. split.
        -- intros (p & Hp & H). exists p. split; [by right | done].
        -- intros (p & Hp & Hh & Hd'). apply elem_of_cons in Hp as [->|Hp].
           ++ congruence.
           ++ by exists p.
Qed.

Lemma check_gammas_initial ps :
  nonnegative_gammas ps →
  (check_gammas FP.fminus1 ps = None ↔ gamma_mismatch ps).
Proof.
  intros Hpos. induction ps as [|q ps IH]; simpl.
  - split; [done|]. intros (hs & p0 & rest & p & Heq & _).
    by destruct hs.
  - assert (Hpos' : nonnegative_gammas ps).
    { intros p Hp. apply Hpos. by right. }
    unfold check_gamma.
    change (FP.lt FP.fminus1 (FP.float_of_int 0)) with true. simpl.
    destruct (ishydrogen q) eqn:Hq; simpl.
    + rewrite (IH Hpos'). split.
      * intros (hs & p0 & rest & p & -> & Hhs & H).
        exists (q :: hs), p0, rest, p. split; [done|].
        split; [by constructor | done].
      * intros (hs & p0 & rest & p & Heq & Hhs & Hp0 & H).
        destruct hs as [|h hs]; simpl in Heq; injection Heq as -> ->.
        -- unfold heavy in Hp0. congruence.
        -- apply Forall_cons in Hhs as [_ Hhs].
           by exists hs, p0, rest, p.
    + rewrite check_gammas_fixed by (apply Hpos; [by left | done]). split.
      * intros (p & Hp & Hh & Hd). by exists [], q, ps, p.
      * intros (hs & p0 & rest & p & Heq & Hhs & Hp0 & Hp & Hh & Hd).
        destruct hs as [|h hs]; simpl in Heq; injection Heq as -> ->.
        -- by exists p.
        -- apply Forall_cons in Hhs as [Hh' _]. congruence.
Qed.

(** ** The contract of [initialize] and [copyParametersToContext] *)

(** C3 (amended).  For a force with as many particles as the context has
    atoms and whose non-hydrogen gammas are not negative, [initialize] either
    completes or throws, and it throws exactly when more than one context is
    in use, or some non-hydrogen particle after the first non-hydrogen one
    has a gamma whose squared difference from the first one's gamma, rounded
    to single precision, exceeds [1.e-6f], or, for a context with atoms, the
    CUDA driver does not answer [CUDA_SUCCESS] to [cuEventCreate] or to
    [cuMemHostAlloc].  Every gamma is compared with the first one, not with
    every other one; a system without particles is accepted, whatever the
    driver would answer. *)
Theorem initialize_raises R file inp force k :
  0 ≤ numAtoms (cu k) ≤ paddedNumAtoms (cu k) →
  getNumParticles force = numAtoms (cu k) →
  nonnegative_gammas (particles force) →
  ((initialize R file inp force k).1 = Ok ()
   ∨ throws (initialize R file inp force k).1) ∧
  (throws (initialize R file inp force k).1 ↔
   1 < contexts_size (cu k) ∨ gamma_mismatch (particles force) ∨
   numAtoms (cu k) ≠ 0 ∧
   (cuEventCreate_result inp ≠ CUDA_SUCCESS
    ∨ cuMemHostAlloc_result inp ≠ CUDA_SUCCESS)).
Proof.
  intros Hn Hlen Hpos.
  destruct (Z.lt_ge_cases 1 (contexts_size (cu k))) as [Hctx|Hctx].
  { assert (Hrun : (initialize R file inp force k).1
                   = Fail multiple_contexts_exception).
    { unfold initialize. destruct_kernel k. se_norm. cbn [cu] in Hctx.
      by destruct (Z.ltb_spec 1 (contexts_size c)); [|lia]. }
    rewrite Hrun. split; [by right|]. split; [by left | done]. }
  destruct (decide (numAtoms (cu k) = 0)) as [H0|H0].
  { assert (Hrun : (initialize R file inp force k).1 = Ok ()).
    { unfold initialize. destruct_kernel k. se_norm. cbn [cu] in Hctx, H0.
      destruct (Z.ltb_spec 1 (contexts_size c)); [lia|].
      by destruct (Z.eqb_spec (numAtoms c) 0). }
    rewrite Hrun. split; [by left|]. split; [done|].
    intros [?|[(hs & p0 & rest & p & Heq & _)|[? _]]]; [lia| |done].
    unfold getNumParticles in Hlen. rewrite Heq, length_app in Hlen.
    simpl in Hlen. lia. }
  pose proof (initialize_run R file inp force k Hctx H0 Hn ltac:(lia)) as Hrun.
  rewrite take_ge in Hrun by (unfold getNumParticles in Hlen; lia).
  pose proof (check_gammas_initial _ Hpos) as Hchk.
  destruct (check_gammas FP.fminus1 (particles force)) as [cg|].
  - destruct Hrun as [Hok Hfail].
    destruct (decide (cuEventCreate_result inp = CUDA_SUCCESS)) as [He|He].
    1: destruct (decide (cuMemHostAlloc_result inp = CUDA_SUCCESS))
         as [Hm|Hm].
    + destruct (Hok (conj He Hm)) as (k' & -> & _).
      split; [by left|]. simpl. split; [done|].
      intros [?|[Hmis|[_ [?|?]]]]; [lia| |done|done]. by apply Hchk in Hmis.
    + destruct Hfail as (msg & k' & ->); [by intros [_ ?]|].
      split; [by right|]. simpl. split; [|done]. intros _. auto.
    + destruct Hfail as (msg & k' & ->); [by intros [? _]|].
      split; [by right|]. simpl. split; [|done]. intros _. auto.
  - destruct Hrun as (k' & ->). split; [by right|]. simpl. split; [|done].
    intros _. right. left. by apply Hchk.
Qed.

Lemma gammas_stored_negated force k :
  gammas_stored force k → gammas_negated force k.
Proof.
  intros (Hv & (a1 & Ha1 & Hd1) & (a2 & Ha2 & Hd2)). split.
  - intros i p Hi Hp. destruct (Hv i p Hi Hp) as [H1 H2].
    eexists. split; [exact H1|]. rewrite H2, float_of_double_opp.
    split; [done|]. unfold scaled_gamma, heavy. split.
    + by intros ->.
    + by intros ->.
  - intros _. by exists a1, a2.
Qed.

(** C9.  After a successful [initialize], and after every successful
    [copyParametersToContext], for every atom the second gamma parameter is
    the negation of the first one; the first one is [gamma / roffset]
    rounded to single precision for a non-hydrogen atom and zero for a
    hydrogen atom (the second one is then the negated zero); the two device
    arrays hold the two vectors. *)
Theorem gamma_parameters_negated R file force :
  (∀ inp k k', 0 ≤ numAtoms (cu k) ≤ paddedNumAtoms (cu k) →
           numAtoms (cu k) ≤ getNumParticles force →
           initialize R file inp force k = (Ok (), k') →
           gammas_negated force k') ∧
  (∀ k k' N, sized N k → 0 ≤ numParticles k ≤ Z.of_nat N →
             copyParametersToContext force k = (Ok (), k') →
             numParticles k' = numParticles k ∧ roffset k' = roffset k ∧
             sized N k' ∧ gammas_negated force k').
Proof.
  split.
  - intros inp k k' Hn Hlen Hrun.
    destruct (Z.lt_ge_cases 1 (contexts_size (cu k))) as [Hctx|Hctx].
    { exfalso. revert Hrun. unfold initialize. destruct_kernel k. se_norm.
      cbn [cu] in Hctx. by destruct (Z.ltb_spec 1 (contexts_size c)); [|lia]. }
    destruct (decide (numAtoms (cu k) = 0)) as [H0|H0].
    { revert Hrun. unfold initialize. destruct_kernel k. se_norm.
      cbn [cu] in Hctx, H0.
      destruct (Z.ltb_spec 1 (contexts_size c)); [lia|].
      destruct (Z.eqb_spec (numAtoms c) 0); [|done].
      intros [= <-]. split; cbn [numParticles]; [intros; lia | lia]. }
    pose proof (initialize_run R file inp force k Hctx H0 Hn Hlen) as Hspec.
    destruct (check_gammas _ _).
    + destruct Hspec as [Hok Hfail].
      destruct (decide (cuEventCreate_result inp = CUDA_SUCCESS
                        ∧ cuMemHostAlloc_result inp = CUDA_SUCCESS))
        as [Hd|Hd].
      * destruct (Hok Hd) as (k'' & Hrun' & _ & _ & _ & _ & Hst & _).
        assert (k'' = k') as -> by congruence.
        by apply gammas_stored_negated.
      * destruct (Hfail Hd) as (msg & k'' & Hrun'). congruence.
    + destruct Hspec as (k'' & Hrun'). congruence.
  - intros k k' N Hsized Hn Hrun.
    destruct (copyParametersToContext_run force k N Hsized Hn)
      as (r & k'' & Hrun' & Hsized' & Hframe & _ & _ & Hok & _).
    assert (r = Ok () ∧ k'' = k') as [-> ->]
      by (split; congruence).
    split; [rewrite Hframe; by destruct k|].
    split; [rewrite Hframe; by destruct k|].
    split; [done|].
    destruct (Hok eq_refl) as [Hst|[H0 ->]].
    + by apply gammas_stored_negated.
    + split; [intros; lia | done].
Qed.

(** C8.  [copyParametersToContext] changes, of the members of the kernel,
    only the two gamma vectors and the arrays, and of the arrays only
    [gammaParam1] and [gammaParam2]; the radius vectors, the hydrogen flags
    and the overlap tree stay as they were, and when it throws no array has
    changed.  It throws when the number of particles of the force differs
    from the initialized one, when the radius of a particle differs from the
    stored one (squared difference above [1.e-6]), and when the hydrogen flag
    of a particle differs from the stored one.  When it returns for a kernel
    with atoms, the two gamma vectors hold the new values of every particle,
    [gamma / roffset] and its negation rounded to single precision (the two
    zeros for a hydrogen), and the arrays [gammaParam1] and [gammaParam2]
    hold the two vectors: the new values have been uploaded. *)
Theorem copyParametersToContext_effect force k N :
  sized N k → 0 ≤ numParticles k ≤ Z.of_nat N →
  let r := (copyParametersToContext force k).1 in
  let k' := (copyParametersToContext force k).2 in
  (* only the gamma vectors and the arrays member change ... *)
  k' = set_arrays (arrays k')
         (set_gammaVectors (gammaVector1 k') (gammaVector2 k') k) ∧
  radiusVector1 k' = radiusVector1 k ∧ radiusVector2 k' = radiusVector2 k ∧
  ishydrogenVector k' = ishydrogenVector k ∧ gtree k' = gtree k ∧
  (* ... and of the arrays only gammaParam1 and gammaParam2 *)
  (∀ name, name ≠ "gammaParam1" → name ≠ "gammaParam2" →
     arrays k' !! name = arrays k !! name) ∧
  (throws r → arrays k' = arrays k) ∧
  (* the three rejections *)
  (getNumParticles force ≠ numParticles k → throws r) ∧
  (∀ i p r2, 0 ≤ i < numParticles k → vget (particles force) i = Ok p →
     vget (radiusVector2 k) i = Ok r2 → radius_differs r2 (radius p) = true →
     throws r) ∧
  (∀ i p h, 0 ≤ i < numParticles k → vget (particles force) i = Ok p →
     vget (ishydrogenVector k) i = Ok h →
     h ≠ (if ishydrogen p then 1 else 0) → throws r) ∧
  (* the upload of the new values *)
  (r = Ok () → numParticles k ≠ 0 →
   numParticles k' = numParticles k ∧ roffset k' = roffset k ∧
   (∀ i p, 0 ≤ i < numParticles k → vget (particles force) i = Ok p →
      vget (gammaVector1 k') i =
        Ok (FP.float_of_double (scaled_gamma p (roffset k))) ∧
      vget (gammaVector2 k') i =
        Ok (FP.float_of_double (FP.dopp (scaled_gamma p (roffset k))))) ∧
   ∃ a1 a2,
     arrays k !! "gammaParam1" = Some a1 ∧
     arrays k !! "gammaParam2" = Some a2 ∧
     arrays k' !! "gammaParam1"
       = Some {| arr_size := arr_size a1;
                 arr_data := Floats (gammaVector1 k') |} ∧
     arrays k' !! "gammaParam2"
       = Some {| arr_size := arr_size a2;
                 arr_data := Floats (gammaVector2 k') |}).
Proof.
  intros Hsized Hn. pose proof Hsized as Hsized0.
  destruct (copyParametersToContext_run force k N Hsized Hn)
    as (r & k' & Hrun & _ & Hframe & Harr & Hthrow & Hup & Hcnt & Hrej).
  rewrite Hrun. cbn [fst snd].
  split; [done|].
  split; [rewrite Hframe; by destruct k|].
  split; [rewrite Hframe; by destruct k|].
  split; [rewrite Hframe; by destruct k|].
  split; [rewrite Hframe; by destruct k|].
  split; [done|]. split; [done|].
  assert (Hc : getNumParticles force ≠ numParticles k → throws r)
    by (by intros ->%Hcnt).
  split; [done|].
  destruct Hsized as (_ & H2 & _ & _ & H5 & _).
  split; [|split].
  - intros i p r2 Hi Hp Hr2 Hd.
    destruct (decide (getNumParticles force = numParticles k)) as [Heq|Hne];
      [|by apply Hc].
    apply (Hrej Heq i p radius_exception Hi Hp).
    unfold rejection. rewrite Hr2.
    destruct (vget_is_Ok (ishydrogenVector k) i) as [h ->]; [lia|].
    by rewrite Hd.
  - intros i p h Hi Hp Hh Hd.
    destruct (decide (getNumParticles force = numParticles k)) as [Heq|Hne];
      [|by apply Hc].
    destruct (vget_is_Ok (radiusVector2 k) i) as [r2 Hr2]; [lia|].
    destruct (radius_differs r2 (radius p)) eqn:Hrd.
    + apply (Hrej Heq i p radius_exception Hi Hp).
      unfold rejection. by rewrite Hr2, Hh, Hrd.
    + apply (Hrej Heq i p hydrogen_exception Hi Hp).
      unfold rejection. rewrite Hr2, Hh, Hrd.
      by destruct (Z.eqb_spec h (if ishydrogen p then 1 else 0)).
  - intros Hok Hne. destruct (Hup Hok) as [Hst|[? _]]; [|done].
    destruct Hst as (Hv & Hst).
    assert (Hnp : numParticles k' = numParticles k)
      by (rewrite Hframe; by destruct k).
    assert (Hro : roffset k' = roffset k) by (rewrite Hframe; by destruct k).
    split; [done|]. split; [done|].
    split; [intros i p Hi Hp; rewrite <- Hro; apply Hv; [lia | done]|].
    subst r.
    destruct (copyParametersToContext_uploads force k N k' Hsized0 Hn Hne Hrun)
      as (a1 & a2 & H1 & H2' & H3 & H4).
    by exists a1, a2.
Qed.

(** C10.  When the context has no atoms (and at most one context is in
    use) [initialize] completes having set only [roffset] and
    [numParticles]: no array is created, no tree, no panic page, no
    parameter is recorded.  [copyParametersToContext] with a force without
    particles then returns with the state unchanged. *)
Theorem zero_atoms_no_effect R file inp force k :
  numAtoms (cu k) = 0 → contexts_size (cu k) ≤ 1 →
  ∃ k', initialize R file inp force k = (Ok (), k') ∧
    k' = set_numParticles 0 (set_roffset R k) ∧
    arrays k' = arrays k ∧ gtree k' = gtree k ∧
    pinnedPanicButtonMemory k' = pinnedPanicButtonMemory k ∧
    radiusVector1 k' = radiusVector1 k ∧ radiusVector2 k' = radiusVector2 k ∧
    gammaVector1 k' = gammaVector1 k ∧ gammaVector2 k' = gammaVector2 k ∧
    ishydrogenVector k' = ishydrogenVector k ∧
    atom_ishydrogen k' = atom_ishydrogen k ∧
    common_gamma k' = common_gamma k ∧
    ∀ force', getNumParticles force' = 0 →
      copyParametersToContext force' k' = (Ok (), k').
Proof.
  intros H0 Hctx. exists (set_numParticles 0 (set_roffset R k)).
  destruct k as [gf np uc up ue cd ro cg mt hik hck c wg ncu gt ar
                 rv1 rv2 gv1 gv2 ihv aih nit pb pin ev].
  cbn [cu] in *. split.
  { unfold initialize. se_norm.
    destruct (Z.ltb_spec 1 (contexts_size c)); [lia|].
    destruct (Z.eqb_spec (numAtoms c) 0); [|done]. by rewrite H0. }
  repeat (split; [done|]).
  intros force' Hf. unfold copyParametersToContext. se_norm.
  by rewrite Hf.
Qed.

(** ** [execute] *)

Lemma execute_unfold inp k :
  execute inp k =
  (init_phase inp ≫= fun _ => executeGVolSA inp ≫= fun _ => mret FP.dzero) k.
Proof. reflexivity. Qed.

Lemma ck_in z : INT_MIN ≤ z ≤ INT_MAX → ck z = Ok z.
Proof.
  intros Hz. unfold ck, int_ok.
  by destruct (Z.leb_spec INT_MIN z), (Z.leb_spec z INT_MAX); try lia.
Qed.

Ltac destruct_context c :=
  destruct c as [ctxs na pna fv st nbc its ftbs nftb ges].

Ltac se_run :=
  cbv beta iota zeta delta
    [mbind se_mbind se_bind se_modify se_get se_lift se_throw mret se_mret
     se_ret new_array deref launch_kernel construct_tree executeKernel
     setForcesValid
     set_roffset set_numParticles set_common_gamma set_maxTiles
     set_hasInitializedKernels set_hasCreatedKernels set_cu
     set_launch_geometry set_gtree set_arrays set_radiusVectors
     set_gammaVectors set_ishydrogenVectors set_niterations set_panic_button
     set_pinnedPanicButtonMemory set_force_options
     set_downloadPanicButtonEvent set_gvol_force downloadPanicButtonEvent
     gvol_force numParticles useCutoff usePeriodic useExclusions
     cutoffDistance roffset common_gamma maxTiles hasInitializedKernels
     hasCreatedKernels cu ov_work_group_size num_compute_units gtree arrays
     radiusVector1 radiusVector2 gammaVector1 gammaVector2 ishydrogenVector
     atom_ishydrogen niterations panic_button pinnedPanicButtonMemory
     contexts_size numAtoms paddedNumAtoms forcesValid stream nbUseCutoff
     interactingTilesSize forceThreadBlockSize numForceThreadBlocks
     getErrorString].

Lemma executeGVolSA_panic inp k t p0 p1 :
  gtree k = Some t → INT_MIN ≤ niterations k + 1 ≤ INT_MAX →
  device_PanicButton inp = [p0; p1] → 0 < p0 →
  ∃ k', executeGVolSA inp k = (Ok FP.dzero, k') ∧
    forcesValid (cu k') = false ∧
    hasInitializedKernels k' = false ∧
    hasCreatedKernels k' = hasCreatedKernels k ∧
    gtree k' = Some (if 0 <? p1 then set_hasExceededTempBuffer true t else t) ∧
    pinnedPanicButtonMemory k' = Some [p0; p1] ∧
    stream (cu k') = stream (cu k) ++ construction_launches (temp_buffer_size t)
                       ++ [Launch resetSelfVolumesKernel []] ∧
    arrays k' = arrays k.
Proof.
  intros Ht Hn Hp Hp0. unfold executeGVolSA, iadd.
  destruct_kernel k. destruct_context c. cbn [gtree niterations] in Ht, Hn.
  subst gt. rewrite Hp. se_run. rewrite (ck_in _ Hn).
  destruct (uc && (mt <? its)); cbn [vget Z.ltb Z.compare Z.to_nat lookup];
    simpl; destruct (Z.ltb_spec 0 p0); try lia;
    destruct (0 <? p1); simpl;
    (eexists; split; [reflexivity|]; simpl; rewrite <- ?app_assoc;
     by repeat split).
Qed.

Lemma executeGVolSA_normal inp k t p0 E1 E2 :
  gtree k = Some t → INT_MIN ≤ niterations k + 1 ≤ INT_MAX →
  vget (device_PanicButton inp) 0 = Ok p0 → p0 ≤ 0 →
  host_energy k t (device_ovVolEnergy_1 inp) = Ok E1 →
  host_energy k t (device_ovVolEnergy_2 inp) = Ok E2 →
  ∃ k', executeGVolSA inp k = (Ok FP.dzero, k') ∧
    forcesValid (cu k') = forcesValid (cu k) ∧
    hasInitializedKernels k' = hasInitializedKernels k ∧
    gtree k' = Some t ∧
    stream (cu k') = stream (cu k) ++ construction_launches (temp_buffer_size t)
                       ++ [Launch resetSelfVolumesKernel []]
                       ++ first_pass_launches ++ second_pass_launches.
Proof.
  intros Ht Hn Hp Hp0 HE1 HE2. unfold executeGVolSA, iadd.
  destruct_kernel k. destruct_context c. cbn [gtree niterations] in Ht, Hn.
  subst gt. se_run. rewrite (ck_in _ Hn). rewrite Hp.
  destruct (uc && (mt <? its)); se_run;
    destruct (Z.ltb_spec 0 p0); try lia; se_run;
    rewrite HE1; se_run; rewrite HE2;
    (eexists; split; [reflexivity|]; simpl; rewrite <- ?app_assoc;
     by repeat split).
Qed.

Lemma init_phase_skip inp k :
  hasCreatedKernels k = true → hasInitializedKernels k = true →
  init_phase inp k = (Ok (), k).
Proof. unfold init_phase. se_norm. destruct k. simpl. by intros -> ->. Qed.

Lemma init_phase_reinit inp k :
  hasInitializedKernels k = false →
  init_phase inp k =
  (executeInitKernels inp ≫= fun _ =>
   se_modify (set_hasInitializedKernels true) ≫= fun _ =>
   se_modify (set_hasCreatedKernels true)) k.
Proof.
  intros H. unfold init_phase.
  unfold mbind at 1, se_mbind at 1, se_bind at 1, se_get.
  by rewrite H, orb_true_r.
Qed.

(** Take a successful run of the kernel's host code apart. *)
Ltac se_inv H :=
  repeat first
    [ apply se_bind_Ok in H as (? & ? & ? & H)
    | progress (unfold se_get, se_modify, se_lift, mret, se_mret, se_ret in *)
    | match goal with
      | H' : (_, _) = (_, _) |- _ => injection H' as ? ?; subst
      end ].

Lemma set_arrays_frame b k :
  gtree (set_arrays b k) = gtree k ∧ cu (set_arrays b k) = cu k.
Proof. by destruct_kernel k. Qed.

Lemma executeInitKernels_tree inp k k' :
  executeInitKernels inp k = (Ok (), k') →
  ∃ t t1 t2 t3,
    gtree k = Some t ∧
    init_tree_size t (numAtoms (cu k)) (paddedNumAtoms (cu k))
      (numForceThreadBlocks (cu k)) (forceThreadBlockSize (cu k))
      (cpu_noverlaps inp) = Ok t1 ∧
    resize_tree_buffers (forceThreadBlockSize (cu k)) t1 = Ok t2 ∧
    copy_tree_to_device t2 = Ok t3 ∧
    gtree k' = Some t3 ∧ cu k' = cu k.
Proof.
  intros H. unfold executeInitKernels in H.
  apply se_bind_Ok in H as (k0 & ? & [= <- <-] & H).
  apply se_bind_Ok in H as ([] & ka & [= <-] & H).
  apply se_bind_Ok in H as (force & kb & Hforce & H).
  apply se_bind_Ok in H as ([] & kc & Hloop & H).
  apply se_bind_Ok in H as (nn & kd & Hnn & H).
  apply se_bind_Ok in H as ([] & ke & [= <-] & H).
  apply se_bind_Ok in H as (t & kf & Ht & H).
  apply se_bind_Ok in H as (t1 & kg & Ht1 & H).
  apply se_bind_Ok in H as (t2 & kh & Ht2 & H).
  apply se_bind_Ok in H as (t3 & ki & Ht3 & H).
  apply se_bind_Ok in H as ([] & kj & [= <-] & H).
  apply se_bind_Ok in H as ([] & kk & [= <-] & H).
  apply se_bind_Ok in H as ([] & kl & [= <-] & H).
  apply se_bind_Ok in H as ([] & km & Hup & H).
  apply se_bind_Ok in H as ([] & kn & [= <-] & H).
  unfold se_lift in Ht1, Ht2, Ht3, Hnn.
  injection Ht1 as Ht1 <-. injection Ht2 as Ht2 <-. injection Ht3 as Ht3 <-.
  injection Hnn as _ <-.
  exists t, t1, t2, t3.
  (* the tree pointer is read before the loop and the sum *)
  assert (Hdone : ∀ name d ka kb u,
            upload_member name d ka = (Ok u, kb) →
            gtree kb = gtree ka ∧ cu kb = cu ka).
  { intros name d x y u Hu. unfold upload_member in Hu.
    apply se_bind_Ok in Hu as (? & ? & [= <- <-] & Hu).
    apply se_bind_Ok in Hu as (? & ? & Hl & Hu).
    unfold se_lift in Hl. injection Hl as _ <-.
    unfold se_modify in Hu. injection Hu as _ <-. by destruct_kernel x. }
  assert (Hfor : ∀ n i ka kb,
            se_for i n (fun i => se_lift (getParticleParameters force i);;
                                 mret ()) ka = (Ok (), kb) → kb = ka).
  { induction n as [|n IH]; intros i x y Hx; simpl in Hx.
    - by injection Hx.
    - apply se_bind_Ok in Hx as ([] & z & Hz & Hx).
      apply se_bind_Ok in Hz as (? & ? & Hl & Hz).
      unfold se_lift in Hl. injection Hl as _ <-. injection Hz as <-.
      by apply IH in Hx. }
  apply Hfor in Hloop as ->.
  apply Hdone in Hup as [Hg1 Hc1]. apply Hdone in H as [Hg2 Hc2].
  destruct (gvol_force k) eqn:Hgf; [|discriminate].
  injection Hforce as _ <-.
  destruct (gtree _) as [t'|] eqn:Hgt in Ht; [|discriminate].
  injection Ht as -> <-.
  rewrite (proj1 (set_arrays_frame _ _)) in Hg2.
  rewrite (proj2 (set_arrays_frame _ _)) in Hc2.
  destruct_kernel k. cbn in *.
  repeat split; try done; congruence.
Qed.

(** ** What the three tree operations of [executeInitKernels] keep *)

Lemma set_tree_buffers_frame b tbs h t :
  tree_size_boost (set_tree_buffers b tbs h t) = tree_size_boost t ∧
  has_saved_noverlaps (set_tree_buffers b tbs h t) = has_saved_noverlaps t ∧
  saved_noverlaps (set_tree_buffers b tbs h t) = saved_noverlaps t ∧
  padded_tree_size (set_tree_buffers b tbs h t) = padded_tree_size t ∧
  hasExceededTempBuffer (set_tree_buffers b tbs h t) = h ∧
  temp_buffer_size (set_tree_buffers b tbs h t) = tbs.
Proof. by destruct t. Qed.

Lemma Ok_inj {A} (a b : A) : Ok a = Ok b → a = b.
Proof. by intros [=]. Qed.

Lemma resize_tree_buffers_frame wg t t' :
  resize_tree_buffers wg t = Ok t' →
  tree_size_boost t' = tree_size_boost t ∧
  has_saved_noverlaps t' = has_saved_noverlaps t ∧
  saved_noverlaps t' = saved_noverlaps t ∧
  padded_tree_size t' = padded_tree_size t ∧
  hasExceededTempBuffer t' = false ∧
  (0 < temp_buffer_size t →
   temp_buffer_size t' =
   if hasExceededTempBuffer t then 2 * temp_buffer_size t
   else temp_buffer_size t).
Proof.
  unfold resize_tree_buffers. intros H. cbv zeta in H.
  apply bind_Ok in H as (pn & Hpn & H). apply bind_Ok in H as (p4 & Hp4 & H).
  apply bind_Ok in H as (tbs & Htbs & H).
  apply bind_Ok in H as (tbs' & Htbs' & H).
  apply Ok_inj in H. subst t'.
  match goal with
  | |- context [set_tree_buffers ?b ?x ?h ?t] =>
      destruct (set_tree_buffers_frame b x h t) as (H1 & H2 & H3 & H4 & H5 & H6)
  end.
  rewrite H1, H2, H3, H4, H5, H6.
  repeat split.
  intros Hpos. destruct (Z.leb_spec (temp_buffer_size t) 0); [lia|].
  injection Htbs as <-.
  destruct (hasExceededTempBuffer t); [|by injection Htbs'].
  by apply imul_Ok in Htbs' as [-> _].
Qed.

Lemma copy_tree_to_device_frame t t' :
  copy_tree_to_device t = Ok t' →
  tree_size_boost t' = tree_size_boost t ∧
  has_saved_noverlaps t' = has_saved_noverlaps t ∧
  saved_noverlaps t' = saved_noverlaps t ∧
  padded_tree_size t' = padded_tree_size t ∧
  hasExceededTempBuffer t' = hasExceededTempBuffer t ∧
  temp_buffer_size t' = temp_buffer_size t.
Proof.
  unfold copy_tree_to_device. intros H.
  repeat (apply bind_Ok in H as (? & _ & H)).
  injection H as <-. apply set_tree_buffers_frame.
Qed.

Lemma set_hasExceededTempBuffer_frame h t :
  tree_size_boost (set_hasExceededTempBuffer h t) = tree_size_boost t ∧
  has_saved_noverlaps (set_hasExceededTempBuffer h t) = has_saved_noverlaps t ∧
  saved_noverlaps (set_hasExceededTempBuffer h t) = saved_noverlaps t ∧
  padded_tree_size (set_hasExceededTempBuffer h t) = padded_tree_size t ∧
  hasExceededTempBuffer (set_hasExceededTempBuffer h t) = h ∧
  temp_buffer_size (set_hasExceededTempBuffer h t) = temp_buffer_size t.
Proof. apply set_tree_buffers_frame. Qed.

(** A successful initialization phase from a state whose
    [hasInitializedKernels] is down has rebuilt the tree. *)
Lemma init_phase_rebuilds inp k k' :
  hasInitializedKernels k = false →
  init_phase inp k = (Ok (), k') →
  hasInitializedKernels k' = true ∧ hasCreatedKernels k' = true ∧
  ∃ t t1 t2 t3,
    gtree k = Some t ∧
    init_tree_size t (numAtoms (cu k)) (paddedNumAtoms (cu k))
      (numForceThreadBlocks (cu k)) (forceThreadBlockSize (cu k))
      (cpu_noverlaps inp) = Ok t1 ∧
    resize_tree_buffers (forceThreadBlockSize (cu k)) t1 = Ok t2 ∧
    copy_tree_to_device t2 = Ok t3 ∧
    gtree k' = Some t3.
Proof.
  intros Hf H. rewrite (init_phase_reinit _ _ Hf) in H.
  apply se_bind_Ok in H as ([] & ka & Hinit & H).
  apply se_bind_Ok in H as ([] & kb & [= <-] & H).
  injection H as <-.
  apply executeInitKernels_tree in Hinit
    as (t & t1 & t2 & t3 & Ht & Ht1 & Ht2 & Ht3 & Hg & _).
  split; [by destruct_kernel ka|]. split; [by destruct_kernel ka|].
  exists t, t1, t2, t3. repeat split; try done. by destruct_kernel ka.
Qed.

(** ** The contract of [execute] *)

(** C1 (amended).  Whenever [execute] returns, it returns 0.0: the value of
    [executeGVolSA] is assigned to a local and dropped, and [executeGVolSA]
    itself ends in [return 0.0].  In a step without panic, once the kernels
    are set up, [execute] returns 0.0 and leaves the validity of the forces
    as it was; it has launched the kernels of the tree construction and of
    the two passes, each pass ending with [updateSelfVolumesForcesKernel]
    launched with [update_energy = 1]; the sums [E1] and [E2] the host forms
    from the downloaded volume energies after the two passes are not what is
    returned. *)
Theorem execute_returns_zero inp k :
  (∀ r k', execute inp k = (Ok r, k') → r = FP.dzero) ∧
  (∀ k1 t p0 E1 E2,
     init_phase inp k = (Ok (), k1) → gtree k1 = Some t →
     INT_MIN ≤ niterations k1 + 1 ≤ INT_MAX →
     vget (device_PanicButton inp) 0 = Ok p0 → p0 ≤ 0 →
     host_energy k1 t (device_ovVolEnergy_1 inp) = Ok E1 →
     host_energy k1 t (device_ovVolEnergy_2 inp) = Ok E2 →
     ∃ k', execute inp k = (Ok FP.dzero, k') ∧
       forcesValid (cu k') = forcesValid (cu k1) ∧
       stream (cu k') =
         stream (cu k1) ++ construction_launches (temp_buffer_size t)
           ++ [Launch resetSelfVolumesKernel []]
           ++ first_pass_launches ++ second_pass_launches).
Proof.
  split.
  - intros r k' H. rewrite execute_unfold in H.
    apply se_bind_Ok in H as ([] & k1 & _ & H).
    apply se_bind_Ok in H as (energy & k2 & _ & H).
    by injection H as <- _.
  - intros k1 t p0 E1 E2 Hinit Ht Hn Hp Hp0 HE1 HE2.
    destruct (executeGVolSA_normal inp k1 t p0 E1 E2 Ht Hn Hp Hp0 HE1 HE2)
      as (k' & Hrun & Hfv & _ & _ & Hst).
    exists k'. rewrite execute_unfold.
    rewrite (se_bind_run _ _ _ _ _ Hinit), (se_bind_run _ _ _ _ _ Hrun).
    done.
Qed.

(** C2 (amended).  When entry 0 of the downloaded panic page is positive,
    [execute] returns 0.0, marks the forces invalid and clears
    [hasInitializedKernels]; the tree is flagged with [hasExceededTempBuffer]
    when entry 1 is positive.  [resetSelfVolumesKernel] has been launched
    before the page is examined and nothing is launched after it.  The next
    call sets the kernels up again: [tree_size_boost] is unchanged,
    [temp_buffer_size] is doubled when the flag was up, and the budget saved
    for atom [i] becomes [max (saved_noverlaps[i], noverlaps_current[i] + 1)]
    with the counts of that next call. *)
Theorem execute_panic inp k k1 t p0 p1 :
  init_phase inp k = (Ok (), k1) → gtree k1 = Some t →
  INT_MIN ≤ niterations k1 + 1 ≤ INT_MAX →
  device_PanicButton inp = [p0; p1] → 0 < p0 →
  ∃ k',
    execute inp k = (Ok FP.dzero, k') ∧
    forcesValid (cu k') = false ∧
    hasInitializedKernels k' = false ∧
    gtree k' = Some (if 0 <? p1 then set_hasExceededTempBuffer true t else t) ∧
    stream (cu k') =
      stream (cu k1) ++ construction_launches (temp_buffer_size t)
        ++ [Launch resetSelfVolumesKernel []] ∧
    (* the next call *)
    ∀ inp' k2,
      init_phase inp' k' = (Ok (), k2) →
      hasInitializedKernels k2 = true ∧
      ∃ t', gtree k2 = Some t' ∧
        tree_size_boost t' = tree_size_boost t ∧
        hasExceededTempBuffer t' = false ∧
        (0 < temp_buffer_size t →
         temp_buffer_size t' =
         if (0 <? p1) || hasExceededTempBuffer t
         then 2 * temp_buffer_size t else temp_buffer_size t) ∧
        (has_saved_noverlaps t = true →
         ∀ i, 0 ≤ i < numAtoms (cu k') →
           ∃ s c, vget (saved_noverlaps t) i = Ok s ∧
                  vget (cpu_noverlaps inp') i = Ok c ∧
                  vget (saved_noverlaps t') i = Ok (Z.max s (c + 1))).
Proof.
  intros Hinit Ht Hn Hp Hp0.
  destruct (executeGVolSA_panic inp k1 t p0 p1 Ht Hn Hp Hp0)
    as (k' & Hrun & Hfv & Hik & _ & Hg & _ & Hst & _).
  exists k'. rewrite execute_unfold.
  rewrite (se_bind_run _ _ _ _ _ Hinit), (se_bind_run _ _ _ _ _ Hrun).
  repeat (split; [done|]).
  intros inp' k2 Hnext.
  destruct (init_phase_rebuilds _ _ _ Hik Hnext)
    as (Hik2 & _ & ta & t1 & t2 & t3 & Hta & Ht1 & Ht2 & Ht3 & Hg2).
  split; [done|]. exists t3. split; [done|].
  rewrite Hg in Hta.
  injection Hta as Hta.
  apply init_tree_size_inv in Ht1
    as (z & tp & off & a & Hz & _ & _ & _ & Hs1 & _ & _ & _ & _ & _ & Hb1 & _
        & _ & _ & _ & _ & Htb1 & Hex1).
  apply resize_tree_buffers_frame in Ht2 as (Hb2 & _ & Hs2 & _ & Hex2 & Htb2).
  apply copy_tree_to_device_frame in Ht3 as (Hb3 & _ & Hs3 & _ & Hex3 & Htb3).
  assert (Hframe : tree_size_boost ta = tree_size_boost t ∧
                   has_saved_noverlaps ta = has_saved_noverlaps t ∧
                   saved_noverlaps ta = saved_noverlaps t ∧
                   temp_buffer_size ta = temp_buffer_size t ∧
                   hasExceededTempBuffer ta = ((0 <? p1) || hasExceededTempBuffer t)).
  { subst ta. destruct (0 <? p1); [|done].
    by destruct (set_hasExceededTempBuffer_frame true t)
      as (-> & -> & -> & _ & -> & ->). }
  destruct Hframe as (Hfb & Hfh & Hfs & Hft & Hfe).
  split; [congruence|]. split; [congruence|]. split.
  - intros Hpos. rewrite Htb3, Htb2 by lia. by rewrite Hex1, Hfe, Htb1, Hft.
  - intros Hsaved i Hi. rewrite Hs3, Hs2, Hs1.
    apply init_sizing_spec in Hz. rewrite Hfh, Hsaved, Hfs in Hz.
    destruct Hz as (_ & _ & _ & _ & _ & _ & _ & _ & _ & _ & Hbud & _).
    destruct (Hbud i Hi) as (s & c & H1 & H2 & H3 & H4).
    by exists s, c.
Qed.

(** C5 (amended).  With the boost 2 of the constructor and a positive pad
    modulus [M], after [init_tree_size] the padded size of section [s] is
    twice its raw size (the sum of the budgets of its atoms, at least 1)
    rounded up to the next multiple of [M].  [tree_size_boost] is still 2
    afterwards, and it is still 2 after the tree has been flagged,
    [resize_tree_buffers] and [copy_tree_to_device]: it is never doubled. *)
Theorem init_tree_size_capacity t n padded ncu M cur t' :
  tree_size_boost t = FP.two → 0 < M →
  init_tree_size t n padded ncu M cur = Ok t' →
  (∃ z, init_sizing t n ncu M cur = Ok z ∧
     ∀ s, 0 ≤ s < ncu →
       let raw := section_budget s (s_compute_unit_of_atom z) (s_noverlaps z) in
       let cap := M * ((2 * Z.max 1 raw + M - 1) / M) in
       vget (padded_tree_size t') s = Ok cap ∧
       (M | cap) ∧ 2 * Z.max 1 raw ≤ cap < 2 * Z.max 1 raw + M) ∧
  tree_size_boost t' = FP.two ∧
  ∀ h wg t2 t3,
    resize_tree_buffers wg (set_hasExceededTempBuffer h t') = Ok t2 →
    copy_tree_to_device t2 = Ok t3 →
    tree_size_boost t3 = FP.two.
Proof.
  intros Hb HM H.
  destruct (section_capacity _ _ _ _ _ _ _ Hb HM H) as [Hb' Hcap].
  split; [done|]. split; [done|].
  intros h wg t2 t3 H2 H3.
  apply resize_tree_buffers_frame in H2 as (H2 & _).
  apply copy_tree_to_device_frame in H3 as (H3 & _).
  destruct (set_hasExceededTempBuffer_frame h t') as (Hf & _).
  congruence.
Qed.

(** ** The properties on concrete systems *)

(** Decide a closed goal by evaluating the model. *)
Ltac evaluate :=
  vm_compute; first [reflexivity | discriminate | repeat split; discriminate].

(** One goal for each member of a list given by its elements. *)
Ltac each_member H :=
  repeat (apply elem_of_cons in H as [->|H]); [..|by apply elem_of_nil in H].

Lemma Forall_vget {A} (P : A → Prop) (l : list A) i x :
  Forall P l → vget l i = Ok x → P x.
Proof.
  intros Hl Hx. apply vget_Ok in Hx as [_ Hx].
  by eapply Forall_lookup_1.
Qed.

(** The states of the example are the ones the code reaches. *)
Lemma example_runs :
  initialize example_increment example_file example_inputs example_force (new_Kernel example_context example_memory)
    = (Ok (), example_initialized) ∧
  init_phase (example_step [0; 0]) example_initialized
    = (Ok (), example_ready) ∧
  execute (example_step [1; 1]) example_initialized
    = (Ok FP.dzero, example_after_panic) ∧
  execute (example_step [0; 0]) example_after_panic
    = (Ok FP.dzero, example_after_retry).
Proof. repeat split; evaluate. Qed.

(** Five atoms in three sections, sized twice: the second sizing keeps the
    budgets 4, 3, 2, 1 saved by the first one and raises the second atom's
    budget to 5. *)
Lemma init_tree_size_budget_witness :
  has_saved_noverlaps later_tree = true ∧
  saved_noverlaps first_tree = [4; 1; 3; 2; 1] ∧
  saved_noverlaps later_tree = [4; 5; 3; 2; 1] ∧
  ∀ i, 0 ≤ i < 5 →
    ∃ s c, vget (saved_noverlaps first_tree) i = Ok s ∧
           vget later_counts i = Ok c ∧
           vget (saved_noverlaps later_tree) i = Ok (Z.max s (c + 1)).
Proof.
  destruct (init_tree_size_budget first_tree 5 8 3 4 later_counts later_tree)
    as (Hs & z & Hz & Hi); [reflexivity | vm_compute; reflexivity |].
  split; [exact Hs|]. split; [reflexivity|]. split; [reflexivity|].
  intros i Hr. destruct (Hi i Hr) as (s & c & H1 & H2 & _ & H4 & _).
  exists s, c. split; [exact H1|]. split; [exact H2 | exact H4].
Defined.

(** The raw sizes 5, 5 and 1 of the three sections give the capacities 12,
    12 and 4 with the pad modulus 4. *)
Lemma init_tree_size_capacity_witness :
  padded_tree_size first_tree = [12; 12; 4] ∧
  tree_size_boost first_tree = FP.two ∧
  ∃ z, init_sizing example_tree 5 3 4 first_counts = Ok z ∧
    ∀ s, 0 ≤ s < 3 →
      let raw := section_budget s (s_compute_unit_of_atom z) (s_noverlaps z) in
      vget (padded_tree_size first_tree) s =
        Ok (4 * ((2 * Z.max 1 raw + 4 - 1) / 4)).
Proof.
  destruct (init_tree_size_capacity example_tree 5 8 3 4 first_counts
              first_tree) as ((z & Hz & Hc) & Hb & _);
    [reflexivity | lia | vm_compute; reflexivity |].
  split; [reflexivity|]. split; [exact Hb|].
  exists z. split; [exact Hz|]. intros s Hs. exact (proj1 (Hc s Hs)).
Defined.

(** The three sections start at 0, 12 and 24. *)
Lemma init_tree_size_layout_witness :
  tree_pointer first_tree = [0; 12; 24] ∧
  total_tree_size first_tree = sumZ (padded_tree_size first_tree) ∧
  ∀ s, 0 ≤ s < 3 →
    vget (tree_pointer first_tree) s =
      Ok (sumZ (take (Z.to_nat s) (padded_tree_size first_tree))).
Proof.
  destruct (init_tree_size_layout example_tree 5 8 3 4 first_counts
              first_tree) as (z & Hz & Hp & Ht & _).
  - vm_compute; reflexivity.
  - intros i c _ Hc. revert Hc. apply Forall_vget.
    unfold first_counts. repeat constructor; lia.
  - split; [reflexivity|]. split; [exact Ht | exact Hp].
Defined.

(** C6 (the code does not keep the bound).  With 5 atoms of budget 1 and
    4 sections the load per section is [max (5 / 3, 1) = 1], the last atom
    has prefix sum 4 and so section index [4 / 1 = 4], which is not below 4:
    [natoms_in_tree[4]] is outside the vector of 4 entries and the run
    faults.  The same happens with 1000 atoms of budget 50 and 320
    sections. *)
Theorem section_index_out_of_range a b c d e :
  init_tree_size (new_CudaOverlapTree a b c d e) 5 8 4 4
    [0; 0; 0; 0; 0; 0; 0; 0]
    = Fail OutOfBounds ∧
  (∃ z, prefix_loop 5 [1; 1; 1; 1; 1] = Ok z ∧ vget z 4 = Ok 4 ∧
        per_section_load 4 5 1 = Ok 1 ∧ idiv 4 1 = Ok 4) ∧
  init_tree_size (new_CudaOverlapTree a b c d e) 1000 1024 320 64
    (replicate 1024 49)
    = Fail OutOfBounds.
Proof.
  split; [by vm_compute|]. split; [|by vm_compute].
  eexists. split; [vm_compute; reflexivity|]. by vm_compute.
Qed.

(** C7 (the code does not give every atom its slot).  Six atoms without
    overlaps in five sections: every budget is 1, the load per section is
    [max (6 / 4, 1) = 1] and the last atom, whose prefix sum is 5, gets the
    section index [5 / 1 = 5].  The sections are 0 to 4: [natoms_in_tree] and
    [tree_pointer] have five entries and none for this atom, the atom is
    counted in no section, and the run faults where [natoms_in_tree[5]] is
    written.  The same happens with 65 atoms of budget 10 in 64 sections:
    the load is [max (650 / 63, 10) = 10] and the last atom, with the prefix
    sum 640, gets the section index 64. *)
Theorem init_tree_size_no_layout a b c d e :
  budget_loop 6 (replicate 6 0) [0; 0; 0; 0; 0; 0; 0; 0]
    = Ok [1; 1; 1; 1; 1; 1] ∧
  (∃ ps, prefix_loop 6 [1; 1; 1; 1; 1; 1] = Ok ps ∧ vget ps 6 = Ok 6 ∧
         vget ps 5 = Ok 5 ∧
         assign_loop 6 5 1 ps = Fail OutOfBounds) ∧
  max_loop 6 [1; 1; 1; 1; 1; 1] = Ok 1 ∧
  per_section_load 5 6 1 = Ok 1 ∧ idiv 5 1 = Ok 5 ∧
  (∃ v, vnew 5 = Ok v ∧ vget v 5 = Fail OutOfBounds) ∧
  init_tree_size (new_CudaOverlapTree a b c d e) 6 8 5 4
    [0; 0; 0; 0; 0; 0; 0; 0]
    = Fail OutOfBounds ∧
  per_section_load 64 650 10 = Ok 10 ∧ idiv 640 10 = Ok 64 ∧
  init_tree_size (new_CudaOverlapTree a b c d e) 65 96 64 64
    (replicate 96 9)
    = Fail OutOfBounds.
Proof.
  split; [by vm_compute|]. split.
  { eexists. split; [vm_compute; reflexivity|]. by vm_compute. }
  split; [by vm_compute|]. split; [by vm_compute|]. split; [by vm_compute|].
  split.
  { eexists. split; [vm_compute; reflexivity|]. by vm_compute. }
  repeat split; by vm_compute.
Qed.

(** Two non-hydrogen atoms with the same gamma: [initialize] completes when
    the driver answers [CUDA_SUCCESS] twice, and throws when
    [cuMemHostAlloc] answers 2. *)
Lemma initialize_raises_witness :
  (initialize example_increment example_file example_inputs example_force
     (new_Kernel example_context example_memory)).1 = Ok () ∧
  ¬ gamma_mismatch (particles example_force) ∧
  throws (initialize example_increment example_file failing_inputs
            example_force (new_Kernel example_context example_memory)).1.
Proof.
  destruct (initialize_raises example_increment example_file example_inputs
              example_force (new_Kernel example_context example_memory)) as [_ Hiff].
  - evaluate.
  - reflexivity.
  - intros p Hp _. each_member Hp; reflexivity.
  - split; [reflexivity|]. split.
    + intros Hm.
      assert (Ht : throws (initialize example_increment example_file
                             example_inputs example_force
                             (new_Kernel example_context example_memory)).1)
        by (apply Hiff; right; left; exact Hm).
      vm_compute in Ht. exact Ht.
    + apply (initialize_raises example_increment example_file failing_inputs
               example_force (new_Kernel example_context example_memory)).
      * evaluate.
      * reflexivity.
      * intros p Hp _. each_member Hp; reflexivity.
      * right. right. split; [discriminate|]. right. discriminate.
Defined.

(** Gammas 1, 1.0008 and 0.9992: the second and the third differ by 0.0016,
    whose square exceeds 1e-6, yet each differs from the first by 0.0008 only
    and [initialize] completes. *)
Lemma pairwise_gamma_counterexample :
  (initialize example_increment example_file example_inputs spread_force (new_Kernel example_context example_memory)).1
    = Ok () ∧
  contexts_size example_context = 1 ∧
  ∃ p q, p ∈ particles spread_force ∧ q ∈ particles spread_force ∧
         ishydrogen p = false ∧ ishydrogen q = false ∧
         squared_difference_exceeds p q = true ∧
         gamma_differs (FP.float_of_double (gamma p)) (gamma q) = true.
Proof.
  split; [by vm_compute|]. split; [done|].
  eexists {| gamma := ratio 10008 10000 |}, {| gamma := ratio 9992 10000 |}.
  split; [apply list_elem_of_further, list_elem_of_here|].
  split; [do 2 apply list_elem_of_further; apply list_elem_of_here|].
  by vm_compute.
Qed.

(** The gamma vectors of the example after [initialize]: 0.1 / 0.5 and its
    negation for the two non-hydrogen atoms, the two zeros for the hydrogen. *)
Lemma gamma_parameters_negated_witness :
  gammas_negated example_force example_initialized ∧
  gammaVector1 example_initialized
    = [S754_finite false 13421773 (-26); S754_zero false;
       S754_finite false 13421773 (-26); S754_zero false] ∧
  gammaVector2 example_initialized
    = [S754_finite true 13421773 (-26); S754_zero true;
       S754_finite true 13421773 (-26); S754_zero false].
Proof.
  split; [|split; reflexivity].
  apply (proj1 (gamma_parameters_negated example_increment example_file
                  example_force) example_inputs (new_Kernel example_context example_memory)).
  - evaluate.
  - evaluate.
  - evaluate.
Defined.

(** New gammas for the initialized example: the gamma vectors change, the
    radii, the hydrogen flags, the tree and [radiusParam1] do not; the array
    [gammaParam1], which held 0.1 / 0.5 for the two non-hydrogen atoms, now
    holds 0.2 / 0.5 for the first atom and 0.3 / 0.5 for the third one. *)
Lemma copyParametersToContext_effect_witness :
  let k' := (copyParametersToContext example_force' example_initialized).2 in
  (copyParametersToContext example_force' example_initialized).1 = Ok () ∧
  radiusVector1 k' = radiusVector1 example_initialized ∧
  radiusVector2 k' = radiusVector2 example_initialized ∧
  ishydrogenVector k' = ishydrogenVector example_initialized ∧
  gtree k' = gtree example_initialized ∧
  gammaVector1 k' ≠ gammaVector1 example_initialized ∧
  arrays k' !! "radiusParam1" = arrays example_initialized !! "radiusParam1" ∧
  gammaVector1 k'
    = [FP.float_of_double (FP.ddiv (ratio 2 10) example_increment);
       S754_zero false;
       FP.float_of_double (FP.ddiv (ratio 3 10) example_increment);
       S754_zero false] ∧
  (∃ a1 a2,
     arrays k' !! "gammaParam1"
       = Some {| arr_size := arr_size a1;
                 arr_data := Floats (gammaVector1 k') |} ∧
     arrays k' !! "gammaParam2"
       = Some {| arr_size := arr_size a2;
                 arr_data := Floats (gammaVector2 k') |}).
Proof.
  destruct (copyParametersToContext_effect example_force' example_initialized 4)
    as (_ & Hr1 & Hr2 & Hh & Ht & Ha & _ & _ & _ & _ & Hup).
  - vm_compute. repeat split.
  - evaluate.
  - split; [reflexivity|]. split; [exact Hr1|]. split; [exact Hr2|].
    split; [exact Hh|]. split; [exact Ht|]. split; [vm_compute; discriminate|].
    split; [apply Ha; discriminate|]. split; [vm_compute; reflexivity|].
    destruct Hup as (_ & _ & _ & a1 & a2 & _ & _ & H1 & H2);
      [reflexivity | vm_compute; discriminate |].
    exists a1, a2. split; [exact H1 | exact H2].
Defined.

(** A context without atoms. *)
Lemma zero_atoms_no_effect_witness :
  ∃ k', initialize example_increment example_file example_inputs empty_force (new_Kernel empty_context example_memory)
          = (Ok (), k') ∧
        arrays k' = ∅ ∧ gtree k' = None ∧ pinnedPanicButtonMemory k' = None ∧
        radiusVector1 k' = [] ∧ gammaVector1 k' = [] ∧
        copyParametersToContext empty_force k' = (Ok (), k').
Proof.
  destruct (zero_atoms_no_effect example_increment example_file
              example_inputs empty_force (new_Kernel empty_context example_memory))
    as (k' & Hrun & _ & Ha & Ht & Hp & Hr & _ & Hg & _ & _ & _ & _ & Hc).
  - reflexivity.
  - evaluate.
  - exists k'. split; [exact Hrun|]. split; [exact Ha|]. split; [exact Ht|].
    split; [exact Hp|]. split; [exact Hr|]. split; [exact Hg|].
    apply Hc. reflexivity.
Defined.

(** A step without panic on the initialized example. *)
Lemma execute_returns_zero_witness :
  ∃ k', execute (example_step [0; 0]) example_initialized = (Ok FP.dzero, k') ∧
        stream (cu k') =
          construction_launches 256 ++ [Launch resetSelfVolumesKernel []]
            ++ first_pass_launches ++ second_pass_launches.
Proof.
  destruct (execute_returns_zero (example_step [0; 0]) example_initialized)
    as [_ Hrun].
  destruct (Hrun example_ready (tree_of example_ready) 0
              (FP.double_of_int 9) (FP.double_of_int (-3)))
    as (k' & Hk & _ & Hst).
  - evaluate.
  - evaluate.
  - evaluate.
  - evaluate.
  - lia.
  - evaluate.
  - evaluate.
  - exists k'. split; [exact Hk|]. rewrite Hst. evaluate.
Defined.

(** On the example, without panic, the sums of the downloaded volume energies
    over the three atoms are 9 after the first pass and -3 after the second
    one; [execute] returns 0, which is neither of them nor their sum. *)
Lemma execute_not_energy :
  initialize example_increment example_file example_inputs example_force (new_Kernel example_context example_memory)
    = (Ok (), example_initialized) ∧
  (execute (example_step [0; 0]) example_initialized).1 = Ok FP.dzero ∧
  vget (device_PanicButton (example_step [0; 0])) 0 = Ok 0 ∧
  getNumParticles example_force = 3 ∧
  init_phase (example_step [0; 0]) example_initialized
    = (Ok (), example_ready) ∧
  gtree example_ready = Some (tree_of example_ready) ∧
  host_energy example_ready (tree_of example_ready)
    (device_ovVolEnergy_1 (example_step [0; 0])) = Ok (FP.double_of_int 9) ∧
  host_energy example_ready (tree_of example_ready)
    (device_ovVolEnergy_2 (example_step [0; 0]))
    = Ok (FP.double_of_int (-3)) ∧
  FP.double_of_int 9 ≠ FP.dzero ∧ FP.double_of_int (-3) ≠ FP.dzero ∧
  FP.dadd (FP.double_of_int 9) (FP.double_of_int (-3)) ≠ FP.dzero.
Proof. repeat split; evaluate. Qed.

(** A step of the initialized example with both entries of the panic page
    up. *)
Lemma execute_panic_witness :
  ∃ k', execute (example_step [1; 1]) example_initialized = (Ok FP.dzero, k') ∧
        forcesValid (cu k') = false ∧ hasInitializedKernels k' = false ∧
        stream (cu k') =
          construction_launches 256 ++ [Launch resetSelfVolumesKernel []].
Proof.
  destruct (execute_panic (example_step [1; 1]) example_initialized
              example_ready (tree_of example_ready) 1 1)
    as (k' & Hk & Hfv & Hik & _ & Hst & _).
  - evaluate.
  - evaluate.
  - evaluate.
  - reflexivity.
  - lia.
  - exists k'. split; [exact Hk|]. split; [exact Hfv|]. split; [exact Hik|].
    rewrite Hst. evaluate.
Defined.

(** The step with panic has launched [resetSelfVolumesKernel], the first
    phase of the reduction pipeline; the call that follows rebuilds the tree
    with the budgets and the padded sizes it had. *)
Lemma panic_step_counterexample :
  initialize example_increment example_file example_inputs example_force (new_Kernel example_context example_memory)
    = (Ok (), example_initialized) ∧
  execute (example_step [1; 1]) example_initialized
    = (Ok FP.dzero, example_after_panic) ∧
  execute (example_step [0; 0]) example_after_panic
    = (Ok FP.dzero, example_after_retry) ∧
  device_PanicButton (example_step [1; 1]) = [1; 1] ∧
  forcesValid (cu example_after_panic) = false ∧
  hasInitializedKernels example_after_panic = false ∧
  stream (cu example_initialized) = [] ∧
  Launch resetSelfVolumesKernel [] ∈ stream (cu example_after_panic) ∧
  resetSelfVolumesKernel ∈ reduction_pipeline ∧
  hasInitializedKernels example_after_retry = true ∧
  saved_noverlaps (tree_of example_after_panic) = [3; 1; 2] ∧
  saved_noverlaps (tree_of example_after_retry) = [3; 1; 2] ∧
  padded_tree_size (tree_of example_after_retry)
    = padded_tree_size (tree_of example_after_panic).
Proof.
  do 7 (split; [evaluate|]).
  split; [vm_compute; do 8 apply list_elem_of_further; apply list_elem_of_here|].
  split; [apply list_elem_of_here|]. repeat split; evaluate.
Qed.

(** After a panic with both entries up and the rebuild of the next call,
    [tree_size_boost] is 2 as before, not 4, and the capacities of the
    sections are the same; [temp_buffer_size] is what has doubled. *)
Lemma boost_not_doubled :
  execute (example_step [1; 1]) example_initialized
    = (Ok FP.dzero, example_after_panic) ∧
  execute (example_step [0; 0]) example_after_panic
    = (Ok FP.dzero, example_after_retry) ∧
  hasInitializedKernels example_after_panic = false ∧
  hasExceededTempBuffer (tree_of example_after_panic) = true ∧
  hasInitializedKernels example_after_retry = true ∧
  tree_size_boost (tree_of example_after_panic) = FP.two ∧
  tree_size_boost (tree_of example_after_retry) = FP.two ∧
  FP.two ≠ FP.dmul FP.two FP.two ∧
  padded_tree_size (tree_of example_after_panic) = [12; 2] ∧
  padded_tree_size (tree_of example_after_retry) = [12; 2] ∧
  temp_buffer_size (tree_of example_after_panic) = 256 ∧
  temp_buffer_size (tree_of example_after_retry) = 512.
Proof. repeat split; evaluate. Qed.

(** * Further properties of the code *)

(** ** The layout [init_tree_size] leaves, section by section *)

Lemma occ_lt_all_lt s l : Forall (fun x => x < s) l → occ_lt s l = Z.of_nat (length l).
Proof.
  induction 1 as [|x l Hx _ IH]; simpl; [done|].
  destruct (Z.ltb_spec x s); lia.
Qed.

Lemma occ_lt_le_length s l : occ_lt s l ≤ Z.of_nat (length l).
Proof. induction l as [|x l IH]; simpl; [lia|]. destruct (x <? s); lia. Qed.

Lemma occ_lt_mono s s' l : s ≤ s' → occ_lt s l ≤ occ_lt s' l.
Proof.
  intros Hs. induction l as [|x l IH]; simpl; [lia|].
  destruct (Z.ltb_spec x s), (Z.ltb_spec x s'); lia.
Qed.

(** The facts about a successful [init_tree_size] the properties below
    share. *)
Lemma init_tree_size_sections t n padded ncu M cur t' :
  init_tree_size t n padded ncu M cur = Ok t' →
  ∃ z, init_sizing t n ncu M cur = Ok z ∧
    let l := s_compute_unit_of_atom z in
    0 ≤ n ∧ 0 ≤ ncu ∧ length l = Z.to_nat n ∧ in_sections ncu l ∧
    total_atoms_in_tree t' = n ∧
    length (natoms_in_tree t') = Z.to_nat ncu ∧
    length (padded_tree_size t') = Z.to_nat ncu ∧
    length (atom_tree_pointer t') = Z.to_nat padded ∧
    padded_tree_size t' = s_section_size z ∧
    total_tree_size t' = sumZ (padded_tree_size t') ∧
    (∀ s, 0 ≤ s < ncu →
       vget (natoms_in_tree t') s = Ok (occ s l) ∧
       vget (first_atom t') s = Ok (occ_lt s l) ∧
       vget (tree_size t') s = Ok 0 ∧
       vget (tree_pointer t') s =
         Ok (sumZ (take (Z.to_nat s) (padded_tree_size t')))) ∧
    (∀ s i, 0 ≤ s < ncu → 0 ≤ i < occ s l →
       vget (atom_tree_pointer t') (occ_lt s l + i) =
         Ok (sumZ (take (Z.to_nat s) (padded_tree_size t')) + i)).
Proof.
  intros H. unfold init_tree_size in H.
  apply bind_Ok in H as (z & Hz & H).
  apply bind_Ok in H as ([tp off] & Htp & H).
  apply bind_Ok in H as (a & Ha & H).
  apply Ok_inj in H. subst t'. cbn [total_atoms_in_tree natoms_in_tree
    padded_tree_size atom_tree_pointer total_tree_size first_atom tree_size
    tree_pointer].
  exists z. split; [done|].
  pose proof (init_sizing_spec _ _ _ _ _ _ Hz) as Hspec. simpl in Hspec.
  destruct Hspec as (Hn & HS & _ & _ & _ & Hcualen & Hnatlen & Hsslen & _
                     & Htot & _ & Hcua & Hocc & _).
  assert (Hnatpos : ∀ s x, vget (s_natoms_in_tree z) s = Ok x → 0 ≤ x).
  { intros s x Hx. pose proof (vget_lt _ _ _ Hx).
    rewrite Hocc in Hx by lia. injection Hx as <-. apply occ_nonneg. }
  apply pointer_loop_spec in Htp as (_ & Htplen & -> & Htpall).
  apply layout_loop_spec in Ha
    as (_ & Hatplen & Hptslen & Htts & Hao & Hsec & Hatp); [|done].
  assert (Hpts : l_padded_tree_size a = s_section_size z).
  { apply vget_ext; [lia|]. intros s Hs. apply Hsec. lia. }
  assert (Hin : in_sections ncu (s_compute_unit_of_atom z)).
  { apply vget_Forall. intros j x Hx. pose proof (vget_lt _ _ _ Hx).
    destruct (Hcua j ltac:(lia)) as [Hj ?]. rewrite Hx in Hj.
    injection Hj as ->. lia. }
  assert (Hcuapos : Forall (fun x => 0 ≤ x) (s_compute_unit_of_atom z)).
  { eapply Forall_impl; [exact Hin|]. simpl. lia. }
  pose proof (sum_occ_lt _ _ ncu Hcuapos Hocc) as Hsum.
  cbv zeta. rewrite Hpts.
  repeat (split; [done || lia|]).
  split; [by rewrite Htts, take_ge by lia|].
  split.
  - intros s Hs. destruct (Hsec s Hs) as (Hfa & _ & Hts).
    rewrite Hsum in Hfa by lia. split; [by apply Hocc|].
    split; [done|]. split; [done|]. by apply Htpall.
  - intros s i Hs Hi.
    destruct (Hatp s (occ s (s_compute_unit_of_atom z)) i Hs
                (Hocc s Hs) Hi) as (p & Hp & Hv).
    + rewrite Hsum, Htot by lia.
      pose proof (occ_lt_succ s (s_compute_unit_of_atom z)).
      pose proof (occ_lt_le_length (s + 1) (s_compute_unit_of_atom z)). lia.
    + rewrite Hsum in Hv by lia. rewrite Hv. f_equal.
      rewrite (Htpall s Hs) in Hp. injection Hp as <-. done.
Qed.

Lemma occ_le_section_budget s l nov :
  length l = length nov → Forall (fun x => 1 ≤ x) nov →
  occ s l ≤ section_budget s l nov.
Proof.
  revert nov. induction l as [|u l IH]; intros [|x nov] Hlen Hnov;
    simpl in *; try lia.
  apply Forall_cons in Hnov as [Hx Hnov].
  specialize (IH nov ltac:(lia) Hnov). destruct (u =? s); lia.
Qed.

Lemma sumZ_take_bound (l : list Z) (a : nat) :
  Forall (fun x => 0 ≤ x) l → sumZ (take a l) ≤ sumZ l.
Proof.
  intros Hl. rewrite <- (take_ge l (length l)) at 2 by lia.
  destruct (Nat.le_gt_cases a (length l)).
  - by apply sumZ_take_mono.
  - rewrite (take_ge l a) by lia. rewrite take_ge by lia. lia.
Qed.

(** X1.  After [init_tree_size] every atom has a section index in
    [0, num_sections), [natoms_in_tree[s]] is the number of atoms with
    section [s], and these numbers add up to the number of atoms, which is
    also [total_atoms_in_tree]. *)
Theorem init_tree_size_counts t n padded ncu M cur t' :
  init_tree_size t n padded ncu M cur = Ok t' →
  total_atoms_in_tree t' = n ∧ sumZ (natoms_in_tree t') = n ∧
  ∃ z, init_sizing t n ncu M cur = Ok z ∧
    (∀ i, 0 ≤ i < n →
       ∃ s, vget (s_compute_unit_of_atom z) i = Ok s ∧ 0 ≤ s < ncu) ∧
    (∀ s, 0 ≤ s < ncu →
       vget (natoms_in_tree t') s = Ok (occ s (s_compute_unit_of_atom z))).
Proof.
  intros H. apply init_tree_size_sections in H as (z & Hz & H).
  cbv zeta in H.
  destruct H as (Hn & HS & Hlen & Hin & Htot & Hnl & _ & _ & _ & _ & Hsec & _).
  split; [done|]. split.
  - rewrite <- (take_ge (natoms_in_tree t') (Z.to_nat ncu)) by lia.
    rewrite (sum_occ_lt _ (s_compute_unit_of_atom z) ncu); [| |by intros; apply Hsec|lia].
    + rewrite occ_lt_all_lt; [lia|].
      eapply Forall_impl; [exact Hin|]. simpl. lia.
    + eapply Forall_impl; [exact Hin|]. simpl. lia.
  - exists z. split; [done|]. split.
    + intros i Hi. destruct (vget_is_Ok (s_compute_unit_of_atom z) i) as [s Hs];
        [lia|]. exists s. split; [done|].
      apply vget_Ok in Hs as [_ Hs].
      by apply (Forall_lookup_1 _ _ _ _ Hin Hs).
    + intros s Hs. by apply Hsec.
Qed.

(** X2.  With counts that are not negative, the atoms of a section are
    consecutive: section [s] holds exactly the atoms [i] with
    [first_atom[s] ≤ i < first_atom[s] + natoms_in_tree[s]], and that range
    lies within the atoms. *)
Theorem init_tree_size_contiguous t n padded ncu M cur t' :
  init_tree_size t n padded ncu M cur = Ok t' →
  (∀ i c, 0 ≤ i < n → vget cur i = Ok c → 0 ≤ c) →
  ∃ z, init_sizing t n ncu M cur = Ok z ∧
    ∀ s, 0 ≤ s < ncu →
      ∃ fa cnt, vget (first_atom t') s = Ok fa ∧
                vget (natoms_in_tree t') s = Ok cnt ∧
                0 ≤ fa ∧ 0 ≤ cnt ∧ fa + cnt ≤ n ∧
                ∀ i, 0 ≤ i < n →
                  (vget (s_compute_unit_of_atom z) i = Ok s ↔
                   fa ≤ i < fa + cnt).
Proof.
  intros H Hcur. apply init_tree_size_sections in H as (z & Hz & H).
  cbv zeta in H.
  destruct H as (Hn & HS & Hlen & Hin & Htot & Hnl & _ & _ & _ & _ & Hsec & _).
  exists z. split; [done|]. intros s Hs.
  pose proof (sections_nondecreasing _ _ _ _ _ _ Hz Hcur) as Hmono.
  set (l := s_compute_unit_of_atom z) in *.
  destruct (Hsec s Hs) as (Hcnt & Hfa & _).
  exists (occ_lt s l), (occ s l). split; [done|]. split; [done|].
  split; [apply occ_lt_nonneg|]. split; [apply occ_nonneg|].
  split.
  { rewrite <- occ_lt_succ. pose proof (occ_lt_le_length (s + 1) l). lia. }
  assert (Hpos : ∀ i x, 0 ≤ i → vget l i = Ok x →
                        occ_lt x l ≤ i < occ_lt x l + occ x l).
  { intros i x Hi Hx. apply vget_Ok in Hx as [_ Hx].
    pose proof (nondecreasing_position _ Hmono _ _ Hx) as Hp.
    rewrite occ_lt_succ, Z2Nat.id in Hp by lia. done. }
  intros i Hi. split.
  - intros Hx. by apply Hpos; [lia|].
  - intros Hr. destruct (vget_is_Ok l i) as [x Hx]; [lia|].
    pose proof (Hpos i x ltac:(lia) Hx) as Hp.
    destruct (Z.lt_trichotomy x s) as [Hlt|[->|Hgt]]; [|done|].
    + pose proof (occ_lt_mono (x + 1) s l ltac:(lia)).
      rewrite occ_lt_succ in *. lia.
    + pose proof (occ_lt_mono (s + 1) x l ltac:(lia)).
      rewrite occ_lt_succ in *. lia.
Qed.

Lemma atom_slots t n padded ncu M cur t' :
  init_tree_size t n padded ncu M cur = Ok t' →
  (∀ i c, 0 ≤ i < n → vget cur i = Ok c → 0 ≤ c) →
  tree_size_boost t = FP.two → 0 < M →
  ∃ z, init_sizing t n ncu M cur = Ok z ∧
    (∀ i, 0 ≤ i < n →
       ∃ s tp cap slot,
         vget (s_compute_unit_of_atom z) i = Ok s ∧
         vget (tree_pointer t') s = Ok tp ∧
         vget (padded_tree_size t') s = Ok cap ∧
         vget (atom_tree_pointer t') i = Ok slot ∧
         tp ≤ slot < tp + cap ∧ 0 ≤ slot < total_tree_size t') ∧
    (∀ i j x y, 0 ≤ i < n → 0 ≤ j < n → i ≠ j →
       vget (atom_tree_pointer t') i = Ok x →
       vget (atom_tree_pointer t') j = Ok y → x ≠ y).
Proof.
  intros H Hcur Hboost HM.
  destruct (section_capacity _ _ _ _ _ _ _ Hboost HM H) as (_ & z' & Hz' & Hcap).
  apply init_tree_size_sections in H as (z & Hz & H).
  rewrite Hz in Hz'. injection Hz' as <-.
  cbv zeta in H, Hcap.
  destruct H as (Hn & HS & Hlen & Hin & Htot & Hnl & Hpl & _ & _ & Htts & Hsec
                 & Hatp).
  pose proof (sections_nondecreasing _ _ _ _ _ _ Hz Hcur) as Hmono.
  pose proof (budgets_positive _ _ _ _ _ _ Hz Hcur) as Hbud.
  pose proof (init_sizing_spec _ _ _ _ _ _ Hz) as Hspec. simpl in Hspec.
  destruct Hspec as (_ & _ & _ & _ & Hnovlen & _).
  set (l := s_compute_unit_of_atom z) in *.
  set (pts := padded_tree_size t') in *.
  assert (Hptspos : Forall (fun x => 0 ≤ x) pts).
  { apply vget_Forall. intros s x Hx. pose proof (vget_lt _ _ _ Hx).
    destruct (Hcap s ltac:(lia)) as (Hc & _ & Hb). rewrite Hx in Hc.
    injection Hc as ->. lia. }
  (* where an atom is, and what its slot is *)
  assert (Hslot : ∀ i, 0 ≤ i < n →
            ∃ s k cap, vget l i = Ok s ∧ 0 ≤ s < ncu ∧ 0 ≤ k < cap ∧
              k = i - occ_lt s l ∧
              vget pts s = Ok cap ∧
              vget (atom_tree_pointer t') i =
                Ok (sumZ (take (Z.to_nat s) pts) + k) ∧
              sumZ (take (Z.to_nat (s + 1)) pts) =
                sumZ (take (Z.to_nat s) pts) + cap).
  { intros i Hi. destruct (vget_is_Ok l i) as [s Hs]; [lia|].
    apply vget_Ok in Hs as Hlook. destruct Hlook as [_ Hlook].
    pose proof (Forall_lookup_1 _ _ _ _ Hin Hlook) as Hrange. simpl in Hrange.
    pose proof (nondecreasing_position _ Hmono _ _ Hlook) as Hp.
    rewrite occ_lt_succ, Z2Nat.id in Hp by lia.
    destruct (Hcap s Hrange) as (Hc & _ & Hb).
    pose proof (occ_le_section_budget s l (s_noverlaps z) ltac:(lia) Hbud).
    eexists s, (i - occ_lt s l), _. split; [done|]. split; [done|].
    split; [|split; [done|split; [exact Hc|split]]].
    - lia.
    - rewrite <- (Hatp s (i - occ_lt s l)) by lia. f_equal. lia.
    - by apply sumZ_take_succ. }
  exists z. split; [done|]. split.
  - intros i Hi.
    destruct (Hslot i Hi) as (s & k & cap & Hs & Hr & Hk & Hkd & Hc & Hv & Hsum).
    exists s, (sumZ (take (Z.to_nat s) pts)), cap,
           (sumZ (take (Z.to_nat s) pts) + k).
    split; [done|]. split; [by apply Hsec|]. split; [done|]. split; [done|].
    split; [lia|]. rewrite Htts.
    pose proof (sumZ_take_bound pts (Z.to_nat (s + 1)) Hptspos).
    pose proof (sumZ_nonneg (take (Z.to_nat s) pts)
                  (Forall_take _ _ _ Hptspos)). lia.
  - intros i j x y Hi Hj Hne Hx Hy.
    destruct (Hslot i Hi) as (s & k & cap & Hs & Hr & Hk & Hkd & Hc & Hv & Hsum).
    destruct (Hslot j Hj) as (s' & k' & cap' & Hs' & Hr' & Hk' & Hkd' & Hc' & Hv' & Hsum').
    rewrite Hx in Hv. rewrite Hy in Hv'.
    injection Hv as ->. injection Hv' as ->.
    apply vget_Ok in Hs as [_ Hlook]. apply vget_Ok in Hs' as [_ Hlook'].
    pose proof (nondecreasing_position _ Hmono _ _ Hlook) as Hp.
    pose proof (nondecreasing_position _ Hmono _ _ Hlook') as Hp'.
    rewrite Z2Nat.id in Hp, Hp' by lia.
    destruct (Z.lt_trichotomy s s') as [Hlt|[<-|Hgt]].
    + pose proof (sumZ_take_mono pts (Z.to_nat (s + 1)) (Z.to_nat s')
                    Hptspos ltac:(lia)). lia.
    + (* same section: the local indices differ *)
      lia.
    + pose proof (sumZ_take_mono pts (Z.to_nat (s' + 1)) (Z.to_nat s)
                    Hptspos ltac:(lia)). lia.
Qed.

(** X3.  When [init_tree_size] runs to its end, with counts that are not
    negative, the boost of the constructor and a positive pad modulus, the
    slot [atom_tree_pointer[i]] of every atom lies in the padded range of the
    atom's section and below [total_tree_size], and two atoms never have the
    same slot.  (The function does not run to its end on every input.) *)
Theorem init_tree_size_slots t n padded ncu M cur t' :
  init_tree_size t n padded ncu M cur = Ok t' →
  (∀ i c, 0 ≤ i < n → vget cur i = Ok c → 0 ≤ c) →
  tree_size_boost t = FP.two → 0 < M →
  ∃ z, init_sizing t n ncu M cur = Ok z ∧
    (∀ i, 0 ≤ i < n →
       ∃ s tp cap slot,
         vget (s_compute_unit_of_atom z) i = Ok s ∧
         vget (tree_pointer t') s = Ok tp ∧
         vget (padded_tree_size t') s = Ok cap ∧
         vget (atom_tree_pointer t') i = Ok slot ∧
         tp ≤ slot < tp + cap ∧ 0 ≤ slot < total_tree_size t') ∧
    (∀ i j x y, 0 ≤ i < n → 0 ≤ j < n → i ≠ j →
       vget (atom_tree_pointer t') i = Ok x →
       vget (atom_tree_pointer t') j = Ok y → x ≠ y).
Proof. apply atom_slots. Qed.

(** ** When [init_tree_size] completes *)


Lemma for_loop_total {A} (P : Z → A → Prop) (body : Z → A → outcome A) n :
  ∀ i a,
    P i a →
    (∀ j x, i ≤ j < i + Z.of_nat n → P j x → ∃ y, body j x = Ok y ∧ P (j + 1) y) →
    ∃ a', for_loop i n body a = Ok a' ∧ P (i + Z.of_nat n) a'.
Proof.
  induction n as [|n IH]; intros i a HP Hstep; simpl.
  - exists a. by rewrite Z.add_0_r.
  - destruct (Hstep i a ltac:(lia) HP) as (y & -> & Hy). simpl.
    destruct (IH (i + 1) y Hy) as (a' & Ha' & HP').
    { intros j x Hj. apply Hstep. lia. }
    exists a'. split; [done|].
    by replace (i + Z.of_nat (S n)) with (i + 1 + Z.of_nat n) by lia.
Qed.

Lemma for_range_total {A} (P : Z → A → Prop) (body : Z → A → outcome A)
    lo hi a :
  lo ≤ hi → P lo a →
  (∀ j x, lo ≤ j < hi → P j x → ∃ y, body j x = Ok y ∧ P (j + 1) y) →
  ∃ a', for_range lo hi body a = Ok a' ∧ P hi a'.
Proof.
  intros Hle HP Hstep. unfold for_range.
  destruct (for_loop_total P body (Z.to_nat (hi - lo)) lo a HP)
    as (a' & Ha' & HP').
  { intros j x Hj. apply Hstep. lia. }
  exists a'. split; [done|].
  by replace (lo + Z.of_nat (Z.to_nat (hi - lo))) with hi in HP' by lia.
Qed.

Lemma vset_in_range {A} (v : list A) i x :
  0 ≤ i < Z.of_nat (length v) → vset v i x = Ok (<[Z.to_nat i := x]> v).
Proof.
  intros Hi. unfold vset.
  by destruct (Z.leb_spec 0 i), (Z.ltb_spec i (Z.of_nat (length v))); try lia.
Qed.

Lemma vnew_nonneg n : 0 ≤ n → vnew n = Ok (replicate (Z.to_nat n) 0).
Proof. intros Hn. unfold vnew. by destruct (Z.ltb_spec n 0); [lia|]. Qed.

Lemma budgets_length saved cur n :
  0 ≤ n ≤ Z.of_nat (length saved) → n ≤ Z.of_nat (length cur) →
  length (budgets saved cur n) = Z.to_nat n.
Proof.
  intros Hs Hc. unfold budgets.
  rewrite length_zip_with, !length_take. lia.
Qed.

Lemma vget_budgets saved cur n i s c :
  0 ≤ i < n → vget saved i = Ok s → vget cur i = Ok c →
  vget (budgets saved cur n) i = Ok (Z.max s (c + 1)).
Proof.
  intros Hi [_ Hs]%vget_Ok [_ Hc]%vget_Ok. apply vget_Ok. split; [lia|].
  unfold budgets. rewrite lookup_zip_with.
  rewrite !lookup_take_lt by lia. by rewrite Hs, Hc.
Qed.

Lemma budget_loop_total n saved cur :
  0 ≤ n ≤ Z.of_nat (length saved) → n ≤ Z.of_nat (length cur) →
  Forall (fun x => INT_MIN ≤ x ≤ INT_MAX) (budgets saved cur n) →
  budget_loop n saved cur = Ok (budgets saved cur n).
Proof.
  intros Hs Hc Hb. unfold budget_loop. rewrite vnew_nonneg by lia. simpl.
  destruct (for_range_total (fun _ v => length v = Z.to_nat n)
    (fun i v => s ← vget saved i; c ← vget cur i;
                x ← (if c <? s then Ok s else iadd c 1); vset v i x)
    0 n (replicate (Z.to_nat n) 0)) as (v & Hv & Hlen).
  - lia.
  - by rewrite length_replicate.
  - intros j x Hj Hx.
    destruct (vget_is_Ok saved j) as [s Hsj]; [lia|].
    destruct (vget_is_Ok cur j) as [c Hcj]; [lia|].
    rewrite Hsj, Hcj. simpl.
    pose proof (Forall_vget _ _ _ _ Hb (vget_budgets _ _ n _ _ _ Hj Hsj Hcj))
      as Hr. simpl in Hr.
    destruct (Z.ltb_spec c s).
    + simpl. rewrite vset_in_range by lia. eexists. split; [done|].
      by rewrite length_insert.
    + unfold iadd. rewrite ck_in by lia. simpl.
      rewrite vset_in_range by lia. eexists. split; [done|].
      by rewrite length_insert.
  - rewrite Hv. f_equal.
    assert (Hrun : budget_loop n saved cur = Ok v).
    { unfold budget_loop. rewrite vnew_nonneg by lia. done. }
    apply budget_loop_spec in Hrun as (_ & Hvl & Hall).
    apply vget_ext; [rewrite budgets_length; lia|].
    intros i Hi. destruct (Hall i ltac:(lia)) as (s & c & H1 & H2 & H3).
    rewrite H3. symmetry. apply vget_budgets; [lia|done|done].
Qed.

Lemma sumZ_insert (l : list Z) k x y :
  vget l k = Ok x → sumZ (<[Z.to_nat k := y]> l) = sumZ l - x + y.
Proof.
  intros [Hk Hx]%vget_Ok. revert l Hx.
  generalize (Z.to_nat k) as m. clear k Hk.
  induction m as [|m IH]; intros [|a l] Hx; simpl in *; try discriminate.
  - injection Hx as ->. lia.
  - rewrite (IH l Hx). lia.
Qed.

Lemma Forall_vset {A} (P : A → Prop) (l : list A) k y :
  Forall P l → P y → Forall P (<[k := y]> l).
Proof. intros Hl Hy. by apply Forall_insert. Qed.

Lemma save_loop_total n noverlaps saved :
  0 ≤ n ≤ Z.of_nat (length noverlaps) → n ≤ Z.of_nat (length saved) →
  ∃ sv, save_loop n noverlaps saved = Ok sv.
Proof.
  intros Hn Hs. unfold save_loop.
  destruct (for_range_total (fun _ sv => length sv = length saved)
    (fun i sv => x ← vget noverlaps i; vset sv i x) 0 n saved)
    as (sv & Hsv & _); [lia|done| |by exists sv].
  intros j x Hj Hx. destruct (vget_is_Ok noverlaps j) as [y Hy]; [lia|].
  rewrite Hy. simpl. rewrite vset_in_range by lia.
  eexists. split; [done|]. by rewrite length_insert.
Qed.

Lemma sumZ_take_range (l : list Z) (a : nat) :
  Forall (fun x => 0 ≤ x) l → 0 ≤ sumZ (take a l) ≤ sumZ l.
Proof.
  intros Hl. split; [|by apply sumZ_take_bound].
  apply sumZ_nonneg. by apply Forall_take.
Qed.

Lemma prefix_loop_total n noverlaps :
  0 ≤ n → n + 1 ≤ INT_MAX → Z.of_nat (length noverlaps) = n →
  Forall (fun x => 0 ≤ x) noverlaps → sumZ noverlaps ≤ INT_MAX →
  ∃ ps, prefix_loop n noverlaps = Ok ps.
Proof.
  intros Hn Hn1 Hlen Hpos Hsum. unfold prefix_loop, iadd.
  rewrite ck_in by (unfold INT_MIN, INT_MAX in *; lia). simpl.
  rewrite vnew_nonneg by lia. simpl.
  rewrite vset_in_range by (rewrite length_replicate; lia). simpl.
  destruct (for_range_total
    (fun i v => length v = Z.to_nat (n + 1) ∧
                vget v (i - 1) = Ok (sumZ (take (Z.to_nat (i - 1)) noverlaps)))
    (fun i v => a ← vget noverlaps (i - 1); b ← vget v (i - 1);
                x ← ck (a + b); vset v i x)
    1 (n + 1) (<[Z.to_nat 0 := 0]> (replicate (Z.to_nat (n + 1)) 0)))
    as (ps & Hps & _); [lia| | |by exists ps].
  - split; [by rewrite length_insert, length_replicate|].
    simpl. apply vget_insert_eq. rewrite length_replicate. lia.
  - intros j v Hj [Hvl Hv].
    destruct (vget_is_Ok noverlaps (j - 1)) as [a Ha]; [lia|].
    rewrite Ha, Hv. simpl.
    pose proof (sumZ_take_succ _ _ _ Ha) as Hs.
    replace (j - 1 + 1) with j in Hs by lia.
    pose proof (sumZ_take_range noverlaps (Z.to_nat j) Hpos).
    rewrite ck_in by (unfold INT_MIN, INT_MAX in *; lia). simpl.
    rewrite vset_in_range by lia. eexists. split; [done|].
    split; [by rewrite length_insert|].
    replace (j + 1 - 1) with j by lia.
    rewrite vget_insert_eq by lia. f_equal. lia.
Qed.

Lemma max_list_snoc l x : max_list (l ++ [x]) = Z.max (max_list l) x.
Proof.
  unfold max_list. induction l as [|y l IH]; simpl; [lia|]. rewrite IH. lia.
Qed.

Lemma max_list_nonneg l : 0 ≤ max_list l.
Proof. unfold max_list. induction l as [|y l IH]; simpl; lia. Qed.

Lemma max_list_ge l x : x ∈ l → x ≤ max_list l.
Proof.
  unfold max_list. induction 1 as [|x y l _ IH]; simpl; lia.
Qed.

Lemma max_list_le_sum l : Forall (fun x => 0 ≤ x) l → max_list l ≤ sumZ l.
Proof.
  induction 1 as [|x l Hx _ IH]; [done|].
  pose proof (max_list_nonneg l). unfold max_list in *. simpl. lia.
Qed.

Lemma max_loop_total n noverlaps :
  0 ≤ n → Z.of_nat (length noverlaps) = n →
  max_loop n noverlaps = Ok (max_list noverlaps).
Proof.
  intros Hn Hlen. unfold max_loop.
  destruct (for_range_total
    (fun i mx => mx = max_list (take (Z.to_nat i) noverlaps))
    (fun i mx => x ← vget noverlaps i; Ok (if mx <? x then x else mx))
    0 n 0) as (m & Hm & ->); [lia|done| |].
  - intros j mx Hj ->. destruct (vget_is_Ok noverlaps j) as [x Hx]; [lia|].
    rewrite Hx. simpl. eexists. split; [done|].
    rewrite (take_succ_vget _ _ _ Hx), max_list_snoc.
    destruct (Z.ltb_spec (max_list (take (Z.to_nat j) noverlaps)) x); lia.
  - rewrite Hm. by rewrite take_ge by lia.
Qed.

Lemma per_section_load_total S T mx :
  1 ≤ S ≤ INT_MAX → 0 ≤ T ≤ INT_MAX → 0 ≤ mx →
  per_section_load S T mx =
    Ok (Z.max (if 1 <? S then T ÷ (S - 1) else T) mx).
Proof.
  intros HS HT Hmx. unfold per_section_load.
  destruct (Z.ltb_spec 1 S).
  - unfold isub, idiv. rewrite ck_in by (unfold INT_MIN, INT_MAX in *; lia).
    simpl. destruct (Z.eqb_spec (S - 1) 0); [lia|].
    assert (0 ≤ T ÷ (S - 1) ≤ T).
    { rewrite Z.quot_div_nonneg by lia. split; [apply Z.div_pos; lia|].
      apply Z.div_le_upper_bound; nia. }
    rewrite ck_in by (unfold INT_MIN, INT_MAX in *; lia). simpl. f_equal.
    destruct (Z.ltb_spec (T ÷ (S - 1)) mx); lia.
  - simpl. f_equal. destruct (Z.ltb_spec T mx); lia.
Qed.

Lemma assign_loop_total n S L ps :
  0 ≤ n ≤ INT_MAX → 0 ≤ S → (0 < n → L ≠ 0) →
  (∀ i, 0 ≤ i < n →
     ∃ p, vget ps i = Ok p ∧ 0 ≤ p ÷ L < S ∧ S ≤ INT_MAX) →
  ∃ cua nat tot,
    assign_loop n S L ps = Ok (cua, nat, tot) ∧
    Forall (fun x => 0 ≤ x) nat ∧ sumZ nat = n.
Proof.
  intros Hn HS HL Hps. unfold assign_loop. rewrite !vnew_nonneg by lia. simpl.
  destruct (for_range_total
    (fun i '(cua, nat, tot) =>
       length cua = Z.to_nat n ∧ length nat = Z.to_nat S ∧ tot = i ∧
       Forall (fun x => 0 ≤ x) nat ∧ sumZ nat = i)
    (fun i '(cua, nat, tot) =>
       ps ← vget ps i; section ← idiv ps L; cua' ← vset cua i section;
       k ← vget nat section; k' ← iadd k 1; nat' ← vset nat section k';
       tot' ← iadd tot 1; Ok (cua', nat', tot'))
    0 n (replicate (Z.to_nat n) 0, replicate (Z.to_nat S) 0, 0))
    as ([[cua nat] tot] & Hrun & _ & _ & _ & Hpos & Hsum); [lia| | |].
  - rewrite !length_replicate. repeat split; try done.
    + apply Forall_replicate. lia.
    + clear. induction (Z.to_nat S); simpl; lia.
  - intros j [[cua nat] tot] Hj (Hcl & Hnl & -> & Hpos & Hsum).
    destruct (Hps j Hj) as (p & Hp & Hr & HSm).
    rewrite Hp. simpl. unfold idiv.
    destruct (Z.eqb_spec L 0); [lia|].
    rewrite ck_in by (unfold INT_MIN, INT_MAX in *; lia). simpl.
    rewrite vset_in_range by lia. simpl.
    destruct (vget_is_Ok nat (p ÷ L)) as [k Hk]; [lia|].
    rewrite Hk. simpl.
    pose proof (Forall_vget _ _ _ _ Hpos Hk) as Hk0. simpl in Hk0.
    assert (k ≤ sumZ nat).
    { apply vget_Ok in Hk as [_ Hk'].
      rewrite <- (take_drop_middle _ _ _ Hk'), sumZ_app. simpl.
      pose proof (sumZ_nonneg _ (Forall_take _ (Z.to_nat (p ÷ L)) _ Hpos)).
      pose proof (sumZ_nonneg _
        (Forall_drop _ (Datatypes.S (Z.to_nat (p ÷ L))) _ Hpos)).
      lia. }
    unfold iadd.
    rewrite (ck_in (k + 1)) by (unfold INT_MIN, INT_MAX in *; lia). simpl.
    rewrite vset_in_range by lia. simpl.
    rewrite ck_in by (unfold INT_MIN, INT_MAX in *; lia). simpl.
    eexists. split; [done|]. cbv beta iota. rewrite !length_insert.
    repeat split; try done.
    + apply Forall_vset; [done|lia].
    + rewrite (sumZ_insert _ _ _ _ Hk). lia.
  - by exists cua, nat, tot.
Qed.

Lemma size_loop_total n S cua nov :
  0 ≤ n → 0 ≤ S → Z.of_nat (length cua) = n → Z.of_nat (length nov) = n →
  Forall (fun s => 0 ≤ s < S) cua → Forall (fun x => 0 ≤ x) nov →
  sumZ nov ≤ INT_MAX →
  ∃ raw, size_loop n S cua nov = Ok raw ∧
    Forall (fun x => 0 ≤ x) raw ∧ sumZ raw = sumZ nov.
Proof.
  intros Hn HS Hcl Hnl Hcua Hnov Hsum. unfold size_loop.
  rewrite vnew_nonneg by lia. simpl.
  destruct (for_range_total
    (fun i ss => length ss = Z.to_nat S ∧ Forall (fun x => 0 ≤ x) ss ∧
                 sumZ ss = sumZ (take (Z.to_nat i) nov))
    (fun i ss => section ← vget cua i; x ← vget ss section;
                 c ← vget nov i; y ← iadd x c; vset ss section y)
    0 n (replicate (Z.to_nat S) 0))
    as (raw & Hrun & _ & Hpos & Hs); [lia| | |].
  - rewrite length_replicate. split; [done|].
    split; [apply Forall_replicate; lia|].
    simpl. clear. induction (Z.to_nat S); simpl; lia.
  - intros j ss Hj (Hsl & Hpos & Hs).
    destruct (vget_is_Ok cua j) as [s Hsj]; [lia|].
    pose proof (Forall_vget _ _ _ _ Hcua Hsj) as Hr. simpl in Hr.
    destruct (vget_is_Ok ss s) as [x Hx]; [lia|].
    destruct (vget_is_Ok nov j) as [c Hc]; [lia|].
    rewrite Hsj. simpl. rewrite Hx. simpl. rewrite Hc. simpl.
    pose proof (Forall_vget _ _ _ _ Hpos Hx) as Hx0. simpl in Hx0.
    pose proof (Forall_vget _ _ _ _ Hnov Hc) as Hc0. simpl in Hc0.
    pose proof (sumZ_take_succ _ _ _ Hc) as Hs'.
    pose proof (sumZ_take_range nov (Z.to_nat (j + 1)) Hnov).
    assert (x ≤ sumZ ss).
    { apply vget_Ok in Hx as [_ Hx'].
      rewrite <- (take_drop_middle _ _ _ Hx'), sumZ_app. simpl.
      pose proof (sumZ_nonneg _ (Forall_take _ (Z.to_nat s) _ Hpos)).
      pose proof (sumZ_nonneg _
        (Forall_drop _ (Datatypes.S (Z.to_nat s)) _ Hpos)).
      lia. }
    unfold iadd. rewrite ck_in by (unfold INT_MIN, INT_MAX in *; lia). simpl.
    rewrite vset_in_range by lia. eexists. split; [done|].
    rewrite length_insert. split; [done|].
    split; [apply Forall_vset; [done|lia]|].
    rewrite (sumZ_insert _ _ _ _ Hx). lia.
  - exists raw. split; [done|]. split; [done|].
    rewrite Hs. by rewrite take_ge by lia.
Qed.

Lemma padded_size_total b M :
  0 ≤ b → 0 < M → b + M ≤ INT_MAX →
  ∃ p, padded_size b M = Ok p ∧ b ≤ p < b + M.
Proof.
  intros Hb HM Hmax. unfold padded_size, iadd, isub, idiv, imul.
  rewrite (ck_in (b + M)) by (unfold INT_MIN, INT_MAX in *; lia). simpl.
  rewrite (ck_in (b + M - 1)) by (unfold INT_MIN, INT_MAX in *; lia). simpl.
  destruct (Z.eqb_spec M 0); [lia|].
  rewrite Z.quot_div_nonneg by lia.
  pose proof (Z.mul_div_le (b + M - 1) M HM).
  pose proof (Z.mul_succ_div_gt (b + M - 1) M HM).
  assert (0 ≤ (b + M - 1) / M) by (apply Z.div_pos; lia).
  rewrite (ck_in ((b + M - 1) / M)) by (unfold INT_MIN, INT_MAX in *; nia).
  simpl. rewrite ck_in by (unfold INT_MIN, INT_MAX in *; nia).
  eexists. split; [done|]. lia.
Qed.

Lemma pad_loop_total S M raw :
  0 ≤ S → 0 < M → Z.of_nat (length raw) = S →
  Forall (fun x => 0 ≤ x) raw → 2 * sumZ raw + 2 + M ≤ INT_MAX →
  ∃ ss, pad_loop S M FP.two raw = Ok ss ∧
    Forall (fun x => 0 ≤ x) ss ∧ sumZ ss ≤ 2 * sumZ raw + S * (M + 2).
Proof.
  intros HS HM Hlen Hpos Hmax. unfold pad_loop.
  destruct (for_range_total
    (fun i ss => length ss = length raw ∧
                 (∀ s, i ≤ s → vget ss s = vget raw s) ∧
                 Forall (fun x => 0 ≤ x) (take (Z.to_nat i) ss) ∧
                 sumZ (take (Z.to_nat i) ss) ≤
                   2 * sumZ (take (Z.to_nat i) raw) + i * (M + 2))
    (fun section ss => x ← vget ss section;
       tsize ← boosted (if x <? 1 then 1 else x) FP.two;
       npadsize ← padded_size tsize M; vset ss section npadsize)
    0 S raw) as (ss & Hrun & Hl & _ & Hp & Hs); [lia| | |].
  - repeat split; try done; simpl; lia.
  - intros j ss Hj (Hl & Hsame & Hp & Hs).
    destruct (vget_is_Ok raw j) as [x Hx]; [lia|].
    rewrite (Hsame j) by lia. rewrite Hx. simpl.
    pose proof (Forall_vget _ _ _ _ Hpos Hx) as Hx0. simpl in Hx0.
    pose proof (sumZ_take_succ _ _ _ Hx) as Hsx.
    pose proof (sumZ_take_range raw (Z.to_nat (j + 1)) Hpos).
    pose proof (sumZ_take_range raw (Z.to_nat j) Hpos).
    set (m := if x <? 1 then 1 else x).
    assert (Hm : 1 ≤ m ≤ x + 1) by (subst m; destruct (Z.ltb_spec x 1); lia).
    rewrite boosted_two by (unfold INT_MAX in *; lia).
    rewrite ck_in by (unfold INT_MIN, INT_MAX in *; lia). simpl.
    destruct (padded_size_total (2 * m) M) as (p & -> & Hpb); [lia|lia|lia|].
    simpl. rewrite vset_in_range by lia. eexists. split; [done|].
    rewrite length_insert. split; [done|]. split.
    { intros s Hs'. rewrite vget_insert_ne by lia. apply Hsame. lia. }
    assert (Htk : take (Z.to_nat (j + 1)) (<[Z.to_nat j := p]> ss)
                  = take (Z.to_nat j) ss ++ [p]).
    { rewrite (take_succ_vget _ j p) by (apply vget_insert_eq; lia).
      f_equal. apply take_insert_ge. lia. }
    rewrite Htk. split.
    + apply Forall_app. split; [done|]. repeat constructor. lia.
    + rewrite sumZ_app. simpl. lia.
  - exists ss. split; [done|]. rewrite !take_ge in * by lia. done.
Qed.

Lemma pointer_loop_total S ss :
  0 ≤ S → Z.of_nat (length ss) = S → Forall (fun x => 0 ≤ x) ss →
  sumZ ss ≤ INT_MAX →
  ∃ tp off, pointer_loop S ss = Ok (tp, off).
Proof.
  intros HS Hlen Hpos Hmax. unfold pointer_loop.
  rewrite vnew_nonneg by lia. simpl.
  destruct (for_range_total
    (fun i '(tp, off) => length tp = Z.to_nat S ∧
                         off = sumZ (take (Z.to_nat i) ss))
    (fun section '(tp, offset) =>
       tp' ← vset tp section offset; x ← vget ss section;
       offset' ← iadd offset x; Ok (tp', offset'))
    0 S (replicate (Z.to_nat S) 0, 0)) as ([tp off] & Hrun & _);
    [lia| | |by exists tp, off].
  - by rewrite length_replicate.
  - intros j [tp off] Hj [Hl ->].
    rewrite vset_in_range by lia. simpl.
    destruct (vget_is_Ok ss j) as [x Hx]; [lia|]. rewrite Hx. simpl.
    pose proof (sumZ_take_succ _ _ _ Hx) as Hsx.
    pose proof (sumZ_take_range ss (Z.to_nat (j + 1)) Hpos).
    pose proof (sumZ_take_range ss (Z.to_nat j) Hpos).
    unfold iadd. rewrite ck_in by (unfold INT_MIN, INT_MAX in *; lia). simpl.
    eexists. split; [done|]. cbv beta iota.
    rewrite length_insert. split; [done|lia].
Qed.

Lemma slot_loop_total section ao total natoms tp atp cnt p :
  vget natoms section = Ok cnt → vget tp section = Ok p →
  0 ≤ ao → 0 ≤ p → ao + cnt ≤ INT_MAX → p + cnt ≤ INT_MAX →
  total ≤ Z.of_nat (length atp) →
  ∃ atp', slot_loop section ao total natoms tp atp = Ok atp' ∧
          length atp' = length atp.
Proof.
  intros Hcnt Hp Hao Hp0 Hb1 Hb2 Htot. unfold slot_loop.
  rewrite Hcnt. simpl.
  destruct (Z.le_gt_cases cnt 0) as [Hle|Hgt].
  { exists atp. split; [|done]. unfold for_range.
    by replace (Z.to_nat (cnt - 0)) with 0%nat by lia. }
  destruct (for_range_total (fun _ v => length v = length atp)
    (fun i atp => iat ← iadd ao i; tp ← vget tp section; slot ← iadd tp i;
       if iat <? total then vset atp iat slot else Ok atp)
    0 cnt atp) as (atp' & Hrun & Hl); [lia|done| |by exists atp'].
  intros j v Hj Hv. unfold iadd.
  rewrite ck_in by (unfold INT_MIN, INT_MAX in *; lia). simpl.
  rewrite Hp. simpl.
  rewrite ck_in by (unfold INT_MIN, INT_MAX in *; lia). simpl.
  destruct (Z.ltb_spec (ao + j) total).
  - rewrite vset_in_range by lia. eexists. split; [done|].
    by rewrite length_insert.
  - by exists v.
Qed.

Lemma layout_loop_total S padded total ss natoms tp :
  0 ≤ S → 0 ≤ padded → total ≤ padded →
  Z.of_nat (length ss) = S → Z.of_nat (length natoms) = S →
  Forall (fun x => 0 ≤ x) ss → Forall (fun x => 0 ≤ x) natoms →
  (∀ s, 0 ≤ s < S → vget tp s = Ok (sumZ (take (Z.to_nat s) ss))) →
  sumZ ss + sumZ natoms ≤ INT_MAX →
  ∃ a, layout_loop S padded total ss natoms tp = Ok a.
Proof.
  intros HS Hpad Htot Hsl Hnl Hss Hnat Htp Hmax. unfold layout_loop.
  rewrite !vnew_nonneg by lia. simpl.
  pose proof (sumZ_nonneg _ Hss). pose proof (sumZ_nonneg _ Hnat).
  destruct (for_range_total
    (fun s a => length (l_tree_size a) = Z.to_nat S ∧
                length (l_padded_tree_size a) = Z.to_nat S ∧
                length (l_first_atom a) = Z.to_nat S ∧
                length (l_atom_tree_pointer a) = Z.to_nat padded ∧
                l_total_tree_size a = sumZ (take (Z.to_nat s) ss) ∧
                l_atom_offset a = sumZ (take (Z.to_nat s) natoms))
    (fun section a =>
       ts ← vset (l_tree_size a) section 0;
       x ← vget ss section;
       pts ← vset (l_padded_tree_size a) section x;
       fa ← vset (l_first_atom a) section (l_atom_offset a);
       atp ← slot_loop section (l_atom_offset a) total natoms tp
               (l_atom_tree_pointer a);
       tts ← iadd (l_total_tree_size a) x;
       cnt ← vget natoms section;
       ao ← iadd (l_atom_offset a) cnt;
       Ok {| l_tree_size := ts; l_padded_tree_size := pts; l_first_atom := fa;
             l_atom_tree_pointer := atp; l_total_tree_size := tts;
             l_atom_offset := ao |})
    0 S
    {| l_tree_size := replicate (Z.to_nat S) 0;
       l_padded_tree_size := replicate (Z.to_nat S) 0;
       l_first_atom := replicate (Z.to_nat S) 0;
       l_atom_tree_pointer := replicate (Z.to_nat padded) 0;
       l_total_tree_size := 0; l_atom_offset := 0 |})
    as (a & Hrun & _); [lia| | |by exists a].
  - simpl. by rewrite !length_replicate.
  - intros j a Hj (H1 & H2 & H3 & H4 & H5 & H6).
    destruct (vget_is_Ok ss j) as [x Hx]; [lia|].
    destruct (vget_is_Ok natoms j) as [cnt Hcnt]; [lia|].
    pose proof (Forall_vget _ _ _ _ Hss Hx) as Hx0.
    pose proof (Forall_vget _ _ _ _ Hnat Hcnt) as Hc0. simpl in Hx0, Hc0.
    pose proof (sumZ_take_succ _ _ _ Hx) as Hsx.
    pose proof (sumZ_take_succ _ _ _ Hcnt) as Hsc.
    pose proof (sumZ_take_range ss (Z.to_nat (j + 1)) Hss).
    pose proof (sumZ_take_range ss (Z.to_nat j) Hss).
    pose proof (sumZ_take_range natoms (Z.to_nat (j + 1)) Hnat).
    pose proof (sumZ_take_range natoms (Z.to_nat j) Hnat).
    rewrite vset_in_range by lia. simpl. rewrite Hx. simpl.
    rewrite vset_in_range by lia. simpl.
    rewrite vset_in_range by lia. simpl.
    destruct (slot_loop_total j (l_atom_offset a) total natoms tp
                (l_atom_tree_pointer a) cnt (sumZ (take (Z.to_nat j) ss)))
      as (atp' & -> & Hal); [done|by apply Htp|lia..|].
    simpl. unfold iadd.
    rewrite (ck_in (_ + x)) by (unfold INT_MIN, INT_MAX in *; lia). simpl.
    rewrite Hcnt. simpl.
    rewrite ck_in by (unfold INT_MIN, INT_MAX in *; lia). simpl.
    eexists. split; [done|]. simpl. rewrite !length_insert.
    repeat split; try done; lia.
Qed.

Lemma budgets_positive_counts saved cur n :
  Forall (fun c => 0 ≤ c) (take (Z.to_nat n) cur) →
  Forall (fun x => 1 ≤ x) (budgets saved cur n).
Proof.
  intros Hc. unfold budgets.
  revert Hc. generalize (take (Z.to_nat n) cur) as cs.
  generalize (take (Z.to_nat n) saved) as ss.
  induction ss as [|s ss IH]; intros [|c cs] Hc; simpl; try constructor.
  - apply Forall_cons in Hc as [Hc _]. lia.
  - apply Forall_cons in Hc as [_ Hc]. by apply IH.
Qed.

Lemma Forall_ge_weaken (l : list Z) :
  Forall (fun x => 1 ≤ x) l → Forall (fun x => 0 ≤ x) l.
Proof. intros H. eapply Forall_impl; [exact H|]. simpl. lia. Qed.

(** The run of [init_sizing] when nothing overflows and the last atom gets a
    section. *)
Lemma init_sizing_total t n S M cur :
  let sv := saved_before t n in
  let b := budgets sv cur n in
  tree_size_boost t = FP.two →
  0 ≤ n → 1 ≤ S → 0 < M →
  n ≤ Z.of_nat (length sv) → n ≤ Z.of_nat (length cur) →
  Forall (fun c => 0 ≤ c) (take (Z.to_nat n) cur) →
  2 * sumZ b + S * (M + 2) + n ≤ INT_MAX →
  (n = 0 ∨ sumZ (take (Z.to_nat (n - 1)) b) < S * section_load S b) →
  ∃ z, init_sizing t n S M cur = Ok z ∧
       s_noverlaps z = b ∧
       s_n_overlaps_per_section z = section_load S b ∧
       Forall (fun x => 0 ≤ x) (s_section_size z) ∧
       Forall (fun x => 0 ≤ x) (s_natoms_in_tree z) ∧
       sumZ (s_natoms_in_tree z) = n ∧
       sumZ (s_section_size z) ≤ 2 * sumZ b + S * (M + 2).
Proof.
  intros sv b Hboost Hn HS HM Hsv Hcur Hcnt Hmax Hcrit.
  pose proof (budgets_positive_counts sv cur n Hcnt) as Hb1. fold b in Hb1.
  pose proof (Forall_ge_weaken _ Hb1) as Hb0.
  pose proof (sumZ_nonneg _ Hb0) as HT0.
  assert (Hblen : length b = Z.to_nat n) by (apply budgets_length; lia).
  assert (Hbrange : Forall (fun x => INT_MIN ≤ x ≤ INT_MAX) b).
  { apply Forall_forall. intros x Hx.
    pose proof (max_list_ge _ _ Hx). pose proof (max_list_le_sum _ Hb0).
    pose proof (proj1 (Forall_forall _ _) Hb0 x Hx). simpl in *.
    unfold INT_MIN, INT_MAX in *. lia. }
  unfold init_sizing.
  assert (Hsaved0 : (if has_saved_noverlaps t then Ok (saved_noverlaps t)
                     else vnew n) = Ok sv).
  { subst sv. unfold saved_before.
    destruct (has_saved_noverlaps t); [done|]. by apply vnew_nonneg. }
  rewrite Hsaved0. simpl.
  rewrite (budget_loop_total n sv cur) by (done || lia). simpl. fold b.
  destruct (save_loop_total n b sv) as (saved & ->); [lia|lia|]. simpl.
  destruct (prefix_loop_total n b) as (ps & Hps);
    [lia|unfold INT_MAX in *; lia|lia|done|unfold INT_MAX in *; lia|].
  rewrite Hps. simpl.
  apply prefix_loop_spec in Hps as (_ & Hps).
  rewrite (Hps n) by lia. simpl.
  rewrite (take_ge b) by lia.
  rewrite (max_loop_total n b) by lia. simpl.
  rewrite (per_section_load_total S (sumZ b) (max_list b))
    by (pose proof (max_list_nonneg b); unfold INT_MAX in *; nia).
  simpl. fold (section_load S b).
  set (L := section_load S b) in *.
  assert (HL : 0 < n → 1 ≤ L).
  { intros Hn0. destruct b as [|x b'] eqn:Hbeq; [simpl in Hblen; lia|].
    apply Forall_cons in Hb1 as [Hx _].
    assert (x ≤ max_list (x :: b')) by (apply max_list_ge; left).
    subst L. unfold section_load. lia. }
  destruct (assign_loop_total n S L ps) as (cua & nat & tot & Hassign & Hnat0
                                            & Hnatsum).
  { unfold INT_MAX in *. lia. }
  { lia. }
  { intros Hn0. specialize (HL Hn0). lia. }
  { intros i Hi. exists (sumZ (take (Z.to_nat i) b)).
    split; [apply Hps; lia|].
    specialize (HL ltac:(lia)).
    destruct Hcrit as [->|Hcrit]; [lia|].
    pose proof (sumZ_take_range b (Z.to_nat i) Hb0).
    pose proof (sumZ_take_mono b (Z.to_nat i) (Z.to_nat (n - 1)) Hb0
                  ltac:(lia)).
    rewrite Z.quot_div_nonneg by lia.
    split; [split; [apply Z.div_pos; lia|]|unfold INT_MAX in *; nia].
    apply Z.div_lt_upper_bound; [lia|]. lia. }
  rewrite Hassign. simpl.
  apply assign_loop_spec in Hassign
    as (_ & _ & Hcl & Hnl & -> & _ & Hcua & _).
  assert (Hin : Forall (fun s => 0 ≤ s < S) cua).
  { apply vget_Forall. intros j x Hx. pose proof (vget_lt _ _ _ Hx).
    destruct (Hcua j ltac:(lia)) as (p & _ & Hj & ?). rewrite Hx in Hj.
    injection Hj as ->. lia. }
  destruct (size_loop_total n S cua b) as (raw & Hraw & Hraw0 & Hrawsum);
    [lia|lia|lia|lia|done|done|unfold INT_MAX in *; nia|].
  rewrite Hraw. simpl.
  apply size_loop_spec in Hraw as (Hrl & _); [|lia|lia|lia].
  rewrite Hboost.
  destruct (pad_loop_total S M raw) as (ss & -> & Hss0 & Hsssum);
    [lia|lia|lia|done|unfold INT_MAX in *; nia|].
  simpl. eexists. split; [done|]. simpl.
  repeat split; try done. lia.
Qed.

Lemma init_tree_size_total t n padded S M cur :
  let sv := saved_before t n in
  let b := budgets sv cur n in
  tree_size_boost t = FP.two →
  0 ≤ n ≤ padded → 1 ≤ S → 0 < M →
  n ≤ Z.of_nat (length sv) → n ≤ Z.of_nat (length cur) →
  Forall (fun c => 0 ≤ c) (take (Z.to_nat n) cur) →
  2 * sumZ b + S * (M + 2) + n ≤ INT_MAX →
  (n = 0 ∨ sumZ (take (Z.to_nat (n - 1)) b) < S * section_load S b) →
  ∃ t', init_tree_size t n padded S M cur = Ok t'.
Proof.
  intros sv b Hboost Hn HS HM Hsv Hcur Hcnt Hmax Hcrit.
  destruct (init_sizing_total t n S M cur Hboost ltac:(lia) HS HM Hsv Hcur
              Hcnt Hmax Hcrit)
    as (z & Hz & Hnov & HL & Hss0 & Hnat0 & Hnatsum & Hsssum).
  subst b sv. cbv zeta in *.
  unfold init_tree_size. rewrite Hz. simpl.
  pose proof (init_sizing_spec _ _ _ _ _ _ Hz) as Hspec. simpl in Hspec.
  destruct Hspec as (_ & _ & _ & _ & _ & _ & Hnatlen & Hsslen & _ & Htot & _).
  pose proof (budgets_positive_counts (saved_before t n) cur n Hcnt) as Hb1.
  pose proof (sumZ_nonneg _ (Forall_ge_weaken _ Hb1)) as HT0.
  destruct (pointer_loop_total S (s_section_size z)) as (tp & off & Htp);
    [lia|lia|done|unfold INT_MAX in *; nia|].
  rewrite Htp. simpl.
  apply pointer_loop_spec in Htp as (_ & _ & _ & Htp).
  destruct (layout_loop_total S padded (s_total_atoms_in_tree z)
              (s_section_size z) (s_natoms_in_tree z) tp)
    as (a & ->); [lia|lia|lia|lia|lia|done|done|done|
                  unfold INT_MAX in *; nia|].
  simpl. by eexists.
Qed.

(** The budgets and the load of a successful sizing. *)
Lemma init_sizing_load t n S M cur z :
  let b := budgets (saved_before t n) cur n in
  init_sizing t n S M cur = Ok z →
  1 ≤ S ≤ INT_MAX → 0 ≤ sumZ b ≤ INT_MAX →
  s_noverlaps z = b ∧ s_n_overlaps_per_section z = section_load S b.
Proof.
  intros b Hz HS HT. subst b.
  pose proof (init_sizing_spec _ _ _ _ _ _ Hz) as Hspec. simpl in Hspec.
  destruct Hspec as (Hn & _ & _ & _ & Hnl & _ & _ & _ & _ & _ & Hbud & _).
  assert (Hb : s_noverlaps z = budgets (saved_before t n) cur n).
  { assert (length (budgets (saved_before t n) cur n) = Z.to_nat n) as Hbl.
    { destruct (Z.eq_dec n 0) as [->|]; [done|].
      destruct (Hbud (n - 1) ltac:(lia)) as (s & c & H1 & H2 & _).
      apply vget_lt in H1, H2. apply budgets_length; [|lia].
      unfold saved_before. lia. }
    apply vget_ext; [lia|]. intros i Hi.
    destruct (Hbud i ltac:(lia)) as (s & c & H1 & H2 & H3 & _).
    rewrite H3. symmetry. by apply vget_budgets; [lia|..]. }
  split; [done|].
  unfold init_sizing in Hz.
  apply bind_Ok in Hz as (sv & Hsv & Hz).
  apply bind_Ok in Hz as (nov & Hnov & Hz).
  apply bind_Ok in Hz as (saved & Hsaved & Hz).
  apply bind_Ok in Hz as (ps & Hps & Hz).
  apply bind_Ok in Hz as (T & HTv & Hz).
  apply bind_Ok in Hz as (mx & Hmx & Hz).
  apply bind_Ok in Hz as (L & HL & Hz).
  apply bind_Ok in Hz as ([[cua nat] tot] & Hassign & Hz).
  apply bind_Ok in Hz as (raw & Hraw & Hz).
  apply bind_Ok in Hz as (ss & Hss & Hz).
  apply Ok_inj in Hz. subst z. simpl in *. subst nov.
  apply prefix_loop_spec in Hps as (_ & Hps).
  rewrite (Hps n) in HTv by lia. rewrite take_ge in HTv by lia.
  apply Ok_inj in HTv. subst T.
  rewrite max_loop_total in Hmx by lia. apply Ok_inj in Hmx. subst mx.
  rewrite per_section_load_total in HL
    by (done || apply max_list_nonneg).
  by apply Ok_inj in HL.
Qed.

(** X4.  Within the int range, [init_tree_size] runs to its end exactly
    when there is no atom or the budgets of all atoms but the last one add up
    to less than [num_sections] times the load per section; the load is the
    larger of the total budget divided by [num_sections - 1] and the largest
    budget. *)
Theorem init_tree_size_completes t n padded S M cur :
  let b := budgets (saved_before t n) cur n in
  tree_size_boost t = FP.two →
  0 ≤ n ≤ padded → 1 ≤ S → 0 < M →
  n ≤ Z.of_nat (length (saved_before t n)) → n ≤ Z.of_nat (length cur) →
  Forall (fun c => 0 ≤ c) (take (Z.to_nat n) cur) →
  2 * sumZ b + S * (M + 2) + n ≤ INT_MAX →
  ((∃ t', init_tree_size t n padded S M cur = Ok t') ↔
   (n = 0 ∨ sumZ (take (Z.to_nat (n - 1)) b) < S * section_load S b)).
Proof.
  intros b Hboost Hn HS HM Hsv Hcur Hcnt Hmax. split.
  - intros [t' H]. destruct (Z.eq_dec n 0) as [|Hn0]; [by left|]. right.
    apply init_tree_size_inv in H as (z & _ & _ & _ & Hz & _).
    pose proof (budgets_positive_counts (saved_before t n) cur n Hcnt) as Hb1.
    pose proof (Forall_ge_weaken _ Hb1) as Hb0.
    pose proof (sumZ_nonneg _ Hb0) as HT0. fold b in Hb1, Hb0, HT0.
    destruct (init_sizing_load _ _ _ _ _ _ Hz) as [Hnov HL].
    { unfold INT_MAX in *. nia. }
    { fold b. unfold INT_MAX in *. nia. }
    fold b in Hnov, HL.
    pose proof (init_sizing_spec _ _ _ _ _ _ Hz) as Hspec. simpl in Hspec.
    destruct Hspec as (_ & _ & HL0 & HLne & _ & _ & _ & _ & _ & _ & _ & Hcua & _).
    destruct (Hcua (n - 1) ltac:(lia)) as [_ Hr].
    rewrite Hnov, HL in Hr. rewrite HL in HL0, HLne.
    specialize (HLne ltac:(lia)).
    pose proof (sumZ_take_range b (Z.to_nat (n - 1)) Hb0).
    rewrite Z.quot_div_nonneg in Hr by lia.
    pose proof (Z.mul_succ_div_gt (sumZ (take (Z.to_nat (n - 1)) b))
                  (section_load S b) ltac:(lia)). nia.
  - intros Hcrit.
    by apply (init_tree_size_total t n padded S M cur Hboost Hn HS HM Hsv Hcur
                Hcnt Hmax).
Qed.

Lemma last_prefix_lt (b : list Z) n :
  length b = Z.to_nat n → 0 < n → Forall (fun x => 1 ≤ x) b →
  sumZ (take (Z.to_nat (n - 1)) b) < sumZ b.
Proof.
  intros Hl Hn Hb.
  destruct (vget_is_Ok b (n - 1)) as [x Hx]; [lia|].
  pose proof (sumZ_take_succ _ _ _ Hx) as Hs.
  replace (n - 1 + 1) with n in Hs by lia. rewrite take_ge in Hs by lia.
  pose proof (Forall_vget _ _ _ _ Hb Hx). simpl in *. lia.
Qed.

(** X5.  Within the int range, [init_tree_size] runs to its end when there
    is one section only, or when the budgets add up to
    [(num_sections - 1) * (num_sections - 2)] at least. *)
Theorem init_tree_size_enough_overlaps t n padded S M cur :
  let b := budgets (saved_before t n) cur n in
  tree_size_boost t = FP.two →
  0 ≤ n ≤ padded → 1 ≤ S → 0 < M →
  n ≤ Z.of_nat (length (saved_before t n)) → n ≤ Z.of_nat (length cur) →
  Forall (fun c => 0 ≤ c) (take (Z.to_nat n) cur) →
  2 * sumZ b + S * (M + 2) + n ≤ INT_MAX →
  S = 1 ∨ (S - 1) * (S - 2) ≤ sumZ b →
  ∃ t', init_tree_size t n padded S M cur = Ok t'.
Proof.
  intros b Hboost Hn HS HM Hsv Hcur Hcnt Hmax Hen.
  apply (init_tree_size_total t n padded S M cur Hboost Hn HS HM Hsv Hcur
           Hcnt Hmax).
  destruct (Z.eq_dec n 0) as [|Hn0]; [by left|]. right.
  pose proof (budgets_positive_counts (saved_before t n) cur n Hcnt) as Hb1.
  pose proof (Forall_ge_weaken _ Hb1) as Hb0. fold b in Hb1, Hb0.
  assert (Hbl : length b = Z.to_nat n) by (apply budgets_length; lia).
  fold b.
  pose proof (last_prefix_lt b n Hbl ltac:(lia) Hb1) as Hlast.
  pose proof (max_list_nonneg b) as Hmx.
  unfold section_load.
  destruct (Z.ltb_spec 1 S) as [HS1|HS1].
  - destruct Hen as [->|Hen]; [lia|].
    pose proof (sumZ_nonneg _ Hb0) as HT0.
    rewrite Z.quot_div_nonneg by lia.
    set (T := sumZ b) in *. set (q := T / (S - 1)).
    pose proof (Z.mul_div_le T (S - 1) ltac:(lia)) as H1.
    pose proof (Z.mul_succ_div_gt T (S - 1) ltac:(lia)) as H2.
    fold q in H1, H2.
    assert (S - 2 ≤ q) by nia.
    assert (T ≤ S * q) by nia.
    nia.
  - assert (S = 1) as -> by lia. lia.
Qed.

Lemma budget_loop_again n saved cur nov saved' :
  budget_loop n saved cur = Ok nov →
  (∀ i, 0 ≤ i < n → vget saved' i = vget nov i) →
  budget_loop n saved' cur = Ok nov.
Proof.
  intros Hrun Hsame.
  pose proof (budget_loop_spec _ _ _ _ Hrun) as (Hn & Hlen & Hall).
  unfold budget_loop. rewrite vnew_nonneg by lia. simpl.
  destruct (for_range_total (fun _ v => length v = Z.to_nat n)
    (fun i v => s ← vget saved' i; c ← vget cur i;
                x ← (if c <? s then Ok s else iadd c 1); vset v i x)
    0 n (replicate (Z.to_nat n) 0)) as (v & Hv & Hvl).
  - lia.
  - by rewrite length_replicate.
  - intros j x Hj Hx. destruct (Hall j Hj) as (s & c & H1 & H2 & H3).
    rewrite (Hsame j Hj), H3, H2. simpl.
    destruct (Z.ltb_spec c (Z.max s (c + 1))); [|lia]. simpl.
    rewrite vset_in_range by lia. eexists. split; [done|].
    by rewrite length_insert.
  - rewrite Hv. f_equal.
    assert (Hrun' : budget_loop n saved' cur = Ok v).
    { unfold budget_loop. rewrite vnew_nonneg by lia. done. }
    apply budget_loop_spec in Hrun' as (_ & _ & Hall').
    apply vget_ext; [lia|]. intros i Hi.
    destruct (Hall i ltac:(lia)) as (s & c & H1 & H2 & H3).
    destruct (Hall' i ltac:(lia)) as (s' & c' & H1' & H2' & H3').
    rewrite (Hsame i) in H1' by lia. rewrite H3 in H1'.
    injection H1' as <-. rewrite H2 in H2'. injection H2' as <-.
    rewrite H3, H3'. f_equal. lia.
Qed.

Lemma save_loop_again n noverlaps saved sv :
  save_loop n noverlaps saved = Ok sv → 0 ≤ n →
  save_loop n noverlaps sv = Ok sv.
Proof.
  intros Hrun Hn.
  pose proof (save_loop_spec _ _ _ _ Hrun) as (Hlen & Hall).
  unfold save_loop.
  destruct (for_range_total (fun _ v => v = sv)
    (fun i sv => x ← vget noverlaps i; vset sv i x) 0 n sv)
    as (v & Hv & ->); [lia|done| |done].
  intros j x Hj ->. destruct (Hall j Hj) as (y & H1 & H2).
  rewrite H1. simpl. pose proof (vget_lt _ _ _ H2).
  rewrite vset_in_range by lia. eexists. split; [done|].
  apply list_insert_id. by apply vget_Ok in H2 as [_ H2].
Qed.

(** X6.  Sizing the tree a second time with the same atoms, sections and
    counts returns the tree of the first sizing: the budgets saved by the
    first call are the ones the second call computes. *)
Theorem init_tree_size_idempotent t n padded S M cur t' :
  init_tree_size t n padded S M cur = Ok t' →
  init_tree_size t' n padded S M cur = Ok t'.
Proof.
  intros H. unfold init_tree_size in H.
  apply bind_Ok in H as (z & Hz & H).
  apply bind_Ok in H as ([tp off] & Htp & H).
  apply bind_Ok in H as (a & Ha & H).
  apply Ok_inj in H.
  pose proof (init_sizing_spec _ _ _ _ _ _ Hz) as Hspec. simpl in Hspec.
  destruct Hspec as (Hn & _ & _ & _ & _ & _ & _ & _ & _ & _ & Hbud & _).
  assert (Hz' : init_sizing t' n S M cur = Ok z).
  { unfold init_sizing in Hz |- *.
    apply bind_Ok in Hz as (sv & Hsv & Hz).
    apply bind_Ok in Hz as (nov & Hnov & Hz).
    apply bind_Ok in Hz as (saved & Hsaved & Hz).
    apply bind_Ok in Hz as (ps & Hps & Hz).
    apply bind_Ok in Hz as (T & HT & Hz).
    apply bind_Ok in Hz as (mx & Hmx & Hz).
    apply bind_Ok in Hz as (L & HL & Hz).
    apply bind_Ok in Hz as ([[cua nat] tot] & Hassign & Hz).
    apply bind_Ok in Hz as (raw & Hraw & Hz).
    apply bind_Ok in Hz as (ss & Hss & Hz).
    apply Ok_inj in Hz. subst z. simpl in *. subst t'. simpl.
    rewrite (budget_loop_again n sv cur nov saved Hnov).
    2:{ intros i Hi. destruct (Hbud i Hi) as (s & c & _ & _ & H3 & H4).
        by rewrite H3, H4. }
    simpl. rewrite (save_loop_again _ _ _ _ Hsaved Hn). simpl.
    rewrite Hps. simpl. rewrite HT. simpl. rewrite Hmx. simpl.
    rewrite HL. simpl. rewrite Hassign. simpl. rewrite Hraw. simpl.
    by rewrite Hss. }
  unfold init_tree_size. rewrite Hz'. simpl. rewrite Htp. simpl.
  rewrite Ha. simpl. subst t'. done.
Qed.

Lemma layout_loop_padding S padded total ss natoms tp a :
  layout_loop S padded total ss natoms tp = Ok a →
  (∀ s x, vget natoms s = Ok x → 0 ≤ x) →
  ∀ idx, sumZ (take (Z.to_nat S) natoms) ≤ idx < padded →
    vget (l_atom_tree_pointer a) idx = Ok 0.
Proof.
  unfold layout_loop. intros H Hpos.
  apply bind_Ok in H as (ts0 & [HS ->]%vnew_Ok & H).
  apply bind_Ok in H as (pts0 & [_ ->]%vnew_Ok & H).
  apply bind_Ok in H as (atp0 & [Hpad ->]%vnew_Ok & H).
  apply bind_Ok in H as (fa0 & [_ ->]%vnew_Ok & H).
  loop_invariant (fun j b =>
    l_atom_offset b = sumZ (take (Z.to_nat j) natoms) ∧
    ∀ idx, l_atom_offset b ≤ idx < padded →
      vget (l_atom_tree_pointer b) idx = Ok 0)
    in H as Hinv.
  - done.
  - simpl. split; [done|]. intros idx Hidx.
    apply vget_replicate_in. lia.
  - clear H. intros j b b' Hj (Hoff & Hpadz) Hb.
    apply bind_Ok in Hb as (ts & Hts & Hb).
    apply bind_Ok in Hb as (x & Hx & Hb).
    apply bind_Ok in Hb as (pts & Hpts & Hb).
    apply bind_Ok in Hb as (fa & Hfa & Hb).
    apply bind_Ok in Hb as (atp & Hslots & Hb).
    apply bind_Ok in Hb as (tts & Htts & Hb).
    apply bind_Ok in Hb as (cnt & Hcnt & Hb).
    apply bind_Ok in Hb as (ao & Hao & Hb).
    injection Hb as <-. simpl. arith_ok.
    apply slot_loop_spec in Hslots as (cnt' & Hcnt' & _ & _ & Hold).
    assert (cnt' = cnt) as -> by congruence.
    pose proof (Hpos _ _ Hcnt).
    split; [rewrite (sumZ_take_succ _ _ _ Hcnt); lia|].
    intros idx Hidx. rewrite Hold by lia. apply Hpadz. lia.
  - destruct Hinv as [Hoff Hz]. intros idx Hidx. apply Hz. lia.
Qed.

(** X7.  After [init_tree_size] the entries of [atom_tree_pointer] for the
    padding atoms, from [num_atoms] up to [padded_num_atoms], are 0. *)
Theorem init_tree_size_padding t n padded ncu M cur t' :
  init_tree_size t n padded ncu M cur = Ok t' →
  ∀ i, n ≤ i < padded → vget (atom_tree_pointer t') i = Ok 0.
Proof.
  intros H i Hi.
  pose proof (init_tree_size_sections _ _ _ _ _ _ _ H) as (z & Hz & Hs).
  cbv zeta in Hs.
  destruct Hs as (Hn & HS & Hlen & Hin & Htot & Hnl & _ & _ & _ & _ & Hsec & _).
  unfold init_tree_size in H. rewrite Hz in H. simpl in H.
  apply bind_Ok in H as ([tp off] & Htp & H).
  apply bind_Ok in H as (a & Ha & H).
  apply Ok_inj in H. subst t'. simpl in *.
  assert (Hnatpos : ∀ s x, vget (s_natoms_in_tree z) s = Ok x → 0 ≤ x).
  { intros s x Hx. pose proof (vget_lt _ _ _ Hx).
    destruct (Hsec s ltac:(lia)) as (Hc & _). rewrite Hx in Hc.
    injection Hc as ->. apply occ_nonneg. }
  apply (layout_loop_padding _ _ _ _ _ _ _ Ha Hnatpos).
  rewrite (sum_occ_lt _ (s_compute_unit_of_atom z) ncu);
    [| |by intros; apply Hsec|lia].
  - rewrite occ_lt_all_lt; [lia|].
    eapply Forall_impl; [exact Hin|]. simpl. lia.
  - eapply Forall_impl; [exact Hin|]. simpl. lia.
Qed.

(** ** [copy_tree_to_device]: what the device holds *)


Lemma copy_prefix_Ok n src v :
  copy_prefix n src = Ok v →
  0 ≤ n ≤ Z.of_nat (length src) ∧ v = take (Z.to_nat n) src.
Proof.
  unfold copy_prefix. intros H.
  apply bind_Ok in H as (v0 & [Hn ->]%vnew_Ok & H).
  loop_invariant (fun i (v : list Z) =>
    length v = Z.to_nat n ∧ i ≤ Z.of_nat (length src) ∧
    ∀ j, 0 ≤ j < i → vget v j = vget src j) in H as Hinv.
  - done.
  - rewrite length_replicate. repeat split; [lia|]. intros; lia.
  - clear H. intros j x y Hj (Hl & Hle & Hsame) Hb.
    apply bind_Ok in Hb as (a & Ha & Hb).
    pose proof (vget_lt _ _ _ Ha).
    rewrite (vset_length _ _ _ _ Hb). repeat split; [done|lia|].
    intros i Hi. destruct (decide (i = j)) as [->|Hne].
    + by rewrite (vget_vset_eq _ _ _ _ Hb).
    + rewrite (vget_vset_ne _ _ _ _ _ Hb) by lia. apply Hsame. lia.
  - destruct Hinv as (Hl & Hle & Hsame). split; [lia|].
    apply vget_ext; [rewrite length_take; lia|].
    intros i Hi. rewrite Hsame by lia. unfold vget.
    destruct (Z.ltb_spec i 0); [done|].
    by rewrite lookup_take_lt by lia.
Qed.

Lemma upload_to_Ok name d b b' :
  upload_to name d b = Ok b' →
  ∃ a, b !! name = Some a ∧ b' = <[name := upload d a]> b.
Proof.
  unfold upload_to. destruct (b !! name) as [a|]; [|discriminate].
  intros [= <-]. by exists a.
Qed.

Lemma download_uploaded name l a b :
  download_ints name (<[name := upload (Ints l) a]> b) = Ok l.
Proof. unfold download_ints. by rewrite lookup_insert_eq. Qed.

Lemma download_other name name' x b :
  name ≠ name' →
  download_ints name (<[name' := x]> b) = download_ints name b.
Proof. intros Hne. unfold download_ints. by rewrite lookup_insert_ne. Qed.

Lemma copy_tree_to_device_downloads t t' :
  copy_tree_to_device t = Ok t' →
  download_ints "ovAtomTreePointer" (buffers t')
    = Ok (take (Z.to_nat (padded_num_atoms t)) (atom_tree_pointer t)) ∧
  download_ints "ovTreePointer" (buffers t')
    = Ok (take (Z.to_nat (num_sections t)) (tree_pointer t)) ∧
  download_ints "ovAtomTreeSize" (buffers t')
    = Ok (take (Z.to_nat (num_sections t)) (tree_size t)) ∧
  download_ints "ovAtomTreePaddedSize" (buffers t')
    = Ok (take (Z.to_nat (num_sections t)) (padded_tree_size t)) ∧
  download_ints "ovNumAtomsInTree" (buffers t')
    = Ok (take (Z.to_nat (num_sections t)) (natoms_in_tree t)) ∧
  download_ints "ovFirstAtom" (buffers t')
    = Ok (take (Z.to_nat (num_sections t)) (first_atom t)) ∧
  (∀ name,
     name ∉ ["ovAtomTreePointer"; "ovTreePointer"; "ovAtomTreeSize";
             "ovAtomTreePaddedSize"; "ovNumAtomsInTree"; "ovFirstAtom"] →
     buffers t' !! name = buffers t !! name) ∧
  atom_tree_pointer t' = atom_tree_pointer t ∧
  tree_pointer t' = tree_pointer t ∧ total_tree_size t' = total_tree_size t.
Proof.
  unfold copy_tree_to_device. intros H.
  apply bind_Ok in H as (nn & [_ ->]%copy_prefix_Ok & H).
  apply bind_Ok in H as (b1 & (a1 & _ & ->)%upload_to_Ok & H).
  apply bind_Ok in H as (n2 & [_ ->]%copy_prefix_Ok & H).
  apply bind_Ok in H as (b2 & (a2 & _ & ->)%upload_to_Ok & H).
  apply bind_Ok in H as (n3 & [_ ->]%copy_prefix_Ok & H).
  apply bind_Ok in H as (b3 & (a3 & _ & ->)%upload_to_Ok & H).
  apply bind_Ok in H as (n4 & [_ ->]%copy_prefix_Ok & H).
  apply bind_Ok in H as (b4 & (a4 & _ & ->)%upload_to_Ok & H).
  apply bind_Ok in H as (n5 & [_ ->]%copy_prefix_Ok & H).
  apply bind_Ok in H as (b5 & (a5 & _ & ->)%upload_to_Ok & H).
  apply bind_Ok in H as (n6 & [_ ->]%copy_prefix_Ok & H).
  apply bind_Ok in H as (b6 & (a6 & _ & ->)%upload_to_Ok & H).
  apply Ok_inj in H. subst t'.
  assert (Hb : ∀ b tbs h, buffers (set_tree_buffers b tbs h t) = b)
    by (by destruct t).
  assert (Hv : ∀ b tbs h,
            atom_tree_pointer (set_tree_buffers b tbs h t) = atom_tree_pointer t ∧
            tree_pointer (set_tree_buffers b tbs h t) = tree_pointer t ∧
            total_tree_size (set_tree_buffers b tbs h t) = total_tree_size t)
    by (by destruct t).
  rewrite Hb.
  split; [by rewrite !download_other, download_uploaded by done|].
  split; [by rewrite !download_other, download_uploaded by done|].
  split; [by rewrite !download_other, download_uploaded by done|].
  split; [by rewrite !download_other, download_uploaded by done|].
  split; [by rewrite !download_other, download_uploaded by done|].
  split; [by rewrite download_uploaded|].
  split; [|apply Hv].
  intros name Hname. repeat (apply not_elem_of_cons in Hname as [? Hname]).
  by rewrite !lookup_insert_ne by done.
Qed.

(** X9.  After [copy_tree_to_device] a download of each of the six device
    arrays it writes gives the first [padded_num_atoms] or [num_sections]
    entries of the host vector it was filled from; the other buffers and the
    host vectors are as before. *)
Theorem copy_tree_to_device_round_trip t t' :
  copy_tree_to_device t = Ok t' →
  download_ints "ovAtomTreePointer" (buffers t')
    = Ok (take (Z.to_nat (padded_num_atoms t)) (atom_tree_pointer t)) ∧
  download_ints "ovTreePointer" (buffers t')
    = Ok (take (Z.to_nat (num_sections t)) (tree_pointer t)) ∧
  download_ints "ovAtomTreeSize" (buffers t')
    = Ok (take (Z.to_nat (num_sections t)) (tree_size t)) ∧
  download_ints "ovAtomTreePaddedSize" (buffers t')
    = Ok (take (Z.to_nat (num_sections t)) (padded_tree_size t)) ∧
  download_ints "ovNumAtomsInTree" (buffers t')
    = Ok (take (Z.to_nat (num_sections t)) (natoms_in_tree t)) ∧
  download_ints "ovFirstAtom" (buffers t')
    = Ok (take (Z.to_nat (num_sections t)) (first_atom t)) ∧
  (∀ name,
     name ∉ ["ovAtomTreePointer"; "ovTreePointer"; "ovAtomTreeSize";
             "ovAtomTreePaddedSize"; "ovNumAtomsInTree"; "ovFirstAtom"] →
     buffers t' !! name = buffers t !! name) ∧
  atom_tree_pointer t' = atom_tree_pointer t ∧
  tree_pointer t' = tree_pointer t ∧ total_tree_size t' = total_tree_size t.
Proof. apply copy_tree_to_device_downloads. Qed.

Lemma copy_prefix_total n src :
  0 ≤ n ≤ Z.of_nat (length src) →
  copy_prefix n src = Ok (take (Z.to_nat n) src).
Proof.
  intros Hn.
  assert (∃ v, copy_prefix n src = Ok v) as [v Hv].
  { unfold copy_prefix. rewrite vnew_nonneg by lia. simpl.
    destruct (for_range_total (fun _ (v : list Z) => length v = Z.to_nat n)
      (fun i v => x ← vget src i; vset v i x) 0 n (replicate (Z.to_nat n) 0))
      as (v & Hv & _); [lia|by rewrite length_replicate| |by exists v].
    intros j x Hj Hx. destruct (vget_is_Ok src j) as [y Hy]; [lia|].
    rewrite Hy. simpl. rewrite vset_in_range by lia.
    eexists. split; [done|]. by rewrite length_insert. }
  rewrite Hv. by apply copy_prefix_Ok in Hv as [_ ->].
Qed.


(** ** [resize_tree_buffers]: the buffers and their sizes *)


Lemma create_all_lookup_in names size b name :
  name ∈ names → create_all names size b !! name = Some (create size).
Proof.
  unfold create_all. revert b.
  induction names as [|x names IH]; intros b Hin; [by apply elem_of_nil in Hin|].
  simpl. destruct (decide (name ∈ names)) as [Hn|Hn]; [by apply IH|].
  apply elem_of_cons in Hin as [->|]; [|done].
  clear IH. revert b. induction names as [|y names IH]; intros b; simpl.
  - by rewrite lookup_insert_eq.
  - apply not_elem_of_cons in Hn as [Hne Hn].
    rewrite insert_insert_ne by done. by apply IH.
Qed.

Lemma create_all_lookup_notin names size b name :
  name ∉ names → create_all names size b !! name = b !! name.
Proof.
  unfold create_all. revert b.
  induction names as [|x names IH]; intros b Hn; [done|].
  apply not_elem_of_cons in Hn as [Hne Hn]. simpl.
  rewrite IH by done. by rewrite lookup_insert_ne.
Qed.

Lemma set_tree_buffers_host b tbs h t :
  num_atoms (set_tree_buffers b tbs h t) = num_atoms t ∧
  padded_num_atoms (set_tree_buffers b tbs h t) = padded_num_atoms t ∧
  total_atoms_in_tree (set_tree_buffers b tbs h t) = total_atoms_in_tree t ∧
  total_tree_size (set_tree_buffers b tbs h t) = total_tree_size t ∧
  num_sections (set_tree_buffers b tbs h t) = num_sections t ∧
  tree_size (set_tree_buffers b tbs h t) = tree_size t ∧
  padded_tree_size (set_tree_buffers b tbs h t) = padded_tree_size t ∧
  atom_tree_pointer (set_tree_buffers b tbs h t) = atom_tree_pointer t ∧
  tree_pointer (set_tree_buffers b tbs h t) = tree_pointer t ∧
  natoms_in_tree (set_tree_buffers b tbs h t) = natoms_in_tree t ∧
  first_atom (set_tree_buffers b tbs h t) = first_atom t ∧
  buffers (set_tree_buffers b tbs h t) = b.
Proof. by destruct t. Qed.

Lemma apart_notin l1 l2 name : apart l1 l2 → name ∈ l1 → name ∉ l2.
Proof. intros Ha Hin. by apply (proj1 (Forall_forall _ _) Ha). Qed.

Ltac created_later Hn :=
  rewrite create_all_lookup_notin
    by (eapply apart_notin; [|exact Hn]; unfold apart;
        compute_done).

Lemma resize_tree_buffers_created wg t t' :
  resize_tree_buffers wg t = Ok t' →
  let P := padded_num_atoms t in
  let S := num_sections t in
  (∀ name, name ∈ per_atom_int_buffers →
     buffers t' !! name = Some (create P)) ∧
  (∀ name, name ∈ per_section_buffers →
     buffers t' !! name = Some (create S)) ∧
  (∀ name, name ∈ per_node_buffers →
     buffers t' !! name = Some (create (total_tree_size t))) ∧
  (∀ name, name ∈ per_atom_section_buffers →
     buffers t' !! name = Some (create (P * S))) ∧
  (∀ name, name ∈ per_atom_long_buffers →
     buffers t' !! name = Some (create P)) ∧
  buffers t' !! "gradBuffers_long" = Some (create (4 * P)) ∧
  (∀ name, name ∈ temp_buffers →
     buffers t' !! name = Some (create (temp_buffer_size t'))) ∧
  temp_buffer_size t' =
    (let first := if temp_buffer_size t <=? 0 then wg * S * 64
                  else temp_buffer_size t in
     if hasExceededTempBuffer t then 2 * first else first) ∧
  hasExceededTempBuffer t' = false ∧
  atom_tree_pointer t' = atom_tree_pointer t ∧
  padded_num_atoms t' = P ∧ num_sections t' = S ∧
  total_tree_size t' = total_tree_size t.
Proof.
  unfold resize_tree_buffers. intros H. cbv zeta in H.
  apply bind_Ok in H as (pn & Hpn & H). apply bind_Ok in H as (p4 & Hp4 & H).
  apply bind_Ok in H as (tbs & Htbs & H).
  apply bind_Ok in H as (tbs' & Htbs' & H).
  apply Ok_inj in H. subst t'.
  apply imul_Ok in Hpn as [-> _]. apply imul_Ok in Hp4 as [-> _].
  match goal with
  | |- context [set_tree_buffers ?b ?x ?h ?t] =>
      destruct (set_tree_buffers_host b x h t)
        as (_ & H2 & _ & H4 & H5 & _ & _ & H8 & _ & _ & _ & H12);
      destruct (set_tree_buffers_frame b x h t) as (_ & _ & _ & _ & H13 & H14)
  end.
  cbv zeta. rewrite H2, H4, H5, H8, H12, H13, H14. clear H2 H4 H5 H8 H12 H13 H14.
  assert (Htbsv : tbs' =
    if hasExceededTempBuffer t
    then 2 * (if temp_buffer_size t <=? 0
              then wg * num_sections t * 64 else temp_buffer_size t)
    else (if temp_buffer_size t <=? 0
          then wg * num_sections t * 64 else temp_buffer_size t)).
  { destruct (temp_buffer_size t <=? 0).
    - apply bind_Ok in Htbs as (a & [-> _]%imul_Ok & [-> _]%imul_Ok).
      destruct (hasExceededTempBuffer t);
        [by apply imul_Ok in Htbs' as [-> _] | by injection Htbs'].
    - injection Htbs as <-.
      destruct (hasExceededTempBuffer t);
        [by apply imul_Ok in Htbs' as [-> _] | by injection Htbs']. }
  split.
  { intros name Hn. do 10 created_later Hn. by apply create_all_lookup_in. }
  split.
  { intros name Hn. do 9 created_later Hn. by apply create_all_lookup_in. }
  split.
  { intros name Hn. do 8 created_later Hn. by apply create_all_lookup_in. }
  split.
  { intros name Hn. unfold per_atom_section_buffers in Hn.
    repeat (apply elem_of_cons in Hn as [->|Hn]);
      [..|by apply elem_of_nil in Hn];
      repeat (rewrite create_all_lookup_notin
                by (compute_done));
      apply create_all_lookup_in; compute_done. }
  split.
  { intros name Hn. unfold per_atom_long_buffers in Hn.
    repeat (apply elem_of_cons in Hn as [->|Hn]);
      [..|by apply elem_of_nil in Hn];
      repeat (rewrite create_all_lookup_notin
                by (compute_done));
      apply create_all_lookup_in; compute_done. }
  split.
  { repeat (rewrite create_all_lookup_notin
              by (compute_done)).
    apply create_all_lookup_in. compute_done. }
  split; [intros name Hn; by apply create_all_lookup_in|].
  done.
Qed.

(** X8.  After [resize_tree_buffers] each of the forty buffers exists with
    the size of its group: per padded atom, per section, per tree node, per
    padded atom and section, four per padded atom for [gradBuffers_long], and
    [temp_buffer_size] for the four temporary buffers.  [temp_buffer_size] is
    [64 * ov_work_group_size * num_sections] the first time, is doubled when
    [hasExceededTempBuffer] was up, and the flag comes out down. *)
Theorem resize_tree_buffers_sizes wg t t' :
  resize_tree_buffers wg t = Ok t' →
  let P := padded_num_atoms t in
  let S := num_sections t in
  (∀ name, name ∈ per_atom_int_buffers →
     buffers t' !! name = Some (create P)) ∧
  (∀ name, name ∈ per_section_buffers →
     buffers t' !! name = Some (create S)) ∧
  (∀ name, name ∈ per_node_buffers →
     buffers t' !! name = Some (create (total_tree_size t))) ∧
  (∀ name, name ∈ per_atom_section_buffers →
     buffers t' !! name = Some (create (P * S))) ∧
  (∀ name, name ∈ per_atom_long_buffers →
     buffers t' !! name = Some (create P)) ∧
  buffers t' !! "gradBuffers_long" = Some (create (4 * P)) ∧
  (∀ name, name ∈ temp_buffers →
     buffers t' !! name = Some (create (temp_buffer_size t'))) ∧
  temp_buffer_size t' =
    (let first := if temp_buffer_size t <=? 0 then wg * S * 64
                  else temp_buffer_size t in
     if hasExceededTempBuffer t then 2 * first else first) ∧
  hasExceededTempBuffer t' = false ∧
  atom_tree_pointer t' = atom_tree_pointer t ∧
  padded_num_atoms t' = P ∧ num_sections t' = S ∧
  total_tree_size t' = total_tree_size t.
Proof. apply resize_tree_buffers_created. Qed.

(** ** The host sum stays inside the downloaded energies *)


Lemma sum_vol_energies_total n atom_pointer (vol : list FP.float) :
  0 ≤ n →
  (∀ i, 0 ≤ i < n →
     ∃ slot, vget atom_pointer i = Ok slot ∧
             0 ≤ slot < Z.of_nat (length vol)) →
  ∃ E, sum_vol_energies n atom_pointer vol = Ok E.
Proof.
  intros Hn Hslots. unfold sum_vol_energies.
  destruct (for_range_total (fun _ (_ : FP.double) => True)
    (fun i energy => slot ← vget atom_pointer i; e ← vget vol slot;
                     Ok (FP.dadd energy (FP.double_of_float e)))
    0 n FP.dzero) as (E & HE & _); [lia|done| |by exists E].
  intros j x Hj _. destruct (Hslots j Hj) as (slot & -> & Hr). simpl.
  destruct (vget_is_Ok vol slot Hr) as [e ->]. simpl. by eexists.
Qed.

Lemma host_energy_total t n padded S M cur t1 wg t2 t3 k vol :
  init_tree_size t n padded S M cur = Ok t1 →
  resize_tree_buffers wg t1 = Ok t2 →
  copy_tree_to_device t2 = Ok t3 →
  (∀ i c, 0 ≤ i < n → vget cur i = Ok c → 0 ≤ c) →
  tree_size_boost t = FP.two → 0 < M →
  numParticles k = n → n ≤ padded →
  total_tree_size t3 ≤ Z.of_nat (length vol) →
  ∃ E, host_energy k t3 vol = Ok E.
Proof.
  intros H1 H2 H3 Hcur Hboost HM Hk Hnp Hvol.
  destruct (atom_slots _ _ _ _ _ _ _ H1 Hcur Hboost HM)
    as (z & Hz & Hslots & _).
  pose proof (init_tree_size_sections _ _ _ _ _ _ _ H1) as (z' & _ & Hs).
  cbv zeta in Hs. destruct Hs as (Hn & _ & _ & _ & _ & _ & _ & Hal & _).
  apply init_tree_size_inv in H1
    as (_ & _ & _ & _ & _ & _ & _ & _ & _ & _ & _ & _ & _ & _ & _ & _ & _ & _
        & Hp1 & _).
  pose proof (resize_tree_buffers_created _ _ _ H2) as Hr. cbv zeta in Hr.
  destruct Hr as (_ & _ & _ & _ & _ & _ & _ & _ & _ & Ha2 & Hp2 & _ & Ht2).
  destruct (copy_tree_to_device_downloads _ _ H3)
    as (Hd & _ & _ & _ & _ & _ & _ & _ & _ & Ht3).
  unfold host_energy. rewrite Hd. simpl.
  rewrite Hp2, Ha2, Hp1, take_ge by lia.
  apply sum_vol_energies_total; [lia|].
  intros i Hi. destruct (Hslots i ltac:(lia))
    as (s & tp & cap & slot & _ & _ & _ & Hv & _ & Hr).
  exists slot. split; [done|]. rewrite Ht3, Ht2 in Hvol. lia.
Qed.

(** X11.  After the tree has been sized, allocated and copied to the
    device, the sum that [executeGVolSA] forms on the host completes for a
    download of at least [total_tree_size] energies: every slot it reads, for
    each of the [numParticles] atoms, is inside the download. *)
Theorem host_energy_in_bounds t n padded S M cur t1 wg t2 t3 k vol :
  init_tree_size t n padded S M cur = Ok t1 →
  resize_tree_buffers wg t1 = Ok t2 →
  copy_tree_to_device t2 = Ok t3 →
  (∀ i c, 0 ≤ i < n → vget cur i = Ok c → 0 ≤ c) →
  tree_size_boost t = FP.two → 0 < M →
  numParticles k = n → n ≤ padded →
  total_tree_size t3 ≤ Z.of_nat (length vol) →
  ∃ E, host_energy k t3 vol = Ok E.
Proof. apply host_energy_total. Qed.

(** ** What a step of the kernel leaves alone *)

Lemma step_frame_refl k : step_frame k k.
Proof. unfold step_frame. repeat split; done. Qed.

Lemma step_frame_trans k1 k2 k3 :
  step_frame k1 k2 → step_frame k2 k3 → step_frame k1 k3.
Proof.
  unfold step_frame.
  intros (a1 & a2 & a3 & a4 & a5 & a6 & a7 & a8 & a9 & a10 & a11 & a12 & a13
          & a14 & a15 & a16 & a17 & a18 & a19 & a20 & a21 & a22 & a23 & a24)
         (b1 & b2 & b3 & b4 & b5 & b6 & b7 & b8 & b9 & b10 & b11 & b12 & b13
          & b14 & b15 & b16 & b17 & b18 & b19 & b20 & b21 & b22 & b23 & b24).
  repeat split; try congruence.
  - intros name Hn. rewrite b15, a15; done.
  - auto.
  - by etrans.
Qed.

Section Preserves.
Variable R : Kernel → Kernel → Prop.
Hypothesis R_refl : ∀ k, R k k.
Hypothesis R_trans : ∀ k1 k2 k3, R k1 k2 → R k2 k3 → R k1 k3.

Lemma preserves_ret {A} (a : A) : preserves R (mret a : SE A).
Proof. intros k r k' [= _ <-]. apply R_refl. Qed.

Lemma preserves_lift {A} (o : outcome A) : preserves R (se_lift o).
Proof. intros k r k' [= _ <-]. apply R_refl. Qed.

Lemma preserves_get : preserves R se_get.
Proof. intros k r k' [= _ <-]. apply R_refl. Qed.

Lemma preserves_throw {A} msg : preserves R (se_throw msg : SE A).
Proof. intros k r k' [= _ <-]. apply R_refl. Qed.

Lemma preserves_modify (f : Kernel → Kernel) :
  (∀ k, R k (f k)) → preserves R (se_modify f).
Proof. intros Hf k r k' [= _ <-]. apply Hf. Qed.

Lemma preserves_bind {A B} (m : SE A) (f : A → SE B) :
  preserves R m → (∀ a, preserves R (f a)) → preserves R (m ≫= f).
Proof.
  intros Hm Hf k r k' Hrun.
  unfold mbind, se_mbind, se_bind in Hrun.
  destruct (m k) as [[a|e] k1] eqn:Hmk.
  - eapply R_trans; [by eapply Hm|by eapply Hf].
  - injection Hrun as _ <-. by eapply Hm.
Qed.

Lemma preserves_for (body : Z → SE unit) n :
  (∀ i, preserves R (body i)) → ∀ i, preserves R (se_for i n body).
Proof.
  intros Hb. induction n as [|n IH]; intros i; simpl.
  - apply (preserves_ret ()).
  - apply preserves_bind; [apply Hb|]. intros _. apply IH.
Qed.

Lemma preserves_deref {A} (p : option A) : preserves R (deref p).
Proof. destruct p; [apply preserves_ret|apply preserves_lift]. Qed.
End Preserves.

Ltac frame_setter :=
  let k := fresh "k" in
  intros k; destruct_kernel k;
  match goal with c : CudaContext |- _ => destruct_context c end;
  unfold step_frame; simpl; repeat split; try done.

Lemma frame_set_maxTiles v k : step_frame k (set_maxTiles v k).
Proof. revert k. frame_setter. Qed.

Lemma frame_set_launch_geometry w n k :
  step_frame k (set_launch_geometry w n k).
Proof. revert k. frame_setter. Qed.

Lemma frame_set_gtree v k : step_frame k (set_gtree v k).
Proof. revert k. frame_setter. Qed.

Lemma frame_set_panic_button v k : step_frame k (set_panic_button v k).
Proof. revert k. frame_setter. Qed.

Lemma frame_set_niterations v k : step_frame k (set_niterations v k).
Proof. revert k. frame_setter. Qed.

Lemma frame_set_pinned v k : step_frame k (set_pinnedPanicButtonMemory v k).
Proof. revert k. frame_setter. Qed.

Lemma frame_set_hasInitializedKernels v k :
  step_frame k (set_hasInitializedKernels v k).
Proof. revert k. frame_setter. Qed.

Lemma frame_set_hasCreatedKernels v k :
  step_frame k (set_hasCreatedKernels v k).
Proof. revert k. frame_setter. Qed.

Lemma frame_executeKernel f s k :
  step_frame k (set_cu (executeKernel f s (cu k)) k).
Proof. revert k. frame_setter. by apply prefix_app_r. Qed.

Lemma frame_invalidate k :
  step_frame k (set_cu (setForcesValid false (cu k)) k).
Proof. revert k. frame_setter. Qed.

Lemma frame_set_arrays b k :
  (∀ name, name ∈ parameter_arrays → b !! name = arrays k !! name) →
  step_frame k (set_arrays b k).
Proof. revert k. frame_setter. Qed.

Lemma frame_launch_kernel f s : preserves step_frame (launch_kernel f s).
Proof. apply preserves_modify, frame_executeKernel. Qed.

Lemma frame_new_array name size :
  name ∉ parameter_arrays → preserves step_frame (new_array name size).
Proof.
  intros Hn. apply preserves_modify. intros k. apply frame_set_arrays.
  intros name' Hin. apply lookup_insert_ne. by intros ->.
Qed.

Lemma frame_upload_member name d :
  name ∉ parameter_arrays → preserves step_frame (upload_member name d).
Proof.
  intros Hn k r k' Hrun. unfold upload_member in Hrun.
  unfold mbind, se_mbind, se_bind, se_get, se_lift, se_modify in Hrun.
  destruct (upload_to name d (arrays k)) as [b|e] eqn:Hu.
  - injection Hrun as _ <-. apply upload_to_Ok in Hu as (a & _ & ->).
    apply frame_set_arrays. intros name' Hin.
    apply lookup_insert_ne. by intros ->.
  - injection Hrun as _ <-. apply step_frame_refl.
Qed.

Ltac frame_step :=
  first
    [ apply frame_upload_member; unfold parameter_arrays; compute_done
    | apply frame_new_array; unfold parameter_arrays; compute_done
    | apply frame_launch_kernel
    | match goal with
      | H : ∀ x, preserves step_frame _ |- _ => apply H
      end
    | apply (preserves_bind step_frame step_frame_trans); [|intros ?]
    | apply (preserves_ret step_frame step_frame_refl)
    | apply (preserves_lift step_frame step_frame_refl)
    | apply (preserves_get step_frame step_frame_refl)
    | apply (preserves_throw step_frame step_frame_refl)
    | apply (preserves_deref step_frame step_frame_refl)
    | apply preserves_modify; intros ?;
      first [ apply frame_set_maxTiles | apply frame_set_launch_geometry
            | apply frame_set_gtree | apply frame_set_panic_button
            | apply frame_set_niterations | apply frame_set_pinned
            | apply frame_set_hasInitializedKernels
            | apply frame_set_hasCreatedKernels | apply frame_invalidate ]
    | match goal with
      | |- preserves _ (if ?b then _ else _) => destruct b
      end ].

Lemma frame_construct_tree s : preserves step_frame (construct_tree s).
Proof. unfold construct_tree. repeat frame_step. Qed.

Lemma frame_executeInitKernels inp :
  preserves step_frame (executeInitKernels inp).
Proof.
  unfold executeInitKernels. repeat frame_step.
  - unfold se_range.
    apply (preserves_for step_frame step_frame_refl step_frame_trans).
    intros i. repeat frame_step.
  - apply preserves_modify. intros k. apply frame_set_arrays.
    intros name Hin. apply create_all_lookup_notin.
    eapply apart_notin; [|exact Hin].
    unfold apart, kernel_arrays_of_init, parameter_arrays. compute_done.
Qed.

Lemma frame_executeGVolSA inp : preserves step_frame (executeGVolSA inp).
Proof.
  pose proof frame_construct_tree.
  unfold executeGVolSA. repeat frame_step.
Qed.

Lemma frame_execute inp : preserves step_frame (execute inp).
Proof.
  pose proof frame_executeInitKernels. pose proof frame_executeGVolSA.
  unfold execute. repeat frame_step.
Qed.

(** X17.  Whether it returns or throws, [execute] leaves the parameter
    vectors, the number of particles, the force pointer and the five
    parameter arrays as they were, never marks the forces valid, and only
    appends to the stream of launches. *)
Theorem execute_leaves_parameters inp k r k' :
  execute inp k = (r, k') →
  radiusVector1 k' = radiusVector1 k ∧ radiusVector2 k' = radiusVector2 k ∧
  gammaVector1 k' = gammaVector1 k ∧ gammaVector2 k' = gammaVector2 k ∧
  ishydrogenVector k' = ishydrogenVector k ∧
  numParticles k' = numParticles k ∧ gvol_force k' = gvol_force k ∧
  (∀ name, name ∈ parameter_arrays → arrays k' !! name = arrays k !! name) ∧
  (forcesValid (cu k') = true → forcesValid (cu k) = true) ∧
  stream (cu k) `prefix_of` stream (cu k').
Proof.
  intros Hrun. apply frame_execute in Hrun.
  destruct Hrun as (a1 & a2 & a3 & a4 & a5 & _ & a7 & _ & _ & a10 & _ & _ & _
                    & _ & a15 & _ & _ & _ & _ & _ & _ & _ & a23 & a24).
  repeat split; assumption.
Qed.

(** ** What [initialize] stores for a particle *)

Lemma store_particle_vectors j p k g :
  let k' := set_common_gamma g (store_particle j p k) in
  radiusVector1 k' =
    <[Z.to_nat j := FP.float_of_double
        (FP.dadd (FP.double_of_float (FP.float_of_double (radius p)))
                 (roffset k))]> (radiusVector1 k) ∧
  radiusVector2 k' =
    <[Z.to_nat j := FP.float_of_double (radius p)]> (radiusVector2 k) ∧
  ishydrogenVector k' =
    <[Z.to_nat j := if ishydrogen p then 1 else 0]> (ishydrogenVector k) ∧
  atom_ishydrogen k' =
    <[Z.to_nat j := if ishydrogen p then 1 else 0]> (atom_ishydrogen k) ∧
  roffset k' = roffset k.
Proof. by destruct_kernel k. Qed.

Lemma init_loop_radii force N m k k' :
  sized N k → Z.of_nat m ≤ Z.of_nat N →
  Z.of_nat m ≤ Z.of_nat (length (particles force)) →
  se_for 0 m (initialize_particle force) k = (Ok (), k') →
  ∀ i p, 0 ≤ i < Z.of_nat m → vget (particles force) i = Ok p →
    particle_stored (roffset k) p i k'.
Proof.
  intros Hsized HN Hlen Hrun.
  pose (P := fun (j : Z) (x : Kernel) =>
    sized N x ∧ roffset x = roffset k ∧
    ∀ i p, 0 ≤ i < j → vget (particles force) i = Ok p →
      particle_stored (roffset k) p i x).
  assert (HP : P (0 + Z.of_nat m) k').
  { apply (se_for_inv P (initialize_particle force) m 0 k k'); [| |done].
    - split; [done|]. split; [done|]. intros; lia.
    - intros j x y Hj (Hsx & Hrx & Hx) Hbody.
      destruct (vget_is_Ok (particles force) j) as [p Hp]; [lia|].
      rewrite (initialize_particle_run force j x p N Hp Hsx) in Hbody by lia.
      destruct (check_gamma (common_gamma x) p) as [cg|]; [|discriminate].
      injection Hbody as <-.
      destruct (store_particle_props j p x N cg Hsx) as (_ & Hsy & _).
      destruct (store_particle_vectors j p x cg)
        as (Hv1 & Hv2 & Hv3 & Hv4 & Hro).
      cbv zeta in Hsy, Hv1, Hv2, Hv3, Hv4, Hro.
      split; [done|]. split; [congruence|].
      destruct Hsx as (L1 & L2 & _ & _ & L5 & L6).
      intros i q Hi Hq. unfold particle_stored.
      rewrite Hv1, Hv2, Hv3, Hv4.
      destruct (decide (i = j)) as [->|Hne].
      + assert (q = p) as -> by congruence.
        rewrite !vget_insert_eq by lia. by rewrite Hrx.
      + rewrite !vget_insert_ne by lia. apply Hx; [lia|done]. }
  destruct HP as (_ & _ & HP). intros i p Hi Hp. apply HP; [lia|done].
Qed.

(** A call of [initialize] that returns for a context with atoms has had the
    two answers [CUDA_SUCCESS] of the driver and no exception in the loop
    over the particles. *)
Lemma initialize_Ok R file inp force k k' :
  initialize R file inp force k = (Ok (), k') →
  contexts_size (cu k) ≤ 1 → numAtoms (cu k) ≠ 0 →
  0 ≤ numAtoms (cu k) ≤ paddedNumAtoms (cu k) →
  numAtoms (cu k) ≤ getNumParticles force →
  driver_succeeds inp ∧
  ∃ g, check_gammas FP.fminus1
         (take (Z.to_nat (numAtoms (cu k))) (particles force)) = Some g.
Proof.
  intros Hrun Hctx Hn0 Hn Hlen.
  pose proof (initialize_run R file inp force k Hctx Hn0 Hn Hlen) as Hcase.
  destruct (check_gammas FP.fminus1 _) as [g|] eqn:Hcg.
  2:{ destruct Hcase as (k2 & Hfail). congruence. }
  split; [|by exists g]. destruct Hcase as [_ Hfail].
  destruct (decide (cuEventCreate_result inp = CUDA_SUCCESS
                    ∧ cuMemHostAlloc_result inp = CUDA_SUCCESS)) as [Hd|Hd];
    [done|].
  destruct (Hfail Hd) as (msg & k2 & Hrun2). congruence.
Qed.

Lemma new_CudaOverlapTree_constructed a b c d e :
  constructed (new_CudaOverlapTree a b c d e).
Proof. by repeat split. Qed.

Lemma initialize_state R file inp force k g :
  contexts_size (cu k) ≤ 1 → numAtoms (cu k) ≠ 0 →
  0 ≤ numAtoms (cu k) ≤ paddedNumAtoms (cu k) →
  numAtoms (cu k) ≤ getNumParticles force →
  check_gammas FP.fminus1
    (take (Z.to_nat (numAtoms (cu k))) (particles force)) = Some g →
  driver_succeeds inp →
  ∃ k', initialize R file inp force k = (Ok (), k') ∧
    cu k' = cu k ∧ roffset k' = R ∧ numParticles k' = numAtoms (cu k) ∧
    common_gamma k' = g ∧
    sized (Z.to_nat (paddedNumAtoms (cu k))) k' ∧
    gammas_stored force k' ∧
    (∀ i p, 0 ≤ i < numAtoms (cu k) → vget (particles force) i = Ok p →
       particle_stored R p i k') ∧
    holds k' "radiusParam1" (paddedNumAtoms (cu k))
      (Floats (radiusVector1 k')) ∧
    holds k' "radiusParam2" (paddedNumAtoms (cu k))
      (Floats (radiusVector2 k')) ∧
    holds k' "gammaParam1" (paddedNumAtoms (cu k))
      (Floats (gammaVector1 k')) ∧
    holds k' "gammaParam2" (paddedNumAtoms (cu k))
      (Floats (gammaVector2 k')) ∧
    holds k' "ishydrogenParam" (paddedNumAtoms (cu k))
      (Ints (ishydrogenVector k')) ∧
    (∀ name, name ∉ parameter_arrays → arrays k' !! name = arrays k !! name) ∧
    gvol_force k' = Some force ∧
    useCutoff k' = negb (bool_decide (getNonbondedMethod force = NoCutoff)) ∧
    usePeriodic k' = bool_decide (getNonbondedMethod force = CutoffPeriodic) ∧
    useExclusions k' = false ∧
    cutoffDistance k' = getCutoffDistance force ∧
    gtree k' = Some (new_CudaOverlapTree
                       (raw_num_atoms inp) (raw_padded_num_atoms inp)
                       (raw_total_atoms_in_tree inp) (raw_total_tree_size inp)
                       (raw_num_sections inp)) ∧
    pinnedPanicButtonMemory k' = Some (pinned_page inp) ∧
    downloadPanicButtonEvent k' = true ∧ niterations k' = 0 ∧
    hasInitializedKernels k' = false ∧ hasCreatedKernels k' = false.
Proof.
  intros Hctx Hn0 Hn Hlen Hcg [Hev Hpin].
  destruct_kernel k. cbn [cu] in *. unfold initialize.
  se_norm.
  destruct (Z.ltb_spec 1 (contexts_size c)); [lia|].
  destruct (Z.eqb_spec (numAtoms c) 0); [lia|].
  set (N := Z.to_nat (paddedNumAtoms c)).
  destruct (vresize_Ok rv1 (paddedNumAtoms c) FP.fzero) as (r1 & Hr1 & Hl1);
    [lia|].
  destruct (vresize_Ok rv2 (paddedNumAtoms c) FP.fzero) as (r2 & Hr2 & Hl2);
    [lia|].
  destruct (vresize_Ok gv1 (paddedNumAtoms c) FP.fzero) as (g1 & Hg1 & Hl3);
    [lia|].
  destruct (vresize_Ok gv2 (paddedNumAtoms c) FP.fzero) as (g2 & Hg2 & Hl4);
    [lia|].
  destruct (vresize_Ok ihv (paddedNumAtoms c) 0) as (ih & Hih & Hl5); [lia|].
  destruct (vresize_Ok aih (paddedNumAtoms c) 0) as (ah & Hah & Hl6); [lia|].
  rewrite Hr1, Hr2, Hg1, Hg2, Hih, Hah.
  se_norm.
  unfold se_range. rewrite Z.sub_0_r.
  match goal with
  | |- context [se_for 0 ?m ?body ?K] =>
      pose proof (init_loop_run force N m 0 K) as Hloop;
      pose proof (init_loop_radii force N m K) as Hradii;
      assert (Hsz : sized N K) by (repeat split; done)
  end.
  cbn [common_gamma] in Hloop. rewrite drop_0 in Hloop.
  specialize (Hloop Hsz ltac:(lia) ltac:(lia)
                ltac:(unfold getNumParticles in Hlen; lia)).
  rewrite Hcg in Hloop.
  destruct Hloop as (k' & Hrun & Hsame & Hsized' & Hcg' & Hnew & _).
  specialize (Hradii k' Hsz ltac:(lia)
                ltac:(unfold getNumParticles in Hlen; lia) Hrun).
  clear Hsz. rewrite Hrun.
  destruct Hsame as (_ & Hnp & _ & _ & _ & _ & Hro & _ & _ & _ & Hcu & _ & _
                     & _ & Har & _).
  cbn [numParticles roffset cu arrays] in Hnp, Hro, Hcu, Har, Hnew, Hradii.
  destruct k' as [gf' np' uc' up' ue' cd' ro' cg' mt' hik' hck' c' wg' ncu' gt'
                  ar' rv1' rv2' gv1' gv2' ihv' aih' nit' pb' pin' ev'].
  cbn [numParticles roffset cu arrays gammaVector1 gammaVector2 common_gamma]
    in *.
  subst np' ro' c' ar' cg'.
  unfold upload_parameters. se_norm.
  do 5 (erewrite upload_member_run by (cbn [arrays]; by simplify_map_eq);
        se_norm).
  unfold new_gtree, cuEventCreate, cuMemHostAlloc, CHECK_RESULT.
  rewrite Hev, Hpin, !Z.eqb_refl. cbn [negb]. se_norm.
  eexists. split; [reflexivity|].
  cbn [cu roffset numParticles gtree hasInitializedKernels hasCreatedKernels
       common_gamma gvol_force useCutoff usePeriodic useExclusions
       cutoffDistance pinnedPanicButtonMemory niterations
       downloadPanicButtonEvent].
  repeat (split; [first [done | apply Hsized']|]).
  split.
  { unfold gammas_stored.
    cbn [numParticles gammaVector1 gammaVector2 roffset arrays].
    split; [intros i p Hi Hp; apply Hnew; [lia | done]|].
    split; eexists; (split; [by simplify_map_eq | done]). }
  split.
  { intros i p Hi Hp. specialize (Hradii i p ltac:(lia) Hp).
    unfold particle_stored in *.
    cbn [radiusVector1 radiusVector2 ishydrogenVector atom_ishydrogen] in *.
    done. }
  unfold holds.
  cbn [arrays radiusVector1 radiusVector2 gammaVector1 gammaVector2
       ishydrogenVector].
  do 5 (split; [by simplify_map_eq|]).
  split.
  { intros name Hname. unfold parameter_arrays in Hname.
    rewrite !not_elem_of_cons in Hname.
    destruct Hname as (? & ? & ? & ? & ? & _).
    by rewrite !lookup_insert_ne by done. }
  repeat split; try done.
  by destruct (getNonbondedMethod force).
Qed.

(** X13.  After a successful [initialize] on a context with atoms, atom [i]
    holds the radius of particle [i] rounded to single precision
    ([radiusVector2]), that radius plus the offset, rounded again
    ([radiusVector1]), and the hydrogen flag as 0 or 1; the five parameter
    arrays have [paddedNumAtoms] elements and hold the five vectors; the
    other arrays are untouched; the cutoff options are those of the force.
    The tree is as its constructor leaves it: no buffer, [temp_buffer_size]
    -1, the boost 2, the two flags down, the vectors empty; nothing is said
    of its five int members, which the constructor does not assign.  The
    event and the pinned page exist, whatever the page holds; [niterations]
    is 0 and both kernel flags are down. *)
Theorem initialize_stores_particles R file inp force k k' :
  initialize R file inp force k = (Ok (), k') →
  contexts_size (cu k) ≤ 1 → numAtoms (cu k) ≠ 0 →
  0 ≤ numAtoms (cu k) ≤ paddedNumAtoms (cu k) →
  numAtoms (cu k) ≤ getNumParticles force →
  let padded := paddedNumAtoms (cu k) in
  roffset k' = R ∧ numParticles k' = numAtoms (cu k) ∧
  sized (Z.to_nat padded) k' ∧
  (∀ i p, 0 ≤ i < numAtoms (cu k) → vget (particles force) i = Ok p →
     particle_stored R p i k') ∧
  holds k' "radiusParam1" padded (Floats (radiusVector1 k')) ∧
  holds k' "radiusParam2" padded (Floats (radiusVector2 k')) ∧
  holds k' "gammaParam1" padded (Floats (gammaVector1 k')) ∧
  holds k' "gammaParam2" padded (Floats (gammaVector2 k')) ∧
  holds k' "ishydrogenParam" padded (Ints (ishydrogenVector k')) ∧
  (∀ name, name ∉ parameter_arrays → arrays k' !! name = arrays k !! name) ∧
  gvol_force k' = Some force ∧
  useCutoff k' = negb (bool_decide (getNonbondedMethod force = NoCutoff)) ∧
  usePeriodic k' = bool_decide (getNonbondedMethod force = CutoffPeriodic) ∧
  useExclusions k' = false ∧
  cutoffDistance k' = getCutoffDistance force ∧
  (∃ t, gtree k' = Some t ∧ constructed t) ∧
  is_Some (pinnedPanicButtonMemory k') ∧
  downloadPanicButtonEvent k' = true ∧ niterations k' = 0 ∧
  hasInitializedKernels k' = false ∧ hasCreatedKernels k' = false.
Proof.
  intros Hrun Hctx Hn0 Hn Hlen padded.
  destruct (initialize_Ok R file inp force k k' Hrun Hctx Hn0 Hn Hlen)
    as (Hd & g & Hcg).
  destruct (initialize_state R file inp force k g Hctx Hn0 Hn Hlen Hcg Hd)
    as (k2 & Hrun2 & _ & H).
  assert (k2 = k') as -> by congruence.
  destruct H as (H1 & H2 & _ & H4 & _ & H5 & H6 & H7 & H8 & H9 & H10 & H11
                 & H12 & H13 & H14 & H15 & H16 & Ht & Hp & H).
  do 15 (split; [assumption|]).
  split; [eexists; split; [exact Ht | apply new_CudaOverlapTree_constructed]|].
  split; [by rewrite Hp|]. exact H.
Qed.

Lemma store_gamma_id j p k :
  vget (gammaVector1 k) j =
    Ok (FP.float_of_double (scaled_gamma p (roffset k))) →
  vget (gammaVector2 k) j =
    Ok (FP.float_of_double (FP.dopp (scaled_gamma p (roffset k)))) →
  store_gamma j p k = k.
Proof.
  intros [_ H1]%vget_Ok [_ H2]%vget_Ok. unfold store_gamma.
  cbv zeta. rewrite (list_insert_id _ _ _ H1), (list_insert_id _ _ _ H2).
  by destruct k.
Qed.

Lemma copy_loop_id force N m :
  ∀ j k,
    sized N k → 0 ≤ j → j + Z.of_nat m ≤ Z.of_nat N →
    j + Z.of_nat m ≤ Z.of_nat (length (particles force)) →
    (∀ i p, j ≤ i < j + Z.of_nat m → vget (particles force) i = Ok p →
       rejection k i p = None ∧
       vget (gammaVector1 k) i =
         Ok (FP.float_of_double (scaled_gamma p (roffset k))) ∧
       vget (gammaVector2 k) i =
         Ok (FP.float_of_double (FP.dopp (scaled_gamma p (roffset k))))) →
    se_for j m (copy_particle force) k = (Ok (), k).
Proof.
  induction m as [|m IH]; intros j k Hsized Hj HN Hlen Hall; [done|].
  cbn [se_for].
  destruct (vget_is_Ok (particles force) j) as [p Hp]; [lia|].
  destruct (Hall j p ltac:(lia) Hp) as (Hrej & Hg1 & Hg2).
  pose proof (copy_particle_run force j k p N Hp Hsized ltac:(lia)) as Hstep.
  rewrite Hrej, (store_gamma_id j p k Hg1 Hg2) in Hstep.
  rewrite (se_bind_run _ _ _ _ _ Hstep).
  apply IH; [done|lia|lia|lia|]. intros i q Hi Hq. apply Hall; [lia|done].
Qed.

Lemma rejection_stored R p i k :
  particle_stored R p i k →
  rejection k i p =
    if radius_differs (FP.float_of_double (radius p)) (radius p)
    then Some radius_exception else None.
Proof.
  intros (_ & H2 & H3 & _). unfold rejection. rewrite H2, H3.
  destruct (radius_differs _ _); [done|]. by rewrite Z.eqb_refl.
Qed.

Lemma reupload name size d k :
  holds k name size d →
  upload_member name d k = (Ok (), k).
Proof.
  intros Ha. unfold holds in Ha. rewrite (upload_member_run _ _ _ _ Ha).
  unfold upload. cbn [arr_size]. rewrite (insert_id _ _ _ Ha).
  by destruct k.
Qed.

(** X14.  After a successful [initialize], [copyParametersToContext] with
    the same force returns and leaves the kernel exactly as it was, provided
    every radius survives its own rounding: the squared difference between a
    radius and its single-precision value is at most [1.e-6].  For a particle
    where it is not, the update with the very force that was initialized
    throws. *)
Theorem copyParametersToContext_after_initialize R file inp force k k' :
  initialize R file inp force k = (Ok (), k') →
  contexts_size (cu k) ≤ 1 → numAtoms (cu k) ≠ 0 →
  0 ≤ numAtoms (cu k) ≤ paddedNumAtoms (cu k) →
  getNumParticles force = numAtoms (cu k) →
  ((∀ i p, 0 ≤ i < numAtoms (cu k) → vget (particles force) i = Ok p →
      radius_differs (FP.float_of_double (radius p)) (radius p) = false) →
   copyParametersToContext force k' = (Ok (), k')) ∧
  (∀ i p, 0 ≤ i < numAtoms (cu k) → vget (particles force) i = Ok p →
     radius_differs (FP.float_of_double (radius p)) (radius p) = true →
     throws (copyParametersToContext force k').1).
Proof.
  intros Hrun Hctx Hn0 Hn Hcnt.
  destruct (initialize_Ok R file inp force k k' Hrun Hctx Hn0 Hn ltac:(lia))
    as (Hd & g & Hcg).
  destruct (initialize_state R file inp force k g Hctx Hn0 Hn ltac:(lia)
              Hcg Hd)
    as (k2 & Hrun2 & _ & Hro & Hnp & _ & Hsized & Hgam & Hst & _ & _
        & Hg1 & Hg2 & _).
  assert (k2 = k') as -> by congruence. clear Hrun2.
  split.
  - intros Hsame. unfold copyParametersToContext.
    unfold mbind at 1, se_mbind, se_bind at 1, se_get at 1.
    rewrite Hnp, Hcnt, Z.eqb_refl. cbn [negb].
    destruct (Z.eqb_spec (numAtoms (cu k)) 0) as [|_]; [done|].
    unfold se_range. rewrite Z.sub_0_r.
    rewrite (se_bind_run _ _ _ () k').
    2:{ apply (copy_loop_id force (Z.to_nat (paddedNumAtoms (cu k))));
          [done|lia|lia|unfold getNumParticles in Hcnt; lia|].
        intros i p Hi Hp.
        rewrite (rejection_stored R p i k') by (apply Hst; [lia|done]).
        rewrite (Hsame i p ltac:(lia) Hp).
        split; [done|].
        destruct Hgam as (Hv & _). apply Hv; [lia|done]. }
    unfold mbind at 1, se_mbind, se_bind at 1, se_get at 1.
    rewrite (se_bind_run _ _ _ () k') by (by eapply reupload).
    by eapply reupload.
  - intros i p Hi Hp Hdiff.
    destruct (copyParametersToContext_run force k'
                (Z.to_nat (paddedNumAtoms (cu k))) Hsized ltac:(lia))
      as (r & k3 & Hrun3 & _ & _ & _ & _ & _ & _ & Hrej).
    rewrite Hrun3. cbn [fst].
    apply (Hrej ltac:(lia) i p radius_exception); [lia|done|].
    rewrite (rejection_stored R p i k') by (apply Hst; [lia|done]).
    by rewrite Hdiff.
Qed.

(** ** A rejected update *)


Lemma copy_loop_first_rejection force N m :
  ∀ j k f pf e,
    sized N k → 0 ≤ j → j + Z.of_nat m ≤ Z.of_nat N →
    j + Z.of_nat m ≤ Z.of_nat (length (particles force)) →
    j ≤ f < j + Z.of_nat m →
    (∀ i p, j ≤ i < f → vget (particles force) i = Ok p →
       rejection k i p = None) →
    vget (particles force) f = Ok pf → rejection k f pf = Some e →
    ∃ k', se_for j m (copy_particle force) k = (Fail e, k') ∧
      k' = set_gammaVectors (gammaVector1 k') (gammaVector2 k') k ∧
      (∀ i p, j ≤ i < f → vget (particles force) i = Ok p →
         vget (gammaVector1 k') i =
           Ok (FP.float_of_double (scaled_gamma p (roffset k))) ∧
         vget (gammaVector2 k') i =
           Ok (FP.float_of_double (FP.dopp (scaled_gamma p (roffset k))))) ∧
      (∀ i, i < j ∨ f ≤ i →
         vget (gammaVector1 k') i = vget (gammaVector1 k) i ∧
         vget (gammaVector2 k') i = vget (gammaVector2 k) i).
Proof.
  induction m as [|m IH]; intros j k f pf e Hsized Hj HN Hlen Hf Hacc Hpf Hrej;
    [lia|].
  cbn [se_for].
  destruct (decide (j = f)) as [->|Hne].
  - pose proof (copy_particle_run force f k pf N Hpf Hsized ltac:(lia))
      as Hstep.
    rewrite Hrej in Hstep. exists k.
    unfold mbind, se_mbind, se_bind. rewrite Hstep.
    split; [done|]. split; [by destruct k|]. split; [intros; lia|done].
  - destruct (vget_is_Ok (particles force) j) as [p Hp]; [lia|].
    pose proof (copy_particle_run force j k p N Hp Hsized ltac:(lia))
      as Hstep.
    rewrite (Hacc j p ltac:(lia) Hp) in Hstep.
    destruct (store_gamma_props j p k N Hsized)
      as (Hs1 & Hk1 & Hro & _ & _ & Hv1 & Hv2).
    destruct Hsized as (_ & _ & L3 & L4 & _).
    set (k1 := store_gamma j p k) in *.
    destruct (IH (j + 1) k1 f pf e) as (k' & Hrun & Hk' & Hnew & Hold);
      [done|lia|lia|lia|lia| |done| |].
    { intros i q Hi Hq. rewrite Hk1, rejection_frame.
      apply Hacc; [lia|done]. }
    { by rewrite Hk1, rejection_frame. }
    exists k'. rewrite (se_bind_run _ _ _ _ _ Hstep).
    split; [done|].
    split. { rewrite Hk', Hk1 at 1. by rewrite set_gammaVectors_twice. }
    split.
    + intros i q Hi Hq. destruct (decide (i = j)) as [->|Hij].
      * assert (q = p) as -> by congruence.
        destruct (Hold j ltac:(lia)) as (-> & ->).
        rewrite Hv1, Hv2, !vget_insert_eq by lia. done.
      * rewrite <- Hro. apply Hnew; [lia|done].
    + intros i Hi. destruct (Hold i ltac:(lia)) as (-> & ->).
      rewrite Hv1, Hv2, !vget_insert_ne by lia. done.
Qed.

(** X16.  When [f] is the first atom whose particle is rejected,
    [copyParametersToContext] throws the exception of that atom, the device
    arrays are as before, and the two gamma vectors on the host already hold
    the new values for the atoms before [f] and the old ones from [f] on. *)
Theorem copyParametersToContext_first_rejection force k N f pf e :
  sized N k → 0 ≤ numParticles k ≤ Z.of_nat N →
  getNumParticles force = numParticles k →
  0 ≤ f < numParticles k →
  (∀ i p, 0 ≤ i < f → vget (particles force) i = Ok p →
     rejection k i p = None) →
  vget (particles force) f = Ok pf → rejection k f pf = Some e →
  ∃ k', copyParametersToContext force k = (Fail e, k') ∧
    arrays k' = arrays k ∧
    (∀ i p, 0 ≤ i < f → vget (particles force) i = Ok p →
       vget (gammaVector1 k') i =
         Ok (FP.float_of_double (scaled_gamma p (roffset k))) ∧
       vget (gammaVector2 k') i =
         Ok (FP.float_of_double (FP.dopp (scaled_gamma p (roffset k))))) ∧
    (∀ i, f ≤ i →
       vget (gammaVector1 k') i = vget (gammaVector1 k) i ∧
       vget (gammaVector2 k') i = vget (gammaVector2 k) i).
Proof.
  intros Hsized Hn Hcnt Hf Hacc Hpf Hrej.
  destruct (copy_loop_first_rejection force N (Z.to_nat (numParticles k)) 0 k
              f pf e) as (k' & Hrun & Hk' & Hnew & Hold);
    [done|lia|lia|unfold getNumParticles in Hcnt; lia|lia|done|done|done|].
  exists k'. split.
  - unfold copyParametersToContext.
    unfold mbind at 1, se_mbind, se_bind at 1, se_get at 1.
    rewrite Hcnt, Z.eqb_refl. cbn [negb].
    destruct (Z.eqb_spec (numParticles k) 0) as [|_]; [lia|].
    unfold se_range. rewrite Z.sub_0_r.
    unfold mbind, se_mbind, se_bind. by rewrite Hrun.
  - split; [rewrite Hk'; by destruct k|].
    split; [done|]. intros i Hi. apply Hold. lia.
Qed.

(** ** When an update is accepted *)


Lemma upload_member_null name d k :
  arrays k !! name = None → upload_member name d k = (Fail NullPointer, k).
Proof.
  intros Ha. unfold upload_member, upload_to.
  unfold mbind, se_mbind, se_bind, se_get, se_lift, se_modify.
  by rewrite Ha.
Qed.

(** X15.  For a kernel with atoms and a force with as many particles,
    [copyParametersToContext] returns exactly when no particle is rejected
    for its radius or its hydrogen flag and the two gamma arrays exist; the
    gamma values themselves are never looked at. *)
Theorem copyParametersToContext_accepts force k N :
  sized N k → 0 < numParticles k ≤ Z.of_nat N →
  getNumParticles force = numParticles k →
  (copyParametersToContext force k).1 = Ok () ↔
  (∀ i p, 0 ≤ i < numParticles k → vget (particles force) i = Ok p →
     rejection k i p = None) ∧
  is_Some (arrays k !! "gammaParam1") ∧ is_Some (arrays k !! "gammaParam2").
Proof.
  intros Hsized Hn Hcnt.
  assert (Hnorej : (copyParametersToContext force k).1 = Ok () →
    ∀ i p, 0 ≤ i < numParticles k → vget (particles force) i = Ok p →
      rejection k i p = None).
  { intros Hok i p Hi Hp.
    destruct (rejection k i p) as [e|] eqn:Hrej; [exfalso|done].
    destruct (copyParametersToContext_run force k N Hsized ltac:(lia))
      as (r & k3 & Hrun3 & _ & _ & _ & _ & _ & _ & Hthrows).
    specialize (Hthrows Hcnt i p e Hi Hp Hrej).
    rewrite Hrun3 in Hok. cbn [fst] in Hok. by subst r. }
  assert (Hrun : (∀ i p, 0 ≤ i < numParticles k →
      vget (particles force) i = Ok p → rejection k i p = None) →
    ∃ k1, arrays k1 = arrays k ∧
      copyParametersToContext force k =
        (upload_member "gammaParam1" (Floats (gammaVector1 k1));;
         upload_member "gammaParam2" (Floats (gammaVector2 k1))) k1).
  { intros Hacc.
    destruct (copy_loop_run force N (Z.to_nat (numParticles k)) 0 k)
      as (r & k1 & Hloop & _ & Hframe & Hok & _);
      [done | lia | lia | unfold getNumParticles in Hcnt; lia |].
    destruct Hok as (-> & _); [intros i p Hi Hp; apply Hacc; [lia|done]|].
    exists k1. split; [rewrite Hframe; by destruct k|].
    unfold copyParametersToContext.
    unfold mbind at 1, se_mbind, se_bind at 1, se_get at 1.
    rewrite Hcnt, Z.eqb_refl. cbn [negb].
    destruct (Z.eqb_spec (numParticles k) 0) as [|_]; [lia|].
    unfold se_range. rewrite Z.sub_0_r.
    by rewrite (se_bind_run _ _ _ _ _ Hloop). }
  split.
  - intros Hok. pose proof (Hnorej Hok) as Hacc. split; [done|].
    destruct (Hrun Hacc) as (k1 & Har & Heq). rewrite Heq in Hok.
    destruct (arrays k !! "gammaParam1") as [a1|] eqn:H1.
    2:{ rewrite <- Har in H1.
        unfold mbind, se_mbind, se_bind in Hok.
        by rewrite (upload_member_null _ _ _ H1) in Hok. }
    split; [done|].
    destruct (arrays k !! "gammaParam2") as [a2|] eqn:H2; [done|].
    rewrite <- Har in H1, H2.
    rewrite (se_bind_run _ _ _ _ _ (upload_member_run _ _ _ _ H1)) in Hok.
    rewrite upload_member_null in Hok; [done|].
    destruct_kernel k1. cbn [arrays set_arrays] in *. by rewrite lookup_insert_ne.
  - intros (Hacc & [a1 H1] & [a2 H2]).
    destruct (Hrun Hacc) as (k1 & Har & ->).
    rewrite <- Har in H1, H2.
    rewrite (se_bind_run _ _ _ _ _ (upload_member_run _ _ _ _ H1)).
    erewrite upload_member_run; [done|].
    destruct_kernel k1. cbn [arrays set_arrays] in *.
    rewrite lookup_insert_ne by done. exact H2.
Qed.

(** ** The arrays a resize leaves behind *)

Lemma recreate_unset g name l :
  pointer l !! name = None → recreate g name l = cuda_create name l.
Proof.
  intros Hp. unfold recreate, cuda_delete. rewrite Hp.
  rewrite bool_decide_eq_false_2 by (by intros [? ?]).
  by destruct g.
Qed.

Lemma recreate_set g name l a :
  pointer l !! name = Some a →
  recreate g name l =
    cuda_create name
      match g with
      | if_set => {| next_id := next_id l; live := delete a (live l);
                     pointer := pointer l |}
      | if_null => l
      end.
Proof.
  intros Hp. unfold recreate, cuda_delete. rewrite Hp.
  rewrite bool_decide_eq_true_2 by eauto.
  by destruct g.
Qed.

Lemma recreate_accounted leaky g name l d c :
  accounted leaky l d c → (g = if_null → name ∈ leaky) →
  accounted leaky (recreate g name l) ({[name]} ∪ d) (c + leak g name d).
Proof.
  intros ((Htag & Hfresh) & Hdom & Hsize & Hleft) Hg.
  assert (Hnew : live l !! next_id l = None).
  { destruct (live l !! next_id l) eqn:E; [|done].
    specialize (Hfresh (next_id l) ltac:(eauto)). lia. }
  destruct (pointer l !! name) as [a0|] eqn:Hp.
  - rewrite (recreate_set g name l a0 Hp).
    assert (Hin : name ∈ d) by (rewrite <- Hdom; by eapply elem_of_dom_2).
    pose proof (Htag name a0 Hp) as Ha0.
    assert (Hne : a0 ≠ next_id l) by (intros ->; congruence).
    destruct g; unfold cuda_create, accounted, ledger_wf, leak;
      cbn [next_id live pointer]; rewrite ?bool_decide_eq_true_2 by done.
    + (* the old array is deleted *)
      split; [split|split; [|split]].
      * intros nm a. destruct (decide (nm = name)) as [->|Hnm].
        { rewrite lookup_insert_eq. intros [= <-]. by rewrite lookup_insert_eq. }
        rewrite lookup_insert_ne by done. intros Hnmp.
        pose proof (Htag nm a Hnmp) as Ha.
        assert (a ≠ a0) by (intros ->; congruence).
        assert (a ≠ next_id l) by (intros ->; congruence).
        by rewrite lookup_insert_ne, lookup_delete_ne by done.
      * intros a [nm Ha]. destruct (decide (a = next_id l)) as [->|Hna]; [lia|].
        rewrite lookup_insert_ne in Ha by done.
        apply lookup_delete_Some in Ha as [_ Ha].
        specialize (Hfresh a ltac:(eauto)). lia.
      * rewrite dom_insert_L. by rewrite Hdom.
      * rewrite map_size_insert_None
          by (rewrite lookup_delete_ne by done; done).
        rewrite map_size_delete_Some by eauto.
        rewrite map_size_insert_Some by eauto.
        assert (0 < size (live l))%nat; [|lia].
        destruct (decide (size (live l) = 0%nat)) as [E|]; [|lia].
        apply map_size_empty_inv in E. rewrite E in Ha0. done.
      * intros a nm Ha Hnp.
        destruct (decide (a = next_id l)) as [->|Hna].
        { rewrite lookup_insert_eq in Ha. injection Ha as <-.
          by rewrite lookup_insert_eq in Hnp. }
        rewrite lookup_insert_ne in Ha by done.
        apply lookup_delete_Some in Ha as [Haa Ha].
        apply (Hleft a nm Ha).
        destruct (decide (nm = name)) as [->|Hnm]; [congruence|].
        by rewrite lookup_insert_ne in Hnp.
    + (* the old array stays *)
      split; [split|split; [|split]].
      * intros nm a. destruct (decide (nm = name)) as [->|Hnm].
        { rewrite lookup_insert_eq. intros [= <-]. by rewrite lookup_insert_eq. }
        rewrite lookup_insert_ne by done. intros Hnmp.
        pose proof (Htag nm a Hnmp) as Ha.
        assert (a ≠ next_id l) by (intros ->; congruence).
        by rewrite lookup_insert_ne by done.
      * intros a [nm Ha]. destruct (decide (a = next_id l)) as [->|Hna]; [lia|].
        rewrite lookup_insert_ne in Ha by done.
        specialize (Hfresh a ltac:(eauto)). lia.
      * rewrite dom_insert_L. by rewrite Hdom.
      * rewrite map_size_insert_None by done.
        rewrite map_size_insert_Some by eauto. lia.
      * intros a nm Ha Hnp.
        destruct (decide (a = next_id l)) as [->|Hna].
        { rewrite lookup_insert_eq in Ha. injection Ha as <-.
          by rewrite lookup_insert_eq in Hnp. }
        rewrite lookup_insert_ne in Ha by done.
        destruct (decide (nm = name)) as [->|Hnm]; [by apply Hg|].
        apply (Hleft a nm Ha). by rewrite lookup_insert_ne in Hnp.
  - rewrite (recreate_unset g name l Hp).
    assert (Hin : name ∉ d) by (rewrite <- Hdom; by apply not_elem_of_dom).
    assert (leak g name d = 0%nat) as ->.
    { unfold leak. destruct g; [done|]. by rewrite bool_decide_eq_false_2. }
    unfold cuda_create, accounted, ledger_wf. cbn [next_id live pointer].
    split; [split|split; [|split]].
    + intros nm a. destruct (decide (nm = name)) as [->|Hnm].
      { rewrite lookup_insert_eq. intros [= <-]. by rewrite lookup_insert_eq. }
      rewrite lookup_insert_ne by done. intros Hnmp.
      pose proof (Htag nm a Hnmp) as Ha.
      assert (a ≠ next_id l) by (intros ->; congruence).
      by rewrite lookup_insert_ne by done.
    + intros a [nm Ha]. destruct (decide (a = next_id l)) as [->|Hna]; [lia|].
      rewrite lookup_insert_ne in Ha by done.
      specialize (Hfresh a ltac:(eauto)). lia.
    + rewrite dom_insert_L. by rewrite Hdom.
    + rewrite !map_size_insert_None by done. lia.
    + intros a nm Ha Hnp.
      destruct (decide (a = next_id l)) as [->|Hna].
      { rewrite lookup_insert_eq in Ha. injection Ha as <-.
        by rewrite lookup_insert_eq in Hnp. }
      rewrite lookup_insert_ne in Ha by done.
      apply (Hleft a nm Ha).
      destruct (decide (nm = name)) as [->|Hnm]; [congruence|].
      by rewrite lookup_insert_ne in Hnp.
Qed.

Lemma recreate_all_accounted leaky ops :
  ∀ l d c,
    accounted leaky l d c →
    (∀ name, (if_null, name) ∈ ops → name ∈ leaky) →
    accounted leaky (foldl (fun l gn => recreate gn.1 gn.2 l) l ops)
      (touched d ops) (c + leaks d ops).
Proof.
  induction ops as [|[g name] ops IH]; intros l d c Hacc Hnull; cbn.
  - by rewrite Nat.add_0_r.
  - rewrite Nat.add_assoc. apply IH.
    + apply recreate_accounted; [done|].
      intros ->. apply Hnull, list_elem_of_here.
    + intros nm Hnm. by apply Hnull, list_elem_of_further.
Qed.

Lemma resize_null_guards name :
  (if_null, name) ∈ resize_allocations → name ∈ accumulation_buffers.
Proof.
  unfold resize_allocations. rewrite !elem_of_app, !list_elem_of_fmap.
  intros [(x & [=] & _)|[(x & [= ->] & Hx)|(x & [=] & _)]]. done.
Qed.

Lemma new_ledger_accounted leaky : accounted leaky new_ledger ∅ 0.
Proof.
  unfold accounted, ledger_wf, new_ledger. cbn.
  rewrite dom_empty_L. repeat split; try done.
  intros a [x Hx]. by rewrite lookup_empty in Hx.
Qed.

Lemma tree_members_first : touched ∅ resize_allocations = tree_members.
Proof. reflexivity. Qed.

Lemma touched_absorb ops :
  ∀ d, Forall (fun gn : delete_guard * string => gn.2 ∈ d) ops → touched d ops = d.
Proof.
  induction ops as [|gn ops IH]; intros d Hall; [done|].
  apply Forall_cons in Hall as [Hin Hall]. cbn [touched].
  assert ({[gn.2]} ∪ d = d) as ->; [|by apply IH].
  apply subseteq_union_1_L. by apply singleton_subseteq_l.
Qed.

Lemma tree_members_again :
  touched tree_members resize_allocations = tree_members.
Proof. apply touched_absorb. compute_done. Qed.

Lemma leaks_first : leaks ∅ resize_allocations = 0%nat.
Proof. vm_compute; reflexivity. Qed.

Lemma leaks_again : leaks tree_members resize_allocations = 5%nat.
Proof. vm_compute; reflexivity. Qed.

Lemma resized_accounted n :
  accounted accumulation_buffers (resized (S n)) tree_members (5 * n).
Proof.
  induction n as [|n IH].
  - pose proof (new_ledger_accounted accumulation_buffers) as H0.
    apply (recreate_all_accounted _ resize_allocations) in H0;
      [|apply resize_null_guards].
    rewrite tree_members_first, leaks_first in H0. exact H0.
  - apply (recreate_all_accounted _ resize_allocations) in IH;
      [|apply resize_null_guards].
    rewrite tree_members_again, leaks_again in IH.
    replace (5 * S n)%nat with (5 * n + 5)%nat by lia.
    exact IH.
Qed.

(** *** The destructor *)


Lemma cuda_delete_pointer name l : pointer (cuda_delete name l) = pointer l.
Proof. unfold cuda_delete. by destruct (pointer l !! name). Qed.

Lemma delete_all_pointer names :
  ∀ l, pointer (foldl (fun l name => cuda_delete name l) l names) = pointer l.
Proof.
  induction names as [|name names IH]; intros l; [done|].
  cbn. by rewrite IH, cuda_delete_pointer.
Qed.

Lemma delete_all_lookup names :
  ∀ l a nm,
    live (foldl (fun l name => cuda_delete name l) l names) !! a = Some nm ↔
    live l !! a = Some nm ∧ ∀ name, name ∈ names → pointer l !! name ≠ Some a.
Proof.
  induction names as [|name names IH]; intros l a nm; cbn.
  - split; [intros H; split; [done|]; intros ? []%elem_of_nil | by intros [? _]].
  - rewrite IH, cuda_delete_pointer. unfold cuda_delete.
    destruct (pointer l !! name) as [a0|] eqn:Hp; cbn [live].
    + rewrite lookup_delete_Some. split.
      * intros ((Hne & Ha) & Hrest). split; [done|].
        intros name' [->|Hin]%elem_of_cons; [congruence|by apply Hrest].
      * intros (Ha & Hall). split; [split; [|done]|].
        -- intros <-. exact (Hall name (list_elem_of_here _ _) Hp).
        -- intros name' Hin. by apply Hall, list_elem_of_further.
    + split.
      * intros (Ha & Hrest). split; [done|].
        intros name' [->|Hin]%elem_of_cons; [congruence|by apply Hrest].
      * intros (Ha & Hall). split; [done|].
        intros name' Hin. by apply Hall, list_elem_of_further.
Qed.

Lemma delete_all_size names :
  ∀ l,
    NoDup names →
    (∀ name a, name ∈ names → pointer l !! name = Some a →
       live l !! a = Some name) →
    (∀ name, name ∈ names → is_Some (pointer l !! name)) →
    (size (live (foldl (fun l name => cuda_delete name l) l names))
     + length names)%nat = size (live l).
Proof.
  induction names as [|name names IH]; intros l Hnd Htag Hset; cbn.
  - lia.
  - apply NoDup_cons in Hnd as [Hnotin Hnd].
    destruct (Hset name (list_elem_of_here _ _)) as [a0 Hp].
    pose proof (Htag name a0 (list_elem_of_here _ _) Hp) as Ha0.
    rewrite Nat.add_succ_r, IH; [|done| |].
    + unfold cuda_delete. rewrite Hp. cbn [live].
      rewrite map_size_delete_Some by eauto.
      assert (0 < size (live l))%nat; [|lia].
      destruct (decide (size (live l) = 0%nat)) as [E|]; [|lia].
      apply map_size_empty_inv in E. rewrite E in Ha0. done.
    + intros name' a Hin. rewrite cuda_delete_pointer. intros Hp'.
      pose proof (Htag name' a (list_elem_of_further _ _ _ Hin) Hp') as Ha.
      unfold cuda_delete. rewrite Hp. cbn [live].
      rewrite lookup_delete_ne; [done|].
      intros <-. assert (name = name') by congruence. by subst.
    + intros name' Hin. rewrite cuda_delete_pointer.
      by apply Hset, list_elem_of_further.
Qed.

(** X12.  After a tree has been constructed, resized [n] times and
    destroyed, [5 * (n - 1)] arrays are still allocated, and they are
    accumulation buffers: [resize_tree_buffers] deletes the four accumulation
    buffers and [gradBuffers_long] only when the pointer is null, so every
    resize after the first leaves the five previous arrays behind.  The
    other thirty-five buffers are always freed. *)
Theorem resize_tree_buffers_leaks n :
  let left := destroy_CudaOverlapTree (resized n) in
  size left = (5 * (n - 1))%nat ∧
  ∀ a name, left !! a = Some name → name ∈ accumulation_buffers.
Proof.
  destruct n as [|n]; [by vm_compute|].
  cbv zeta. unfold destroy_CudaOverlapTree.
  destruct (resized_accounted n) as ((Htag & _) & Hdom & Hsize & Hleft).
  assert (Hset : ∀ name, name ∈ destructor_deletes →
                   is_Some (pointer (resized (S n)) !! name)).
  { intros name Hin. apply elem_of_dom. rewrite Hdom.
    revert name Hin. apply Forall_forall. compute_done. }
  split.
  - pose proof (delete_all_size destructor_deletes (resized (S n))) as Hd.
    rewrite Hsize in Hd.
    assert (size (pointer (resized (S n))) = 40%nat) as Hp.
    { rewrite <- (size_dom (D := gset string)), Hdom. by vm_compute. }
    rewrite Hp in Hd. change (length destructor_deletes) with 40%nat in Hd.
    replace (S n - 1)%nat with n by lia.
    assert (NoDup destructor_deletes) as Hnd.
    { compute_done. }
    specialize (Hd Hnd ltac:(intros ????; by apply Htag) Hset). lia.
  - intros a name [Ha Hall]%delete_all_lookup.
    apply (Hleft a name Ha). intros Hp.
    apply (Hall name); [|done].
    assert (name ∈ tree_members) as Hin
      by (rewrite <- Hdom; by eapply elem_of_dom_2).
    revert Hin. unfold tree_members.
    clear. intros Hin.
    assert (tree_members ⊆ list_to_set destructor_deletes) as Hsub.
    { compute_done. }
    apply Hsub in Hin. by apply elem_of_list_to_set in Hin.
Qed.

(** ** The life of the FFT plans *)

(** X20.  [CudaCalcAmoebaMultipoleForceKernel::initialize] returns exactly
    when PME is off or [cufftPlan3d] answers [CUFFT_SUCCESS], and otherwise
    throws with the answer in the message; [hasInitializedFFT] is up exactly
    when the plan exists, and after the destructor no plan is left. *)
Theorem multipole_plan_balance usePME result :
  let '(r, k, w) :=
    multipole_initialize usePME result new_MultipoleKernel
      {| plans := []; sorts := 0 |} in
  (r = Ok () ↔ usePME = false ∨ result = CUFFT_SUCCESS) ∧
  (r ≠ Ok () → r = Fail (fft_exception result)) ∧
  (multipole_hasInitializedFFT k = true ↔ plans w = ["fft"]) ∧
  (multipole_hasInitializedFFT k = false ↔ plans w = []) ∧
  plans (multipole_destroy k w) = [].
Proof.
  unfold multipole_initialize, cufftPlan3d, multipole_destroy.
  destruct usePME; cbn.
  - destruct (Z.eqb_spec result CUFFT_SUCCESS) as [->|Hne]; cbn.
    + repeat split; try done; auto.
    + repeat split; try done; intros; try done.
      destruct H; done.
  - repeat split; try done; auto.
Qed.

(** X21.  [CudaCalcHippoNonbondedForceKernel::initialize] returns exactly
    when PME is off or all four [cufftPlan3d] answer [CUFFT_SUCCESS].  When
    one of them fails it throws with that answer, [hasInitializedFFT] stays
    down, and the destructor then destroys none of the plans created before
    the failure; after a successful [initialize] it destroys all four.  The
    sorter is always freed, and [sortGridIndex] has a sorter to use exactly
    when PME is on. *)
Theorem hippo_plans_leak usePME results :
  let '(r, k, w) :=
    hippo_initialize usePME results new_HippoKernel
      {| plans := []; sorts := 0 |} in
  let w' := hippo_destroy k w in
  (r = Ok () ↔ usePME = false ∨ first_failure hippo_plans results = None) ∧
  (∀ result, usePME = true →
     first_failure hippo_plans results = Some result →
     r = Fail (fft_exception result) ∧
     hippo_hasInitializedFFT k = false ∧
     plans w' = created_before_failure hippo_plans results) ∧
  (r = Ok () → plans w' = []) ∧
  sorts w' = 0%nat ∧
  (hippo_sortGridIndex k = Ok () ↔ usePME = true).
Proof.
  unfold hippo_initialize, hippo_destroy, hippo_sortGridIndex.
  destruct usePME; cbn -[cufftDestroy].
  2:{ repeat split; try done; auto. }
  unfold cufftPlan3d.
  destruct (Z.eqb_spec (results "fftForward") CUFFT_SUCCESS) as [E1|E1];
    cbn -[cufftDestroy];
    [destruct (Z.eqb_spec (results "fftBackward") CUFFT_SUCCESS) as [E2|E2];
     cbn -[cufftDestroy];
     [destruct (Z.eqb_spec (results "dfftForward") CUFFT_SUCCESS) as [E3|E3];
      cbn -[cufftDestroy];
      [destruct (Z.eqb_spec (results "dfftBackward") CUFFT_SUCCESS)
         as [E4|E4]; cbn -[cufftDestroy]|]|]|];
    (split; [split; [try done; auto | intros [|]; done]|]);
    (split; [intros result _; try done; by intros [= <-]|]);
    (split; [try done|]); done.
Qed.

(** ** A step that runs to its end *)


Lemma resize_tree_buffers_total wg t :
  0 ≤ padded_num_atoms t → 0 ≤ num_sections t → 0 ≤ wg →
  padded_num_atoms t * num_sections t ≤ INT_MAX →
  4 * padded_num_atoms t ≤ INT_MAX →
  2 * Z.max (wg * num_sections t * 64) (temp_buffer_size t) ≤ INT_MAX →
  ∃ t', resize_tree_buffers wg t = Ok t'.
Proof.
  intros HP HS Hwg HPS H4 Htmp. unfold resize_tree_buffers, imul.
  assert (Hmin : INT_MIN < 0) by done.
  rewrite (ck_in (padded_num_atoms t * num_sections t)) by nia.
  cbn [mbind outcome_bind]. cbv zeta.
  rewrite (ck_in (4 * padded_num_atoms t)) by lia.
  cbn [mbind outcome_bind].
  destruct (Z.leb_spec (temp_buffer_size t) 0) as [Hle|Hgt].
  - rewrite (ck_in (wg * num_sections t)) by nia.
    cbn [mbind outcome_bind].
    rewrite (ck_in (wg * num_sections t * 64)) by nia.
    cbn [mbind outcome_bind].
    destruct (hasExceededTempBuffer t).
    + rewrite (ck_in (2 * (wg * num_sections t * 64))) by nia.
      cbn [mbind outcome_bind]. eauto.
    + cbn [mbind outcome_bind]. eauto.
  - cbn [mbind outcome_bind].
    destruct (hasExceededTempBuffer t).
    + rewrite (ck_in (2 * temp_buffer_size t)) by lia.
      cbn [mbind outcome_bind]. eauto.
    + cbn [mbind outcome_bind]. eauto.
Qed.

Lemma upload_to_present name d b :
  is_Some (b !! name) →
  ∃ a, upload_to name d b = Ok (<[name := upload d a]> b).
Proof. intros [a Ha]. exists a. unfold upload_to. by rewrite Ha. Qed.

Lemma copy_tree_to_device_total t :
  0 ≤ padded_num_atoms t ≤ Z.of_nat (length (atom_tree_pointer t)) →
  0 ≤ num_sections t →
  num_sections t ≤ Z.of_nat (length (tree_pointer t)) →
  num_sections t ≤ Z.of_nat (length (tree_size t)) →
  num_sections t ≤ Z.of_nat (length (padded_tree_size t)) →
  num_sections t ≤ Z.of_nat (length (natoms_in_tree t)) →
  num_sections t ≤ Z.of_nat (length (first_atom t)) →
  (∀ name,
     name ∈ ["ovAtomTreePointer"; "ovTreePointer"; "ovAtomTreeSize";
             "ovAtomTreePaddedSize"; "ovNumAtomsInTree"; "ovFirstAtom"] →
     is_Some (buffers t !! name)) →
  ∃ t', copy_tree_to_device t = Ok t'.
Proof.
  intros HP HS L1 L2 L3 L4 L5 Hb. unfold copy_tree_to_device.
  rewrite !copy_prefix_total by lia. cbn [mbind outcome_bind].
  destruct (upload_to_present "ovAtomTreePointer"
    (Ints (take (Z.to_nat (padded_num_atoms t)) (atom_tree_pointer t)))
    (buffers t)) as (a1 & ->); [apply Hb; compute_done|].
  cbn [mbind outcome_bind].
  match goal with |- context [upload_to ?n ?d ?b] =>
    destruct (upload_to_present n d b) as (a2 & ->) end.
  { rewrite lookup_insert_ne by done. apply Hb. compute_done. }
  cbn [mbind outcome_bind].
  match goal with |- context [upload_to ?n ?d ?b] =>
    destruct (upload_to_present n d b) as (a3 & ->) end.
  { rewrite !lookup_insert_ne by done. apply Hb. compute_done. }
  cbn [mbind outcome_bind].
  match goal with |- context [upload_to ?n ?d ?b] =>
    destruct (upload_to_present n d b) as (a4 & ->) end.
  { rewrite !lookup_insert_ne by done. apply Hb. compute_done. }
  cbn [mbind outcome_bind].
  match goal with |- context [upload_to ?n ?d ?b] =>
    destruct (upload_to_present n d b) as (a5 & ->) end.
  { rewrite !lookup_insert_ne by done. apply Hb. compute_done. }
  cbn [mbind outcome_bind].
  match goal with |- context [upload_to ?n ?d ?b] =>
    destruct (upload_to_present n d b) as (a6 & ->) end.
  { rewrite !lookup_insert_ne by done. apply Hb. compute_done. }
  cbn [mbind outcome_bind]. eauto.
Qed.

(** The tree of a step is sized, allocated and copied. *)
Lemma tree_setup_total t n padded S M cur :
  let b := budgets (saved_before t n) cur n in
  tree_size_boost t = FP.two →
  0 ≤ n ≤ padded → 1 ≤ S → 0 < M →
  n ≤ Z.of_nat (length (saved_before t n)) → n ≤ Z.of_nat (length cur) →
  Forall (fun c => 0 ≤ c) (take (Z.to_nat n) cur) →
  2 * sumZ b + S * (M + 2) + n ≤ INT_MAX →
  padded * S ≤ INT_MAX → 4 * padded ≤ INT_MAX →
  2 * Z.max (M * S * 64) (temp_buffer_size t) ≤ INT_MAX →
  (n = 0 ∨ sumZ (take (Z.to_nat (n - 1)) b) < S * section_load S b) →
  ∃ t1 t2 t3,
    init_tree_size t n padded S M cur = Ok t1 ∧
    resize_tree_buffers M t1 = Ok t2 ∧
    copy_tree_to_device t2 = Ok t3.
Proof.
  intros b Hboost Hn HS HM Hsv Hcur Hcnt Hmax HPS H4 Htmp Hcrit.
  destruct (init_tree_size_total t n padded S M cur Hboost Hn HS HM Hsv Hcur
              Hcnt Hmax Hcrit) as (t1 & Ht1).
  pose proof (init_tree_size_sections _ _ _ _ _ _ _ Ht1) as (z & _ & Hs).
  cbv zeta in Hs.
  destruct Hs as (_ & _ & _ & _ & _ & Lnat & Lpad & Latp & _ & _ & Hsec & _).
  pose proof (init_tree_size_inv _ _ _ _ _ _ _ Ht1)
    as (_ & _ & _ & _ & _ & _ & _ & _ & _ & _ & _ & _ & _ & _ & _ & _ & Hns
        & _ & Hp1 & _ & Htb & _).
  destruct (resize_tree_buffers_total M t1) as (t2 & Ht2);
    [rewrite ?Hp1, ?Hns, ?Htb; lia..|].
  pose proof (resize_tree_buffers_created _ _ _ Ht2) as Hr. cbv zeta in Hr.
  destruct Hr as (Hb1 & Hb2 & _ & _ & _ & _ & _ & _ & _ & Ha2 & Hp2 & Hs2 & _).
  assert (Hhost : tree_pointer t2 = tree_pointer t1 ∧
                  tree_size t2 = tree_size t1 ∧
                  padded_tree_size t2 = padded_tree_size t1 ∧
                  natoms_in_tree t2 = natoms_in_tree t1 ∧
                  first_atom t2 = first_atom t1).
  { clear -Ht2. unfold resize_tree_buffers in Ht2.
    apply bind_Ok in Ht2 as (pn & _ & Ht2). cbv zeta in Ht2.
    apply bind_Ok in Ht2 as (p4 & _ & Ht2).
    apply bind_Ok in Ht2 as (tbs & _ & Ht2).
    apply bind_Ok in Ht2 as (tbs' & _ & Ht2).
    apply Ok_inj in Ht2. subst t2. by destruct t1. }
  destruct Hhost as (E1 & E2 & E3 & E4 & E5).
  assert (Hlast : ∀ (v : list Z) x, vget v (S - 1) = Ok x →
                    S ≤ Z.of_nat (length v)).
  { intros v x [_ Hx]%vget_Ok. apply lookup_lt_Some in Hx. lia. }
  destruct (Hsec (S - 1) ltac:(lia)) as (Hv1 & Hv2 & Hv3 & Hv4).
  destruct (copy_tree_to_device_total t2) as (t3 & Ht3).
  - rewrite Hp2, Ha2, Hp1, Latp. lia.
  - rewrite Hs2, Hns. lia.
  - rewrite Hs2, Hns, E1. by eapply Hlast.
  - rewrite Hs2, Hns, E2. by eapply Hlast.
  - rewrite Hs2, Hns, E3, Lpad. lia.
  - rewrite Hs2, Hns, E4, Lnat. lia.
  - rewrite Hs2, Hns, E5. by eapply Hlast.
  - intros name Hname.
    apply elem_of_cons in Hname as [->|Hname];
      [rewrite Hb1 by compute_done; eauto|].
    rewrite Hb2; [eauto|].
    revert name Hname. apply Forall_forall. compute_done.
  - by exists t1, t2, t3.
Qed.

Lemma particle_loop_total force n :
  ∀ i K, 0 ≤ i →
    i + Z.of_nat n ≤ Z.of_nat (length (particles force)) →
    se_for i n (fun i => se_lift (getParticleParameters force i);; mret ()) K
    = (Ok (), K).
Proof.
  induction n as [|n IH]; intros i K Hi Hn; [done|].
  cbn [se_for].
  destruct (vget_is_Ok (particles force) i) as [p Hp]; [lia|].
  rewrite (se_bind_run _ _ K () K).
  - apply IH; lia.
  - unfold mbind, se_mbind, se_bind, se_lift, getParticleParameters.
    by rewrite Hp.
Qed.

Lemma sum_loop_total (cur : list Z) :
  Forall (fun c => 0 ≤ c) cur → sumZ cur ≤ INT_MAX →
  for_range 0 (Z.of_nat (length cur))
    (fun i nn => x ← vget cur i; iadd nn x) 0 = Ok (sumZ cur).
Proof.
  intros Hcur Hmax.
  destruct (for_range_total
    (fun i nn => nn = sumZ (take (Z.to_nat i) cur))
    (fun i nn => x ← vget cur i; iadd nn x)
    0 (Z.of_nat (length cur)) 0) as (nn & -> & ->); [lia|done| |].
  - intros j x Hj ->.
    destruct (vget_is_Ok cur j) as [c Hc]; [lia|].
    rewrite Hc. cbn [mbind outcome_bind]. unfold iadd.
    pose proof (sumZ_take_range cur (Z.to_nat (j + 1)) Hcur).
    rewrite (sumZ_take_succ _ _ _ Hc) in *.
    assert (INT_MIN < 0) by done.
    rewrite ck_in by lia. eauto.
  - by rewrite Nat2Z.id, firstn_all.
Qed.

Lemma arrays_set_arrays b k : arrays (set_arrays b k) = b.
Proof. by destruct_kernel k. Qed.

Lemma arrays_set_panic_button v k : arrays (set_panic_button v k) = arrays k.
Proof. by destruct_kernel k. Qed.

Lemma executeInitKernels_total inp k force t t1 t2 t3 :
  gvol_force k = Some force → gtree k = Some t →
  0 ≤ numAtoms (cu k) ≤ getNumParticles force →
  Forall (fun c => 0 ≤ c) (cpu_noverlaps inp) →
  sumZ (cpu_noverlaps inp) ≤ INT_MAX →
  init_tree_size t (numAtoms (cu k)) (paddedNumAtoms (cu k))
    (numForceThreadBlocks (cu k)) (forceThreadBlockSize (cu k))
    (cpu_noverlaps inp) = Ok t1 →
  resize_tree_buffers (forceThreadBlockSize (cu k)) t1 = Ok t2 →
  copy_tree_to_device t2 = Ok t3 →
  ∃ k', executeInitKernels inp k = (Ok (), k') ∧
    gtree k' = Some t3 ∧ numParticles k' = numParticles k ∧
    niterations k' = niterations k ∧
    hasCreatedKernels k' = hasCreatedKernels k.
Proof.
  intros Hgf Hgt Hn Hcur Hsum Ht1 Ht2 Ht3. unfold executeInitKernels.
  erewrite (se_bind_run se_get) by reflexivity.
  erewrite se_bind_run by reflexivity.
  rewrite Hgf. erewrite se_bind_run by reflexivity.
  erewrite se_bind_run
    by (unfold se_range; apply particle_loop_total;
        unfold getNumParticles in Hn; lia).
  cbv zeta. rewrite (sum_loop_total _ Hcur Hsum).
  erewrite se_bind_run by reflexivity.
  erewrite se_bind_run by reflexivity.
  rewrite Hgt. erewrite se_bind_run by reflexivity.
  rewrite Ht1. erewrite se_bind_run by reflexivity.
  rewrite Ht2. erewrite se_bind_run by reflexivity.
  rewrite Ht3. erewrite se_bind_run by reflexivity.
  erewrite se_bind_run by reflexivity.
  erewrite se_bind_run by reflexivity.
  erewrite se_bind_run by reflexivity.
  erewrite (se_bind_run (upload_member "PanicButton" _)).
  2:{ apply upload_member_run.
      rewrite arrays_set_panic_button, arrays_set_arrays.
      apply lookup_insert_eq. }
  erewrite se_bind_run by reflexivity.
  erewrite upload_member_run.
  2:{ rewrite arrays_set_arrays.
      apply create_all_lookup_in. compute_done. }
  eexists. split; [reflexivity|].
  destruct_kernel k. by cbn.
Qed.

(** X18.  A call of [execute] that has to set up the kernels (one of the two
    flags is down) returns 0 without a fault when: the force and the tree
    exist, the tree has the boost of the constructor, the counts of the CPU
    run are not negative and are [paddedNumAtoms] many, the sizes stay within
    the int range, the last atom gets a section, the panic page has two
    entries and each download of the volume energies has at least
    [total_tree_size] entries. *)
Theorem execute_completes inp k force t p0 p1 :
  hasCreatedKernels k = false ∨ hasInitializedKernels k = false →
  gvol_force k = Some force → gtree k = Some t →
  tree_size_boost t = FP.two →
  let n := numAtoms (cu k) in
  let padded := paddedNumAtoms (cu k) in
  let S := numForceThreadBlocks (cu k) in
  let M := forceThreadBlockSize (cu k) in
  let cur := cpu_noverlaps inp in
  let b := budgets (saved_before t n) cur n in
  numParticles k = n → n ≤ getNumParticles force →
  0 ≤ n ≤ padded → 1 ≤ S → 0 < M →
  Z.of_nat (length cur) = padded →
  n ≤ Z.of_nat (length (saved_before t n)) →
  Forall (fun c => 0 ≤ c) cur →
  sumZ cur ≤ INT_MAX →
  2 * sumZ b + S * (M + 2) + n ≤ INT_MAX →
  padded * S ≤ INT_MAX → 4 * padded ≤ INT_MAX →
  2 * Z.max (M * S * 64) (temp_buffer_size t) ≤ INT_MAX →
  (n = 0 ∨ sumZ (take (Z.to_nat (n - 1)) b) < S * section_load S b) →
  INT_MIN ≤ niterations k + 1 ≤ INT_MAX →
  device_PanicButton inp = [p0; p1] →
  (∀ t1, init_tree_size t n padded S M cur = Ok t1 →
     total_tree_size t1 ≤ Z.of_nat (length (device_ovVolEnergy_1 inp)) ∧
     total_tree_size t1 ≤ Z.of_nat (length (device_ovVolEnergy_2 inp))) →
  ∃ k', execute inp k = (Ok FP.dzero, k').
Proof.
  intros Hflags Hgf Hgt Hboost n padded S M cur b Hnp Hforce Hn HS HM Hlen
    Hsv Hcur Hsum Hmax HPS H4 Htmp Hcrit Hnit Hpanic Hvol.
  destruct (tree_setup_total t n padded S M cur Hboost Hn HS HM Hsv
              ltac:(lia) (Forall_take _ _ _ Hcur) Hmax HPS H4 Htmp Hcrit)
    as (t1 & t2 & t3 & Ht1 & Ht2 & Ht3).
  destruct (executeInitKernels_total inp k force t t1 t2 t3 Hgf Hgt
              ltac:(lia) Hcur Hsum Ht1 Ht2 Ht3)
    as (k1 & Hinit & Hg1 & Hnp1 & Hnit1 & _).
  set (k2 := set_hasCreatedKernels true (set_hasInitializedKernels true k1)).
  assert (Hphase : init_phase inp k = (Ok (), k2)).
  { unfold init_phase. erewrite (se_bind_run se_get) by reflexivity.
    assert (negb (hasCreatedKernels k) || negb (hasInitializedKernels k)
            = true) as ->.
    { destruct Hflags as [-> | ->]; [done|apply orb_true_r]. }
    rewrite (se_bind_run _ _ _ _ _ Hinit). reflexivity. }
  assert (Hk2 : gtree k2 = Some t3 ∧ numParticles k2 = n ∧
                niterations k2 = niterations k).
  { subst k2. rewrite <- Hg1, <- Hnit1, <- Hnp, <- Hnp1.
    by destruct_kernel k1. }
  destruct Hk2 as (Hg2 & Hnp2 & Hnit2).
  destruct (Hvol t1 Ht1) as (Hv1 & Hv2).
  assert (Htot : total_tree_size t3 = total_tree_size t1).
  { pose proof (resize_tree_buffers_created _ _ _ Ht2) as Hr.
    cbv zeta in Hr.
    destruct Hr as (_ & _ & _ & _ & _ & _ & _ & _ & _ & _ & _ & _ & <-).
    by destruct (copy_tree_to_device_downloads _ _ Ht3)
      as (_ & _ & _ & _ & _ & _ & _ & _ & _ & ->). }
  assert (Hrun : ∃ k', executeGVolSA inp k2 = (Ok FP.dzero, k')).
  { destruct (Z.lt_ge_cases 0 p0) as [Hp0|Hp0].
    - destruct (executeGVolSA_panic inp k2 t3 p0 p1 Hg2
                  ltac:(rewrite Hnit2; lia) Hpanic Hp0) as (k' & Hk' & _).
      by exists k'.
    - assert (Hcnt : ∀ i c, 0 ≤ i < n → vget cur i = Ok c → 0 ≤ c).
      { intros i c _ Hc. by eapply (Forall_vget _ _ _ _ Hcur Hc). }
      destruct (host_energy_total t n padded S M cur t1 M t2 t3 k2
                  (device_ovVolEnergy_1 inp) Ht1 Ht2 Ht3 Hcnt Hboost HM Hnp2
                  ltac:(lia) ltac:(lia)) as (E1 & HE1).
      destruct (host_energy_total t n padded S M cur t1 M t2 t3 k2
                  (device_ovVolEnergy_2 inp) Ht1 Ht2 Ht3 Hcnt Hboost HM Hnp2
                  ltac:(lia) ltac:(lia)) as (E2 & HE2).
      destruct (executeGVolSA_normal inp k2 t3 p0 E1 E2 Hg2
                  ltac:(rewrite Hnit2; lia) ltac:(by rewrite Hpanic)
                  ltac:(lia) HE1 HE2) as (k' & Hk' & _).
      by exists k'. }
  destruct Hrun as (k' & Hrun). exists k'.
  rewrite execute_unfold.
  rewrite (se_bind_run _ _ _ _ _ Hphase), (se_bind_run _ _ _ _ _ Hrun).
  done.
Qed.

(** ** The exclusion tiles of the contexts *)


Lemma exclusion_tile_range_Ok i tiles contexts :
  0 < contexts ≤ INT_MAX → 0 ≤ tiles → contexts * tiles ≤ INT_MAX →
  0 ≤ i < contexts →
  exclusion_tile_range i tiles contexts
  = Ok (i * tiles / contexts, (i + 1) * tiles / contexts).
Proof.
  intros Hc Ht Hmax Hi. unfold exclusion_tile_range, imul, iadd, idiv.
  assert (INT_MIN < 0) by done.
  assert (0 ≤ i * tiles ≤ contexts * tiles) by nia.
  assert (0 ≤ (i + 1) * tiles ≤ contexts * tiles) by nia.
  assert (0 ≤ i * tiles / contexts ≤ i * tiles).
  { split; [apply Z.div_pos; lia|]. apply Z.div_le_upper_bound; nia. }
  assert (0 ≤ (i + 1) * tiles / contexts ≤ (i + 1) * tiles).
  { split; [apply Z.div_pos; lia|]. apply Z.div_le_upper_bound; nia. }
  rewrite (ck_in (i * tiles)) by lia. cbn [mbind outcome_bind].
  destruct (Z.eqb_spec contexts 0); [lia|].
  rewrite Z.quot_div_nonneg by lia.
  rewrite (ck_in (i * tiles / contexts)) by lia. cbn [mbind outcome_bind].
  rewrite (ck_in (i + 1)) by lia. cbn [mbind outcome_bind].
  rewrite (ck_in ((i + 1) * tiles)) by lia. cbn [mbind outcome_bind].
  rewrite Z.quot_div_nonneg by lia.
  rewrite (ck_in ((i + 1) * tiles / contexts)) by lia. done.
Qed.

(** X19.  The range of exclusion tiles given to the tree construction
    kernels of context [i] is computed without overflow, lies within the
    tiles, starts at 0 for the first context, ends at the number of tiles for
    the last one, and ends where the range of the next context starts. *)
Theorem exclusion_tiles_partition i tiles contexts :
  0 < contexts ≤ INT_MAX → 0 ≤ tiles → contexts * tiles ≤ INT_MAX →
  0 ≤ i < contexts →
  ∃ s e, exclusion_tile_range i tiles contexts = Ok (s, e) ∧
    0 ≤ s ≤ e ∧ e ≤ tiles ∧
    (i = 0 → s = 0) ∧ (i = contexts - 1 → e = tiles) ∧
    (i + 1 < contexts →
       ∃ e', exclusion_tile_range (i + 1) tiles contexts = Ok (e, e')).
Proof.
  intros Hc Ht Hmax Hi.
  exists (i * tiles / contexts), ((i + 1) * tiles / contexts).
  split; [by apply exclusion_tile_range_Ok|].
  split; [split|].
  - apply Z.div_pos; nia.
  - apply Z.div_le_mono; nia.
  - split; [apply Z.div_le_upper_bound; nia|].
    split; [by intros ->|].
    split.
    + intros ->. replace (contexts - 1 + 1) with contexts by lia.
      rewrite Z.mul_comm. apply Z.div_mul. lia.
    + intros Hnext. eexists.
      by rewrite exclusion_tile_range_Ok by lia.
Qed.

(** One context gets all ten tiles; of three contexts the second one gets a
    range within them. *)
Lemma exclusion_tiles_partition_witness :
  exclusion_tile_range 0 10 1 = Ok (0, 10) ∧
  ∃ s e, exclusion_tile_range 1 10 3 = Ok (s, e) ∧ 0 ≤ s ≤ e ∧ e ≤ 10.
Proof.
  split; [reflexivity|].
  destruct (exclusion_tiles_partition 1 10 3) as (s & e & H & Hse & He & _);
    [vm_compute; split; [reflexivity|discriminate] | lia
    | vm_compute; discriminate | lia |].
  exists s, e. split; [exact H|]. split; [exact Hse | exact He].
Defined.

(** ** What the destructor of the kernel leaves *)


Lemma cuda_create_accounted leaky name l d c :
  accounted leaky l d c → name ∉ d →
  accounted leaky (cuda_create name l) ({[name]} ∪ d) c.
Proof.
  intros Hacc Hn.
  assert (Hp : pointer l !! name = None).
  { destruct Hacc as (_ & Hdom & _). apply not_elem_of_dom. by rewrite Hdom. }
  rewrite <- (recreate_unset if_set name l Hp).
  pose proof (recreate_accounted leaky if_set name l d c Hacc
                ltac:(done)) as H.
  cbn [leak] in H. by rewrite Nat.add_0_r in H.
Qed.

Lemma leaks_if_set names :
  ∀ d, leaks d ((fun name => (if_set, name)) <$> names) = 0%nat.
Proof. induction names as [|name names IH]; intros d; [done|]. apply IH. Qed.

Lemma foldl_recreate_if_set names :
  ∀ l, foldl (fun l name => recreate if_set name l) l names
       = foldl (fun l (gn : delete_guard * string) => recreate gn.1 gn.2 l) l
           ((fun name => (if_set, name)) <$> names).
Proof. induction names as [|name names IH]; intros l; [done|]. apply IH. Qed.

(** Setting to NULL members that are NULL changes nothing. *)
Lemma null_members_unset leaky names l d c :
  accounted leaky l d c → Forall (fun name => name ∉ d) names →
  null_members names l = l.
Proof.
  intros (_ & Hdom & _) Hall.
  assert (H : foldr delete (pointer l) names = pointer l).
  { induction Hall as [|name names Hn _ IH]; [done|]. cbn [foldr].
    rewrite IH. apply delete_id, not_elem_of_dom. by rewrite Hdom. }
  unfold null_members. rewrite H. by destruct l.
Qed.

Lemma initialized_accounted contexts numAtoms :
  contexts ≤ 1 → numAtoms ≠ 0 →
  let s := (gk_initialize contexts numAtoms false new_gk_ledger).2 in
  accounted accumulation_buffers (heap s) initialized_members 0 ∧
  unset s = ∅.
Proof.
  intros Hc Hn. cbv zeta. unfold gk_initialize.
  destruct (Z.ltb_spec 1 contexts); [lia|].
  destruct (Z.eqb_spec numAtoms 0); [lia|]. cbn [snd].
  split; [|by vm_compute].
  cbn [foldl parameter_arrays assign_new new_gtree_ledger heap new_gk_ledger].
  replace initialized_members with
    ({["pinnedPanicButtonMemory"]} ∪ ({["downloadPanicButtonEvent"]} ∪
     ({["gtree"]} ∪ ({["ishydrogenParam"]} ∪ ({["gammaParam2"]} ∪
     ({["gammaParam1"]} ∪ ({["radiusParam2"]} ∪
     ({["radiusParam1"]} ∪ (∅ : gset string)))))))))
    by compute_done.
  do 2 (apply cuda_create_accounted; [|compute_done]).
  match goal with
  | |- accounted _ (null_members _ ?l) ?d _ =>
      assert (Hl : accounted accumulation_buffers l d 0)
  end.
  { repeat (apply cuda_create_accounted; [|compute_done]).
    apply new_ledger_accounted. }
  rewrite (null_members_unset _ _ _ _ _ Hl); [exact Hl|].
  unfold destructor_deletes. compute_done.
Qed.

Lemma touched_if_set names :
  ∀ d, touched d ((fun name => (if_set, name)) <$> names)
       = list_to_set names ∪ d.
Proof.
  induction names as [|name names IH]; intros d.
  - cbn [fmap list_fmap touched]. rewrite list_to_set_nil.
    by rewrite (left_id_L ∅ (∪)).
  - cbn [fmap list_fmap touched snd]. rewrite IH, list_to_set_cons.
    by rewrite (assoc_L (∪)), (comm_L (∪) (list_to_set names) {[name]}).
Qed.

(** The members a sequence of re-creations sets are its own and the ones
    set before. *)
Lemma touched_union ops :
  ∀ d, touched d ops = touched ∅ ops ∪ d.
Proof.
  induction ops as [|gn ops IH]; intros d; cbn [touched].
  - by rewrite (left_id_L ∅ (∪)).
  - rewrite (IH ({[gn.2]} ∪ d)), (IH ({[gn.2]} ∪ ∅)).
    rewrite (right_id_L ∅ (∪)). by rewrite (assoc_L (∪)).
Qed.

Lemma leaks_initialized : leaks initialized_members resize_allocations = 0%nat.
Proof. vm_compute; reflexivity. Qed.

Lemma leaks_executed : leaks executed_members resize_allocations = 5%nat.
Proof. vm_compute; reflexivity. Qed.

Lemma executed_members_absorb :
  list_to_set ("PanicButton" :: kernel_arrays_of_init)
  ∪ touched executed_members resize_allocations = executed_members.
Proof.
  rewrite touched_absorb by compute_done.
  apply subseteq_union_1_L. unfold executed_members.
  apply union_subseteq_l.
Qed.

Lemma delete_three a b c l :
  cuda_delete c (cuda_delete b (cuda_delete a l))
  = foldl (fun l name => cuda_delete name l) l [a; b; c].
Proof. reflexivity. Qed.

Lemma executions_accounted contexts numAtoms m :
  contexts ≤ 1 → numAtoms ≠ 0 →
  ∃ s, gk_executions m
         (gk_initialize contexts numAtoms false new_gk_ledger).2 = Some s ∧
    unset s = ∅ ∧
    accounted accumulation_buffers (heap s)
      (if m is O then initialized_members else executed_members)
      (5 * (m - 1)).
Proof.
  intros Hc Hn.
  destruct (initialized_accounted contexts numAtoms Hc Hn) as (H0 & Hu0).
  cbv zeta in H0, Hu0.
  induction m as [|m (s & Hs & Hu & Hacc)]; [by eexists|].
  cbn [gk_executions]. rewrite Hs. cbn [mbind option_bind].
  unfold gk_executeInitKernels. rewrite Hu.
  rewrite bool_decide_eq_false_2 by apply not_elem_of_empty.
  eexists. split; [reflexivity|]. cbn [heap unset]. split; [done|].
  rewrite foldl_recreate_if_set. unfold resize_tree_buffers_ledger.
  apply (recreate_all_accounted _ resize_allocations) in Hacc;
    [|apply resize_null_guards].
  apply (recreate_all_accounted _
           ((fun name => (if_set, name))
              <$> "PanicButton" :: kernel_arrays_of_init)) in Hacc.
  2:{ intros name Hin. by apply list_elem_of_fmap in Hin as (x & [=] & _). }
  rewrite leaks_if_set, touched_if_set, Nat.add_0_r in Hacc.
  destruct m as [|m].
  - rewrite leaks_initialized, touched_union in Hacc. exact Hacc.
  - rewrite leaks_executed, executed_members_absorb in Hacc.
    replace (5 * (S (S m) - 1))%nat with (5 * (S m - 1) + 5)%nat by lia.
    exact Hacc.
Qed.

(** X23.  After a complete [initialize] and [m] runs of
    [executeInitKernels] the destructor of the kernel frees the tree with the
    buffers it points to, the panic page and the event, and nothing else.
    The five parameter arrays stay allocated, and once [executeInitKernels]
    has run so do its ten arrays and, for every run after the first, the
    five accumulation buffers of the tree that [resize_tree_buffers] has lost
    hold of: 5 arrays for [m = 0], [15 + 5 * (m - 1)] otherwise. *)
Theorem gk_arrays_never_freed contexts numAtoms m :
  contexts ≤ 1 → numAtoms ≠ 0 →
  ∃ s left,
    gk_executions m
      (gk_initialize contexts numAtoms false new_gk_ledger).2 = Some s ∧
    gk_destructor s = Some left ∧
    size left = (if m is O then 5 else 15 + 5 * (m - 1))%nat ∧
    (∀ a name, left !! a = Some name →
       name ∈ parameter_arrays ++ ("PanicButton" :: kernel_arrays_of_init)
              ++ accumulation_buffers) ∧
    (m = 0%nat → ∀ a name, left !! a = Some name → name ∈ parameter_arrays).
Proof.
  intros Hc Hn.
  destruct m as [|m].
  { (* no run: the state is the one [initialize] leaves *)
    cbn [gk_executions]. unfold gk_initialize.
    destruct (Z.ltb_spec 1 contexts); [lia|].
    destruct (Z.eqb_spec numAtoms 0); [lia|]. cbn [snd].
    eexists _, _. split; [reflexivity|]. split; [vm_compute; reflexivity|].
    split; [by vm_compute|].
    assert (Hall : ∀ a name,
              ({[0%nat := "radiusParam1"; 1%nat := "radiusParam2";
                 2%nat := "gammaParam1"; 3%nat := "gammaParam2";
                 4%nat := "ishydrogenParam"]} : gmap nat string) !! a
                = Some name →
              name ∈ parameter_arrays).
    { intros a name Ha. unfold parameter_arrays.
      repeat (apply lookup_insert_Some in Ha as [[_ <-]|[_ Ha]];
              [compute_done|]).
      apply lookup_singleton_Some in Ha as [_ <-]. compute_done. }
    split; [|intros _].
    - intros a name Ha. apply elem_of_app. left. by apply (Hall a).
    - exact Hall. }
  destruct (executions_accounted contexts numAtoms (S m) Hc Hn)
    as (s & Hs & Hu & (Htag & _) & Hdom & Hsize & Hleft).
  exists s. unfold gk_destructor. rewrite Hu.
  rewrite !bool_decide_eq_false_2 by apply not_elem_of_empty.
  assert (Hin : ∀ name,
            name ∈ destructor_deletes ++
                   ["gtree"; "pinnedPanicButtonMemory";
                    "downloadPanicButtonEvent"] → name ∈ executed_members).
  { apply Forall_forall. compute_done. }
  assert (Hset : ∀ name,
            name ∈ destructor_deletes ++
                   ["gtree"; "pinnedPanicButtonMemory";
                    "downloadPanicButtonEvent"] →
            is_Some (pointer (heap s) !! name)).
  { intros name Hname. apply elem_of_dom. rewrite Hdom. by apply Hin. }
  rewrite bool_decide_eq_true_2
    by (apply Hset, elem_of_app; right; apply list_elem_of_here).
  rewrite (delete_three "gtree" "pinnedPanicButtonMemory"
             "downloadPanicButtonEvent"), <- foldl_app.
  eexists. split; [done|]. split; [done|].
  split; [|split; [|done]].
  - pose proof (delete_all_size
      (destructor_deletes ++
       ["gtree"; "pinnedPanicButtonMemory"; "downloadPanicButtonEvent"])
      (heap s)) as Hd.
    rewrite Hsize in Hd.
    assert (size (pointer (heap s)) = 58%nat) as Hp.
    { rewrite <- (size_dom (D := gset string)), Hdom. by vm_compute. }
    rewrite Hp in Hd.
    change (length (destructor_deletes ++ _)) with 43%nat in Hd.
    assert (NoDup (destructor_deletes ++
                   ["gtree"; "pinnedPanicButtonMemory";
                    "downloadPanicButtonEvent"])) as Hnd by compute_done.
    specialize (Hd Hnd ltac:(intros ????; by apply Htag) Hset). lia.
  - intros a name [Ha Hall]%delete_all_lookup.
    destruct (decide (pointer (heap s) !! name = Some a)) as [Hp|Hp].
    2:{ rewrite !elem_of_app. right. right. by apply (Hleft a name). }
    assert (name ∈ executed_members) as HD
      by (rewrite <- Hdom; by eapply elem_of_dom_2).
    assert (name ∉ destructor_deletes ++
                   ["gtree"; "pinnedPanicButtonMemory";
                    "downloadPanicButtonEvent"]) as Hnot.
    { intros Hname. by apply (Hall name Hname). }
    assert (executed_members ⊆ list_to_set
              ((destructor_deletes ++
                ["gtree"; "pinnedPanicButtonMemory";
                 "downloadPanicButtonEvent"])
               ++ parameter_arrays ++ "PanicButton" :: kernel_arrays_of_init))
      as Hsub by compute_done.
    apply Hsub, elem_of_list_to_set, elem_of_app in HD as [HD|HD]; [done|].
    rewrite (assoc (++)). apply elem_of_app. by left.
Qed.

(** A kernel of three atoms that set up its kernels twice: the fifteen
    arrays of the kernel and the five accumulation buffers of the first
    setup are left. *)
Lemma gk_arrays_never_freed_witness :
  ∃ s left,
    gk_executions 2 (gk_initialize 1 3 false new_gk_ledger).2 = Some s ∧
    gk_destructor s = Some left ∧ size left = 20%nat.
Proof.
  destruct (gk_arrays_never_freed 1 3 2) as (s & left & Hs & Hd & Hn & _);
    [lia | lia |].
  exists s, left. split; [exact Hs|]. split; [exact Hd | exact Hn].
Defined.

(** ** When the kernels are set up again *)


Lemma executeGVolSA_flags inp k r k' :
  executeGVolSA inp k = (Ok r, k') →
  ∃ p0, vget (device_PanicButton inp) 0 = Ok p0 ∧
    hasCreatedKernels k' = hasCreatedKernels k ∧
    hasInitializedKernels k' =
      (if 0 <? p0 then false else hasInitializedKernels k) ∧
    (0 < p0 → forcesValid (cu k') = false) ∧
    niterations k' = niterations k + 1.
Proof.
  unfold executeGVolSA, iadd. destruct_kernel k. destruct_context c. se_run.
  destruct (ck (nit + 1)) as [n|] eqn:Hn; [|discriminate].
  apply ck_Ok in Hn as [-> _].
  destruct gt as [t|];
    destruct (uc && (mt <? its)); se_run; try discriminate;
    (destruct (vget (device_PanicButton inp) 0) as [p0|] eqn:Hp; se_run;
     [|discriminate]);
    (destruct (Z.ltb_spec 0 p0) as [Hp0|Hp0]; se_run;
     [ destruct (vget (device_PanicButton inp) 1) as [p1|]; se_run;
       [|discriminate];
       destruct (0 <? p1); se_run
     | repeat match goal with
         | |- context [host_energy ?a ?b ?c] =>
             destruct (host_energy a b c); se_run; [|discriminate]
         end ]);
    intros [= _ <-]; exists p0; cbn;
    destruct (Z.ltb_spec 0 p0); try lia;
    repeat split; try done; lia.
Qed.

Lemma init_phase_flags inp k k1 :
  init_phase inp k = (Ok (), k1) →
  hasCreatedKernels k1 = true ∧ hasInitializedKernels k1 = true.
Proof.
  unfold init_phase. intros H.
  apply se_bind_Ok in H as (k0 & ? & [= <- <-] & H).
  destruct (negb (hasCreatedKernels k) || negb (hasInitializedKernels k))
    eqn:Hcond.
  - apply se_bind_Ok in H as ([] & ka & _ & H).
    apply se_bind_Ok in H as ([] & kb & [= <-] & H).
    injection H as <-. by destruct_kernel ka.
  - injection H as <-.
    apply orb_false_elim in Hcond as [H1 H2].
    by destruct (hasCreatedKernels k), (hasInitializedKernels k).
Qed.

(** X24.  When [execute] returns, [hasCreatedKernels] is up and
    [hasInitializedKernels] is down exactly when entry 0 of the panic page
    was positive, in which case the forces are invalid; after a step without
    panic the first statement of the next call changes nothing, so the
    kernels are not set up again. *)
Theorem execute_sets_up_again_after_panic inp k r k' :
  execute inp k = (Ok r, k') →
  ∃ p0, vget (device_PanicButton inp) 0 = Ok p0 ∧
    hasCreatedKernels k' = true ∧
    hasInitializedKernels k' = negb (0 <? p0) ∧
    (0 < p0 → forcesValid (cu k') = false) ∧
    (p0 ≤ 0 → ∀ inp', init_phase inp' k' = (Ok (), k')).
Proof.
  rewrite execute_unfold. intros H.
  apply se_bind_Ok in H as ([] & k1 & Hinit & H).
  apply se_bind_Ok in H as (E & k2 & Hrun & H).
  injection H as _ <-.
  apply init_phase_flags in Hinit as [Hc1 Hi1].
  apply executeGVolSA_flags in Hrun as (p0 & Hp & Hc2 & Hi2 & Hfv & _).
  exists p0. rewrite Hc2, Hi2, Hc1, Hi1.
  split; [done|]. split; [done|]. split; [by destruct (0 <? p0)|].
  split; [done|].
  intros Hp0 inp'. apply init_phase_skip; [congruence|].
  rewrite Hi2, Hi1. by destruct (Z.ltb_spec 0 p0); [lia|].
Qed.

(** The step with panic of the example and the step after it. *)
Lemma execute_sets_up_again_after_panic_witness :
  hasInitializedKernels example_after_panic = false ∧
  hasInitializedKernels example_after_retry = true ∧
  init_phase (example_step [1; 1]) example_after_retry
    = (Ok (), example_after_retry).
Proof.
  destruct (execute_sets_up_again_after_panic (example_step [1; 1])
              example_initialized FP.dzero example_after_panic)
    as (p0 & Hp0 & _ & Hi & _); [vm_compute; reflexivity|].
  destruct (execute_sets_up_again_after_panic (example_step [0; 0])
              example_after_panic FP.dzero example_after_retry)
    as (q0 & Hq0 & _ & Hj & _ & Hskip); [vm_compute; reflexivity|].
  injection Hp0 as <-. injection Hq0 as <-.
  split; [exact Hi|]. split; [exact Hj|]. apply Hskip. lia.
Defined.

(** ** The further properties on concrete systems *)

(** Five atoms in three sections. *)
Lemma init_tree_size_counts_witness :
  total_atoms_in_tree first_tree = 5 ∧ sumZ (natoms_in_tree first_tree) = 5.
Proof.
  destruct (init_tree_size_counts example_tree 5 8 3 4 first_counts
              first_tree) as (H1 & H2 & _).
  - vm_compute; reflexivity.
  - split; [exact H1 | exact H2].
Defined.

Lemma init_tree_size_contiguous_witness :
  ∃ z, init_sizing example_tree 5 3 4 first_counts = Ok z ∧
    ∀ s, 0 ≤ s < 3 →
      ∃ fa cnt, vget (first_atom first_tree) s = Ok fa ∧
                vget (natoms_in_tree first_tree) s = Ok cnt ∧
                0 ≤ fa ∧ 0 ≤ cnt ∧ fa + cnt ≤ 5 ∧
                ∀ i, 0 ≤ i < 5 →
                  (vget (s_compute_unit_of_atom z) i = Ok s ↔
                   fa ≤ i < fa + cnt).
Proof.
  apply (init_tree_size_contiguous example_tree 5 8 3 4 first_counts
           first_tree).
  - vm_compute; reflexivity.
  - intros i c _ Hc. revert Hc. apply Forall_vget.
    unfold first_counts. repeat constructor; lia.
Defined.

Lemma init_tree_size_slots_witness :
  ∃ z, init_sizing example_tree 5 3 4 first_counts = Ok z ∧
    (∀ i, 0 ≤ i < 5 →
       ∃ s tp cap slot,
         vget (s_compute_unit_of_atom z) i = Ok s ∧
         vget (tree_pointer first_tree) s = Ok tp ∧
         vget (padded_tree_size first_tree) s = Ok cap ∧
         vget (atom_tree_pointer first_tree) i = Ok slot ∧
         tp ≤ slot < tp + cap ∧ 0 ≤ slot < total_tree_size first_tree) ∧
    (∀ i j x y, 0 ≤ i < 5 → 0 ≤ j < 5 → i ≠ j →
       vget (atom_tree_pointer first_tree) i = Ok x →
       vget (atom_tree_pointer first_tree) j = Ok y → x ≠ y).
Proof.
  apply (init_tree_size_slots example_tree 5 8 3 4 first_counts
           first_tree).
  - vm_compute; reflexivity.
  - intros i c _ Hc. revert Hc. apply Forall_vget.
    unfold first_counts. repeat constructor; lia.
  - reflexivity.
  - lia.
Defined.

Lemma init_tree_size_completes_witness :
  sumZ (take 4 (budgets (saved_before example_tree 5) first_counts 5))
    < 3 * section_load 3
            (budgets (saved_before example_tree 5) first_counts 5) ∧
  ∃ t', init_tree_size example_tree 5 8 3 4 first_counts = Ok t'.
Proof.
  assert (H : sumZ (take 4 (budgets (saved_before example_tree 5)
                              first_counts 5))
              < 3 * section_load 3
                  (budgets (saved_before example_tree 5)
                     first_counts 5)) by (vm_compute; reflexivity).
  split; [exact H|].
  apply (init_tree_size_completes example_tree 5 8 3 4 first_counts).
  - reflexivity.
  - lia.
  - lia.
  - lia.
  - vm_compute; discriminate.
  - vm_compute; discriminate.
  - vm_compute. repeat constructor; discriminate.
  - vm_compute; discriminate.
  - right. exact H.
Defined.

Lemma init_tree_size_enough_overlaps_witness :
  ∃ t', init_tree_size example_tree 5 8 3 4 first_counts = Ok t'.
Proof.
  apply (init_tree_size_enough_overlaps example_tree 5 8 3 4
           first_counts).
  - reflexivity.
  - lia.
  - lia.
  - lia.
  - vm_compute; discriminate.
  - vm_compute; discriminate.
  - vm_compute. repeat constructor; discriminate.
  - vm_compute; discriminate.
  - right. vm_compute; discriminate.
Defined.

Lemma init_tree_size_idempotent_witness :
  init_tree_size first_tree 5 8 3 4 first_counts = Ok first_tree.
Proof.
  apply (init_tree_size_idempotent example_tree 5 8 3 4 first_counts
           first_tree).
  vm_compute; reflexivity.
Defined.

Lemma init_tree_size_padding_witness :
  vget (atom_tree_pointer first_tree) 5 = Ok 0 ∧
  vget (atom_tree_pointer first_tree) 7 = Ok 0.
Proof.
  split;
    apply (init_tree_size_padding example_tree 5 8 3 4 first_counts
             first_tree); first [lia | vm_compute; reflexivity].
Defined.

Lemma copy_tree_to_device_round_trip_witness :
  download_ints "ovAtomTreePointer" (buffers first_on_device)
    = Ok (atom_tree_pointer first_tree) ∧
  download_ints "ovNumAtomsInTree" (buffers first_on_device)
    = Ok (natoms_in_tree first_tree) ∧
  buffers first_on_device !! "ovLevel" = buffers first_resized !! "ovLevel".
Proof.
  destruct (copy_tree_to_device_round_trip first_resized first_on_device)
    as (H1 & _ & _ & _ & H5 & _ & Hother & _).
  - vm_compute; reflexivity.
  - split; [rewrite H1; vm_compute; reflexivity|].
    split; [rewrite H5; vm_compute; reflexivity|].
    apply Hother. compute_done.
Defined.


Lemma resize_tree_buffers_sizes_witness :
  temp_buffer_size first_resized = 768 ∧
  hasExceededTempBuffer first_resized = false ∧
  buffers first_resized !! "gradBuffers_long" = Some (create 32) ∧
  buffers first_resized !! "ovAtomBuffer" = Some (create 24).
Proof.
  pose proof (resize_tree_buffers_sizes 4 first_tree first_resized) as H.
  destruct H as (_ & _ & _ & H4 & _ & H6 & _ & H8 & H9 & _).
  - vm_compute; reflexivity.
  - split; [rewrite H8; vm_compute; reflexivity|].
    split; [exact H9|].
    split; [rewrite H6; vm_compute; reflexivity|].
    rewrite H4 by compute_done. vm_compute; reflexivity.
Defined.

Lemma host_energy_in_bounds_witness :
  ∃ E, host_energy five_particles first_on_device
         (replicate 28 FP.fzero) = Ok E.
Proof.
  apply (host_energy_in_bounds example_tree 5 8 3 4 first_counts
           first_tree 4 first_resized first_on_device).
  - vm_compute; reflexivity.
  - vm_compute; reflexivity.
  - vm_compute; reflexivity.
  - intros i c _ Hc. revert Hc. apply Forall_vget.
    unfold first_counts. repeat constructor; lia.
  - reflexivity.
  - lia.
  - reflexivity.
  - lia.
  - vm_compute; discriminate.
Defined.

(** The step with panic of the example. *)
Lemma execute_leaves_parameters_witness :
  radiusVector1 example_after_panic = radiusVector1 example_initialized ∧
  gammaVector1 example_after_panic = gammaVector1 example_initialized ∧
  arrays example_after_panic !! "gammaParam1"
    = arrays example_initialized !! "gammaParam1" ∧
  stream (cu example_initialized) `prefix_of` stream (cu example_after_panic).
Proof.
  destruct (execute_leaves_parameters (example_step [1; 1])
              example_initialized (Ok FP.dzero) example_after_panic)
    as (H1 & _ & H3 & _ & _ & _ & _ & Har & _ & Hst).
  - vm_compute; reflexivity.
  - split; [exact H1|]. split; [exact H3|].
    split; [apply Har; compute_done | exact Hst].
Defined.

(** The example after [initialize]; atom 1 is the hydrogen. *)
Lemma initialize_stores_particles_witness :
  roffset example_initialized = example_increment ∧
  numParticles example_initialized = 3 ∧
  holds example_initialized "radiusParam2" 4
    (Floats (radiusVector2 example_initialized)) ∧
  vget (radiusVector2 example_initialized) 1
    = Ok (FP.float_of_double (ratio 12 10)) ∧
  vget (ishydrogenVector example_initialized) 1 = Ok 1 ∧
  (∃ t, gtree example_initialized = Some t ∧ constructed t) ∧
  is_Some (pinnedPanicButtonMemory example_initialized) ∧
  downloadPanicButtonEvent example_initialized = true.
Proof.
  destruct (initialize_stores_particles example_increment example_file
              example_inputs example_force
              (new_Kernel example_context example_memory) example_initialized)
    as (H1 & H2 & _ & Hst & _ & Hr2 & _ & _ & _ & _ & _ & _ & _ & _ & _ & Hg
        & Hp & He & _).
  - vm_compute; reflexivity.
  - vm_compute; discriminate.
  - vm_compute; discriminate.
  - vm_compute. split; discriminate.
  - vm_compute; discriminate.
  - destruct (Hst 1 {| radius := ratio 12 10; gamma := ratio 1 10;
                       ishydrogen := true |})
      as (_ & Hv2 & Hv3 & _); [simpl; lia | reflexivity |].
    split; [exact H1|]. split; [exact H2|]. split; [exact Hr2|].
    split; [exact Hv2|]. split; [exact Hv3|]. split; [exact Hg|].
    split; [exact Hp | exact He].
Defined.

Lemma example_radii_survive :
  ∀ i p, 0 ≤ i < 3 → vget (particles example_force) i = Ok p →
    radius_differs (FP.float_of_double (radius p)) (radius p) = false.
Proof.
  intros i p Hi Hp.
  assert (i = 0 ∨ i = 1 ∨ i = 2) as [-> | [-> | ->]] by lia;
    vm_compute in Hp; injection Hp as <-; vm_compute; reflexivity.
Qed.

Lemma copyParametersToContext_after_initialize_witness :
  copyParametersToContext example_force example_initialized
  = (Ok (), example_initialized).
Proof.
  destruct (copyParametersToContext_after_initialize example_increment
              example_file example_inputs example_force
              (new_Kernel example_context example_memory) example_initialized)
    as (Hsame & _).
  - vm_compute; reflexivity.
  - vm_compute; discriminate.
  - vm_compute; discriminate.
  - vm_compute. split; discriminate.
  - vm_compute; reflexivity.
  - apply Hsame. exact example_radii_survive.
Defined.

(** Atom 1 is rejected for its hydrogen flag; the gamma of atom 0 has
    already been replaced. *)
Lemma copyParametersToContext_first_rejection_witness :
  ∃ k', copyParametersToContext example_force_heavy example_initialized
          = (Fail hydrogen_exception, k') ∧
    arrays k' = arrays example_initialized ∧
    vget (gammaVector1 k') 0
      = Ok (FP.float_of_double (FP.ddiv (ratio 2 10) example_increment)) ∧
    vget (gammaVector1 example_initialized) 0
      = Ok (FP.float_of_double (FP.ddiv (ratio 1 10) example_increment)).
Proof.
  destruct (copyParametersToContext_first_rejection example_force_heavy
              example_initialized 4 1
              {| radius := ratio 12 10; gamma := ratio 2 10;
                 ishydrogen := false |} hydrogen_exception)
    as (k' & Hrun & Har & Hnew & _).
  - vm_compute. repeat split.
  - vm_compute. split; discriminate.
  - vm_compute; reflexivity.
  - vm_compute. split; [discriminate | reflexivity].
  - intros i p Hi Hp. assert (i = 0) as -> by lia.
    vm_compute in Hp. injection Hp as <-. vm_compute; reflexivity.
  - reflexivity.
  - vm_compute; reflexivity.
  - exists k'. split; [exact Hrun|]. split; [exact Har|].
    split; [|vm_compute; reflexivity].
    destruct (Hnew 0 {| radius := ratio 17 10; gamma := ratio 2 10;
                        ishydrogen := false |}) as (Hg & _);
      [lia | reflexivity | exact Hg].
Defined.

Lemma copyParametersToContext_accepts_witness :
  (copyParametersToContext example_force' example_initialized).1 = Ok () ∧
  is_Some (arrays example_initialized !! "gammaParam1") ∧
  is_Some (arrays example_initialized !! "gammaParam2").
Proof.
  assert (H : (copyParametersToContext example_force'
                 example_initialized).1 = Ok ()) by (vm_compute; reflexivity).
  split; [exact H|].
  apply (copyParametersToContext_accepts example_force' example_initialized 4).
  - vm_compute. repeat split.
  - vm_compute. split; [reflexivity | discriminate].
  - vm_compute; reflexivity.
  - exact H.
Defined.

Lemma execute_completes_witness :
  ∃ k', execute (example_step [0; 0]) example_initialized = (Ok FP.dzero, k').
Proof.
  apply (execute_completes (example_step [0; 0]) example_initialized
           example_force example_tree 0 0).
  - left. reflexivity.
  - reflexivity.
  - reflexivity.
  - reflexivity.
  - reflexivity.
  - vm_compute; discriminate.
  - vm_compute. split; discriminate.
  - vm_compute; discriminate.
  - vm_compute; reflexivity.
  - vm_compute; reflexivity.
  - vm_compute; discriminate.
  - vm_compute. repeat constructor; discriminate.
  - vm_compute; discriminate.
  - vm_compute; discriminate.
  - vm_compute; discriminate.
  - vm_compute; discriminate.
  - vm_compute; discriminate.
  - right. vm_compute; reflexivity.
  - vm_compute. split; discriminate.
  - reflexivity.
  - intros t1 Ht1. vm_compute in Ht1. injection Ht1 as <-.
    vm_compute. split; discriminate.
Defined.
